(** * omniperf: src/utils/perfagg.py

    A shallow embedding of the counter coalescer ([perfmon_coalesce]), the
    pass scheduler ([perfmon_emit]) and the recombiner ([join_prof]) of
    [perfagg.py], with the properties stated about them, and of the splitter
    ([pmc_perf_split]) and the two callers of coalescer and scheduler
    ([perfmon_filter], [pmc_filter]).

    Conventions of the embedding.
    - Python [str] values are [string]s; the text handled here is ASCII
      (counter names, column names, directives).
    - A Python [dict] with string keys is an association list in insertion
      order ([dict]); only [dict_set] adds keys, so keys stay unique.
    - A Python exception is a [Raise] result; the file system is explicit:
      functions that write files return what they wrote.  Every [open] for
      writing is taken to succeed, except in the last part of the
      definitions, where the coalescer, the scheduler and [pmc_filter] run
      on a state of the file system and [open] has its exceptions.
    - [len(l) / N] is a true division; it is modelled by the rational
      [len # N] of [QArith] and [math.ceil] by [Qceiling] (the floating point
      quotient of two integers below 2^53 has the same ceiling). *)

From Stdlib Require Import List String Ascii Arith ZArith QArith Qround Lia Bool.
From Stdlib Require Import Permutation Sorted DecimalString DecimalNat DecimalZ.
Import ListNotations.
Open Scope string_scope.
Open Scope nat_scope.
Open Scope list_scope.

Set Implicit Arguments.

(* ================================================================== *)
(** ** Exceptions *)

Inductive error : Type :=
| KeyError (k : string)
| ZeroDivisionError
| ValueError
| IndexError
| AttributeError
| AssertionError
| TypeError
| FileNotFoundError
| FileExistsError
| SystemExit (code : nat).

Inductive result (A : Type) : Type :=
| OK (a : A)
| Raise (e : error).

Arguments OK {A} a.
Arguments Raise {A} e.

Definition bind {A B} (r : result A) (f : A -> result B) : result B :=
  match r with
  | OK a => f a
  | Raise e => Raise e
  end.

Notation "x <- r ;; k" := (bind r (fun x => k))
  (at level 61, r at next level, right associativity).
Notation "' p <- r ;; k" := (bind r (fun x => let p := x in k))
  (at level 61, p pattern, r at next level, right associativity).

Fixpoint mapM {A B} (f : A -> result B) (l : list A) : result (list B) :=
  match l with
  | [] => OK []
  | a :: l' => b <- f a ;; bs <- mapM f l' ;; OK (b :: bs)
  end.

(* ================================================================== *)
(** ** Dictionaries *)

Definition dict (V : Type) : Type := list (string * V).

Fixpoint dict_get {V} (k : string) (d : dict V) : option V :=
  match d with
  | [] => None
  | (k', v) :: d' => if (k' =? k)%string then Some v else dict_get k d'
  end.

(** [d[k]] *)
Definition getitem {V} (k : string) (d : dict V) : result V :=
  match dict_get k d with
  | Some v => OK v
  | None => Raise (KeyError k)
  end.

(** [d[k] = v] *)
Fixpoint dict_set {V} (k : string) (v : V) (d : dict V) : dict V :=
  match d with
  | [] => [(k, v)]
  | (k', v') :: d' =>
      if (k' =? k)%string then (k, v) :: d' else (k', v') :: dict_set k v d'
  end.

(** [k in d] *)
Definition dict_mem {V} (k : string) (d : dict V) : bool :=
  match dict_get k d with Some _ => true | None => false end.

Definition keys {V} (d : dict V) : list string := map fst d.

(* ================================================================== *)
(** ** Small pieces of Python *)

(** [str(n)] for a non-negative integer. *)
Definition str (n : nat) : string := NilEmpty.string_of_uint (Nat.to_uint n).

(** [l[a:b]] for [0 <= a <= b]. *)
Definition slice {A} (a b : nat) (l : list A) : list A :=
  firstn (b - a) (skipn a l).

(** [x in l] for a list of strings. *)
Definition mem (x : string) (l : list string) : bool :=
  existsb (String.eqb x) l.

(** [sep.join(l)] *)
Definition join (sep : string) (l : list string) : string :=
  String.concat sep l.

Definition is_nil {A} (l : list A) : bool :=
  match l with [] => true | _ => false end.

Definition newline : string := String (ascii_of_nat 10) EmptyString.

(* ================================================================== *)
(** ** perfmon_config *)

Definition profile : Type := dict nat.

Definition gfx_profile (tcc_channels : nat) : profile :=
  [ ("SQ", 8); ("TA", 2); ("TD", 2); ("TCP", 4); ("TCC", 4); ("CPC", 2);
    ("CPF", 2); ("SPI", 2); ("GRBM", 2); ("GDS", 4);
    ("TCC_channels", tcc_channels) ].

Definition perfmon_config : dict profile :=
  [ ("vega10", gfx_profile 16);
    ("mi50", gfx_profile 16);
    ("mi100", gfx_profile 32);
    ("mi200", gfx_profile 32) ].

(* ================================================================== *)
(** ** pmc_list

    [pmc_list] is a dict whose values are lists of counter names, except for
    the entry ["TCC2"], whose value is itself a dict from channel to list.
    The list-valued entries are kept as a dict in insertion order, the
    ["TCC2"] entry as a field of its own. *)

Record pmc_list : Type := mk_pmc_list {
  buckets : dict (list string);
  TCC2 : dict (list string)
}.

(** [key not in ["TCC", "TCC2"]] *)
Definition ordinary (key : string) : bool :=
  negb (mem key ["TCC"; "TCC2"]).

(** The keys visited by [for key in pmc_list] that pass the filter. *)
Definition ordinary_keys (pl : pmc_list) : list string :=
  filter ordinary (keys (buckets pl)).

(* ================================================================== *)
(** ** perfmon_emit *)

(** [len(l) / N] *)
Definition true_div (len N : nat) : result Q :=
  match N with
  | O => Raise ZeroDivisionError
  | S _ => OK (Z.of_nat len # Pos.of_nat N)
  end.

(** [max(l)]: the first largest element; [ValueError] on an empty list. *)
Definition Qmax_list (l : list Q) : result Q :=
  match l with
  | [] => Raise ValueError
  | x :: l' => OK (fold_left (fun m y => if Qle_bool y m then m else y) l' x)
  end.

(** [math.ceil(q)] is never negative here. *)
Definition ceil (q : Q) : nat := Z.to_nat (Qceiling q).

Definition pmc_cnt (prof : profile) (pl : pmc_list) : result (list Q) :=
  mapM (fun key =>
          l <- getitem key (buckets pl) ;;
          N <- getitem key prof ;;
          true_div (List.length l) N)
       (ordinary_keys pl).

Definition tcc2_cnt (prof : profile) (pl : pmc_list) (tcc_channels : nat)
  : result (list Q) :=
  lens <- mapM (fun ch => l <- getitem (str ch) (TCC2 pl) ;; OK (List.length l))
               (seq 0 tcc_channels) ;;
  N <- getitem "TCC" prof ;;
  mapM (fun n => true_div n N) lens.

Definition niter (prof : profile) (pl : pmc_list) : result nat :=
  cnt <- pmc_cnt prof pl ;;
  tcc_channels <- getitem "TCC_channels" prof ;;
  tcc <- getitem "TCC" (buckets pl) ;;
  N <- getitem "TCC" prof ;;
  tcc_cnt <- true_div (List.length tcc) N ;;
  cnt2 <- tcc2_cnt prof pl tcc_channels ;;
  m <- Qmax_list cnt ;;
  m2 <- Qmax_list cnt2 ;;
  OK (Nat.max (ceil m) (ceil tcc_cnt + ceil m2)).

(** What one iteration of the emit loop assigns: for every ordinary key its
    [ip_counters], and [tcc_counters]. *)
Record pass : Type := mk_pass {
  pass_ip : dict (list string);
  pass_tcc : list string
}.

(** The text of the line written for a pass. *)
Definition pass_line (p : pass) : string :=
  let line :=
    fold_left (fun line kv =>
                 if is_nil (snd kv) then line
                 else (line ++ " " ++ join " " (snd kv))%string)
              (pass_ip p) "pmc: " in
  (line ++ " " ++ join " " (pass_tcc p))%string.

(** The body of [for iter in range(niter)], threading [tcc2_index]. *)
Definition emit_pass (prof : profile) (pl : pmc_list) (iter tcc2_index : nat)
  : result (pass * nat) :=
  ips <- mapM (fun key =>
                 N <- getitem key prof ;;
                 l <- getitem key (buckets pl) ;;
                 OK (key, slice (iter * N) (iter * N + N) l))
              (ordinary_keys pl) ;;
  N <- getitem "TCC" prof ;;
  tcc <- getitem "TCC" (buckets pl) ;;
  let tcc_counters := slice (iter * N) (iter * N + N) tcc in
  if is_nil tcc_counters then
    tcc_channels <- getitem "TCC_channels" prof ;;
    parts <- mapM (fun ch =>
                     l <- getitem (str ch) (TCC2 pl) ;;
                     OK (slice (tcc2_index * N) (tcc2_index * N + N) l))
                  (seq 0 tcc_channels) ;;
    OK (mk_pass ips (tcc_counters ++ List.concat parts), S tcc2_index)
  else
    OK (mk_pass ips tcc_counters, tcc2_index).

Fixpoint emit_loop (prof : profile) (pl : pmc_list) (iters : list nat)
  (tcc2_index : nat) : result (list pass) :=
  match iters with
  | [] => OK []
  | iter :: iters' =>
      '(p, tcc2_index') <- emit_pass prof pl iter tcc2_index ;;
      ps <- emit_loop prof pl iters' tcc2_index' ;;
      OK (p :: ps)
  end.

(** The passes of one scheduling run, in order. *)
Definition emit_passes (prof : profile) (pl : pmc_list) : result (list pass) :=
  n <- niter prof pl ;;
  emit_loop prof pl (seq 0 n) 0.

(** The [pmc:] lines written to [pmc_perf.txt], one per pass. *)
Definition emit_lines (prof : profile) (pl : pmc_list) : result (list string) :=
  ps <- emit_passes prof pl ;;
  OK (map pass_line ps).



(** [perfmon_emit(pmc_list, workload_dir, soc)]: the content of
    [workload_dir/perfmon/pmc_perf.txt]. *)
Definition perfmon_emit (pl : pmc_list) (soc : string) : result string :=
  prof <- getitem soc perfmon_config ;;
  lines <- emit_lines prof pl ;;
  OK (String.concat "" (map (fun line => line ++ newline) lines)
      ++ newline ++ "gpu:" ++ newline ++ "range:" ++ newline
      ++ "kernel:" ++ newline)%string.

(* ================================================================== *)
(** ** Text handling of the coalescer *)

Definition ascii_in (c : ascii) (codes : list nat) : bool :=
  existsb (Nat.eqb (nat_of_ascii c)) codes.

(** The characters [str.strip()] and [str.split()] treat as white space:
    tab, line feed, vertical tab, form feed, carriage return, the four
    separators 28-31 and the blank. *)
Definition is_space (c : ascii) : bool :=
  ascii_in c [9; 10; 11; 12; 13; 28; 29; 30; 31; 32].

(** [\d] *)
Definition is_digit (c : ascii) : bool :=
  (48 <=? nat_of_ascii c) && (nat_of_ascii c <=? 57).

(** [s.split(sep)[0]] for a one-character separator: the text before the
    first [sep]. *)
Fixpoint before (sep : ascii) (s : string) : string :=
  match s with
  | EmptyString => EmptyString
  | String c s' => if Ascii.eqb c sep then EmptyString else String c (before sep s')
  end.

Fixpoint lstrip (s : string) : string :=
  match s with
  | EmptyString => EmptyString
  | String c s' => if is_space c then lstrip s' else s
  end.

Fixpoint rstrip (s : string) : string :=
  match s with
  | EmptyString => EmptyString
  | String c s' =>
      match rstrip s' with
      | EmptyString => if is_space c then EmptyString else String c EmptyString
      | r => String c r
      end
  end.

(** [s.strip()] *)
Definition strip (s : string) : string := rstrip (lstrip s).

(** [s.split()]: the maximal runs of characters that are not white space.
    [cur] is the run being read, reversed. *)
Fixpoint split_ws_aux (s : string) (cur : list ascii) : list string :=
  let flush (rest : list string) :=
    match cur with
    | [] => rest
    | _ => string_of_list_ascii (rev cur) :: rest
    end in
  match s with
  | EmptyString => flush []
  | String c s' =>
      if is_space c then flush (split_ws_aux s' [])
      else split_ws_aux s' (c :: cur)
  end.

Definition split_ws (s : string) : list string := split_ws_aux s [].

Definition upper_ascii (c : ascii) : ascii :=
  let n := nat_of_ascii c in
  if (97 <=? n) && (n <=? 122) then ascii_of_nat (n - 32) else c.

(** [s.upper()] *)
Fixpoint upper (s : string) : string :=
  match s with
  | EmptyString => EmptyString
  | String c s' => String (upper_ascii c) (upper s')
  end.

(** [re.match(mpattern, stext)], where [mpattern] is the marker [pmc:] at
    the start followed by a group of any characters: the group is the text
    after the marker, up to the first line feed (the dot does not match
    it). *)
Definition match_pmc (stext : string) : option string :=
  match stext with
  | String "p" (String "m" (String "c" (String ":" rest))) =>
      Some (before (ascii_of_nat 10) rest)
  | _ => None
  end.

(** [s] starts with one or more digits and a closing bracket: the digits. *)
Fixpoint digits_close (s : string) : option string :=
  match s with
  | EmptyString => None
  | String c s' =>
      if is_digit c then
        if String.prefix "]" s' then Some (String c EmptyString)
        else option_map (String c) (digits_close s')
      else None
  end.

(** The digits of the last bracketed number in [s]. *)
Fixpoint last_bracket (s : string) : option string :=
  match s with
  | EmptyString => None
  | String c s' =>
      match last_bracket s' with
      | Some d => Some d
      | None => if Ascii.eqb c "[" then digits_close s' else None
      end
  end.

(** The match of a counter against the per-channel pattern: one or more
    characters of any kind (greedy), an opening bracket, a group of one or
    more digits, a closing bracket.  The greedy prefix takes at least one
    character and leaves the last bracketed number it can; the result is
    the group. *)
Definition match_channel (counter : string) : option string :=
  match counter with
  | EmptyString => None
  | String _ s' => last_bracket s'
  end.

(** [l.index(x)] *)
Fixpoint index_of (x : string) (l : list string) : result nat :=
  match l with
  | [] => Raise ValueError
  | y :: l' => if (y =? x)%string then OK 0 else i <- index_of x l' ;; OK (S i)
  end.

(** [l[i]] for an integer [i], negative indices counting from the end. *)
Definition py_nth (l : list string) (i : Z) : result string :=
  let n := Z.of_nat (List.length l) in
  let j := (if i <? 0 then i + n else i)%Z in
  if ((j <? 0) || (n <=? j))%Z then Raise IndexError
  else match nth_error l (Z.to_nat j) with
       | Some x => OK x
       | None => Raise IndexError
       end.

(** [l.sort()] on strings: insertion into the sorted prefix, after the last
    element not above the new one (a stable sort by code point order). *)
Fixpoint insert_sorted (x : string) (l : list string) : list string :=
  match l with
  | [] => [x]
  | y :: l' => if String.ltb x y then x :: l else y :: insert_sorted x l'
  end.

Definition sort (l : list string) : list string :=
  fold_left (fun acc x => insert_sorted x acc) l [].

(* ================================================================== *)
(** ** perfmon_coalesce *)

(** Files written while coalescing: path and content, oldest first. *)
Definition writes : Type := list (string * string).

Definition directives : string :=
  ("gpu:" ++ newline ++ "range:" ++ newline ++ "kernel:" ++ newline)%string.

Definition ACCUM : string := "SQ_ACCUM_PREV_HIRES".

Definition initial_buckets : dict (list string) :=
  [ ("SQ", []); ("GRBM", []); ("TCP", []); ("TA", []); ("TD", []);
    ("TCC", []); ("SPI", []); ("CPC", []); ("CPF", []); ("GDS", []) ].

(** [for ch in range(n): pmc_list["TCC2"][str(ch)] = []] *)
Definition initial_TCC2 (tcc_channels : nat) : dict (list string) :=
  fold_left (fun d ch => dict_set (str ch) [] d) (seq 0 tcc_channels) [].

Definition set_bucket (pl : pmc_list) (key : string) (l : list string) : pmc_list :=
  mk_pmc_list (dict_set key l (buckets pl)) (TCC2 pl).

Definition set_channel (pl : pmc_list) (ch : string) (l : list string) : pmc_list :=
  mk_pmc_list (buckets pl) (dict_set ch l (TCC2 pl)).

(** [if counter not in pmc_list[IP_block]: pmc_list[IP_block].append(counter)].
    The entry ["TCC2"] is a dict and has no [append]. *)
Definition append_unique (pl : pmc_list) (IP_block counter : string)
  : result pmc_list :=
  if (IP_block =? "TCC2")%string then Raise AttributeError
  else
    l <- getitem IP_block (buckets pl) ;;
    if mem counter l then OK pl
    else OK (set_bucket pl IP_block (l ++ [counter])).

(** The body of [for counter in counters]. *)
Definition add_counter (pl : pmc_list) (counter : string) : result pmc_list :=
  let IP_block := upper (before "_" counter) in
  let IP_block := if (IP_block =? "SQC")%string then "SQ" else IP_block in
  if negb (IP_block =? "TCC")%string then append_unique pl IP_block counter
  else
    match match_channel counter with
    | None => append_unique pl IP_block counter
    | Some ch =>
        match dict_get ch (TCC2 pl) with
        | Some l =>
            if mem counter l then OK pl
            else OK (set_channel pl ch (l ++ [counter]))
        | None => OK (set_channel pl ch [counter])
        end
    end.

Fixpoint add_counters (pl : pmc_list) (counters : list string) : result pmc_list :=
  match counters with
  | [] => OK pl
  | counter :: counters' =>
      pl' <- add_counter pl counter ;;
      add_counters pl' counters'
  end.

(** The body of [for line in lines]. *)
Definition coalesce_line (workload_perfmon_dir : string)
  (st : pmc_list * writes) (line : string) : result (pmc_list * writes) :=
  let '(pl, fs) := st in
  let stext := strip (before "#" line) in
  match stext with
  | EmptyString => OK st
  | _ =>
      match match_pmc stext with
      | None => OK st
      | Some group =>
          let counters := split_ws group in
          if mem ACCUM counters then
            nindex <- index_of ACCUM counters ;;
            level_counter <- py_nth counters (Z.of_nat nindex - 1) ;;
            let path := (workload_perfmon_dir ++ "/" ++ level_counter ++ ".txt")%string in
            let text := (stext ++ newline ++ newline ++ directives)%string in
            OK (pl, fs ++ [(path, text)])
          else
            pl' <- add_counters pl counters ;;
            OK (pl', fs)
      end
  end.

Fixpoint coalesce_lines (dir : string) (st : pmc_list * writes)
  (lines : list string) : result (pmc_list * writes) :=
  match lines with
  | [] => OK st
  | line :: lines' =>
      st' <- coalesce_line dir st line ;;
      coalesce_lines dir st' lines'
  end.

Fixpoint coalesce_files (dir : string) (st : pmc_list * writes)
  (files : list (list string)) : result (pmc_list * writes) :=
  match files with
  | [] => OK st
  | lines :: files' =>
      st' <- coalesce_lines dir st lines ;;
      coalesce_files dir st' files'
  end.

(** [for ch in range(n): pmc_list["TCC2"][str(ch)].sort()] *)
Fixpoint sort_channels (pl : pmc_list) (chs : list nat) : result pmc_list :=
  match chs with
  | [] => OK pl
  | ch :: chs' =>
      l <- getitem (str ch) (TCC2 pl) ;;
      sort_channels (set_channel pl (str ch) (sort l)) chs'
  end.

(** [perfmon_coalesce(pmc_files_list, workload_dir, soc)].  Every input file
    is given by its lines ([open(fname).read().splitlines()]); the result is
    the returned [pmc_list] and the files written under
    [workload_dir/perfmon]. *)
Definition perfmon_coalesce (pmc_files_list : list (list string))
  (workload_dir soc : string) : result (pmc_list * writes) :=
  let workload_perfmon_dir := (workload_dir ++ "/perfmon")%string in
  prof <- getitem soc perfmon_config ;;
  tcc_channels <- getitem "TCC_channels" prof ;;
  let pl := mk_pmc_list initial_buckets (initial_TCC2 tcc_channels) in
  '(pl, fs) <- coalesce_files workload_perfmon_dir (pl, []) pmc_files_list ;;
  pl <- sort_channels pl (seq 0 tcc_channels) ;;
  OK (pl, fs).

(* ================================================================== *)
(** ** Tables of the recombiner

    A table read by [pd.read_csv] is kept by columns, in column order.  Its
    cells are text or integers; missing values are outside the model.
    Column names of a table are taken to be distinct, as [read_csv] and the
    suffixes of [pd.merge] make them. *)

Inductive cell : Type :=
| Text (s : string)
| Int (z : Z).

(** [a == b] on two cells *)
Definition cell_eqb (a b : cell) : bool :=
  match a, b with
  | Text s, Text t => (s =? t)%string
  | Int x, Int y => (x =? y)%Z
  | _, _ => false
  end.

Record DataFrame : Type := mk_df {
  nrows : nat;
  columns : dict (list cell)
}.

(** The unified table: the remaining columns followed by the two mean
    columns; a mean of no value is NaN, here [None]. *)
Record unified : Type := mk_unified {
  table : DataFrame;
  BeginNs : list (option Q);
  EndNs : list (option Q)
}.

Inductive event : Type :=
| Warn (msg : string)              (* warnings.warn(msg) *)
| Log (text : string)              (* log_file.write(text) *)
| Print (text : string)            (* print(text) *)
| ToCsv (path : string) (t : unified)   (* df.to_csv(path, index=False) *)
| Remove (path : string).          (* os.remove(path) *)

(** A computation that leaves a trace of events and returns or raises. *)
Definition io (A : Type) : Type := (list event * result A)%type.

Definition io_bind {A B} (m : io A) (f : A -> io B) : io B :=
  match m with
  | (ev, OK a) => let '(ev', r) := f a in (ev ++ ev', r)
  | (ev, Raise e) => (ev, Raise e)
  end.

Definition lift {A} (r : result A) : io A := ([], r).
Definition emit (e : event) : io unit := ([e], OK tt).

Notation "x <~ m ;; k" := (io_bind m (fun x => k))
  (at level 61, m at next level, right associativity).
Notation "m ;;; k" := (io_bind m (fun _ => k))
  (at level 61, right associativity).

(** [sub in s] *)
Fixpoint contains (sub s : string) : bool :=
  String.prefix sub s ||
  match s with
  | EmptyString => false
  | String _ s' => contains sub s'
  end.

(** [any(check in k for check in checks)] *)
Definition contains_any (checks : list string) (k : string) : bool :=
  existsb (fun check => contains check k) checks.

(** [str(z)] for an integer. *)
Definition str_int (z : Z) : string := NilEmpty.string_of_int (Z.to_int z).

(** [column.astype(str)] on one cell. *)
Definition cell_str (c : cell) : string :=
  match c with
  | Text s => s
  | Int z => str_int z
  end.

(** [df[[k for k in df.keys() if keep(k)]]] *)
Definition select (keep : string -> bool) (df : DataFrame) : DataFrame :=
  mk_df (nrows df) (filter (fun kv => keep (fst kv)) (columns df)).

(** [df.drop(columns=names)] *)
Definition drop (names : list string) (df : DataFrame) : result DataFrame :=
  match find (fun n => negb (dict_mem n (columns df))) names with
  | Some n => Raise (KeyError n)
  | None => OK (select (fun k => negb (mem k names)) df)
  end.

(** [groupby(by).cumcount()]: for every row the number of earlier rows with
    the same group key. *)
Fixpoint cumcount_aux (seen : list (list cell)) (rows : list (list cell))
  : list nat :=
  match rows with
  | [] => []
  | g :: rows' =>
      List.length (filter (fun g' => forallb (fun p => cell_eqb (fst p) (snd p))
                                             (combine g g')) seen)
      :: cumcount_aux (g :: seen) rows'
  end.

Definition cumcount (groups : list (list cell)) : list nat :=
  cumcount_aux [] groups.

(** [name + " - " + ...]: text can be extended, a number cannot. *)
Definition text_of (c : cell) : result string :=
  match c with
  | Text s => OK s
  | Int _ => Raise TypeError
  end.

(** The column [key] of one table. *)
Definition make_key (join_type : string) (df : DataFrame)
  : io (list cell) :=
  if (join_type =? "kernel")%string then
    lift (names <- getitem "KernelName" (columns df) ;;
          let key := cumcount (map (fun n => [n]) names) in
          mapM (fun nk =>
                  n <- text_of (fst nk) ;;
                  OK (Text (n ++ " - " ++ str (snd nk))%string))
               (combine names key))
  else if (join_type =? "grid")%string then
    lift (names <- getitem "KernelName" (columns df) ;;
          grd <- getitem "grd" (columns df) ;;
          let key := cumcount (map (fun ng => [fst ng; snd ng]) (combine names grd)) in
          mapM (fun ngk =>
                  n <- text_of (fst (fst ngk)) ;;
                  OK (Text (n ++ " - " ++ cell_str (snd (fst ngk))
                              ++ " - " ++ str (snd ngk))%string))
               (combine (combine names grd) key))
  else
    emit (Print "ERROR: Unrecognized --join-type") ;;; lift (Raise (SystemExit 1)).

(** [l[i] for i in idx] *)
Definition gather (idx : list nat) (col : list cell) : list cell :=
  flat_map (fun i => match nth_error col i with Some c => [c] | None => [] end) idx.

(** [pd.merge(df, _df, how="inner", on="key", suffixes=("", f"_{i}"))]:
    the pairs of rows with equal key, in the order of the left rows; the
    left columns, then the right columns but [key]; a name on both sides
    gets the suffix of its side. *)
Definition merge (df _df : DataFrame) (i : nat) : result DataFrame :=
  keyL <- getitem "key" (columns df) ;;
  keyR <- getitem "key" (columns _df) ;;
  let pairs :=
    flat_map (fun a =>
                map (fun b => (fst a, fst b))
                    (filter (fun b => cell_eqb (snd a) (snd b))
                            (combine (seq 0 (List.length keyR)) keyR)))
             (combine (seq 0 (List.length keyL)) keyL) in
  let left := map (fun kv => (fst kv, gather (map fst pairs) (snd kv)))
                  (columns df) in
  let right :=
    map (fun kv =>
           (if dict_mem (fst kv) (columns df)
            then (fst kv ++ "_" ++ str i)%string else fst kv,
            gather (map snd pairs) (snd kv)))
        (filter (fun kv => negb (fst kv =? "key")%string) (columns _df)) in
  OK (mk_df (List.length pairs) (left ++ right)).

(** The loop over the per-pass files: [None] stands for [df = None]. *)
Fixpoint join_files (join_type : string) (files : list (string * DataFrame))
  (i : nat) (df : option DataFrame) : io (option DataFrame) :=
  match files with
  | [] => lift (OK df)
  | (_, _df) :: files' =>
      key <~ make_key join_type _df ;;
      let _df := mk_df (nrows _df) (dict_set "key" key (columns _df)) in
      match df with
      | None => join_files join_type files' (S i) (Some _df)
      | Some df =>
          df' <~ lift (merge df _df i) ;;
          join_files join_type files' (S i) (Some df')
      end
  end.

(** [df.eq(df.iloc[:, 0], axis=0).all(1).all()] *)
Definition test_df_column_equality (df : DataFrame) : result bool :=
  match columns df with
  | [] => Raise IndexError
  | (_, first) :: _ =>
      OK (forallb (fun kv => forallb (fun p => cell_eqb (fst p) (snd p))
                                     (combine (snd kv) first))
                  (columns df))
  end.

(** The keys of [duplicate_cols] with the text looked for in the column
    names. *)
Definition duplicate_cols : list (string * string) :=
  [ ("gpu", "gpu"); ("grd", "grd"); ("wgr", "wgr"); ("lds", "lds");
    ("scr", "scr"); ("arch_vgpr", "arch_vgpr"); ("accum_vgpr", "accum_vgpr");
    ("spgr", "sgpr") ].

Definition warning_msg (key : string) : string :=
  ("WARNING: Detected differing " ++ key ++ " values while joining pmc_perf.csv")%string.

Definition success_msg (key : string) : string :=
  ("Successfully joined " ++ key ++ " in pmc_perf.csv")%string.

(** The body of [for key, cols in duplicate_cols.items()]. *)
Definition check_family (df : DataFrame) (verbose : bool)
  (family : string * string) : io unit :=
  let '(key, sub) := family in
  let _df := select (contains sub) df in
  same <~ lift (test_df_column_equality _df) ;;
  (if negb same then
     emit (Warn (warning_msg key)) ;;;
     emit (Log (warning_msg key ++ newline))
   else
     emit (Log (success_msg key ++ newline))) ;;;
  same' <~ lift (test_df_column_equality _df) ;;
  if same' && verbose then emit (Print (success_msg key)) else lift (OK tt).

Fixpoint check_families (df : DataFrame) (verbose : bool)
  (families : list (string * string)) : io unit :=
  match families with
  | [] => lift (OK tt)
  | family :: families' =>
      check_family df verbose family ;;;
      check_families df verbose families'
  end.

Definition boring : list string :=
  [ "gpu-id_"; "grd_"; "wgr_"; "lds_"; "scr_"; "vgpr_"; "sgpr_"; "Index_";
    "queue-id"; "queue-index"; "pid"; "tid"; "fbar"; "sig"; "obj" ].

(** [assert (df[first] == df[k]).all()] for every [k] of [rest]; assertions
    are checked, as they are unless the interpreter runs with [-O]. *)
Fixpoint assert_same_names (df : DataFrame) (first : string)
  (rest : list string) : result unit :=
  match rest with
  | [] => OK tt
  | k :: rest' =>
      a <- getitem first (columns df) ;;
      b <- getitem k (columns df) ;;
      if forallb (fun p => cell_eqb (fst p) (snd p)) (combine a b)
      then assert_same_names df first rest'
      else Raise AssertionError
  end.

(** [df[keys].mean(axis=1)] at one row: the mean of the integers of the
    row, NaN without any column. *)
Definition row_mean (cols : list (list cell)) (r : nat) : result (option Q) :=
  vals <- mapM (fun col =>
                  match nth_error col r with
                  | Some (Int z) => OK z
                  | Some (Text _) => Raise TypeError
                  | None => Raise IndexError
                  end) cols ;;
  match vals with
  | [] => OK None
  | _ => OK (Some (fold_right Z.add 0%Z vals # Pos.of_nat (List.length vals)))
  end.

Definition mean_axis1 (names : list string) (df : DataFrame)
  : result (list (option Q)) :=
  cols <- mapM (fun k => getitem k (columns df)) names ;;
  mapM (row_mean cols) (seq 0 (nrows df)).

(** The end of [join_prof], from the selections that discard columns to
    the removal of the per-pass files, on the joined table [df]. *)
Definition finish_join (out : string) (verbose : bool)
  (files : list (string * DataFrame)) (df : DataFrame) : io unit :=
  let df := select (fun k => negb (contains_any boring k)) df in
  let df := select (fun k => negb (contains_any ["DispatchNs"; "CompleteNs"] k)) df in
  let namekeys := filter (contains "KernelName") (keys (columns df)) in
  first <~ lift (match namekeys with
                 | [] => Raise AssertionError
                 | first :: _ => OK first
                 end) ;;
  lift (assert_same_names df first (tl namekeys)) ;;;
  df <~ lift (drop (tl namekeys) df) ;;
  let bkeys := filter (contains "Begin") (keys (columns df)) in
  let ekeys := filter (contains "End") (keys (columns df)) in
  endNs <~ lift (mean_axis1 ekeys df) ;;
  beginNs <~ lift (mean_axis1 bkeys df) ;;
  df <~ lift (drop bkeys df) ;;
  df <~ lift (drop ekeys df) ;;
  df <~ lift (drop ["key"] df) ;;
  emit (ToCsv out (mk_unified df beginNs endNs)) ;;;
  if negb verbose
  then (map (fun f => Remove (fst f)) files, OK tt)
  else lift (OK tt).

(** [join_prof(workload_dir, join_type, log_file, verbose, out)].  [files]
    are the tables of [workload_dir/pmc_perf_*.csv] in the order of
    [glob.glob], each with its path. *)
Definition join_prof (workload_dir join_type : string) (verbose : bool)
  (out : option string) (files : list (string * DataFrame)) : io unit :=
  let out := match out with
             | None => (workload_dir ++ "/pmc_perf.csv")%string
             | Some o => o
             end in
  df <~ join_files join_type files 0 None ;;
  df <~ lift (match df with Some df => OK df | None => Raise AttributeError end) ;;
  check_families df verbose duplicate_cols ;;;
  finish_join out verbose files df.

(* ================================================================== *)
(** ** Reading a bucket structure and a schedule *)

(** The rounded-up quotient of two natural numbers. *)
Definition ceil_div (a b : nat) : nat := (a + b - 1) / b.

(** The capacity a profile gives a block, 0 when it gives none. *)
Definition cap (prof : profile) (key : string) : nat :=
  match dict_get key prof with Some n => n | None => 0 end.

(** The bucket of a block, empty when it has none. *)
Definition bucket (pl : pmc_list) (key : string) : list string :=
  match dict_get key (buckets pl) with Some l => l | None => [] end.

(** The sub-bucket of a channel. *)
Definition channel (pl : pmc_list) (ch : string) : list string :=
  match dict_get ch (TCC2 pl) with Some l => l | None => [] end.

Definition channels (prof : profile) : list nat :=
  seq 0 (cap prof "TCC_channels").

(** [perfmon_emit] runs without an exception on such a profile and bucket
    structure: every block it visits has a capacity of at least one, there
    is an ordinary block and a channel, and the entries it reads exist. *)
Definition emit_ready (prof : profile) (pl : pmc_list) : bool :=
  forallb (fun key => 1 <=? cap prof key) (ordinary_keys pl)
  && negb (is_nil (ordinary_keys pl))
  && dict_mem "TCC" (buckets pl)
  && (1 <=? cap prof "TCC")
  && (1 <=? cap prof "TCC_channels")
  && forallb (fun ch => dict_mem (str ch) (TCC2 pl)) (channels prof).

(** The number of passes the specification gives. *)
Definition pass_count (prof : profile) (pl : pmc_list) : nat :=
  Nat.max
    (list_max (map (fun key => ceil_div (List.length (bucket pl key)) (cap prof key))
                   (ordinary_keys pl)))
    (ceil_div (List.length (bucket pl "TCC")) (cap prof "TCC")
     + ceil_div (list_max (map (fun ch => List.length (channel pl (str ch)))
                               (channels prof)))
                (cap prof "TCC")).

(** The [i]-th slice of capacity [N] of a bucket. *)
Definition nth_slice (N : nat) (l : list string) (i : nat) : list string :=
  slice (i * N) (i * N + N) l.

(** The slice a pass holds for an ordinary block. *)
Definition ip_slice (key : string) (p : pass) : list string :=
  match dict_get key (pass_ip p) with Some l => l | None => [] end.

(** How many of the slices hold a counter. *)
Definition nonempty_count (slices : list (list string)) : nat :=
  List.length (filter (fun s => negb (is_nil s)) slices).

(** The pass of iteration [iter], in closed form: the per-channel slices
    start once the aggregated bucket is exhausted. *)
Definition pass_at (prof : profile) (pl : pmc_list) (iter : nat) : pass :=
  let N := cap prof "TCC" in
  let A := ceil_div (List.length (bucket pl "TCC")) N in
  mk_pass
    (map (fun key => (key, nth_slice (cap prof key) (bucket pl key) iter))
         (ordinary_keys pl))
    (if iter <? A then nth_slice N (bucket pl "TCC") iter
     else List.concat (map (fun ch => nth_slice N (channel pl (str ch)) (iter - A))
                           (channels prof))).

(** The slices the per-channel part of a pass is made of, at slice index
    [j]: one slice per channel of the profile. *)
Definition channel_parts (prof : profile) (pl : pmc_list) (j : nat)
  : list (list string) :=
  map (fun ch => nth_slice (cap prof "TCC") (channel pl (str ch)) j)
      (channels prof).

(** A schedule gives back every bucket: the slices of a bucket, over the
    passes in order, concatenate to the bucket, and as many passes hold one
    of its counters as the rounded-up quotient of its size by the capacity.
    The TCC part of a pass is the aggregated slice while there is one and
    the per-channel slices afterwards. *)
Definition round_trip (prof : profile) (pl : pmc_list) (ps : list pass) : Prop :=
  let N := cap prof "TCC" in
  let A := ceil_div (List.length (bucket pl "TCC")) N in
  (forall key, In key (ordinary_keys pl) ->
     List.concat (map (ip_slice key) ps) = bucket pl key
     /\ nonempty_count (map (ip_slice key) ps)
        = ceil_div (List.length (bucket pl key)) (cap prof key))
  /\ A <= List.length ps
  /\ map pass_tcc (firstn A ps) = map (nth_slice N (bucket pl "TCC")) (seq 0 A)
  /\ List.concat (map pass_tcc (firstn A ps)) = bucket pl "TCC"
  /\ nonempty_count (map pass_tcc (firstn A ps)) = A
  /\ map pass_tcc (skipn A ps)
     = map (fun j => List.concat (channel_parts prof pl j))
           (seq 0 (List.length ps - A))
  /\ (forall ch, In ch (channels prof) ->
        let sub := map (nth_slice N (channel pl (str ch)))
                       (seq 0 (List.length ps - A)) in
        List.concat sub = channel pl (str ch)
        /\ nonempty_count sub = ceil_div (List.length (channel pl (str ch))) N).

(** A pass stays within the capacities: every ordinary slice within the
    capacity of its block; the TCC part either an aggregated slice within
    the TCC capacity, or per-channel slices, each within it. *)
Definition within_capacity (prof : profile) (pl : pmc_list) (p : pass) : Prop :=
  let N := cap prof "TCC" in
  Forall (fun kv => List.length (snd kv) <= cap prof (fst kv)) (pass_ip p)
  /\ ((pass_tcc p <> [] /\ List.length (pass_tcc p) <= N
       /\ exists i, pass_tcc p = nth_slice N (bucket pl "TCC") i)
      \/ (exists j, pass_tcc p = List.concat (channel_parts prof pl j)
                    /\ List.length (channel_parts prof pl j)
                       = cap prof "TCC_channels"
                    /\ Forall (fun part => List.length part <= N)
                              (channel_parts prof pl j))).

(* ================================================================== *)
(** ** Reading the input of the coalescer *)

(** The block a counter is bucketed under: its prefix before the first
    underscore, in upper case, with SQC folded into SQ. *)
Definition IP_block_of (counter : string) : string :=
  let IP_block := upper (before "_" counter) in
  if (IP_block =? "SQC")%string then "SQ" else IP_block.

(** Where [add_counter] looks for a counter: the bucket of a block or the
    sub-bucket of a channel. *)
Inductive home : Type :=
| InBucket (key : string)
| InChannel (ch : string).

Definition home_of (counter : string) : home :=
  if negb (IP_block_of counter =? "TCC")%string then InBucket (IP_block_of counter)
  else match match_channel counter with
       | None => InBucket (IP_block_of counter)
       | Some ch => InChannel ch
       end.

Definition home_eqb (h1 h2 : home) : bool :=
  match h1, h2 with
  | InBucket a, InBucket b => (a =? b)%string
  | InChannel a, InChannel b => (a =? b)%string
  | _, _ => false
  end.

(** The tokens of a line that are bucketed: those of a counter-list line
    without the accumulator token. *)
Definition line_tokens (line : string) : list string :=
  match match_pmc (strip (before "#" line)) with
  | Some group =>
      let counters := split_ws group in
      if mem ACCUM counters then [] else counters
  | None => []
  end.

(** The bucketed tokens of all the sources, in reading order. *)
Definition bucketed_tokens (files : list (list string)) : list string :=
  flat_map (flat_map line_tokens) files.

(** The tokens of a stream that belong to one home, in reading order. *)
Definition tokens_of (h : home) (seen : list string) : list string :=
  filter (fun t => home_eqb (home_of t) h) seen.

(** Every element once, at the place of its first appearance. *)
Fixpoint first_appearances (l : list string) : list string :=
  match l with
  | [] => []
  | x :: l' => x :: filter (fun y => negb (y =? x)%string) (first_appearances l')
  end.

(** The channel keys the coalescer creates and sorts for a profile. *)
Definition channel_keys (prof : profile) : list string :=
  map str (channels prof).

(** A counter name with a bracketed channel index. *)
Definition tagged (ch : string) (base : string) : string :=
  (base ++ "[" ++ ch ++ "]")%string.

(** The name of a counter without its bracketed part. *)
Definition base_name (counter : string) : string := before "[" counter.

Definition sorted : list string -> Prop :=
  StronglySorted (fun a b => String.leb a b = true).

Fixpoint all_chars (p : ascii -> bool) (s : string) : bool :=
  match s with
  | EmptyString => true
  | String c s' => p c && all_chars p s'
  end.

(** A base name holds no opening bracket. *)
Definition bracket_free (base : string) : bool :=
  all_chars (fun c => negb (Ascii.eqb c "[")) base.

(** The bucket structure built from a stream of bucketed tokens: every
    bucket and sub-bucket holds the first appearances of its tokens, and a
    home without an entry has received no token. *)
Definition coalesced (seen : list string) (pl : pmc_list) : Prop :=
  (forall key,
     match dict_get key (buckets pl) with
     | Some l => l = first_appearances (tokens_of (InBucket key) seen)
     | None => tokens_of (InBucket key) seen = []
     end)
  /\ (forall ch,
        match dict_get ch (TCC2 pl) with
        | Some l => l = first_appearances (tokens_of (InChannel ch) seen)
        | None => tokens_of (InChannel ch) seen = []
        end).

(** What coalescing guarantees about duplicates: buckets of blocks and
    sub-buckets of channels outside the profile hold first appearances in
    order, sub-buckets of channels of the profile hold them sorted; a
    bucketed token is once in its bucket; one base name with two bracketed
    channel indices is in two sub-buckets. *)
Definition deduplicated (files : list (list string)) (soc : string)
  (pl : pmc_list) : Prop :=
  exists prof,
    dict_get soc perfmon_config = Some prof
    /\ (forall key, bucket pl key
                    = first_appearances (tokens_of (InBucket key) (bucketed_tokens files)))
    /\ (forall ch, channel pl ch
                   = if mem ch (channel_keys prof)
                     then sort (first_appearances
                                  (tokens_of (InChannel ch) (bucketed_tokens files)))
                     else first_appearances
                            (tokens_of (InChannel ch) (bucketed_tokens files)))
    /\ (forall t, In t (bucketed_tokens files) ->
                  match home_of t with
                  | InBucket key => count_occ string_dec (bucket pl key) t = 1
                  | InChannel ch => count_occ string_dec (channel pl ch) t = 1
                  end)
    /\ (forall base d1 d2,
          base <> EmptyString -> d1 <> EmptyString -> d2 <> EmptyString ->
          all_chars is_digit d1 = true -> all_chars is_digit d2 = true ->
          d1 <> d2 ->
          IP_block_of (tagged d1 base) = "TCC" ->
          IP_block_of (tagged d2 base) = "TCC" ->
          In (tagged d1 base) (bucketed_tokens files) ->
          In (tagged d2 base) (bucketed_tokens files) ->
          tagged d1 base <> tagged d2 base
          /\ count_occ string_dec (channel pl d1) (tagged d1 base) = 1
          /\ count_occ string_dec (channel pl d2) (tagged d2 base) = 1
          /\ ~ In (tagged d1 base) (channel pl d2)
          /\ ~ In (tagged d2 base) (channel pl d1)).

(** What coalescing guarantees about the order within channels. *)
Definition sorted_aligned (soc : string) (pl : pmc_list) : Prop :=
  exists prof,
    dict_get soc perfmon_config = Some prof
    /\ (forall ch, In ch (channels prof) -> sorted (channel pl (str ch)))
    /\ (forall ch1 ch2 bases,
          In ch1 (channels prof) -> In ch2 (channels prof) ->
          Forall (fun b => bracket_free b = true) bases ->
          Permutation (channel pl (str ch1)) (map (tagged (str ch1)) bases) ->
          Permutation (channel pl (str ch2)) (map (tagged (str ch2)) bases) ->
          exists order,
            Permutation bases order
            /\ channel pl (str ch1) = map (tagged (str ch1)) order
            /\ channel pl (str ch2) = map (tagged (str ch2)) order).

(** The shape [perfmon_coalesce] keeps: the blocks it started with and a
    sub-bucket for every channel of the profile. *)
Definition coalescer_shape (n : nat) (pl : pmc_list) : Prop :=
  keys (buckets pl) = keys initial_buckets
  /\ forall ch, In ch (seq 0 n) -> dict_mem (str ch) (TCC2 pl) = true.

(* ================================================================== *)
(** ** Reading the joined table *)

(** The column of a name, empty when there is none. *)
Definition column (df : DataFrame) (k : string) : list cell :=
  match dict_get k (columns df) with Some c => c | None => [] end.

(** Every column has as many cells as the table has rows. *)
Definition well_shaped (df : DataFrame) : bool :=
  forallb (fun kv => List.length (snd kv) =? nrows df) (columns df).

Definition col_eqb (a b : list cell) : bool :=
  forallb (fun p => cell_eqb (fst p) (snd p)) (combine a b).

(** The table after the two selections that discard columns. *)
Definition kept (df : DataFrame) : DataFrame :=
  select (fun k => negb (contains_any ["DispatchNs"; "CompleteNs"] k))
         (select (fun k => negb (contains_any boring k)) df).

(** The copies of the kernel-name column the check looks at. *)
Definition namekeys (df : DataFrame) : list string :=
  filter (contains "KernelName") (keys (columns (kept df))).

(** Two copies of the kernel-name column differ in some row. *)
Definition copies_disagree (df : DataFrame) : Prop :=
  exists k1 k2 r c1 c2,
    In k1 (namekeys df) /\ In k2 (namekeys df)
    /\ nth_error (column df k1) r = Some c1
    /\ nth_error (column df k2) r = Some c2
    /\ c1 <> c2.

(** All copies of the kernel-name column are the same. *)
Definition copies_agree (df : DataFrame) : Prop :=
  forall k1 k2, In k1 (namekeys df) -> In k2 (namekeys df) ->
                column df k1 = column df k2.

(** The table after the duplicate kernel-name columns are dropped. *)
Definition named (df : DataFrame) : DataFrame :=
  select (fun k => negb (mem k (tl (namekeys df)))) (kept df).

Definition bkeys (df : DataFrame) : list string :=
  filter (contains "Begin") (keys (columns (named df))).

Definition ekeys (df : DataFrame) : list string :=
  filter (contains "End") (keys (columns (named df))).

(** The columns of the unified table before the two mean columns. *)
Definition final_table (df : DataFrame) : DataFrame :=
  select (fun k => negb (mem k ["key"]))
         (select (fun k => negb (mem k (ekeys df)))
                 (select (fun k => negb (mem k (bkeys df))) (named df))).

(** The names of the columns of a family. *)
Definition family_cols (sub : string) (df : DataFrame) : list string :=
  filter (contains sub) (keys (columns df)).

Definition is_int (c : cell) : bool :=
  match c with Int _ => true | Text _ => false end.

(** Every family of [duplicate_cols] has a column in the table. *)
Definition families_present (df : DataFrame) : bool :=
  forallb (fun family => negb (is_nil (family_cols (snd family) df))) duplicate_cols.

(** The joined table lets [join_prof] run to its end when the kernel names
    agree: every family of [duplicate_cols] has a column, there is a
    kernel-name column, the timestamp columns hold integers, no column name
    holds both [Begin] and [End], and the column [key] is there. *)
Definition output_ready (df : DataFrame) : bool :=
  families_present df
  && negb (is_nil (namekeys df))
  && forallb (fun kv => if contains "Begin" (fst kv) || contains "End" (fst kv)
                        then forallb is_int (snd kv) else true)
             (columns df)
  && forallb (fun k => negb (contains "Begin" k && contains "End" k))
             (keys (columns df))
  && dict_mem "key" (columns df).

(** The path of the unified table. *)
Definition out_path (workload_dir : string) (out : option string) : string :=
  match out with
  | None => (workload_dir ++ "/pmc_perf.csv")%string
  | Some o => o
  end.

(** The events of the comparison of one family. *)
Definition family_events (df : DataFrame) (verbose : bool)
  (family : string * string) : list event :=
  match test_df_column_equality (select (contains (snd family)) df) with
  | OK true =>
      Log (success_msg (fst family) ++ newline)
      :: (if verbose then [Print (success_msg (fst family))] else [])
  | OK false =>
      [Warn (warning_msg (fst family)); Log (warning_msg (fst family) ++ newline)]
  | Raise _ => []
  end.

(** The tables written by a run. *)
Definition written (evs : list event) : list unified :=
  flat_map (fun e => match e with ToCsv _ u => [u] | _ => [] end) evs.

(** A column of the joined table reaches the unified table. *)
Definition survives (df : DataFrame) (k : string) : bool :=
  negb (contains_any boring k)
  && negb (contains_any ["DispatchNs"; "CompleteNs"] k)
  && negb (mem k (tl (namekeys df)))
  && negb (mem k (bkeys df))
  && negb (mem k (ekeys df))
  && negb (mem k ["key"]).

(* ================================================================== *)
(** ** Reading the join keys *)

Definition no_space (s : string) : bool :=
  all_chars (fun c => negb (Ascii.eqb c " ")) s.

(** Two rows are in the same group of [groupby]. *)
Definition group_eqb (g g' : list cell) : bool :=
  forallb (fun p => cell_eqb (fst p) (snd p)) (combine g g').

(** The join keys of one per-pass table, none when they cannot be made. *)
Definition table_keys (join_type : string) (df : DataFrame) : list cell :=
  match make_key join_type df with
  | (_, OK key) => key
  | (_, Raise _) => []
  end.

Fixpoint distinct (l : list cell) : bool :=
  match l with
  | [] => true
  | x :: l' => negb (existsb (cell_eqb x) l') && distinct l'
  end.

(** No per-pass table has the same join key twice.  This is so for the
    strategy by kernel name, and for the strategy by grid when the grid
    column holds integers (lemmas [kernel_distinct_keys] and
    [grid_distinct_keys]). *)
Definition distinct_keys (join_type : string) (files : list (string * DataFrame))
  : bool :=
  forallb (fun f => distinct (table_keys join_type (snd f))) files.



(** The run raises and writes no unified table; the exception is the failed
    assertion when every family has a column. *)
Definition aborted (run : io unit) (df : DataFrame) : Prop :=
  exists evs e,
    run = (evs, Raise e)
    /\ written evs = []
    /\ (families_present df = true -> e = AssertionError).

(** The run returns and writes the unified table once, at [path], without
    the duplicate kernel-name columns. *)
Definition unified_written (run : io unit) (path : string) (df : DataFrame) : Prop :=
  exists evs beginNs endNs,
    run = (evs, OK tt)
    /\ written evs = [mk_unified (final_table df) beginNs endNs]
    /\ In (ToCsv path (mk_unified (final_table df) beginNs endNs)) evs
    /\ forall k, In k (tl (namekeys df)) -> ~ In k (keys (columns (final_table df))).


(* ================================================================== *)
(** ** pmc_perf_split *)

(** The characters [str.splitlines()] ends a line at: line feed, vertical
    tab, form feed, carriage return and the separators 28-30. *)
Definition is_line_break (c : ascii) : bool :=
  ascii_in c [10; 11; 12; 13; 28; 29; 30].

(** [text.splitlines()]: a carriage return followed by a line feed ends one
    line, and no empty line follows the last line break.  [cur] is the line
    being read, reversed; [after_cr] tells that the character before was a
    carriage return. *)
Fixpoint splitlines_aux (s : string) (cur : list ascii) (after_cr : bool)
  : list string :=
  match s with
  | EmptyString =>
      match cur with
      | [] => []
      | _ => [string_of_list_ascii (rev cur)]
      end
  | String c s' =>
      if after_cr && Ascii.eqb c (ascii_of_nat 10) then splitlines_aux s' cur false
      else if is_line_break c then
        string_of_list_ascii (rev cur)
        :: splitlines_aux s' [] (Ascii.eqb c (ascii_of_nat 13))
      else splitlines_aux s' (c :: cur) false
  end.

Definition splitlines (text : string) : list string := splitlines_aux text [] false.

(** The body of [for line in lines] of [pmc_perf_split], threading [i]. *)
Definition split_line (workload_perfmon_dir : string) (st : nat * writes)
  (line : string) : nat * writes :=
  let '(i, fs) := st in
  let stext := strip (before "#" line) in
  match stext with
  | EmptyString => st
  | _ =>
      match match_pmc stext with
      | None => st
      | Some _ =>
          let path := (workload_perfmon_dir ++ "/pmc_perf_" ++ str i ++ ".txt")%string in
          let text := (stext ++ newline ++ newline ++ directives)%string in
          (S i, fs ++ [(path, text)])
      end
  end.

(** [pmc_perf_split(workload_dir)] on the content of
    [workload_dir/perfmon/pmc_perf.txt]: the files written, oldest first, and
    the path removed at the end. *)
Definition pmc_perf_split (workload_dir pmc_perf_txt : string) : writes * string :=
  let workload_perfmon_dir := (workload_dir ++ "/perfmon")%string in
  let lines := splitlines pmc_perf_txt in
  let '(_, fs) := fold_left (split_line workload_perfmon_dir) lines (0, []) in
  (fs, (workload_perfmon_dir ++ "/pmc_perf.txt")%string).

(* ================================================================== *)
(** ** perfmon_filter

    The first caller of the coalescer and the scheduler.  Its [glob.glob]
    calls are outside the embedding: the reference files found are an
    argument, each with its path and its lines.  It makes the directory
    [workload_dir/perfmon] anew before anything is written. *)

Definition lower_ascii (c : ascii) : ascii :=
  let n := nat_of_ascii c in
  if (65 <=? n) && (n <=? 90) then ascii_of_nat (n + 32) else c.

(** [s.lower()] *)
Fixpoint lower (s : string) : string :=
  match s with
  | EmptyString => EmptyString
  | String c s' => String (lower_ascii c) (lower s')
  end.

(** The text after the last [sep] of [s], if [s] holds one. *)
Fixpoint after_last (sep : ascii) (s : string) : option string :=
  match s with
  | EmptyString => None
  | String c s' =>
      match after_last sep s' with
      | Some r => Some r
      | None => if Ascii.eqb c sep then Some s' else None
      end
  end.

(** [os.path.basename(p)] *)
Definition basename (p : string) : string :=
  match after_last "/" p with
  | Some r => r
  | None => p
  end.

(** The text before the last [sep] of [s], if [s] holds one. *)
Fixpoint before_last (sep : ascii) (s : string) : option string :=
  match s with
  | EmptyString => None
  | String c s' =>
      match before_last sep s' with
      | Some r => Some (String c r)
      | None => if Ascii.eqb c sep then Some EmptyString else None
      end
  end.

(** [os.path.splitext(p)[0]] for a path without directory: the text before
    the last dot, unless only dots come before it. *)
Definition splitext_root (p : string) : string :=
  match before_last "." p with
  | Some root => if all_chars (fun c => Ascii.eqb c ".") root then p else root
  | None => p
  end.

(** A character of the class of letters, digits and the underscore. *)
Definition is_word (c : ascii) : bool :=
  let n := nat_of_ascii c in
  ((97 <=? n) && (n <=? 122)) || ((65 <=? n) && (n <=? 90))
  || ((48 <=? n) && (n <=? 57)) || (n =? 95).

Fixpoint take_while (p : ascii -> bool) (s : string) : string :=
  match s with
  | EmptyString => EmptyString
  | String c s' => if p c then String c (take_while p s') else EmptyString
  end.

(** The longest [r] such that [s] starts with [r] followed by [mark]. *)
Fixpoint last_before (mark s : string) : option string :=
  match s with
  | EmptyString => None
  | String c s' =>
      match last_before mark s' with
      | Some r => Some (String c r)
      | None => if String.prefix mark s then Some EmptyString else None
      end
  end.

(** [re.match(mpattern, fbase)] for the pattern of [perfmon_filter]: the
    marker [pmc_], a greedy group of one or more characters of the class,
    the text [_per] and any number of [f].  The group takes the longest run
    of characters of the class and gives back as few as it must for [_per]
    to follow; the result is the group. *)
Definition match_ip (fbase : string) : option string :=
  match fbase with
  | String "p" (String "m" (String "c" (String "_" rest))) =>
      match take_while is_word rest with
      | String c run => option_map (String c) (last_before "_per" run)
      | EmptyString => None
      end
  | _ => None
  end.

(** A reference file: its path and its lines. *)
Definition ref_file : Type := (string * list string)%type.

(** The body of [for fname in ref_pmc_files_list]; a file name the pattern
    does not match leaves [None], which has no [group]. *)
Definition filter_file (ipblocks : list string) (pmc_files_list : list ref_file)
  (f : ref_file) : io (list ref_file) :=
  let fbase := splitext_root (basename (fst f)) in
  ip <~ lift (match match_ip fbase with
              | Some ip => OK ip
              | None => Raise AttributeError
              end) ;;
  if mem ip ipblocks then
    emit (Print ("fname: " ++ fbase ++ ": Added")%string) ;;;
    lift (OK (pmc_files_list ++ [f]))
  else
    emit (Print ("fname: " ++ fbase ++ ": Skipped")%string) ;;;
    lift (OK pmc_files_list).

Fixpoint filter_files (ipblocks : list string) (pmc_files_list : list ref_file)
  (refs : list ref_file) : io (list ref_file) :=
  match refs with
  | [] => lift (OK pmc_files_list)
  | f :: refs' =>
      pmc_files_list' <~ filter_file ipblocks pmc_files_list f ;;
      filter_files ipblocks pmc_files_list' refs'
  end.

(** [perfmon_filter(workload_dir, perfmon_dir, args)] with [args.target] and
    [args.ipblocks]: what is printed, and the files written under
    [workload_dir/perfmon], the schedule last. *)
Definition perfmon_filter (workload_dir target : string)
  (ipblocks : option (list string)) (ref_pmc_files_list : list ref_file)
  : io writes :=
  let workload_perfmon_dir := (workload_dir ++ "/perfmon")%string in
  let soc := target in
  pmc_files_list <~ match ipblocks with
                    | Some blocks =>
                        filter_files (map lower blocks) [] ref_pmc_files_list
                    | None => lift (OK ref_pmc_files_list)
                    end ;;
  lift ('(pmc_list, fs) <- perfmon_coalesce (map snd pmc_files_list) workload_dir soc ;;
        text <- perfmon_emit pmc_list soc ;;
        OK (fs ++ [((workload_perfmon_dir ++ "/pmc_perf.txt")%string, text)])).

(* ================================================================== *)
(** ** Reading a schedule as text, and its split *)

(** The one pass that holds every bucket in full. *)
Definition whole (prof : profile) (pl : pmc_list) : pass :=
  mk_pass (map (fun key => (key, bucket pl key)) (ordinary_keys pl))
          (bucket pl "TCC"
           ++ List.concat (map (fun ch => channel pl (str ch)) (channels prof))).

(** The counter-list lines of a file, as they are written back: without
    comment and surrounding white space. *)
Definition counter_lists (lines : list string) : list string :=
  flat_map (fun line =>
              let stext := strip (before "#" line) in
              match match_pmc stext with
              | Some _ => [stext]
              | None => []
              end) lines.

(** The file [pmc_perf_split] writes for the [i]-th counter-list line. *)
Definition split_file (workload_perfmon_dir : string) (i : nat) (stext : string)
  : string * string :=
  ((workload_perfmon_dir ++ "/pmc_perf_" ++ str i ++ ".txt")%string,
   (stext ++ newline ++ newline ++ directives)%string).

(** The files [pmc_perf_split] writes for a list of counter-list lines:
    numbered from 0 in the order of the lines. *)
Definition split_files (workload_perfmon_dir : string) (stexts : list string)
  : writes :=
  map (fun js => split_file workload_perfmon_dir (fst js) (snd js))
      (combine (seq 0 (List.length stexts)) stexts).

(** A counter name as [split()] gives it: not empty, without white space
    and without the comment mark. *)
Definition clean (t : string) : bool :=
  negb (t =? "")%string
  && all_chars (fun c => negb (is_space c) && negb (Ascii.eqb c "#")) t.

(** The counters of a pass, in the order of its line. *)
Definition pass_tokens (p : pass) : list string :=
  List.concat (map snd (pass_ip p)) ++ pass_tcc p.

(** Every token behind a blank. *)
Fixpoint spaced (ts : list string) : string :=
  match ts with
  | [] => EmptyString
  | t :: ts' => (" " ++ t ++ spaced ts')%string
  end.

(** The blank that ends a line without TCC counters. *)
Definition line_end (tcc : list string) : string :=
  if is_nil tcc then " " else EmptyString.

(** What [split()] closes at a white space: the run read so far. *)
Definition flush (cur : list ascii) (rest : list string) : list string :=
  match cur with
  | [] => rest
  | _ => string_of_list_ascii (rev cur) :: rest
  end.

(** A text without a line break. *)
Definition no_break (s : string) : bool :=
  all_chars (fun c => negb (is_line_break c)) s.

(** A counter whose block is one of the ten the coalescer starts with. *)
Definition known_block (counter : string) : bool :=
  mem (IP_block_of counter) (keys initial_buckets).

(** The exception a counter of an unknown block stops the coalescer with:
    the entry [TCC2] is there but is no list, any other block is no key. *)
Definition unknown_block_error (counter : string) : error :=
  if (IP_block_of counter =? "TCC2")%string then AttributeError
  else KeyError (IP_block_of counter).

(* ================================================================== *)
(** ** Reading the selection of reference files *)

(** The last two statements of [perfmon_filter] on the lines of the files
    taken: the files written by the coalescer, then the schedule. *)
Definition coalesce_and_emit (workload_dir soc : string)
  (pmc_files_list : list (list string)) : result writes :=
  '(pmc_list, fs) <- perfmon_coalesce pmc_files_list workload_dir soc ;;
  text <- perfmon_emit pmc_list soc ;;
  OK (fs ++ [((workload_dir ++ "/perfmon" ++ "/pmc_perf.txt")%string, text)]).

(** The block a reference file is for, as [perfmon_filter] reads it from
    the name of the file. *)
Definition ip_of (f : ref_file) : option string :=
  match_ip (splitext_root (basename (fst f))).

(** The line [perfmon_filter] prints for a reference file. *)
Definition filter_print (ipblocks : list string) (f : ref_file) : event :=
  let fbase := splitext_root (basename (fst f)) in
  match ip_of f with
  | Some ip =>
      if mem ip ipblocks then Print ("fname: " ++ fbase ++ ": Added")%string
      else Print ("fname: " ++ fbase ++ ": Skipped")%string
  | None => Print EmptyString
  end.

(** The reference file is taken. *)
Definition selected (ipblocks : list string) (f : ref_file) : bool :=
  match ip_of f with
  | Some ip => mem ip ipblocks
  | None => false
  end.

(** The name of the reference file gives a block. *)
Definition named_for (f : ref_file) : bool :=
  match ip_of f with Some _ => true | None => false end.

(* ================================================================== *)
(** ** Reading the run of the recombiner *)

(** An event that changes the files of the workload: a table written or a
    per-pass file removed. *)
Definition changes_files (e : event) : bool :=
  match e with
  | ToCsv _ _ | Remove _ => true
  | _ => false
  end.

(** The texts looked for in the names of the columns that do not reach
    the unified table. *)
Definition discarded : list string :=
  boring ++ ["DispatchNs"; "CompleteNs"; "Begin"; "End"].

(** What follows the kernel name in a join key: a rank under the strategy
    by kernel name, a grid size and a rank under the strategy by grid. *)
Definition key_tail (join_type tail : string) : Prop :=
  if (join_type =? "kernel")%string then no_space tail = true
  else exists g d, tail = (g ++ " - " ++ d)%string
                   /\ no_space g = true /\ no_space d = true.

(** The cell of a kernel-name column and the join key of its row: the key
    is the name followed by its tail. *)
Definition name_of_key (join_type : string) (c kc : cell) : Prop :=
  exists name tail,
    c = Text name /\ kc = Text (name ++ " - " ++ tail)%string
    /\ key_tail join_type tail.

(** Every column of a table whose name holds [KernelName] goes with the
    join keys of the table, row by row. *)
Definition names_follow_keys (join_type : string) (df : DataFrame) : Prop :=
  exists keycol,
    dict_get "key" (columns df) = Some keycol
    /\ forall k col, In (k, col) (columns df) -> contains "KernelName" k = true ->
                     Forall2 (name_of_key join_type) col keycol.

(** The per-pass table has one column whose name holds [KernelName], the
    column [KernelName] itself. *)
Definition one_name_column (df : DataFrame) : bool :=
  match family_cols "KernelName" df with
  | [k] => (k =? "KernelName")%string
  | _ => false
  end.

(** The per-pass table has, besides, columns as long as it has rows and
    integers for grid sizes. *)
Definition numeric_grid (df : DataFrame) : bool :=
  one_name_column df && well_shaped df && forallb is_int (column df "grd").

(** A letter; the suffix of a merged column holds none. *)
Definition is_letter (c : ascii) : bool :=
  let n := nat_of_ascii c in
  ((97 <=? n) && (n <=? 122)) || ((65 <=? n) && (n <=? 90)).

(** A cell of a column of a per-pass table and the join key of its row. *)
Definition cell_of_key (col key : list cell) (v k : cell) : Prop :=
  exists r, nth_error col r = Some v /\ nth_error key r = Some k.

(** The joined table holds the column [c] of the pass of index [i], under
    its name or under the name with the suffix of the pass, and every cell
    of it sits in the row of its key. *)
Definition carried (c : string) (i : nat) (colT keyT : list cell) (df : DataFrame)
  : Prop :=
  exists name col keycol,
    dict_get "key" (columns df) = Some keycol
    /\ In (name, col) (columns df)
    /\ (name = c \/ name = (c ++ "_" ++ str i)%string)
    /\ Forall2 (cell_of_key colT keyT) col keycol.

(* ================================================================== *)
(** ** The coalescer, the scheduler and pmc_filter on a file system

    Above, every [open] for writing is taken to succeed.  Here the answers
    of the file system are explicit: a state of the file system and the
    outcome of each call the code makes on it, the state after the call or
    its exception.  [open_w s path] is [open(path, "w")]; an opened file
    takes every write. *)

Record file_system (fsys : Type) : Type := mk_file_system {
  isdir : fsys -> string -> bool;             (* os.path.isdir(d) *)
  makedirs : fsys -> string -> result fsys;   (* os.makedirs(d) *)
  rmtree : fsys -> string -> result fsys;     (* shutil.rmtree(d) *)
  open_w : fsys -> string -> result fsys      (* open(path, "w") *)
}.

(** The body of [for line in lines] of [perfmon_coalesce]. *)
Definition coalesce_line_on {fsys} (FS : file_system fsys)
  (workload_perfmon_dir : string) (st : pmc_list * writes * fsys) (line : string)
  : result (pmc_list * writes * fsys) :=
  let '(pl, fs, s) := st in
  let stext := strip (before "#" line) in
  match stext with
  | EmptyString => OK st
  | _ =>
      match match_pmc stext with
      | None => OK st
      | Some group =>
          let counters := split_ws group in
          if mem ACCUM counters then
            nindex <- index_of ACCUM counters ;;
            level_counter <- py_nth counters (Z.of_nat nindex - 1) ;;
            let path := (workload_perfmon_dir ++ "/" ++ level_counter ++ ".txt")%string in
            s' <- open_w FS s path ;;
            let text := (stext ++ newline ++ newline ++ directives)%string in
            OK (pl, fs ++ [(path, text)], s')
          else
            pl' <- add_counters pl counters ;;
            OK (pl', fs, s)
      end
  end.

Fixpoint coalesce_lines_on {fsys} (FS : file_system fsys) (dir : string)
  (st : pmc_list * writes * fsys) (lines : list string)
  : result (pmc_list * writes * fsys) :=
  match lines with
  | [] => OK st
  | line :: lines' =>
      st' <- coalesce_line_on FS dir st line ;;
      coalesce_lines_on FS dir st' lines'
  end.

Fixpoint coalesce_files_on {fsys} (FS : file_system fsys) (dir : string)
  (st : pmc_list * writes * fsys) (files : list (list string))
  : result (pmc_list * writes * fsys) :=
  match files with
  | [] => OK st
  | lines :: files' =>
      st' <- coalesce_lines_on FS dir st lines ;;
      coalesce_files_on FS dir st' files'
  end.

(** [perfmon_coalesce(pmc_files_list, workload_dir, soc)] from the state [s]
    of the file system: the returned [pmc_list], the files written and the
    state left. *)
Definition perfmon_coalesce_on {fsys} (FS : file_system fsys) (s : fsys)
  (pmc_files_list : list (list string)) (workload_dir soc : string)
  : result (pmc_list * writes * fsys) :=
  let workload_perfmon_dir := (workload_dir ++ "/perfmon")%string in
  prof <- getitem soc perfmon_config ;;
  tcc_channels <- getitem "TCC_channels" prof ;;
  let pl := mk_pmc_list initial_buckets (initial_TCC2 tcc_channels) in
  '(pl, fs, s) <- coalesce_files_on FS workload_perfmon_dir (pl, [], s) pmc_files_list ;;
  pl <- sort_channels pl (seq 0 tcc_channels) ;;
  OK (pl, fs, s).

(** [perfmon_emit(pmc_list, workload_dir, soc)] from the state [s]: the
    number of passes is computed, then the schedule is opened, then the
    passes are written.  The result is the content of the schedule and the
    state left. *)
Definition perfmon_emit_on {fsys} (FS : file_system fsys) (s : fsys)
  (pl : pmc_list) (workload_dir soc : string) : result (string * fsys) :=
  let workload_perfmon_dir := (workload_dir ++ "/perfmon")%string in
  prof <- getitem soc perfmon_config ;;
  n <- niter prof pl ;;
  s' <- open_w FS s (workload_perfmon_dir ++ "/pmc_perf.txt")%string ;;
  ps <- emit_loop prof pl (seq 0 n) 0 ;;
  OK ((String.concat "" (map (fun line => line ++ newline) (map pass_line ps))
       ++ newline ++ "gpu:" ++ newline ++ "range:" ++ newline
       ++ "kernel:" ++ newline)%string, s').

(** [pmc_filter(workload_dir, perfmon_dir, soc)] from the state [s], on the
    lines of the roofline reference files found: the files written and the
    state left.  The directory [workload_dir/perfmon] is made when it is not
    there and removed when it is. *)
Definition pmc_filter {fsys} (FS : file_system fsys) (s : fsys)
  (workload_dir soc : string) (ref_pmc_files_list : list (list string))
  : result (writes * fsys) :=
  let workload_perfmon_dir := (workload_dir ++ "/perfmon")%string in
  s <- (if negb (isdir FS s workload_perfmon_dir)
        then makedirs FS s workload_perfmon_dir
        else rmtree FS s workload_perfmon_dir) ;;
  let pmc_files_list := ref_pmc_files_list in
  '(pmc_list, fs, s) <- perfmon_coalesce_on FS s pmc_files_list workload_dir soc ;;
  '(text, s) <- perfmon_emit_on FS s pmc_list workload_dir soc ;;
  OK (fs ++ [((workload_perfmon_dir ++ "/pmc_perf.txt")%string, text)], s).

(* ================================================================== *)
(** ** Reading a run on a file system *)

(** Opening the files of [paths] one after the other. *)
Fixpoint open_all {fsys} (FS : file_system fsys) (s : fsys) (paths : list string)
  : result fsys :=
  match paths with
  | [] => OK s
  | p :: paths' => s' <- open_w FS s p ;; open_all FS s' paths'
  end.

(** The file the coalescer opens for a line, if any: the file of the level
    counter of a counter-list line with the accumulator token. *)
Definition line_level_files (workload_perfmon_dir line : string) : list string :=
  match match_pmc (strip (before "#" line)) with
  | Some group =>
      let counters := split_ws group in
      if mem ACCUM counters then
        match (nindex <- index_of ACCUM counters ;;
               py_nth counters (Z.of_nat nindex - 1)) with
        | OK level_counter =>
            [(workload_perfmon_dir ++ "/" ++ level_counter ++ ".txt")%string]
        | Raise _ => []
        end
      else []
  | None => []
  end.

(** The level-counter files of all the sources, in reading order. *)
Definition level_files (workload_dir : string) (files : list (list string))
  : list string :=
  flat_map (flat_map (line_level_files (workload_dir ++ "/perfmon")%string)) files.

(** A result with the state of the file system it leaves. *)
Definition on_state {A fsys} (r : result A) (s : fsys) : result (A * fsys) :=
  match r with
  | OK a => OK (a, s)
  | Raise e => Raise e
  end.

(** A file system that is a set of directories: a file can be opened for
    writing when the text before the last slash of its path is one of
    them. *)
Definition dirname (p : string) : string :=
  match before_last "/" p with
  | Some d => d
  | None => EmptyString
  end.

(** The directories above [p]: the text before each slash of it. *)
Fixpoint parents (p : string) : list string :=
  match p with
  | EmptyString => []
  | String c p' =>
      (if Ascii.eqb c "/" then [EmptyString] else []) ++ map (String c) (parents p')
  end.

Definition directories : file_system (list string) :=
  mk_file_system
    (fun s d => mem d s)
    (fun s d => if mem d s then Raise FileExistsError
                else OK (d :: filter (fun x => negb (mem x s)) (parents d) ++ s))
    (fun s d => if mem d s
                then OK (filter (fun x => negb (x =? d)%string
                                          && negb (String.prefix (d ++ "/") x)) s)
                else Raise FileNotFoundError)
    (fun s p => if mem (dirname p) s then OK s else Raise FileNotFoundError).

(* ================================================================== *)
(** ** Example inputs *)

Definition two_sources : list (list string) :=
  [ [ "# SQ and TCC counters";
      "pmc: SQ_WAVES SQ_INSTS SQC_HITS SQ_A SQ_B SQ_C SQ_D SQ_E SQ_F SQ_G TCC_HIT TCC_MISS TCC_REQ TCC_READ TCC_WRITE";
      "pmc: TCC_HIT[0] TCC_MISS[0] TCC_HIT[1] TCC_MISS[1] TCC_REQ[1] TCC_A[1] TCC_B[1]";
      "gpu: 0" ];
    [ "pmc: SQ_WAVES GRBM_COUNT TCC_HIT[0]  # again";
      "pmc: SQ_BUSY_LEVEL SQ_ACCUM_PREV_HIRES";
      "pmc:" ] ].

(** A channel token named before another that sorts below it, and named
    again by a second source. *)
Definition unsorted_sources : list (list string) :=
  [ [ "pmc: TCC_B[0] TCC_A[0]" ]; [ "pmc: TCC_B[0]" ] ].

(** One token for every channel of a profile with 16 channels, with another
    base name on channel 1. *)
Definition uneven_sources : list (list string) :=
  [ [ "pmc: TCC_A[0] TCC_B[1] TCC_A[2] TCC_A[3] TCC_A[4] TCC_A[5] TCC_A[6] TCC_A[7] TCC_A[8] TCC_A[9] TCC_A[10] TCC_A[11] TCC_A[12] TCC_A[13] TCC_A[14] TCC_A[15]" ] ].

Definition level_line : string :=
  "pmc: SQ_WAVES SQ_INSTS_LEVEL SQ_ACCUM_PREV_HIRES".

Definition accum_first_line : string :=
  "pmc: SQ_ACCUM_PREV_HIRES SQ_WAVES SQ_INSTS".

(** One pass of two dispatches: the counter column [counter], the kernel
    names, the grid sizes, and times from [t0]. *)
Definition pass_table (counter : string) (names grd : list cell) (t0 : Z)
  : DataFrame :=
  mk_df 2
    [ ("Index", [Int 0; Int 1]);
      ("KernelName", names);
      ("gpu-id", [Int 0; Int 0]);
      ("queue-id", [Int 0; Int 0]);
      ("pid", [Int 77; Int 77]);
      ("grd", grd);
      ("wgr", [Int 64; Int 64]);
      ("lds", [Int 0; Int 0]);
      ("scr", [Int 0; Int 0]);
      ("arch_vgpr", [Int 8; Int 8]);
      ("accum_vgpr", [Int 0; Int 0]);
      ("sgpr", [Int 16; Int 16]);
      (counter, [Int 10; Int 20]);
      ("DispatchNs", [Int t0; Int (t0 + 100)]);
      ("BeginNs", [Int (t0 + 10); Int (t0 + 110)]);
      ("EndNs", [Int (t0 + 20); Int (t0 + 120)]);
      ("CompleteNs", [Int (t0 + 30); Int (t0 + 130)]) ].

(** Two passes that agree but for the grid size of the second dispatch. *)
Definition grid_differs : list (string * DataFrame) :=
  [ ("w/pmc_perf_0.csv",
     pass_table "SQ_WAVES" [Text "k"; Text "k"] [Int 64; Int 64] 1000);
    ("w/pmc_perf_1.csv",
     pass_table "SQ_INSTS" [Text "k"; Text "k"] [Int 64; Int 128] 5000) ].

Definition grid_differs_joined : DataFrame :=
  Eval vm_compute in
    match join_files "kernel" grid_differs 0 None with
    | (_, OK (Some df)) => df
    | _ => mk_df 0 []
    end.

(** Two passes whose first rows get the same key under the strategy by grid
    from different kernel names: the grid column holds text. *)
Definition same_key_other_name : list (string * DataFrame) :=
  [ ("w/pmc_perf_0.csv",
     pass_table "SQ_WAVES" [Text "k - 1"; Text "j"] [Text "2"; Text "8"] 1000);
    ("w/pmc_perf_1.csv",
     pass_table "SQ_INSTS" [Text "k"; Text "j"] [Text "1 - 2"; Text "8"] 5000) ].

Definition same_key_other_name_joined : DataFrame :=
  Eval vm_compute in
    match join_files "grid" same_key_other_name 0 None with
    | (_, OK (Some df)) => df
    | _ => mk_df 0 []
    end.

(** The bucket structure of [two_sources] on vega10. *)
Definition two_sources_pl : pmc_list :=
  Eval vm_compute in
    match perfmon_coalesce two_sources "w" "vega10" with
    | OK (pl, _) => pl
    | Raise _ => mk_pmc_list [] []
    end.

(** The bucket structure of no source at all on vega10. *)
Definition no_sources_pl : pmc_list :=
  Eval vm_compute in
    match perfmon_coalesce [] "w" "vega10" with
    | OK (pl, _) => pl
    | Raise _ => mk_pmc_list [] []
    end.

(** A source whose counters fit one pass. *)
Definition small_sources : list (list string) :=
  [ [ "pmc: SQ_WAVES SQ_INSTS GRBM_COUNT TCC_HIT TCC_MISS  # one pass" ] ].

Definition small_pl : pmc_list :=
  Eval vm_compute in
    match perfmon_coalesce small_sources "w" "vega10" with
    | OK (pl, _) => pl
    | Raise _ => mk_pmc_list [] []
    end.

(** Reference files as [perfmon_filter] finds them. *)
Definition some_refs : list ref_file :=
  [ ("ref/pmc_sq_perf1.txt", ["pmc: SQ_WAVES SQ_INSTS"]);
    ("ref/pmc_SQ_perf2.txt", ["pmc: SQ_BUSY_CYCLES"]);
    ("ref/mi200/pmc_tcc_perf.txt", ["pmc: TCC_HIT[0] TCC_MISS"]) ].

(** The trace of the run on [grid_differs] and the table it writes. *)
Definition grid_differs_trace : list event :=
  Eval vm_compute in fst (join_prof "w" "kernel" false None grid_differs).

Definition grid_differs_unified : unified :=
  Eval vm_compute in
    match written grid_differs_trace with
    | u :: _ => u
    | [] => mk_unified (mk_df 0 []) [] []
    end.

(** A pass of an older profiler, without the column of the accumulation
    registers. *)
Definition no_accum : list (string * DataFrame) :=
  [ ("w/pmc_perf_0.csv",
     mk_df 1
       [ ("Index", [Int 0]); ("KernelName", [Text "k"]); ("gpu-id", [Int 0]);
         ("grd", [Int 64]); ("wgr", [Int 64]); ("lds", [Int 0]); ("scr", [Int 0]);
         ("arch_vgpr", [Int 8]); ("sgpr", [Int 16]); ("SQ_WAVES", [Int 10]);
         ("BeginNs", [Int 10]); ("EndNs", [Int 20]) ]) ].

Definition no_accum_joined : DataFrame :=
  Eval vm_compute in
    match join_files "kernel" no_accum 0 None with
    | (_, OK (Some df)) => df
    | _ => mk_df 0 []
    end.

(* ================================================================== *)
(** * Properties *)

(** Split a conjunction of boolean tests in a hypothesis into its tests. *)
Ltac split_andb H := repeat (apply andb_prop in H as [H ?]).

(** ** Lists, slices and rounded-up quotients *)

Lemma mapM_ok {A B} (f : A -> result B) (g : A -> B) (l : list A) :
  (forall x, In x l -> f x = OK (g x)) -> mapM f l = OK (map g l).
Proof.
  induction l as [|a l IH]; intros H; simpl; [reflexivity|].
  rewrite (H a (or_introl eq_refl)). simpl.
  rewrite IH by (intros x Hx; apply H; right; exact Hx).
  reflexivity.
Qed.

Lemma firstn_plus {A} (a b : nat) (l : list A) :
  firstn (a + b) l = firstn a l ++ firstn b (skipn a l).
Proof.
  revert l. induction a as [|a IH]; intros l; simpl; [reflexivity|].
  destruct l as [|x l]; simpl.
  - now rewrite firstn_nil.
  - now rewrite IH.
Qed.

Lemma nth_slice_length N l i : List.length (nth_slice N l i) <= N.
Proof.
  unfold nth_slice, slice.
  replace (i * N + N - i * N) with N by lia.
  apply firstn_le_length.
Qed.

Lemma concat_nth_slices N l m :
  List.concat (map (nth_slice N l) (seq 0 m)) = firstn (m * N) l.
Proof.
  induction m as [|m IH]; [reflexivity|].
  rewrite seq_S, map_app, concat_app, IH. simpl.
  rewrite app_nil_r. unfold nth_slice, slice.
  replace (m * N + N - m * N) with N by lia.
  replace (N + m * N) with (m * N + N) by lia.
  now rewrite firstn_plus.
Qed.

Lemma ceil_div_spec a b : 1 <= b -> forall i, i < ceil_div a b <-> i * b < a.
Proof.
  intros Hb i. unfold ceil_div. split; intros H.
  - assert (Hd : i + 1 <= (a + b - 1) / b) by lia.
    assert (Hm : (i + 1) * b <= a + b - 1).
    { etransitivity; [apply Nat.mul_le_mono_r, Hd|].
      rewrite Nat.mul_comm. apply Nat.Div0.mul_div_le. }
    nia.
  - assert (Hd : i + 1 <= (a + b - 1) / b); [|lia].
    apply Nat.div_le_lower_bound; nia.
Qed.

Lemma ceil_div_mul_le a b : 1 <= b -> a <= ceil_div a b * b.
Proof.
  intros Hb. destruct (Nat.le_gt_cases a (ceil_div a b * b)) as [H|H]; [exact H|].
  apply (ceil_div_spec a Hb) in H. lia.
Qed.

Lemma ceil_div_mono a a' b : 1 <= b -> a <= a' -> ceil_div a b <= ceil_div a' b.
Proof.
  intros Hb H. unfold ceil_div. apply Nat.Div0.div_le_mono. lia.
Qed.

Lemma ceil_div_0 b : 1 <= b -> ceil_div 0 b = 0.
Proof. intros Hb. unfold ceil_div. apply Nat.div_small. lia. Qed.

Lemma nth_slice_nil N l i :
  1 <= N -> is_nil (nth_slice N l i) = negb (i <? ceil_div (List.length l) N).
Proof.
  intros HN. unfold nth_slice, slice.
  replace (i * N + N - i * N) with N by lia.
  destruct (i <? ceil_div (List.length l) N) eqn:E.
  - apply Nat.ltb_lt, (ceil_div_spec _ HN) in E.
    assert (Hlen : List.length (skipn (i * N) l) <> 0) by (rewrite length_skipn; lia).
    destruct (skipn (i * N) l) as [|x r]; [easy|].
    destruct N; [lia|reflexivity].
  - apply Nat.ltb_ge in E.
    assert (Hge : List.length l <= i * N).
    { destruct (Nat.le_gt_cases (List.length l) (i * N)) as [H|H]; [exact H|].
      apply (ceil_div_spec _ HN) in H. lia. }
    rewrite skipn_all2 by exact Hge. now rewrite firstn_nil.
Qed.

Lemma concat_nth_slices_all N l m :
  1 <= N -> ceil_div (List.length l) N <= m ->
  List.concat (map (nth_slice N l) (seq 0 m)) = l.
Proof.
  intros HN Hm. rewrite concat_nth_slices. apply firstn_all2.
  pose proof (ceil_div_mul_le (List.length l) HN). nia.
Qed.

Lemma count_below A s m :
  List.length (filter (fun i => i <? A) (seq s m)) = Nat.min (A - s) m.
Proof.
  revert s. induction m as [|m IH]; intros s; simpl; [lia|].
  destruct (s <? A) eqn:E; simpl; rewrite IH.
  - apply Nat.ltb_lt in E. lia.
  - apply Nat.ltb_ge in E. lia.
Qed.

Lemma nonempty_count_nth_slices N l m :
  1 <= N -> ceil_div (List.length l) N <= m ->
  nonempty_count (map (nth_slice N l) (seq 0 m)) = ceil_div (List.length l) N.
Proof.
  intros HN Hm. unfold nonempty_count.
  assert (E : forall s, filter (fun s => negb (is_nil s)) (map (nth_slice N l) s)
              = map (nth_slice N l)
                    (filter (fun i => i <? ceil_div (List.length l) N) s)).
  { induction s as [|i s IH]; simpl; [reflexivity|].
    rewrite nth_slice_nil by exact HN. rewrite negb_involutive.
    destruct (i <? _); simpl; now rewrite IH. }
  rewrite E, length_map, count_below. lia.
Qed.

Lemma list_max_map_mono (f : nat -> nat) l :
  f 0 = 0 -> (forall a b, a <= b -> f a <= f b) ->
  list_max (map f l) = f (list_max l).
Proof.
  intros H0 Hm. induction l as [|x l IH]; simpl; [now rewrite H0|].
  rewrite IH. destruct (Nat.le_ge_cases x (list_max l)) as [H|H].
  - rewrite (Nat.max_r _ _ H). apply Nat.max_r, Hm, H.
  - rewrite (Nat.max_l _ _ H). apply Nat.max_l, Hm, H.
Qed.

Lemma list_max_ge l x : In x l -> x <= list_max l.
Proof.
  induction l as [|y l IH]; simpl; [easy|].
  intros [->|H]; [lia|]. specialize (IH H). lia.
Qed.

(** ** Dictionaries *)

Lemma dict_get_map {V} (f : string -> V) (l : list string) (k : string) :
  In k l -> dict_get k (map (fun key => (key, f key)) l) = Some (f k).
Proof.
  induction l as [|x l IH]; simpl; [easy|].
  intros H. destruct (String.eqb_spec x k) as [->|Hne]; [reflexivity|].
  destruct H as [H|H]; [contradiction|]. apply IH, H.
Qed.

Lemma dict_get_In_keys {V} (d : dict V) (k : string) :
  In k (keys d) -> exists v, dict_get k d = Some v.
Proof.
  induction d as [|[k' v] d IH]; simpl; [easy|].
  intros H. destruct (String.eqb_spec k' k) as [->|Hne]; [eauto|].
  destruct H as [H|H]; [contradiction|]. apply IH, H.
Qed.

Lemma getitem_cap prof key : 1 <= cap prof key -> getitem key prof = OK (cap prof key).
Proof.
  unfold cap, getitem. destruct (dict_get key prof); [reflexivity|lia].
Qed.

Lemma getitem_bucket pl key :
  dict_mem key (buckets pl) = true -> getitem key (buckets pl) = OK (bucket pl key).
Proof.
  unfold dict_mem, bucket, getitem. destruct (dict_get key (buckets pl)); easy.
Qed.

Lemma getitem_channel pl ch :
  dict_mem ch (TCC2 pl) = true -> getitem ch (TCC2 pl) = OK (channel pl ch).
Proof.
  unfold dict_mem, channel, getitem. destruct (dict_get ch (TCC2 pl)); easy.
Qed.

Lemma ordinary_key_mem pl key :
  In key (ordinary_keys pl) -> dict_mem key (buckets pl) = true.
Proof.
  unfold ordinary_keys. intros H. apply filter_In in H as [H _].
  apply dict_get_In_keys in H as [v Hv]. unfold dict_mem. now rewrite Hv.
Qed.

(** ** Rational quotients and their ceilings *)

Lemma Qceiling_quot (a n : nat) :
  1 <= n -> Qceiling (Z.of_nat a # Pos.of_nat n) = Z.of_nat (ceil_div a n).
Proof.
  intros Hn. unfold Qceiling, Qfloor, Qopp, Qnum, Qden, ceil_div.
  rewrite Nat2Z.inj_div, Nat2Z.inj_sub, Nat2Z.inj_add by lia.
  rewrite <- (positive_nat_Z (Pos.of_nat n)), Nat2Pos.id by lia.
  assert (Hy : (0 < Z.of_nat n)%Z) by lia.
  generalize dependent (Z.of_nat n). generalize (Z.of_nat a).
  intros x y Hy. change (Z.of_nat 1) with 1%Z.
  pose proof (Z.div_mod (- x) y ltac:(lia)) as E1.
  pose proof (Z.mod_pos_bound (- x) y Hy) as B1.
  pose proof (Z.div_mod (x + y - 1) y ltac:(lia)) as E2.
  pose proof (Z.mod_pos_bound (x + y - 1) y Hy) as B2.
  nia.
Qed.

Lemma ceil_true_div a b q : true_div a b = OK q -> ceil q = ceil_div a b.
Proof.
  unfold true_div. destruct b as [|b'] eqn:Eb; [discriminate|].
  rewrite <- Eb. intros [= <-]. unfold ceil.
  rewrite Qceiling_quot by lia. apply Nat2Z.id.
Qed.

Lemma ceil_le q r : (q <= r)%Q -> ceil q <= ceil r.
Proof.
  intros H. unfold ceil. apply Qceiling_resp_le in H. lia.
Qed.

Lemma ceil_Qmax_list l m : Qmax_list l = OK m -> ceil m = list_max (map ceil l).
Proof.
  destruct l as [|x l]; [discriminate|]. intros [= <-]. simpl.
  revert x. induction l as [|y l IH]; intros x; simpl; [lia|].
  rewrite IH. destruct (Qle_bool y x) eqn:E.
  - apply Qle_bool_iff, ceil_le in E. lia.
  - assert (H : (x <= y)%Q).
    { destruct (Qlt_le_dec x y) as [H|H]; [now apply Qlt_le_weak|].
      apply Qle_bool_iff in H. congruence. }
    apply ceil_le in H. lia.
Qed.

Lemma true_div_ok a N : 1 <= N -> true_div a N = OK (Z.of_nat a # Pos.of_nat N).
Proof. destruct N; [lia|reflexivity]. Qed.

Lemma ceil_quot a N : 1 <= N -> ceil (Z.of_nat a # Pos.of_nat N) = ceil_div a N.
Proof. intros H. apply (@ceil_true_div a N), true_div_ok, H. Qed.

Lemma Qmax_list_map {A} (f : A -> Q) (g : A -> nat) (l : list A) :
  l <> [] -> (forall x, In x l -> ceil (f x) = g x) ->
  exists m, Qmax_list (map f l) = OK m /\ ceil m = list_max (map g l).
Proof.
  intros Hl Hfg. destruct l as [|x l]; [easy|].
  eexists. split; [reflexivity|].
  rewrite (@ceil_Qmax_list (map f (x :: l)) _ eq_refl).
  rewrite map_map. f_equal. apply map_ext_in, Hfg.
Qed.

(** ** The scheduler in closed form *)

Section Scheduler.

Variable prof : profile.
Variable pl : pmc_list.
Hypothesis ready : emit_ready prof pl = true.

Let N := cap prof "TCC".
Let A := ceil_div (List.length (bucket pl "TCC")) N.

Lemma ready_ordinary key : In key (ordinary_keys pl) -> 1 <= cap prof key.
Proof.
  intros H. unfold emit_ready in ready.
  split_andb ready.
  rewrite forallb_forall in ready. apply Nat.leb_le, ready, H.
Qed.

Lemma ready_keys : ordinary_keys pl <> [].
Proof.
  unfold emit_ready in ready.
  split_andb ready.
  destruct (ordinary_keys pl); easy.
Qed.

Lemma ready_TCC : dict_mem "TCC" (buckets pl) = true.
Proof.
  unfold emit_ready in ready.
  now split_andb ready.
Qed.

Lemma ready_N : 1 <= N.
Proof.
  unfold emit_ready in ready.
  split_andb ready. now apply Nat.leb_le.
Qed.

Lemma ready_channels : 1 <= cap prof "TCC_channels".
Proof.
  unfold emit_ready in ready.
  split_andb ready. now apply Nat.leb_le.
Qed.

Lemma ready_channel ch :
  In ch (channels prof) -> dict_mem (str ch) (TCC2 pl) = true.
Proof.
  intros H. unfold emit_ready in ready.
  split_andb ready.
  match goal with H' : forallb _ (channels prof) = true |- _ =>
    rewrite forallb_forall in H'; apply H', H end.
Qed.

Lemma pmc_cnt_ready :
  pmc_cnt prof pl
  = OK (map (fun key => Z.of_nat (List.length (bucket pl key)) # Pos.of_nat (cap prof key))
            (ordinary_keys pl)).
Proof.
  unfold pmc_cnt. apply mapM_ok. intros key Hkey.
  rewrite getitem_bucket by (apply ordinary_key_mem, Hkey). simpl.
  rewrite getitem_cap by (apply ready_ordinary, Hkey). simpl.
  apply true_div_ok, ready_ordinary, Hkey.
Qed.

Lemma tcc2_cnt_ready :
  tcc2_cnt prof pl (cap prof "TCC_channels")
  = OK (map (fun ch => Z.of_nat (List.length (channel pl (str ch))) # Pos.of_nat N)
            (channels prof)).
Proof.
  unfold tcc2_cnt.
  rewrite (mapM_ok _ (fun ch => List.length (channel pl (str ch)))).
  2:{ intros ch Hch. rewrite getitem_channel by (apply ready_channel, Hch).
      reflexivity. }
  simpl. rewrite getitem_cap by apply ready_N. simpl.
  rewrite (mapM_ok _ (fun n => Z.of_nat n # Pos.of_nat N)).
  2:{ intros n _. apply true_div_ok, ready_N. }
  now rewrite map_map.
Qed.

Lemma niter_ready : niter prof pl = OK (pass_count prof pl).
Proof.
  unfold niter. rewrite pmc_cnt_ready. simpl.
  rewrite (getitem_cap prof "TCC_channels") by apply ready_channels. simpl.
  rewrite getitem_bucket by apply ready_TCC. simpl.
  rewrite getitem_cap by apply ready_N. simpl.
  rewrite true_div_ok by apply ready_N. simpl.
  rewrite tcc2_cnt_ready. simpl.
  destruct (@Qmax_list_map _
              (fun key => Z.of_nat (List.length (bucket pl key)) # Pos.of_nat (cap prof key))
              (fun key => ceil_div (List.length (bucket pl key)) (cap prof key))
              (ordinary_keys pl) ready_keys) as (m & -> & Hm).
  { intros key Hkey. apply ceil_quot, ready_ordinary, Hkey. }
  simpl.
  destruct (@Qmax_list_map _
              (fun ch => Z.of_nat (List.length (channel pl (str ch))) # Pos.of_nat N)
              (fun ch => ceil_div (List.length (channel pl (str ch))) N)
              (channels prof)) as (m2 & -> & Hm2).
  { unfold channels. pose proof ready_channels.
    destruct (cap prof "TCC_channels"); [lia|easy]. }
  { intros ch _. apply ceil_quot, ready_N. }
  simpl. unfold pass_count. fold N. rewrite Hm, Hm2, ceil_quot by apply ready_N.
  do 3 f_equal.
  rewrite <- (map_map (fun ch => List.length (channel pl (str ch)))
                      (fun n => ceil_div n N)).
  apply list_max_map_mono.
  - apply ceil_div_0, ready_N.
  - intros a b. apply ceil_div_mono, ready_N.
Qed.

Lemma emit_pass_ready iter :
  emit_pass prof pl iter (iter - A)
  = OK (pass_at prof pl iter, iter + 1 - A).
Proof.
  unfold emit_pass.
  rewrite (mapM_ok _ (fun key => (key, nth_slice (cap prof key) (bucket pl key) iter))).
  2:{ intros key Hkey.
      rewrite getitem_cap by (apply ready_ordinary, Hkey). simpl.
      rewrite getitem_bucket by (apply ordinary_key_mem, Hkey). reflexivity. }
  simpl. rewrite getitem_cap by apply ready_N. simpl.
  rewrite getitem_bucket by apply ready_TCC. simpl.
  fold N. change (slice (iter * N) (iter * N + N) (bucket pl "TCC"))
    with (nth_slice N (bucket pl "TCC") iter).
  rewrite nth_slice_nil by apply ready_N. fold A.
  unfold pass_at. fold N. fold A.
  destruct (iter <? A) eqn:E; cbn [bind negb].
  - apply Nat.ltb_lt in E. do 2 f_equal. lia.
  - apply Nat.ltb_ge in E.
    rewrite (getitem_cap prof "TCC_channels") by apply ready_channels.
    cbn [bind].
    rewrite (mapM_ok _ (fun ch => nth_slice N (channel pl (str ch)) (iter - A))).
    2:{ intros ch Hch. rewrite getitem_channel by (apply ready_channel, Hch).
        reflexivity. }
    cbn [bind]. do 2 f_equal.
    + f_equal. pose proof (nth_slice_nil (bucket pl "TCC") iter ready_N) as Hn.
      fold A in Hn. apply Nat.ltb_ge in E. rewrite E in Hn. simpl in Hn.
      destruct (nth_slice N (bucket pl "TCC") iter); [reflexivity|discriminate].
    + lia.
Qed.

Lemma emit_loop_ready n s :
  emit_loop prof pl (seq s n) (s - A) = OK (map (pass_at prof pl) (seq s n)).
Proof.
  revert s. induction n as [|n IH]; intros s; simpl; [reflexivity|].
  rewrite emit_pass_ready. cbn [bind].
  replace (s + 1 - A) with (S s - A) by lia. rewrite IH. reflexivity.
Qed.

Lemma emit_passes_ready :
  emit_passes prof pl = OK (map (pass_at prof pl) (seq 0 (pass_count prof pl))).
Proof.
  unfold emit_passes. rewrite niter_ready. simpl.
  apply (emit_loop_ready (pass_count prof pl) 0).
Qed.

End Scheduler.

(** ** The pass scheduler *)

Lemma ip_slice_pass_at prof pl key i :
  In key (ordinary_keys pl) ->
  ip_slice key (pass_at prof pl i) = nth_slice (cap prof key) (bucket pl key) i.
Proof.
  intros H. unfold ip_slice, pass_at. cbn [pass_ip].
  now rewrite (dict_get_map (fun key => nth_slice (cap prof key) (bucket pl key) i) _ _ H).
Qed.

Lemma pass_count_ordinary prof pl key :
  In key (ordinary_keys pl) ->
  ceil_div (List.length (bucket pl key)) (cap prof key) <= pass_count prof pl.
Proof.
  intros H. unfold pass_count. etransitivity; [|apply Nat.le_max_l].
  apply list_max_ge.
  apply (in_map (fun key => ceil_div (List.length (bucket pl key)) (cap prof key))), H.
Qed.

Lemma pass_count_channel prof pl ch :
  1 <= cap prof "TCC" -> In ch (channels prof) ->
  ceil_div (List.length (bucket pl "TCC")) (cap prof "TCC")
  + ceil_div (List.length (channel pl (str ch))) (cap prof "TCC")
  <= pass_count prof pl.
Proof.
  intros HN H. unfold pass_count. etransitivity; [|apply Nat.le_max_r].
  apply Nat.add_le_mono_l, ceil_div_mono; [exact HN|].
  apply list_max_ge.
  apply (in_map (fun ch => List.length (channel pl (str ch)))), H.
Qed.

Lemma pass_count_TCC prof pl :
  ceil_div (List.length (bucket pl "TCC")) (cap prof "TCC") <= pass_count prof pl.
Proof. unfold pass_count. lia. Qed.

Lemma pass_tcc_low prof pl A n :
  A = ceil_div (List.length (bucket pl "TCC")) (cap prof "TCC") -> n <= A ->
  map pass_tcc (map (pass_at prof pl) (seq 0 n))
  = map (nth_slice (cap prof "TCC") (bucket pl "TCC")) (seq 0 n).
Proof.
  intros -> Hn. rewrite map_map. apply map_ext_in. intros i Hi.
  apply in_seq in Hi. unfold pass_at. cbn [pass_tcc].
  destruct (Nat.ltb_spec i (ceil_div (List.length (bucket pl "TCC")) (cap prof "TCC")));
    [reflexivity|lia].
Qed.

Lemma pass_tcc_high prof pl A m :
  A = ceil_div (List.length (bucket pl "TCC")) (cap prof "TCC") ->
  map pass_tcc (map (pass_at prof pl) (seq A m))
  = map (fun j => List.concat (channel_parts prof pl j)) (seq 0 m).
Proof.
  intros ->. rewrite map_map.
  set (A := ceil_div (List.length (bucket pl "TCC")) (cap prof "TCC")).
  rewrite <- (Nat.add_0_r A) at 1. generalize 0 as s.
  induction m as [|m IH]; intros s; [reflexivity|].
  cbn [seq map]. replace (S (A + s)) with (A + S s) by lia. rewrite IH. f_equal.
  unfold pass_at. cbn [pass_tcc]. fold A.
  destruct (Nat.ltb_spec (A + s) A); [lia|].
  unfold channel_parts. now replace (A + s - A) with s by lia.
Qed.

(** C1.  On every profile and bucket structure the scheduler accepts, the
    number of [pmc:] lines written equals the larger of: the largest
    rounded-up quotient of bucket size by capacity over the ordinary blocks;
    and the rounded-up quotient for the aggregated TCC bucket plus the
    rounded-up quotient of the largest per-channel size by the TCC
    capacity. *)
Theorem emit_lines_count (prof : profile) (pl : pmc_list) :
  emit_ready prof pl = true ->
  exists lines, emit_lines prof pl = OK lines
                /\ List.length lines = pass_count prof pl.
Proof.
  intros ready. unfold emit_lines. rewrite (emit_passes_ready prof pl ready).
  eexists. split; [reflexivity|]. now rewrite !length_map, length_seq.
Qed.

(** C2.  For every ordinary block, for the aggregated TCC bucket and for
    every channel of the profile, the slices of the bucket over the emitted
    passes, in pass order, concatenate to the bucket, and the number of
    passes holding one of its counters is the rounded-up quotient of its
    size by the capacity. *)
Theorem emit_passes_round_trip (prof : profile) (pl : pmc_list) :
  emit_ready prof pl = true ->
  exists ps, emit_passes prof pl = OK ps /\ round_trip prof pl ps.
Proof.
  intros ready. rewrite (emit_passes_ready prof pl ready). eexists. split; [reflexivity|].
  pose proof (ready_N prof pl ready) as HN.
  pose proof (pass_count_TCC prof pl) as HA.
  unfold round_trip.
  set (N := cap prof "TCC") in *.
  set (A := ceil_div (List.length (bucket pl "TCC")) N) in *.
  set (n := pass_count prof pl) in *.
  assert (Hfirst : firstn A (map (pass_at prof pl) (seq 0 n))
                   = map (pass_at prof pl) (seq 0 A)).
  { rewrite firstn_map. f_equal.
    replace n with (A + (n - A)) by lia.
    now rewrite seq_app, firstn_app, firstn_all2, length_seq, Nat.sub_diag, app_nil_r
      by (rewrite length_seq; lia). }
  assert (Hskip : skipn A (map (pass_at prof pl) (seq 0 n))
                  = map (pass_at prof pl) (seq A (n - A))).
  { rewrite skipn_map. f_equal.
    replace n with (A + (n - A)) at 1 by lia.
    rewrite seq_app, skipn_app, skipn_all2, length_seq, Nat.sub_diag by (rewrite length_seq; lia).
    reflexivity. }
  rewrite Hfirst, Hskip, length_map, length_seq.
  rewrite (@pass_tcc_low prof pl A A eq_refl (Nat.le_refl A)).
  rewrite (@pass_tcc_high prof pl A (n - A) eq_refl).
  repeat split.
  - rewrite map_map.
    erewrite map_ext_in by (intros i _; apply ip_slice_pass_at, H).
    apply concat_nth_slices_all; [apply (ready_ordinary prof pl ready), H|].
    apply pass_count_ordinary, H.
  - rewrite map_map.
    erewrite map_ext_in by (intros i _; apply ip_slice_pass_at, H).
    apply nonempty_count_nth_slices; [apply (ready_ordinary prof pl ready), H|].
    apply pass_count_ordinary, H.
  - exact HA.
  - apply concat_nth_slices_all; [exact HN|apply Nat.le_refl].
  - apply nonempty_count_nth_slices; [exact HN|apply Nat.le_refl].
  - apply concat_nth_slices_all; [exact HN|].
    pose proof (@pass_count_channel prof pl ch HN H). fold N A n in H0. lia.
  - apply nonempty_count_nth_slices; [exact HN|].
    pose proof (@pass_count_channel prof pl ch HN H). fold N A n in H0. lia.
Qed.

(** C3.  In every emitted pass the slice of every ordinary block has at most
    as many counters as the capacity of the block, and the TCC part is either
    one aggregated slice of at most the TCC capacity or one slice per channel,
    each of at most the TCC capacity. *)
Theorem emit_passes_within_capacity (prof : profile) (pl : pmc_list) :
  emit_ready prof pl = true ->
  exists ps, emit_passes prof pl = OK ps /\ Forall (within_capacity prof pl) ps.
Proof.
  intros ready. rewrite (emit_passes_ready prof pl ready). eexists. split; [reflexivity|].
  pose proof (ready_N prof pl ready) as HN.
  apply Forall_forall. intros p Hp. apply in_map_iff in Hp as (i & <- & _).
  unfold within_capacity, pass_at. cbn [pass_ip pass_tcc]. split.
  - apply Forall_forall. intros kv Hkv. apply in_map_iff in Hkv as (key & <- & _).
    apply nth_slice_length.
  - destruct (i <? _) eqn:E.
    + left. repeat split.
      * pose proof (@nth_slice_nil _ (bucket pl "TCC") i HN) as Hnil.
        rewrite E in Hnil. intros Heq. now rewrite Heq in Hnil.
      * apply nth_slice_length.
      * now exists i.
    + right. eexists. split; [reflexivity|]. split.
      * unfold channel_parts, channels. now rewrite length_map, length_seq.
      * apply Forall_forall. intros part Hpart.
        apply in_map_iff in Hpart as (ch & <- & _). apply nth_slice_length.
Qed.

(** ** Lines of the coalescer *)

Lemma mem_In x l : mem x l = true <-> In x l.
Proof.
  unfold mem. rewrite existsb_exists. split.
  - intros (y & Hy & E). apply String.eqb_eq in E. now subst.
  - intros H. exists x. split; [exact H|apply String.eqb_refl].
Qed.

Lemma mem_false x l : mem x l = false <-> ~ In x l.
Proof.
  rewrite <- mem_In. destruct (mem x l); split; intros H; easy.
Qed.

Lemma index_of_first x pre post :
  ~ In x pre -> index_of x (pre ++ x :: post) = OK (List.length pre).
Proof.
  induction pre as [|y pre IH]; simpl; intros H.
  - now rewrite String.eqb_refl.
  - destruct (String.eqb_spec y x) as [->|_]; [elim H; now left|].
    rewrite IH by (intros Hin; apply H; now right). reflexivity.
Qed.

Lemma nth_error_last (l : list string) d :
  l <> [] -> nth_error l (List.length l - 1) = Some (last l d).
Proof.
  induction l as [|x l IH]; [easy|]. intros _.
  destruct l as [|y l]; [reflexivity|].
  specialize (IH ltac:(easy)). cbn [List.length] in *.
  replace (S (S (List.length l)) - 1) with (S (S (List.length l) - 1)) by lia.
  exact IH.
Qed.

Lemma py_nth_at (l : list string) (i : Z) (k : nat) x :
  (if (i <? 0)%Z then i + Z.of_nat (List.length l) else i)%Z = Z.of_nat k ->
  nth_error l k = Some x -> py_nth l i = OK x.
Proof.
  intros Hj Hx. unfold py_nth. rewrite Hj, Nat2Z.id, Hx.
  assert (Hk : k < List.length l) by (apply nth_error_Some; congruence).
  destruct (Z.ltb_spec (Z.of_nat k) 0); [lia|].
  destruct (Z.leb_spec (Z.of_nat (List.length l)) (Z.of_nat k)); [lia|].
  reflexivity.
Qed.

Lemma py_nth_before pre x post :
  py_nth (pre ++ x :: post) (Z.of_nat (List.length pre) - 1)
  = OK (last pre (last post x)).
Proof.
  destruct pre as [|y pre].
  - apply py_nth_at with (k := List.length post).
    + cbn [List.length app]. change (Z.of_nat 0 - 1)%Z with (-1)%Z.
      cbn [Z.ltb Z.compare]. lia.
    + cbn [app last]. pose proof (@nth_error_last (x :: post) x ltac:(easy)) as E.
      cbn [List.length] in E.
      replace (S (List.length post) - 1) with (List.length post) in E by lia.
      rewrite E. destruct post; reflexivity.
  - apply py_nth_at with (k := List.length (y :: pre) - 1).
    + cbn [List.length].
      destruct (Z.ltb_spec (Z.of_nat (S (List.length pre)) - 1) 0); lia.
    + rewrite nth_error_app1 by (cbn [List.length]; lia).
      now rewrite (@nth_error_last (y :: pre) (last post x)) by easy.
Qed.

Lemma match_pmc_nonempty stext group :
  match_pmc stext = Some group -> stext <> EmptyString.
Proof. now destruct stext. Qed.

(** A counter-list line holding the accumulator token: nothing is bucketed,
    and the stripped line is written whole under the name of the token
    before the first accumulator token, from the end of the line when there
    is none before. *)
Lemma coalesce_line_level dir pl fs line group pre post :
  match_pmc (strip (before "#" line)) = Some group ->
  split_ws group = pre ++ ACCUM :: post -> ~ In ACCUM pre ->
  coalesce_line dir (pl, fs) line
  = OK (pl, fs ++ [((dir ++ "/" ++ last pre (last post ACCUM) ++ ".txt")%string,
                    (strip (before "#" line) ++ newline ++ newline ++ directives)%string)]).
Proof.
  intros Hm Hs Hpre. unfold coalesce_line.
  pose proof (match_pmc_nonempty Hm) as Hne.
  destruct (strip (before "#" line)) as [|c s] eqn:E; [easy|].
  rewrite Hm, Hs.
  assert (Hmem : mem ACCUM (pre ++ ACCUM :: post) = true).
  { apply mem_In, in_or_app. right. now left. }
  rewrite Hmem, index_of_first by exact Hpre. cbn [bind].
  rewrite py_nth_before. reflexivity.
Qed.

Lemma coalesce_line_skip dir st line :
  let stext := strip (before "#" line) in
  stext = EmptyString \/ match_pmc stext = None
  \/ (exists group, match_pmc stext = Some group /\ split_ws group = []) ->
  coalesce_line dir st line = OK st.
Proof.
  intros stext H. unfold coalesce_line. fold stext. destruct st as [pl fs].
  destruct H as [->|[H|(group & Hm & Hs)]]; [reflexivity| |].
  - rewrite H. now destruct stext.
  - rewrite Hm, Hs. now destruct stext.
Qed.

Lemma In_split_first (x : string) l :
  In x l -> exists pre post, l = pre ++ x :: post /\ ~ In x pre.
Proof.
  induction l as [|y l IH]; [easy|]. intros H.
  destruct (string_dec y x) as [->|Hne].
  - exists [], l. easy.
  - destruct H as [H|H]; [contradiction|].
    destruct (IH H) as (pre & post & -> & Hpre).
    exists (y :: pre), post. split; [reflexivity|].
    intros [E|E]; [now apply Hne|now apply Hpre].
Qed.

(** C7, as the code has it.  When a counter-list line holds the accumulator
    token, the whole stripped line, with every token on it, is written as one
    specification named after the token before the accumulator, and no token
    of the line enters a bucket: the bucket structure is unchanged. *)
Theorem level_line_written_whole dir pl fs line group :
  match_pmc (strip (before "#" line)) = Some group ->
  mem ACCUM (split_ws group) = true ->
  exists pre post,
    split_ws group = pre ++ ACCUM :: post /\ ~ In ACCUM pre
    /\ coalesce_line dir (pl, fs) line
       = OK (pl, fs ++ [((dir ++ "/" ++ last pre (last post ACCUM) ++ ".txt")%string,
                         (strip (before "#" line) ++ newline ++ newline
                          ++ directives)%string)]).
Proof.
  intros Hm Ha. apply mem_In, In_split_first in Ha as (pre & post & Hs & Hpre).
  exists pre, post. repeat split; [exact Hs|exact Hpre|].
  now apply coalesce_line_level with (group := group).
Qed.

(** C10.  When the accumulator token is the first token of a counter-list
    line, the level counter is the token at index -1, the last token of the
    line, and no exception is raised. *)
Theorem level_counter_wraps_around dir pl fs line group rest :
  match_pmc (strip (before "#" line)) = Some group ->
  split_ws group = ACCUM :: rest ->
  coalesce_line dir (pl, fs) line
  = OK (pl, fs ++ [((dir ++ "/" ++ last (ACCUM :: rest) ACCUM ++ ".txt")%string,
                    (strip (before "#" line) ++ newline ++ newline
                     ++ directives)%string)]).
Proof.
  intros Hm Hs.
  rewrite (@coalesce_line_level dir pl fs line group [] rest Hm Hs ltac:(easy)).
  cbn [last]. destruct rest; reflexivity.
Qed.

(** C8, as the code has it.  A line with the marker and no token after it
    is not reported as an error: like a line that is empty or only a
    comment and a line without the marker, it is skipped and leaves the
    state as it is. *)
Theorem skipped_lines_contribute_nothing dir st line :
  (let stext := strip (before "#" line) in
   stext = EmptyString \/ match_pmc stext = None
   \/ (exists group, match_pmc stext = Some group /\ split_ws group = [])) ->
  coalesce_line dir st line = OK st.
Proof. apply coalesce_line_skip. Qed.

(** ** Dictionaries, again *)

Lemma dict_get_set_same {V} (k : string) (v : V) d :
  dict_get k (dict_set k v d) = Some v.
Proof.
  induction d as [|[k' v'] d IH]; simpl.
  - now rewrite String.eqb_refl.
  - destruct (String.eqb_spec k' k) as [->|Hne]; simpl.
    + now rewrite String.eqb_refl.
    + destruct (String.eqb_spec k' k); [contradiction|exact IH].
Qed.

Lemma dict_get_set_other {V} (k k' : string) (v : V) d :
  k' <> k -> dict_get k' (dict_set k v d) = dict_get k' d.
Proof.
  intros Hne. induction d as [|[k0 v0] d IH]; simpl.
  - destruct (String.eqb_spec k k'); [congruence|reflexivity].
  - destruct (String.eqb_spec k0 k) as [->|Hk]; simpl.
    + destruct (String.eqb_spec k k'); [congruence|reflexivity].
    + destruct (String.eqb_spec k0 k'); [reflexivity|exact IH].
Qed.

Lemma keys_dict_set_mem {V} (k : string) (v : V) d :
  dict_mem k d = true -> keys (dict_set k v d) = keys d.
Proof.
  unfold dict_mem. induction d as [|[k' v'] d IH]; simpl; [discriminate|].
  destruct (String.eqb_spec k' k) as [->|Hne]; simpl; [reflexivity|].
  intros H. now rewrite IH.
Qed.

(** ** First appearances *)

Lemma first_appearances_In x l : In x (first_appearances l) <-> In x l.
Proof.
  induction l as [|y l IH]; simpl; [easy|].
  rewrite filter_In, IH. destruct (String.eqb_spec x y) as [->|Hne].
  - split; auto.
  - split; [intros [H|[H _]]; auto|].
    intros [H|H]; [auto|]. right. split; [exact H|reflexivity].
Qed.

Lemma first_appearances_NoDup l : NoDup (first_appearances l).
Proof.
  induction l as [|y l IH]; simpl; constructor.
  - rewrite filter_In. intros [_ H]. now rewrite String.eqb_refl in H.
  - now apply NoDup_filter.
Qed.

Lemma first_appearances_snoc l x :
  first_appearances (l ++ [x])
  = if mem x (first_appearances l) then first_appearances l
    else first_appearances l ++ [x].
Proof.
  induction l as [|y l IH]; simpl; [reflexivity|].
  rewrite IH. unfold mem at 2. cbn [existsb].
  destruct (String.eqb_spec x y) as [->|Hne]; cbn [orb].
  - destruct (mem y (first_appearances l)); [reflexivity|].
    rewrite filter_app. cbn [filter]. rewrite String.eqb_refl. cbn [negb].
    now rewrite app_nil_r.
  - fold (mem x (filter (fun y0 => negb (y0 =? y)%string) (first_appearances l))).
    assert (E : mem x (filter (fun y0 => negb (y0 =? y)%string) (first_appearances l))
                = mem x (first_appearances l)).
    { destruct (mem x (first_appearances l)) eqn:Hm.
      - apply mem_In. apply filter_In. split; [now apply mem_In|].
        now destruct (String.eqb_spec x y).
      - apply mem_false. intros H. apply filter_In in H as [H _].
        now apply mem_false in Hm. }
    rewrite E. destruct (mem x (first_appearances l)); [reflexivity|].
    rewrite filter_app. cbn [filter].
    destruct (String.eqb_spec x y); [contradiction|reflexivity].
Qed.

Lemma first_appearances_count l x :
  In x l -> count_occ string_dec (first_appearances l) x = 1.
Proof.
  intros H. apply first_appearances_In in H.
  pose proof (first_appearances_NoDup l) as Hnd.
  now apply (proj1 (NoDup_count_occ' string_dec _) Hnd).
Qed.

(** ** The coalescer builds first appearances *)

Lemma home_eqb_eq h1 h2 : home_eqb h1 h2 = true <-> h1 = h2.
Proof.
  destruct h1, h2; simpl; try (split; [discriminate|congruence]);
    rewrite String.eqb_eq; split; congruence.
Qed.

Lemma home_eqb_refl h : home_eqb h h = true.
Proof. now apply home_eqb_eq. Qed.

Lemma home_eqb_neq h1 h2 : h1 <> h2 -> home_eqb h1 h2 = false.
Proof.
  intros H. destruct (home_eqb h1 h2) eqn:E; [|reflexivity].
  now apply home_eqb_eq in E.
Qed.

Lemma tokens_of_snoc_same h seen t :
  home_of t = h -> tokens_of h (seen ++ [t]) = tokens_of h seen ++ [t].
Proof.
  intros <-. unfold tokens_of. rewrite filter_app. cbn [filter].
  now rewrite home_eqb_refl.
Qed.

Lemma tokens_of_snoc_other h seen t :
  home_of t <> h -> tokens_of h (seen ++ [t]) = tokens_of h seen.
Proof.
  intros H. unfold tokens_of. rewrite filter_app. cbn [filter].
  rewrite home_eqb_neq by exact H. apply app_nil_r.
Qed.

Lemma add_counter_home pl counter :
  add_counter pl counter
  = match home_of counter with
    | InBucket key => append_unique pl key counter
    | InChannel ch =>
        match dict_get ch (TCC2 pl) with
        | Some l => if mem counter l then OK pl
                    else OK (set_channel pl ch (l ++ [counter]))
        | None => OK (set_channel pl ch [counter])
        end
    end.
Proof.
  unfold add_counter, home_of. fold (IP_block_of counter).
  destruct (negb _); [reflexivity|]. now destruct (match_channel counter).
Qed.

Lemma snoc_unique l seen t :
  l = first_appearances seen ->
  (if mem t l then l else l ++ [t]) = first_appearances (seen ++ [t]).
Proof. intros ->. now rewrite first_appearances_snoc. Qed.

Lemma add_counter_coalesced seen pl t pl' :
  coalesced seen pl -> add_counter pl t = OK pl' -> coalesced (seen ++ [t]) pl'.
Proof.
  intros [Hb Hc]. rewrite add_counter_home.
  destruct (home_of t) as [b|c] eqn:Eh.
  - unfold append_unique, getitem. destruct (b =? "TCC2")%string; [discriminate|].
    pose proof (Hb b) as Hbb.
    destruct (dict_get b (buckets pl)) as [l|] eqn:El; [|discriminate].
    cbn [bind]. intros Hpl'.
    assert (Hch : forall ch, tokens_of (InChannel ch) (seen ++ [t])
                             = tokens_of (InChannel ch) seen).
    { intros ch. apply tokens_of_snoc_other. congruence. }
    assert (Hoth : forall key, key <> b ->
                               tokens_of (InBucket key) (seen ++ [t])
                               = tokens_of (InBucket key) seen).
    { intros key Hk. apply tokens_of_snoc_other. congruence. }
    pose proof (@snoc_unique l _ t Hbb) as Hsn.
    rewrite <- (@tokens_of_snoc_same _ seen t Eh) in Hsn.
    destruct (mem t l); injection Hpl' as <-; split.
    + intros key. destruct (string_dec key b) as [->|Hk].
      * now rewrite El.
      * rewrite Hoth by exact Hk. apply Hb.
    + intros ch. rewrite Hch. apply Hc.
    + intros key. cbn [set_bucket buckets].
      destruct (string_dec key b) as [->|Hk].
      * now rewrite dict_get_set_same.
      * rewrite dict_get_set_other, Hoth by exact Hk. apply Hb.
    + intros ch. cbn [set_bucket TCC2]. rewrite Hch. apply Hc.
  - pose proof (Hc c) as Hcc.
    assert (Hbk : forall key, tokens_of (InBucket key) (seen ++ [t])
                              = tokens_of (InBucket key) seen).
    { intros key. apply tokens_of_snoc_other. congruence. }
    assert (Hoth : forall ch, ch <> c ->
                              tokens_of (InChannel ch) (seen ++ [t])
                              = tokens_of (InChannel ch) seen).
    { intros ch Hk. apply tokens_of_snoc_other. congruence. }
    assert (Hset : forall l', l' = first_appearances (tokens_of (InChannel c) (seen ++ [t])) ->
                              coalesced (seen ++ [t]) (set_channel pl c l')).
    { intros l' ->. split.
      - intros key. cbn [set_channel buckets]. rewrite Hbk. apply Hb.
      - intros ch. cbn [set_channel TCC2].
        destruct (string_dec ch c) as [->|Hk].
        + now rewrite dict_get_set_same.
        + rewrite dict_get_set_other, Hoth by exact Hk. apply Hc. }
    destruct (dict_get c (TCC2 pl)) as [l|] eqn:El.
    + pose proof (@snoc_unique l _ t Hcc) as Hsn.
      rewrite <- (@tokens_of_snoc_same _ seen t Eh) in Hsn.
      destruct (mem t l); intros [= <-]; [|now apply Hset].
      split.
      * intros key. rewrite Hbk. apply Hb.
      * intros ch. destruct (string_dec ch c) as [->|Hk].
        -- now rewrite El.
        -- rewrite Hoth by exact Hk. apply Hc.
    + intros [= <-]. apply Hset.
      now rewrite (@tokens_of_snoc_same _ seen t Eh), Hcc.
Qed.

Lemma add_counters_coalesced ts seen pl pl' :
  coalesced seen pl -> add_counters pl ts = OK pl' -> coalesced (seen ++ ts) pl'.
Proof.
  revert seen pl. induction ts as [|t ts IH]; intros seen pl Hinv; simpl.
  - intros [= <-]. now rewrite app_nil_r.
  - destruct (add_counter pl t) as [pl1|] eqn:E; [|discriminate]. cbn [bind].
    intros H. replace (seen ++ t :: ts) with ((seen ++ [t]) ++ ts)
      by now rewrite <- app_assoc.
    eapply IH; [|exact H]. eapply add_counter_coalesced; eauto.
Qed.

Lemma coalesce_line_tokens dir pl fs line pl' fs' :
  coalesce_line dir (pl, fs) line = OK (pl', fs') ->
  add_counters pl (line_tokens line) = OK pl'.
Proof.
  unfold coalesce_line, line_tokens.
  destruct (strip (before "#" line)) as [|c s] eqn:Es.
  - intros [= <- <-]. reflexivity.
  - destruct (match_pmc (String c s)) as [group|] eqn:Em.
    2:{ intros [= <- <-]. reflexivity. }
    destruct (mem ACCUM (split_ws group)) eqn:Ea.
    + apply mem_In, In_split_first in Ea as (pre & post & Hs & Hpre).
      rewrite Hs, index_of_first by exact Hpre. cbn [bind].
      rewrite py_nth_before. cbn [bind]. cbv zeta. intros H.
      injection H as <- _. reflexivity.
    + destruct (add_counters pl (split_ws group)); [|discriminate].
      cbn [bind]. now intros [= <- <-].
Qed.

Lemma coalesce_lines_coalesced dir lines seen pl fs pl' fs' :
  coalesced seen pl -> coalesce_lines dir (pl, fs) lines = OK (pl', fs') ->
  coalesced (seen ++ flat_map line_tokens lines) pl'.
Proof.
  revert seen pl fs.
  induction lines as [|line lines IH]; intros seen pl fs Hinv;
    cbn [coalesce_lines flat_map].
  - intros [= <- <-]. now rewrite app_nil_r.
  - destruct (coalesce_line dir (pl, fs) line) as [[pl1 fs1]|] eqn:E;
      cbn [bind]; [|discriminate].
    intros H. rewrite app_assoc. eapply IH; [|exact H].
    eapply add_counters_coalesced; [exact Hinv|].
    eapply coalesce_line_tokens, E.
Qed.

Lemma coalesce_files_coalesced dir files seen pl fs pl' fs' :
  coalesced seen pl -> coalesce_files dir (pl, fs) files = OK (pl', fs') ->
  coalesced (seen ++ bucketed_tokens files) pl'.
Proof.
  revert seen pl fs.
  induction files as [|lines files IH]; intros seen pl fs Hinv;
    cbn [coalesce_files].
  - intros [= <- <-]. now rewrite app_nil_r.
  - destruct (coalesce_lines dir (pl, fs) lines) as [[pl1 fs1]|] eqn:E;
      cbn [bind]; [|discriminate].
    intros H. unfold bucketed_tokens. cbn [flat_map].
    rewrite app_assoc. eapply IH; [|exact H].
    eapply coalesce_lines_coalesced; eauto.
Qed.

Lemma initial_TCC2_empty n ch l :
  dict_get ch (initial_TCC2 n) = Some l -> l = [].
Proof.
  unfold initial_TCC2.
  assert (G : forall chs d, (forall l, dict_get ch d = Some l -> l = []) ->
              forall l, dict_get ch (fold_left (fun d c => dict_set (str c) (@nil string) d)
                                               chs d)
                        = Some l -> l = []).
  { induction chs as [|c chs IH]; intros d Hd; simpl; [exact Hd|].
    apply IH. intros l0. destruct (string_dec ch (str c)) as [->|Hne].
    - rewrite dict_get_set_same. congruence.
    - rewrite dict_get_set_other by exact Hne. apply Hd. }
  apply G. discriminate.
Qed.

Lemma initial_coalesced n :
  coalesced [] (mk_pmc_list initial_buckets (initial_TCC2 n)).
Proof.
  split; cbn [buckets TCC2].
  - intros key. destruct (dict_get key initial_buckets) as [l|] eqn:E; [|reflexivity].
    unfold initial_buckets in E. simpl in E.
    repeat match type of E with
           | (if ?b then _ else _) = _ => destruct b; [now injection E as <-|]
           end.
    discriminate.
  - intros ch. destruct (dict_get ch (initial_TCC2 n)) as [l|] eqn:E; [|reflexivity].
    now apply initial_TCC2_empty in E.
Qed.

(** ** Decimal strings *)

Lemma str_inj n m : str n = str m -> n = m.
Proof.
  unfold str. intros H.
  assert (E : Nat.to_uint n = Nat.to_uint m).
  { pose proof (NilEmpty.usu (Nat.to_uint n)) as H1.
    pose proof (NilEmpty.usu (Nat.to_uint m)) as H2.
    rewrite H in H1. congruence. }
  rewrite <- (DecimalNat.Unsigned.of_to n), <- (DecimalNat.Unsigned.of_to m).
  now rewrite E.
Qed.

Lemma NoDup_map_str l : NoDup l -> NoDup (map str l).
Proof.
  induction 1 as [|x l Hx Hl IH]; simpl; constructor; [|exact IH].
  intros H. apply in_map_iff in H as (y & E & Hy). apply str_inj in E. now subst.
Qed.

(** ** Sorting *)

Lemma ascii_compare_refl c : Ascii.compare c c = Eq.
Proof. unfold Ascii.compare. apply N.compare_refl. Qed.

Lemma string_leb_refl s : String.leb s s = true.
Proof.
  unfold String.leb. induction s as [|c s IH]; simpl; [reflexivity|].
  now rewrite ascii_compare_refl.
Qed.

Lemma string_compare_trans s1 s2 s3 :
  String.compare s1 s2 <> Gt -> String.compare s2 s3 <> Gt ->
  String.compare s1 s3 <> Gt.
Proof.
  revert s2 s3. induction s1 as [|c1 s1 IH]; intros [|c2 s2] [|c3 s3]; simpl;
    try easy.
  unfold Ascii.compare.
  destruct (N.compare_spec (N_of_ascii c1) (N_of_ascii c2)) as [E1|E1|E1];
    destruct (N.compare_spec (N_of_ascii c2) (N_of_ascii c3)) as [E2|E2|E2];
    try easy;
    destruct (N.compare_spec (N_of_ascii c1) (N_of_ascii c3)) as [E3|E3|E3];
    try easy; try lia.
  apply IH.
Qed.

Lemma string_leb_trans s1 s2 s3 :
  String.leb s1 s2 = true -> String.leb s2 s3 = true -> String.leb s1 s3 = true.
Proof.
  unfold String.leb. intros H1 H2.
  pose proof (@string_compare_trans s1 s2 s3) as H.
  destruct (String.compare s1 s2), (String.compare s2 s3), (String.compare s1 s3);
    try easy; exfalso; apply H; easy.
Qed.

Lemma string_ltb_leb x y : String.ltb x y = false -> String.leb y x = true.
Proof.
  unfold String.ltb, String.leb. rewrite (String.compare_antisym y x).
  now destruct (String.compare x y).
Qed.

Lemma string_ltb_true_leb x y : String.ltb x y = true -> String.leb x y = true.
Proof.
  unfold String.ltb, String.leb. now destruct (String.compare x y).
Qed.

Lemma insert_sorted_perm x l : Permutation (insert_sorted x l) (x :: l).
Proof.
  induction l as [|y l IH]; simpl; [reflexivity|].
  destruct (String.ltb x y); [reflexivity|].
  rewrite IH. apply perm_swap.
Qed.

Lemma insert_sorted_sorted x l : sorted l -> sorted (insert_sorted x l).
Proof.
  unfold sorted. induction l as [|y l IH]; intros Hs; simpl.
  - repeat constructor.
  - apply StronglySorted_inv in Hs as [Hs Hy].
    destruct (String.ltb x y) eqn:E.
    + constructor; [now constructor|]. constructor.
      * now apply string_ltb_true_leb.
      * rewrite Forall_forall in *. intros z Hz.
        eapply string_leb_trans; [apply string_ltb_true_leb, E|now apply Hy].
    + constructor; [now apply IH|].
      apply Forall_forall. intros z Hz.
      apply (Permutation_in _ (insert_sorted_perm x l)) in Hz as [<-|Hz].
      * now apply string_ltb_leb.
      * rewrite Forall_forall in Hy. now apply Hy.
Qed.

Lemma sort_fold acc l :
  sorted acc ->
  sorted (fold_left (fun acc x => insert_sorted x acc) l acc)
  /\ Permutation (fold_left (fun acc x => insert_sorted x acc) l acc) (acc ++ l).
Proof.
  revert acc. induction l as [|x l IH]; intros acc Hs; simpl.
  - now rewrite app_nil_r.
  - destruct (IH (insert_sorted x acc) (insert_sorted_sorted x Hs)) as [H1 H2].
    split; [exact H1|]. rewrite H2, insert_sorted_perm.
    apply Permutation_middle.
Qed.

Lemma sort_sorted l : sorted (sort l).
Proof. apply sort_fold. constructor. Qed.

Lemma sort_perm l : Permutation (sort l) l.
Proof. apply (sort_fold l (acc := [])). constructor. Qed.

Lemma sorted_perm_unique l1 l2 :
  sorted l1 -> sorted l2 -> Permutation l1 l2 -> l1 = l2.
Proof.
  unfold sorted. revert l2. induction l1 as [|x l1 IH]; intros l2 H1 H2 Hp.
  - now apply Permutation_nil in Hp.
  - destruct l2 as [|y l2]; [now apply Permutation_sym, Permutation_nil in Hp|].
    apply StronglySorted_inv in H1 as [H1 Hx].
    apply StronglySorted_inv in H2 as [H2 Hy].
    rewrite Forall_forall in Hx, Hy.
    assert (E : x = y).
    { assert (Hxy : In x (y :: l2)) by (eapply Permutation_in; [exact Hp|now left]).
      assert (Hyx : In y (x :: l1))
        by (eapply Permutation_in; [apply Permutation_sym, Hp|now left]).
      destruct Hxy as [->|Hxy]; [reflexivity|].
      destruct Hyx as [->|Hyx]; [reflexivity|].
      apply String.leb_antisym; [now apply Hx|now apply Hy]. }
    subst y. f_equal. apply IH; try assumption.
    now apply Permutation_cons_inv in Hp.
Qed.

Lemma sort_count l x : count_occ string_dec (sort l) x = count_occ string_dec l x.
Proof. apply Permutation_count_occ, sort_perm. Qed.

(** ** Sorting the channels *)

Lemma channel_set_channel pl ch l c :
  channel (set_channel pl ch l) c = if (c =? ch)%string then l else channel pl c.
Proof.
  unfold channel. cbn [set_channel TCC2].
  destruct (String.eqb_spec c ch) as [->|Hne].
  - now rewrite dict_get_set_same.
  - now rewrite dict_get_set_other.
Qed.

Lemma sort_channels_spec chs pl pl' :
  NoDup chs -> sort_channels pl chs = OK pl' ->
  buckets pl' = buckets pl
  /\ forall c, channel pl' c
               = if mem c (map str chs) then sort (channel pl c) else channel pl c.
Proof.
  revert pl. induction chs as [|ch chs IH]; intros pl Hnd; simpl.
  - intros [= <-]. easy.
  - unfold getitem. destruct (dict_get (str ch) (TCC2 pl)) as [l|] eqn:El;
      cbn [bind]; [|discriminate].
    intros H. apply NoDup_cons_iff in Hnd as [Hch Hnd].
    apply IH in H as [Hb Hc]; [|exact Hnd]. split; [exact Hb|].
    intros c. rewrite Hc, channel_set_channel. unfold mem at 2. cbn [existsb].
    destruct (String.eqb_spec c (str ch)) as [->|Hne]; cbn [orb].
    + assert (Hn : mem (str ch) (map str chs) = false).
      { apply mem_false. intros Hin. apply in_map_iff in Hin as (y & E & Hy).
        apply str_inj in E. now subst. }
      rewrite Hn. unfold channel. now rewrite El.
    + fold (mem c (map str chs)). reflexivity.
Qed.

Lemma sort_channels_ok chs pl :
  (forall ch, In ch chs -> dict_mem (str ch) (TCC2 pl) = true) ->
  exists pl', sort_channels pl chs = OK pl'.
Proof.
  revert pl. induction chs as [|ch chs IH]; intros pl H; simpl; [eauto|].
  rewrite getitem_channel by (apply H; now left). cbn [bind].
  apply IH. intros c Hc. unfold dict_mem. cbn [set_channel TCC2].
  destruct (string_dec (str c) (str ch)) as [->|Hne].
  - now rewrite dict_get_set_same.
  - rewrite dict_get_set_other by exact Hne. apply H. now right.
Qed.

(** ** The bracketed channel index *)

Lemma digits_close_digits d :
  d <> EmptyString -> all_chars is_digit d = true ->
  digits_close (d ++ "]") = Some d.
Proof.
  induction d as [|c d IH]; [easy|]. intros _ H. simpl in H.
  apply andb_prop in H as [Hc Hd]. cbn [String.append digits_close]. rewrite Hc.
  destruct d as [|c' d].
  - reflexivity.
  - cbn [String.append String.prefix].
    assert (Hc' : is_digit c' = true) by (simpl in Hd; now apply andb_prop in Hd).
    destruct (Ascii.ascii_dec "]" c') as [<-|Hne]; [discriminate|].
    cbn [String.append] in IH. rewrite IH by easy. reflexivity.
Qed.

Lemma last_bracket_digits d :
  all_chars is_digit d = true -> last_bracket (d ++ "]") = None.
Proof.
  induction d as [|c d IH]; [reflexivity|]. simpl. intros H.
  apply andb_prop in H as [Hc Hd]. rewrite (IH Hd).
  destruct (Ascii.eqb_spec c "["); [subst; discriminate|reflexivity].
Qed.

Lemma last_bracket_tagged s d :
  d <> EmptyString -> all_chars is_digit d = true ->
  last_bracket (s ++ String "[" (d ++ "]")) = Some d.
Proof.
  intros Hne Hd. induction s as [|c s IH].
  - cbn [String.append last_bracket].
    rewrite (last_bracket_digits d Hd). cbn [Ascii.eqb Bool.eqb].
    now apply digits_close_digits.
  - change (String c s ++ String "[" (d ++ "]"))%string
      with (String c (s ++ String "[" (d ++ "]"))).
    cbn [last_bracket]. now rewrite IH.
Qed.

Lemma match_channel_tagged base d :
  base <> EmptyString -> d <> EmptyString -> all_chars is_digit d = true ->
  match_channel (tagged d base) = Some d.
Proof.
  intros Hb Hne Hd. destruct base as [|c base]; [easy|].
  change (tagged d (String c base))
    with (String c (base ++ String "[" (d ++ "]"))).
  cbn [match_channel]. now apply last_bracket_tagged.
Qed.

Lemma tagged_inj_channel base d1 d2 : tagged d1 base = tagged d2 base -> d1 = d2.
Proof.
  unfold tagged. induction base as [|c base IH]; cbn [String.append].
  - intros [= H]. revert d2 H. induction d1 as [|a d1 IHd]; intros [|b d2];
      cbn [String.append]; try easy.
    + intros [= <- H]. now destruct d2.
    + intros [= -> H]. now destruct d1.
    + intros [= -> H]. f_equal. now apply IHd.
  - intros [= H]. now apply IH.
Qed.

(** ** The coalescer as a whole *)

Lemma perfmon_coalesce_spec files wd soc pl fs :
  perfmon_coalesce files wd soc = OK (pl, fs) ->
  exists prof,
    dict_get soc perfmon_config = Some prof
    /\ dict_mem "TCC_channels" prof = true
    /\ (forall key, bucket pl key
                    = first_appearances (tokens_of (InBucket key) (bucketed_tokens files)))
    /\ (forall ch, channel pl ch
                   = if mem ch (channel_keys prof)
                     then sort (first_appearances
                                  (tokens_of (InChannel ch) (bucketed_tokens files)))
                     else first_appearances
                            (tokens_of (InChannel ch) (bucketed_tokens files))).
Proof.
  unfold perfmon_coalesce, getitem.
  destruct (dict_get soc perfmon_config) as [prof|] eqn:Ep; cbn [bind]; [|discriminate].
  destruct (dict_get "TCC_channels" prof) as [n|] eqn:En; cbn [bind]; [|discriminate].
  destruct (coalesce_files _ _ files) as [[pl1 fs1]|] eqn:Ec; cbn [bind]; [|discriminate].
  destruct (sort_channels pl1 (seq 0 n)) as [pl2|] eqn:Es; cbn [bind]; [|discriminate].
  intros [= <- <-]. exists prof. split; [reflexivity|].
  split; [unfold dict_mem; now rewrite En|].
  pose proof (@coalesce_files_coalesced _ _ _ _ _ _ _ (initial_coalesced n) Ec) as [Hb Hc].
  cbn [app] in Hb, Hc.
  apply sort_channels_spec in Es as [Eb Echan]; [|apply seq_NoDup].
  assert (Hn : channel_keys prof = map str (seq 0 n)).
  { unfold channel_keys, channels, cap. now rewrite En. }
  split.
  - intros key. unfold bucket. rewrite Eb. specialize (Hb key).
    destruct (dict_get key (buckets pl1)); [exact Hb|now rewrite Hb].
  - intros ch. rewrite Echan, Hn.
    assert (E : channel pl1 ch
                = first_appearances (tokens_of (InChannel ch) (bucketed_tokens files))).
    { unfold channel. specialize (Hc ch).
      destruct (dict_get ch (TCC2 pl1)); [exact Hc|now rewrite Hc]. }
    now rewrite E.
Qed.

(** C5, as the code has it.  After coalescing, every bucket of a block and
    every sub-bucket of a channel outside the range of the profile holds the
    first appearances of its tokens, in order of first appearance; the
    sub-bucket of a channel of the profile holds the same tokens sorted.  A
    bucketed token is therefore exactly once in its bucket, however many
    sources name it, and one base name with two different bracketed channel
    indices gives two different entries in two different sub-buckets. *)
Theorem coalesce_deduplicates files wd soc pl fs :
  perfmon_coalesce files wd soc = OK (pl, fs) -> deduplicated files soc pl.
Proof.
  intros H. apply perfmon_coalesce_spec in H as (prof & Ep & _ & Hb & Hc).
  unfold deduplicated.
  exists prof. split; [exact Ep|]. split; [exact Hb|]. split; [exact Hc|].
  assert (Hcount : forall t, In t (bucketed_tokens files) ->
            match home_of t with
            | InBucket key => count_occ string_dec (bucket pl key) t = 1
            | InChannel ch => count_occ string_dec (channel pl ch) t = 1
            end).
  { intros t Ht. destruct (home_of t) as [key|ch] eqn:Eh.
    - rewrite Hb. apply first_appearances_count, filter_In.
      split; [exact Ht|]. rewrite Eh. apply home_eqb_refl.
    - rewrite Hc.
      assert (In t (tokens_of (InChannel ch) (bucketed_tokens files))).
      { apply filter_In. split; [exact Ht|]. rewrite Eh. apply home_eqb_refl. }
      destruct (mem ch (channel_keys prof));
        [rewrite sort_count|]; now apply first_appearances_count. }
  assert (Hin : forall t ch, In t (channel pl ch) -> home_of t = InChannel ch).
  { intros t ch. rewrite Hc. intros Ht.
    assert (Ht' : In t (tokens_of (InChannel ch) (bucketed_tokens files))).
    { apply first_appearances_In.
      destruct (mem ch (channel_keys prof)); [|exact Ht].
      eapply Permutation_in; [apply sort_perm|exact Ht]. }
    apply filter_In in Ht' as [_ Ht']. now apply home_eqb_eq. }
  split; [exact Hcount|].
  intros base d1 d2 Hbase Hd1 Hd2 Hg1 Hg2 Hne Hb1 Hb2 Hi1 Hi2.
  assert (Hh : forall d, d <> EmptyString -> all_chars is_digit d = true ->
                         IP_block_of (tagged d base) = "TCC" ->
                         home_of (tagged d base) = InChannel d).
  { intros d Hd Hg Hblock. unfold home_of. rewrite Hblock.
    rewrite String.eqb_refl. cbn [negb].
    now rewrite match_channel_tagged. }
  pose proof (Hh d1 Hd1 Hg1 Hb1) as Hh1. pose proof (Hh d2 Hd2 Hg2 Hb2) as Hh2.
  repeat split.
  - intros E. apply Hne. eapply tagged_inj_channel, E.
  - pose proof (Hcount _ Hi1) as Hc1. now rewrite Hh1 in Hc1.
  - pose proof (Hcount _ Hi2) as Hc2. now rewrite Hh2 in Hc2.
  - intros Hx. apply Hin in Hx. congruence.
  - intros Hx. apply Hin in Hx. congruence.
Qed.

(** ** Alignment of sorted channels *)

Lemma string_compare_refl s : String.compare s s = Eq.
Proof.
  induction s as [|c s IH]; simpl; [reflexivity|]. now rewrite ascii_compare_refl.
Qed.

Lemma ascii_compare_neq a b : a <> b -> Ascii.compare a b <> Eq.
Proof. intros H E. now apply Ascii.compare_eq_iff in E. Qed.

(** The order of two tagged names does not depend on the channel. *)
Lemma tagged_compare d d' b1 b2 :
  bracket_free b1 = true -> bracket_free b2 = true ->
  String.compare (tagged d b1) (tagged d b2)
  = String.compare (tagged d' b1) (tagged d' b2).
Proof.
  unfold tagged, bracket_free. revert b2.
  induction b1 as [|c1 b1 IH]; intros [|c2 b2] H1 H2.
  - now rewrite !string_compare_refl.
  - simpl in H2. apply andb_prop in H2 as [Hc _].
    cbn [String.append String.compare].
    destruct (Ascii.eqb_spec c2 "[") as [->|Hne]; [discriminate|].
    pose proof (@ascii_compare_neq "[" c2 ltac:(congruence)).
    now destruct (Ascii.compare "[" c2).
  - simpl in H1. apply andb_prop in H1 as [Hc _].
    cbn [String.append String.compare].
    destruct (Ascii.eqb_spec c1 "[") as [->|Hne]; [discriminate|].
    pose proof (@ascii_compare_neq c1 "[" Hne).
    now destruct (Ascii.compare c1 "[").
  - simpl in H1, H2. apply andb_prop in H1 as [_ H1]. apply andb_prop in H2 as [_ H2].
    change (String.compare (String c1 (b1 ++ "[" ++ d ++ "]"))
                           (String c2 (b2 ++ "[" ++ d ++ "]"))
            = String.compare (String c1 (b1 ++ "[" ++ d' ++ "]"))
                             (String c2 (b2 ++ "[" ++ d' ++ "]"))).
    cbn [String.compare]. destruct (Ascii.compare c1 c2); try reflexivity.
    now apply IH.
Qed.

Lemma tagged_leb d d' b1 b2 :
  bracket_free b1 = true -> bracket_free b2 = true ->
  String.leb (tagged d b1) (tagged d b2) = String.leb (tagged d' b1) (tagged d' b2).
Proof.
  intros H1 H2. unfold String.leb. now rewrite (tagged_compare d d' _ _ H1 H2).
Qed.

Lemma sorted_tagged d d' order :
  Forall (fun b => bracket_free b = true) order ->
  sorted (map (tagged d) order) -> sorted (map (tagged d') order).
Proof.
  unfold sorted. induction order as [|b order IH]; intros Hf Hs; simpl in *.
  - constructor.
  - apply Forall_cons_iff in Hf as [Hb Hf].
    apply StronglySorted_inv in Hs as [Hs Hhd].
    constructor; [now apply IH|].
    rewrite Forall_forall in *. intros x Hx.
    apply in_map_iff in Hx as (b' & <- & Hb').
    rewrite (tagged_leb d' d) by auto.
    apply Hhd, in_map, Hb'.
Qed.

(** C6, as the code has it.  After the coalescer has read every source, the
    sub-bucket of every channel of the profile is sorted by counter name.
    Two channels of the profile whose sub-buckets hold the same base names,
    each with the index of its channel in brackets, hold them in the same
    order, so that the same base name is at the same offset in both. *)
Theorem channels_sorted_aligned files wd soc pl fs :
  perfmon_coalesce files wd soc = OK (pl, fs) -> sorted_aligned soc pl.
Proof.
  intros H. apply perfmon_coalesce_spec in H as (prof & Ep & _ & _ & Hc).
  unfold sorted_aligned.
  exists prof. split; [exact Ep|].
  assert (Hsorted : forall ch, In ch (channels prof) -> sorted (channel pl (str ch))).
  { intros ch Hch. rewrite Hc.
    assert (Hm : mem (str ch) (channel_keys prof) = true)
      by (apply mem_In, in_map, Hch).
    rewrite Hm. apply sort_sorted. }
  split; [exact Hsorted|].
  intros ch1 ch2 bases H1 H2 Hfree Hp1 Hp2.
  destruct (Permutation_map_inv _ _ Hp1) as (order & E1 & Hperm).
  exists order. split; [exact Hperm|]. split; [exact E1|].
  apply sorted_perm_unique.
  - now apply Hsorted.
  - apply sorted_tagged with (d := str ch1).
    + eapply Permutation_Forall; [exact Hperm|exact Hfree].
    + rewrite <- E1. now apply Hsorted.
  - rewrite Hp2. now apply Permutation_map.
Qed.

(** ** The coalescer feeds the scheduler *)

Lemma dict_mem_set {V} (k k' : string) (v : V) d :
  dict_mem k' (dict_set k v d) = (k' =? k)%string || dict_mem k' d.
Proof.
  unfold dict_mem. destruct (String.eqb_spec k' k) as [->|Hne].
  - now rewrite dict_get_set_same.
  - now rewrite dict_get_set_other.
Qed.

Lemma initial_TCC2_mem n ch : In ch (seq 0 n) -> dict_mem (str ch) (initial_TCC2 n) = true.
Proof.
  unfold initial_TCC2.
  assert (G : forall chs d,
            In ch chs \/ dict_mem (str ch) d = true ->
            dict_mem (str ch)
              (fold_left (fun d c => dict_set (str c) (@nil string) d) chs d) = true).
  { induction chs as [|c chs IH]; intros d H; simpl.
    - now destruct H.
    - apply IH. rewrite dict_mem_set.
      destruct H as [[->|H]|H]; [right|now left|right].
      + now rewrite String.eqb_refl.
      + rewrite H. apply orb_true_r. }
  intros H. apply G. now left.
Qed.

Lemma add_counter_shape n pl t pl' :
  coalescer_shape n pl -> add_counter pl t = OK pl' -> coalescer_shape n pl'.
Proof.
  intros [Hk Hc]. rewrite add_counter_home. destruct (home_of t) as [b|c].
  - unfold append_unique, getitem. destruct (b =? "TCC2")%string; [discriminate|].
    destruct (dict_get b (buckets pl)) as [l|] eqn:El; cbn [bind]; [|discriminate].
    destruct (mem t l); intros [= <-]; [now split|].
    split; [|exact Hc]. cbn [set_bucket buckets].
    rewrite keys_dict_set_mem; [exact Hk|]. unfold dict_mem. now rewrite El.
  - assert (Hset : forall l, coalescer_shape n (set_channel pl c l)).
    { intros l. split; [exact Hk|]. intros ch Hch. cbn [set_channel TCC2].
      rewrite dict_mem_set, (Hc ch Hch). apply orb_true_r. }
    destruct (dict_get c (TCC2 pl)) as [l|]; [destruct (mem t l)|];
      intros [= <-]; auto. now split.
Qed.

Lemma add_counters_shape n ts pl pl' :
  coalescer_shape n pl -> add_counters pl ts = OK pl' -> coalescer_shape n pl'.
Proof.
  revert pl. induction ts as [|t ts IH]; intros pl Hs; simpl.
  - now intros [= <-].
  - destruct (add_counter pl t) as [pl1|] eqn:E; cbn [bind]; [|discriminate].
    apply IH. eapply add_counter_shape; eauto.
Qed.

Lemma coalesce_lines_shape n dir lines pl fs pl' fs' :
  coalescer_shape n pl -> coalesce_lines dir (pl, fs) lines = OK (pl', fs') ->
  coalescer_shape n pl'.
Proof.
  revert pl fs. induction lines as [|line lines IH]; intros pl fs Hs;
    cbn [coalesce_lines].
  - now intros [= <- <-].
  - destruct (coalesce_line dir (pl, fs) line) as [[pl1 fs1]|] eqn:E;
      cbn [bind]; [|discriminate].
    apply IH. eapply add_counters_shape; [exact Hs|].
    eapply coalesce_line_tokens, E.
Qed.

Lemma coalesce_files_shape n dir files pl fs pl' fs' :
  coalescer_shape n pl -> coalesce_files dir (pl, fs) files = OK (pl', fs') ->
  coalescer_shape n pl'.
Proof.
  revert pl fs. induction files as [|lines files IH]; intros pl fs Hs;
    cbn [coalesce_files].
  - now intros [= <- <-].
  - destruct (coalesce_lines dir (pl, fs) lines) as [[pl1 fs1]|] eqn:E;
      cbn [bind]; [|discriminate].
    apply IH. eapply coalesce_lines_shape; eauto.
Qed.

Lemma sort_channels_shape n chs pl pl' :
  coalescer_shape n pl -> sort_channels pl chs = OK pl' -> coalescer_shape n pl'.
Proof.
  revert pl. induction chs as [|ch chs IH]; intros pl Hs; simpl.
  - now intros [= <-].
  - unfold getitem. destruct (dict_get (str ch) (TCC2 pl)) as [l|];
      cbn [bind]; [|discriminate].
    apply IH. destruct Hs as [Hk Hc]. split; [exact Hk|].
    intros c Hin. cbn [set_channel TCC2]. rewrite dict_mem_set, (Hc c Hin).
    apply orb_true_r.
Qed.

Lemma builtin_profile soc prof :
  dict_get soc perfmon_config = Some prof ->
  prof = gfx_profile 16 \/ prof = gfx_profile 32.
Proof.
  unfold perfmon_config. simpl.
  repeat match goal with
         | |- (if ?b then _ else _) = _ -> _ =>
             destruct b; [intros [= <-]; auto|]
         end.
  discriminate.
Qed.

Lemma shape_emit_ready n pl :
  1 <= n -> coalescer_shape n pl -> emit_ready (gfx_profile n) pl = true.
Proof.
  intros Hn [Hk Hc]. unfold emit_ready, ordinary_keys. rewrite Hk.
  assert (Hcap : cap (gfx_profile n) "TCC_channels" = n) by reflexivity.
  unfold channels. rewrite Hcap.
  assert (Hmem : dict_mem "TCC" (buckets pl) = true).
  { assert (Hin : In "TCC" (keys (buckets pl))).
    { rewrite Hk. simpl. tauto. }
    apply dict_get_In_keys in Hin as [v Hv]. unfold dict_mem. now rewrite Hv. }
  rewrite Hmem.
  assert (Hch : forallb (fun ch => dict_mem (str ch) (TCC2 pl)) (seq 0 n) = true).
  { apply forallb_forall. exact Hc. }
  rewrite Hch. apply Nat.leb_le in Hn. rewrite Hn. reflexivity.
Qed.

(** Whatever [perfmon_coalesce] returns, [perfmon_emit] accepts: the two
    calls of [perfmon_filter] never raise in the second. *)
Lemma coalesce_then_emit files wd soc pl fs :
  perfmon_coalesce files wd soc = OK (pl, fs) ->
  exists prof text,
    dict_get soc perfmon_config = Some prof
    /\ emit_ready prof pl = true
    /\ perfmon_emit pl soc = OK text.
Proof.
  intros H. pose proof H as H0. revert H0.
  unfold perfmon_coalesce, getitem.
  destruct (dict_get soc perfmon_config) as [prof|] eqn:Ep; cbn [bind]; [|discriminate].
  destruct (dict_get "TCC_channels" prof) as [n|] eqn:En; cbn [bind]; [|discriminate].
  destruct (coalesce_files _ _ files) as [[pl1 fs1]|] eqn:Ec; cbn [bind]; [|discriminate].
  destruct (sort_channels pl1 (seq 0 n)) as [pl2|] eqn:Es; cbn [bind]; [|discriminate].
  intros [= <- <-].
  assert (Hshape : coalescer_shape n pl2).
  { eapply sort_channels_shape; [|exact Es].
    eapply coalesce_files_shape; [|exact Ec].
    split; [reflexivity|apply initial_TCC2_mem]. }
  assert (Hready : emit_ready prof pl2 = true).
  { destruct (builtin_profile _ Ep) as [E|E]; subst prof;
      injection En as En; subst n;
      apply shape_emit_ready; try lia; exact Hshape. }
  exists prof. eexists. split; [reflexivity|]. split; [exact Hready|].
  unfold perfmon_emit, getitem. rewrite Ep. cbn [bind].
  unfold emit_lines. rewrite (emit_passes_ready prof pl2 Hready). reflexivity.
Qed.

(** ** The properties on the example inputs *)

Lemma two_sources_coalesced :
  exists fs, perfmon_coalesce two_sources "w" "vega10" = OK (two_sources_pl, fs).
Proof. eexists. vm_compute. reflexivity. Qed.

Lemma emit_lines_count_witness :
  emit_ready (gfx_profile 16) two_sources_pl = true
  /\ exists lines, emit_lines (gfx_profile 16) two_sources_pl = OK lines
                   /\ List.length lines = pass_count (gfx_profile 16) two_sources_pl.
Proof.
  split; [reflexivity|].
  apply (emit_lines_count (gfx_profile 16) two_sources_pl). reflexivity.
Defined.

Lemma emit_passes_round_trip_witness :
  emit_ready (gfx_profile 16) two_sources_pl = true
  /\ exists ps, emit_passes (gfx_profile 16) two_sources_pl = OK ps
                /\ round_trip (gfx_profile 16) two_sources_pl ps.
Proof.
  split; [reflexivity|].
  apply (emit_passes_round_trip (gfx_profile 16) two_sources_pl). reflexivity.
Defined.

Lemma emit_passes_within_capacity_witness :
  emit_ready (gfx_profile 16) two_sources_pl = true
  /\ exists ps, emit_passes (gfx_profile 16) two_sources_pl = OK ps
                /\ Forall (within_capacity (gfx_profile 16) two_sources_pl) ps.
Proof.
  split; [reflexivity|].
  apply (emit_passes_within_capacity (gfx_profile 16) two_sources_pl). reflexivity.
Defined.

(** The schedule of the example: four passes; the ten SQ counters go out as
    eight and two, the five aggregated TCC counters as four and one, and the
    per-channel counters follow, four of a channel at a time. *)
Example two_sources_lines :
  emit_lines (gfx_profile 16) two_sources_pl
  = OK [ "pmc:  SQ_WAVES SQ_INSTS SQC_HITS SQ_A SQ_B SQ_C SQ_D SQ_E GRBM_COUNT TCC_HIT TCC_MISS TCC_REQ TCC_READ";
         "pmc:  SQ_F SQ_G TCC_WRITE";
         "pmc:  TCC_HIT[0] TCC_MISS[0] TCC_A[1] TCC_B[1] TCC_HIT[1] TCC_MISS[1]";
         "pmc:  TCC_REQ[1]" ].
Proof. vm_compute. reflexivity. Qed.

(** The buckets of the example: [SQ_WAVES] and [TCC_HIT[0]], named by both
    sources, are there once; the channels hold their tokens sorted. *)
Example two_sources_buckets :
  bucket two_sources_pl "SQ"
  = ["SQ_WAVES"; "SQ_INSTS"; "SQC_HITS"; "SQ_A"; "SQ_B"; "SQ_C"; "SQ_D"; "SQ_E";
     "SQ_F"; "SQ_G"]
  /\ bucket two_sources_pl "GRBM" = ["GRBM_COUNT"]
  /\ bucket two_sources_pl "TCC"
     = ["TCC_HIT"; "TCC_MISS"; "TCC_REQ"; "TCC_READ"; "TCC_WRITE"]
  /\ channel two_sources_pl "0" = ["TCC_HIT[0]"; "TCC_MISS[0]"]
  /\ channel two_sources_pl "1"
     = ["TCC_A[1]"; "TCC_B[1]"; "TCC_HIT[1]"; "TCC_MISS[1]"; "TCC_REQ[1]"].
Proof. repeat split. Qed.

(** Two channels with the same base names, named in different orders, hold
    them at the same offsets. *)
Example same_names_aligned :
  exists pl fs,
    perfmon_coalesce [["pmc: TCC_B[0] TCC_A[0] TCC_A[1] TCC_B[1]"]] "w" "mi100"
    = OK (pl, fs)
    /\ channel pl "0" = map (tagged "0") ["TCC_A"; "TCC_B"]
    /\ channel pl "1" = map (tagged "1") ["TCC_A"; "TCC_B"].
Proof. do 2 eexists. split; [vm_compute; reflexivity|]. split; reflexivity. Qed.

Lemma coalesce_deduplicates_witness :
  exists fs,
    perfmon_coalesce two_sources "w" "vega10" = OK (two_sources_pl, fs)
    /\ deduplicated two_sources "vega10" two_sources_pl.
Proof.
  eexists. split; [vm_compute; reflexivity|].
  eapply (coalesce_deduplicates two_sources "w" "vega10"). vm_compute. reflexivity.
Defined.

(** C5 as stated fails: a token of channel 0 named by two sources does not
    stay at the place of its first appearance, the sub-bucket is sorted; and
    a token named by two sources on lines with the accumulator token is in no
    bucket at all. *)
Lemma first_appearance_order_counterexample :
  (exists pl fs,
     perfmon_coalesce unsorted_sources "w" "vega10" = OK (pl, fs)
     /\ first_appearances (tokens_of (InChannel "0") (bucketed_tokens unsorted_sources))
        = ["TCC_B[0]"; "TCC_A[0]"]
     /\ channel pl "0" = ["TCC_A[0]"; "TCC_B[0]"])
  /\ (exists pl fs,
        perfmon_coalesce [[level_line]; [level_line]] "w" "vega10" = OK (pl, fs)
        /\ home_of "SQ_WAVES" = InBucket "SQ"
        /\ count_occ string_dec (bucket pl "SQ") "SQ_WAVES" = 0).
Proof.
  split; do 2 eexists; (split; [vm_compute; reflexivity|]); split; reflexivity.
Qed.

Lemma channels_sorted_aligned_witness :
  exists fs,
    perfmon_coalesce two_sources "w" "vega10" = OK (two_sources_pl, fs)
    /\ sorted_aligned "vega10" two_sources_pl.
Proof.
  eexists. split; [vm_compute; reflexivity|].
  eapply (channels_sorted_aligned two_sources "w" "vega10"). vm_compute. reflexivity.
Defined.

(** C6 as stated fails: every channel has a counter at offset 0, and the
    names at offset 0 of channels 0 and 1 differ; and the sub-bucket of a
    channel beyond those of the profile is left as it was read. *)
Lemma alignment_counterexample :
  (exists pl fs,
     perfmon_coalesce uneven_sources "w" "vega10" = OK (pl, fs)
     /\ (forall ch, In ch (channels (gfx_profile 16)) ->
                    nth_error (channel pl (str ch)) 0 <> None)
     /\ option_map base_name (nth_error (channel pl (str 0)) 0) = Some "TCC_A"
     /\ option_map base_name (nth_error (channel pl (str 1)) 0) = Some "TCC_B")
  /\ (exists pl fs,
        perfmon_coalesce [["pmc: TCC_B[20] TCC_A[20]"]] "w" "vega10" = OK (pl, fs)
        /\ channel pl "20" = ["TCC_B[20]"; "TCC_A[20]"]
        /\ String.leb "TCC_B[20]" "TCC_A[20]" = false).
Proof.
  split.
  - do 2 eexists. split; [vm_compute; reflexivity|]. split; [|split; reflexivity].
    intros ch H. vm_compute in H.
    repeat (destruct H as [<-|H]; [discriminate|]). destruct H.
  - do 2 eexists. split; [vm_compute; reflexivity|]. split; reflexivity.
Qed.

Lemma level_line_written_whole_witness :
  match_pmc (strip (before "#" level_line)) = Some " SQ_WAVES SQ_INSTS_LEVEL SQ_ACCUM_PREV_HIRES"
  /\ mem ACCUM (split_ws " SQ_WAVES SQ_INSTS_LEVEL SQ_ACCUM_PREV_HIRES") = true
  /\ exists pre post,
       split_ws " SQ_WAVES SQ_INSTS_LEVEL SQ_ACCUM_PREV_HIRES" = pre ++ ACCUM :: post
       /\ ~ In ACCUM pre
       /\ coalesce_line "w/perfmon" (two_sources_pl, []) level_line
          = OK (two_sources_pl,
                [] ++ [(("w/perfmon" ++ "/" ++ last pre (last post ACCUM) ++ ".txt")%string,
                        (strip (before "#" level_line) ++ newline ++ newline
                         ++ directives)%string)]).
Proof.
  split; [reflexivity|]. split; [reflexivity|].
  apply (@level_line_written_whole "w/perfmon" two_sources_pl [] level_line
           " SQ_WAVES SQ_INSTS_LEVEL SQ_ACCUM_PREV_HIRES"); reflexivity.
Defined.

(** C7 as stated fails: the other token of a level line, [SQ_WAVES], enters
    no bucket, and the specification written holds it with the pair. *)
Lemma level_line_counterexample :
  exists pl fs,
    perfmon_coalesce [[level_line]] "w" "mi200" = OK (pl, fs)
    /\ ~ In "SQ_WAVES" (bucket pl "SQ")
    /\ fs = [("w/perfmon/SQ_INSTS_LEVEL.txt",
              ("pmc: SQ_WAVES SQ_INSTS_LEVEL SQ_ACCUM_PREV_HIRES"
               ++ newline ++ newline ++ directives)%string)].
Proof.
  do 2 eexists. split; [vm_compute; reflexivity|]. split; [|reflexivity].
  intros H. exact H.
Qed.

Lemma level_counter_wraps_around_witness :
  match_pmc (strip (before "#" accum_first_line))
  = Some " SQ_ACCUM_PREV_HIRES SQ_WAVES SQ_INSTS"
  /\ split_ws " SQ_ACCUM_PREV_HIRES SQ_WAVES SQ_INSTS" = ACCUM :: ["SQ_WAVES"; "SQ_INSTS"]
  /\ coalesce_line "w/perfmon" (two_sources_pl, []) accum_first_line
     = OK (two_sources_pl,
           [] ++ [(("w/perfmon" ++ "/" ++ last (ACCUM :: ["SQ_WAVES"; "SQ_INSTS"]) ACCUM
                    ++ ".txt")%string,
                   (strip (before "#" accum_first_line) ++ newline ++ newline
                    ++ directives)%string)]).
Proof.
  split; [reflexivity|]. split; [reflexivity|].
  apply (@level_counter_wraps_around "w/perfmon" two_sources_pl [] accum_first_line
           " SQ_ACCUM_PREV_HIRES SQ_WAVES SQ_INSTS" ["SQ_WAVES"; "SQ_INSTS"]);
    reflexivity.
Defined.

(** The level counter of [accum_first_line] is its last token. *)
Example accum_first_level_counter :
  exists pl text,
    perfmon_coalesce [[accum_first_line]] "w" "mi200"
    = OK (pl, [("w/perfmon/SQ_INSTS.txt", text)]).
Proof. do 2 eexists. vm_compute. reflexivity. Qed.

Lemma skipped_lines_contribute_nothing_witness :
  (strip (before "#" "pmc:   # nothing") = EmptyString
   \/ match_pmc (strip (before "#" "pmc:   # nothing")) = None
   \/ exists group, match_pmc (strip (before "#" "pmc:   # nothing")) = Some group
                    /\ split_ws group = [])
  /\ coalesce_line "w/perfmon" (two_sources_pl, []) "pmc:   # nothing"
     = OK (two_sources_pl, []).
Proof.
  assert (H : strip (before "#" "pmc:   # nothing") = EmptyString
              \/ match_pmc (strip (before "#" "pmc:   # nothing")) = None
              \/ exists group,
                   match_pmc (strip (before "#" "pmc:   # nothing")) = Some group
                   /\ split_ws group = []).
  { right. right. exists EmptyString. split; reflexivity. }
  split; [exact H|].
  exact (@skipped_lines_contribute_nothing "w/perfmon" (two_sources_pl, [])
           "pmc:   # nothing" H).
Defined.

(** C8 as stated fails: a line with the marker and no token after it is not
    reported; coalescing goes on and returns. *)
Lemma empty_counter_list_counterexample :
  match_pmc (strip (before "#" "pmc:")) = Some EmptyString
  /\ split_ws EmptyString = []
  /\ exists pl, perfmon_coalesce [["pmc:"; "pmc: SQ_WAVES"]] "w" "vega10" = OK (pl, [])
                /\ bucket pl "SQ" = ["SQ_WAVES"].
Proof.
  split; [reflexivity|]. split; [reflexivity|].
  eexists. split; [vm_compute; reflexivity|reflexivity].
Qed.

(** ** The recombiner *)

(** ** Tables *)

Lemma cell_eqb_eq a b : cell_eqb a b = true <-> a = b.
Proof.
  destruct a, b; simpl; try (split; [discriminate|congruence]).
  - rewrite String.eqb_eq. split; congruence.
  - rewrite Z.eqb_eq. split; congruence.
Qed.

Lemma col_eqb_eq a b : List.length a = List.length b -> col_eqb a b = true -> a = b.
Proof.
  unfold col_eqb. revert b. induction a as [|x a IH]; intros [|y b]; simpl; try easy.
  intros [= Hl] H. apply andb_prop in H as [Hxy H].
  apply cell_eqb_eq in Hxy. subst. f_equal. now apply IH.
Qed.

Lemma col_eqb_refl a : col_eqb a a = true.
Proof.
  unfold col_eqb. induction a as [|x a IH]; simpl; [reflexivity|].
  rewrite IH, andb_true_r. now apply cell_eqb_eq.
Qed.

Lemma dict_get_filter {V} (p : string -> bool) (d : dict V) k :
  dict_get k (filter (fun kv => p (fst kv)) d) = if p k then dict_get k d else None.
Proof.
  induction d as [|[k' v] d IH]; simpl; [now destruct (p k)|].
  destruct (p k') eqn:Ep; simpl.
  - destruct (String.eqb_spec k' k) as [->|Hne]; [now rewrite Ep|exact IH].
  - destruct (String.eqb_spec k' k) as [->|Hne]; [now rewrite IH, Ep|exact IH].
Qed.

Lemma keys_select p df : keys (columns (select p df)) = filter p (keys (columns df)).
Proof.
  unfold select, keys. cbn [columns].
  induction (columns df) as [|[k v] d IH]; simpl; [reflexivity|].
  destruct (p k); simpl; now rewrite IH.
Qed.

Lemma column_select p df k :
  column (select p df) k = if p k then column df k else [].
Proof.
  unfold column, select. cbn [columns]. rewrite dict_get_filter. now destruct (p k).
Qed.

Lemma dict_mem_select p df k :
  dict_mem k (columns (select p df)) = p k && dict_mem k (columns df).
Proof.
  unfold dict_mem, select. cbn [columns]. rewrite dict_get_filter. now destruct (p k).
Qed.

Lemma dict_mem_keys {V} (d : dict V) k : dict_mem k d = true <-> In k (keys d).
Proof.
  unfold dict_mem. split.
  - induction d as [|[k' v] d IH]; simpl; [discriminate|].
    destruct (String.eqb_spec k' k); auto.
  - intros H. apply dict_get_In_keys in H as [v ->]. reflexivity.
Qed.

Lemma getitem_column df k :
  In k (keys (columns df)) -> getitem k (columns df) = OK (column df k).
Proof.
  intros H. apply dict_get_In_keys in H as [v Hv].
  unfold getitem, column. now rewrite Hv.
Qed.

Lemma column_In df k :
  In k (keys (columns df)) -> In (k, column df k) (columns df).
Proof.
  unfold column, keys. induction (columns df) as [|[k' v] d IH]; simpl; [easy|].
  destruct (String.eqb_spec k' k) as [->|Hne]; [now left|].
  intros [H|H]; [contradiction|]. right. now apply IH.
Qed.

Lemma well_shaped_column df k :
  well_shaped df = true -> In k (keys (columns df)) ->
  List.length (column df k) = nrows df.
Proof.
  intros Hw Hk. unfold well_shaped in Hw. rewrite forallb_forall in Hw.
  apply Nat.eqb_eq. apply (Hw (k, column df k)). now apply column_In.
Qed.

Lemma drop_ok names df :
  (forall n, In n names -> In n (keys (columns df))) ->
  drop names df = OK (select (fun k => negb (mem k names)) df).
Proof.
  intros H. unfold drop.
  destruct (find _ names) as [n|] eqn:E; [|reflexivity].
  apply find_some in E as [Hn E]. apply H, dict_mem_keys in Hn.
  now rewrite Hn in E.
Qed.

(** ** The trace of a run *)

Lemma io_bind_lift_ok {A B} (a : A) (f : A -> io B) : io_bind (lift (OK a)) f = f a.
Proof. unfold io_bind, lift. now destruct (f a). Qed.

Lemma io_bind_lift_raise {A B} e (f : A -> io B) :
  io_bind (lift (Raise e)) f = ([], Raise e).
Proof. reflexivity. Qed.

Lemma written_app a b : written (a ++ b) = written a ++ written b.
Proof. unfold written. apply flat_map_app. Qed.

Lemma check_family_run df verbose family :
  check_family df verbose family
  = (family_events df verbose family,
     match test_df_column_equality (select (contains (snd family)) df) with
     | OK _ => OK tt
     | Raise e => Raise e
     end).
Proof.
  destruct family as [key sub]. unfold check_family, family_events. cbn [fst snd].
  destruct (test_df_column_equality _) as [[|]|e]; cbn; destruct verbose; reflexivity.
Qed.

Lemma family_events_written df verbose family :
  written (family_events df verbose family) = [].
Proof.
  unfold family_events.
  destruct (test_df_column_equality _) as [[|]|e]; [destruct verbose| |]; reflexivity.
Qed.

Lemma check_families_written df verbose families :
  written (fst (check_families df verbose families)) = [].
Proof.
  induction families as [|family families IH]; [reflexivity|].
  cbn [check_families]. rewrite check_family_run. unfold io_bind.
  destruct (test_df_column_equality _).
  - destruct (check_families df verbose families) as [evs r]. cbn [fst] in *.
    now rewrite written_app, family_events_written, IH.
  - cbn [fst]. apply family_events_written.
Qed.

Lemma test_equality_present df sub :
  family_cols sub df <> [] ->
  exists b, test_df_column_equality (select (contains sub) df) = OK b.
Proof.
  unfold family_cols. rewrite <- keys_select. unfold test_df_column_equality.
  destruct (columns (select (contains sub) df)) as [|[k c] d]; [easy|]. eauto.
Qed.

Lemma check_families_present df verbose families :
  forallb (fun family => negb (is_nil (family_cols (snd family) df))) families = true ->
  check_families df verbose families
  = (flat_map (family_events df verbose) families, OK tt).
Proof.
  induction families as [|family families IH]; [reflexivity|].
  cbn [forallb]. intros H. apply andb_prop in H as [Hf H].
  cbn [check_families flat_map]. rewrite check_family_run, (IH H).
  destruct (@test_equality_present df (snd family)) as [b Hb].
  { now destruct (family_cols (snd family) df). }
  rewrite Hb. reflexivity.
Qed.

Lemma written_flat_family df verbose families :
  written (flat_map (family_events df verbose) families) = [].
Proof.
  induction families as [|family families IH]; [reflexivity|].
  cbn [flat_map]. now rewrite written_app, family_events_written, IH.
Qed.

(** ** The check of the kernel names *)

Lemma assert_same_names_run df first rest :
  In first (keys (columns df)) ->
  (forall k, In k rest -> In k (keys (columns df))) ->
  assert_same_names df first rest
  = if forallb (fun k => col_eqb (column df first) (column df k)) rest
    then OK tt else Raise AssertionError.
Proof.
  intros Hf. induction rest as [|k rest IH]; intros Hr; [reflexivity|].
  cbn [assert_same_names forallb].
  rewrite (getitem_column _ _ Hf), (getitem_column df k) by (apply Hr; now left).
  cbn [bind]. fold (col_eqb (column df first) (column df k)).
  destruct (col_eqb (column df first) (column df k)); [|reflexivity].
  apply IH. intros k' Hk'. apply Hr. now right.
Qed.

Lemma namekeys_kept df k : In k (namekeys df) -> In k (keys (columns (kept df))).
Proof. unfold namekeys. intros H. now apply filter_In in H. Qed.

Lemma kept_keys df k : In k (keys (columns (kept df))) -> In k (keys (columns df)).
Proof.
  unfold kept. rewrite !keys_select. intros H.
  apply filter_In in H as [H _]. now apply filter_In in H.
Qed.

Lemma column_kept df k :
  In k (keys (columns (kept df))) -> column (kept df) k = column df k.
Proof.
  unfold kept. rewrite !keys_select, !column_select. intros H.
  apply filter_In in H as [H ->]. apply filter_In in H as [_ ->]. reflexivity.
Qed.

Lemma well_shaped_select p df : well_shaped df = true -> well_shaped (select p df) = true.
Proof.
  unfold well_shaped, select. cbn [columns nrows]. rewrite !forallb_forall.
  intros H kv Hkv. apply filter_In in Hkv as [Hkv _]. now apply H.
Qed.

(** The check passes exactly when no two copies differ. *)
Lemma names_check_agree df first rest :
  well_shaped df = true -> namekeys df = first :: rest ->
  copies_agree df ->
  forallb (fun k => col_eqb (column (kept df) first) (column (kept df) k)) rest = true.
Proof.
  intros Hw Hn Ha. apply forallb_forall. intros k Hk.
  assert (H1 : In first (namekeys df)) by (rewrite Hn; now left).
  assert (H2 : In k (namekeys df)) by (rewrite Hn; now right).
  rewrite !column_kept by now apply namekeys_kept.
  rewrite (Ha first k H1 H2). apply col_eqb_refl.
Qed.

Lemma names_check_disagree df first rest :
  well_shaped df = true -> namekeys df = first :: rest ->
  copies_disagree df ->
  forallb (fun k => col_eqb (column (kept df) first) (column (kept df) k)) rest = false.
Proof.
  intros Hw Hn (k1 & k2 & r & c1 & c2 & H1 & H2 & E1 & E2 & Hne).
  destruct (forallb _ rest) eqn:E; [|reflexivity]. exfalso.
  rewrite forallb_forall in E.
  assert (Hfirst : In first (namekeys df)) by (rewrite Hn; now left).
  assert (Hall : forall k, In k (namekeys df) -> column df k = column df first).
  { intros k Hk. rewrite Hn in Hk. destruct Hk as [<-|Hk]; [reflexivity|].
    specialize (E k Hk).
    rewrite !column_kept in E by (apply namekeys_kept; rewrite Hn; auto using in_eq, in_cons).
    symmetry. apply col_eqb_eq; [|exact E].
    rewrite !well_shaped_column; auto;
      apply kept_keys, namekeys_kept; rewrite Hn; auto using in_eq, in_cons. }
  rewrite (Hall k1 H1) in E1. rewrite (Hall k2 H2) in E2. congruence.
Qed.

(** ** The means of the timestamps *)

Lemma row_mean_ints cols r :
  (forall col, In col cols -> forallb is_int col = true /\ r < List.length col) ->
  exists m, row_mean cols r = OK m.
Proof.
  intros H. unfold row_mean.
  assert (E : exists vals,
            mapM (fun col => match nth_error col r with
                             | Some (Int z) => OK z
                             | Some (Text _) => Raise TypeError
                             | None => Raise IndexError
                             end) cols = OK vals).
  { induction cols as [|col cols IH]; [now exists []|].
    destruct (H col (or_introl eq_refl)) as [Hi Hr].
    destruct (nth_error col r) as [c|] eqn:En.
    2:{ apply nth_error_None in En. lia. }
    assert (Hc : is_int c = true).
    { rewrite forallb_forall in Hi. eapply Hi, nth_error_In, En. }
    destruct c as [s|z]; [discriminate|].
    destruct IH as [vals Hv]; [intros c Hc'; apply H; now right|].
    exists (z :: vals). cbn [mapM]. rewrite En. cbn [bind]. now rewrite Hv. }
  destruct E as [vals ->]. cbn [bind]. destruct vals; eauto.
Qed.

Lemma mean_axis1_ints names df :
  (forall k, In k names ->
             In k (keys (columns df)) /\ forallb is_int (column df k) = true
             /\ List.length (column df k) = nrows df) ->
  exists ms, mean_axis1 names df = OK ms /\ List.length ms = nrows df.
Proof.
  intros H. unfold mean_axis1.
  rewrite (mapM_ok _ (column df)) by (intros k Hk; apply getitem_column, H, Hk).
  cbn [bind].
  assert (G : forall rows, (forall r, In r rows -> r < nrows df) ->
                           exists ms, mapM (row_mean (map (column df) names)) rows = OK ms
                                      /\ List.length ms = List.length rows).
  { induction rows as [|r rows IH]; intros Hr; [now exists []|].
    destruct (@row_mean_ints (map (column df) names) r) as [m Hm].
    { intros col Hcol. apply in_map_iff in Hcol as (k & <- & Hk).
      destruct (H k Hk) as (_ & Hi & Hl). split; [exact Hi|].
      rewrite Hl. apply Hr. now left. }
    destruct IH as (ms & Hms & Hl); [intros r' Hr'; apply Hr; now right|].
    exists (m :: ms). cbn [mapM]. rewrite Hm. cbn [bind]. rewrite Hms.
    split; [reflexivity|]. cbn [List.length]. now rewrite Hl. }
  destruct (G (seq 0 (nrows df))) as (ms & Hms & Hl).
  { intros r Hr. apply in_seq in Hr. lia. }
  exists ms. split; [exact Hms|]. now rewrite Hl, length_seq.
Qed.

(** ** The end of a run *)

Lemma finish_join_disagree out verbose files df :
  well_shaped df = true -> copies_disagree df ->
  finish_join out verbose files df = ([], Raise AssertionError).
Proof.
  intros Hw Hd. unfold finish_join. cbv zeta. fold (kept df). fold (namekeys df).
  destruct (namekeys df) as [|first rest] eqn:Hn.
  { destruct Hd as (k1 & _ & _ & _ & _ & H1 & _). rewrite Hn in H1. destruct H1. }
  rewrite io_bind_lift_ok. cbn [tl].
  rewrite assert_same_names_run.
  - now rewrite (names_check_disagree Hw Hn Hd).
  - apply namekeys_kept. rewrite Hn. now left.
  - intros k Hk. apply namekeys_kept. rewrite Hn. now right.
Qed.

Lemma In_tl {A} (x : A) l : In x (tl l) -> In x l.
Proof. destruct l; [easy|]. now right. Qed.

Lemma named_keys df k : In k (keys (columns (named df))) -> In k (keys (columns df)).
Proof.
  unfold named. rewrite keys_select. intros H. apply filter_In in H as [H _].
  now apply kept_keys.
Qed.

Lemma column_named df k :
  In k (keys (columns (named df))) -> column (named df) k = column df k.
Proof.
  unfold named. rewrite keys_select, column_select. intros H.
  apply filter_In in H as [H ->]. now apply column_kept.
Qed.

Lemma output_ready_times df k :
  well_shaped df = true -> output_ready df = true ->
  In k (bkeys df) \/ In k (ekeys df) ->
  In k (keys (columns (named df))) /\ forallb is_int (column (named df) k) = true
  /\ List.length (column (named df) k) = nrows (named df).
Proof.
  intros Hw Hr Hk.
  assert (Hin : In k (keys (columns (named df))) /\ (contains "Begin" k || contains "End" k = true)).
  { destruct Hk as [Hk|Hk]; apply filter_In in Hk as [Hk Hc]; split; auto;
      rewrite Hc; auto using orb_true_r. }
  destruct Hin as [Hin Hc]. split; [exact Hin|].
  rewrite (column_named _ _ Hin).
  pose proof (named_keys _ _ Hin) as Hdf. split.
  - unfold output_ready in Hr. split_andb Hr.
    match goal with H : forallb _ (columns df) = true |- _ =>
      rewrite forallb_forall in H; specialize (H _ (column_In _ _ Hdf)) end.
    cbn [fst snd] in *. now rewrite Hc in *.
  - change (nrows (named df)) with (nrows df). now apply well_shaped_column.
Qed.

Lemma key_survives df :
  output_ready df = true ->
  In "key" (keys (columns (select (fun k => negb (mem k (ekeys df)))
                                  (select (fun k => negb (mem k (bkeys df))) (named df))))).
Proof.
  intros Hr. unfold output_ready in Hr. split_andb Hr.
  match goal with H : dict_mem "key" _ = true |- _ => apply dict_mem_keys in H; rename H into Hk end.
  assert (Hnot : forall p l, p "key" = false -> negb (mem "key" (filter p l)) = true).
  { intros p l Hp. apply negb_true_iff, mem_false. intros H'.
    apply filter_In in H' as [_ H']. congruence. }
  rewrite !keys_select. repeat (apply filter_In; split); try (apply Hnot; reflexivity).
  unfold named. rewrite keys_select. apply filter_In. split.
  - unfold kept. rewrite !keys_select. repeat (apply filter_In; split); auto.
  - apply negb_true_iff, mem_false. intros H'. apply In_tl in H'.
    apply filter_In in H' as [_ H']. discriminate.
Qed.

Lemma ekeys_after_bkeys df k :
  output_ready df = true -> In k (ekeys df) ->
  In k (keys (columns (select (fun k => negb (mem k (bkeys df))) (named df)))).
Proof.
  intros Hr Hk. rewrite keys_select. apply filter_In.
  pose proof Hk as Hk'. apply filter_In in Hk' as [Hin He]. split; [exact Hin|].
  apply negb_true_iff, mem_false. intros Hb. apply filter_In in Hb as [_ Hb].
  unfold output_ready in Hr. split_andb Hr.
  match goal with H : forallb _ (keys (columns df)) = true |- _ =>
    rewrite forallb_forall in H; specialize (H k (named_keys _ _ Hin)) end.
  rewrite Hb, He in *. discriminate.
Qed.

Lemma finish_join_agree out verbose files df :
  well_shaped df = true -> output_ready df = true -> copies_agree df ->
  exists beginNs endNs,
    finish_join out verbose files df
    = (ToCsv out (mk_unified (final_table df) beginNs endNs)
       :: (if verbose then [] else map (fun f => Remove (fst f)) files),
       OK tt)
    /\ List.length beginNs = nrows df /\ List.length endNs = nrows df.
Proof.
  intros Hw Hr Ha. unfold finish_join. cbv zeta. fold (kept df). fold (namekeys df).
  destruct (namekeys df) as [|first rest] eqn:Hn.
  { unfold output_ready in Hr. split_andb Hr.
    rewrite Hn in *. discriminate. }
  rewrite io_bind_lift_ok.
  assert (Hfirst : In first (keys (columns (kept df))))
    by (apply namekeys_kept; rewrite Hn; now left).
  assert (Hrest : forall k, In k rest -> In k (keys (columns (kept df))))
    by (intros k Hk; apply namekeys_kept; rewrite Hn; now right).
  cbn [tl]. rewrite (@assert_same_names_run (kept df) first _ Hfirst Hrest).
  rewrite (names_check_agree Hw Hn Ha), io_bind_lift_ok.
  rewrite (@drop_ok _ (kept df) Hrest), io_bind_lift_ok.
  replace (select (fun k => negb (mem k rest)) (kept df))
    with (named df) by (unfold named; now rewrite Hn).
  fold (bkeys df). fold (ekeys df).
  destruct (@mean_axis1_ints (ekeys df) (named df)) as (endNs & -> & Hle).
  { intros k Hk. apply output_ready_times; auto. }
  rewrite io_bind_lift_ok.
  destruct (@mean_axis1_ints (bkeys df) (named df)) as (beginNs & -> & Hlb).
  { intros k Hk. apply output_ready_times; auto. }
  rewrite io_bind_lift_ok.
  rewrite drop_ok, io_bind_lift_ok by (intros k Hk; now apply filter_In in Hk).
  rewrite drop_ok, io_bind_lift_ok by (intros k Hk; now apply ekeys_after_bkeys).
  rewrite drop_ok, io_bind_lift_ok
    by (intros k [<-|[]]; now apply key_survives).
  fold (final_table df). exists beginNs, endNs.
  split; [destruct verbose; reflexivity|]. split; assumption.
Qed.

(** ** The whole of a run *)

Lemma make_key_quiet join_type df evs key :
  make_key join_type df = (evs, OK key) -> evs = [].
Proof.
  unfold make_key. destruct (join_type =? "kernel")%string; [now intros [= <- _]|].
  destruct (join_type =? "grid")%string; [now intros [= <- _]|]. discriminate.
Qed.

Lemma join_files_quiet join_type files i d evs x :
  join_files join_type files i d = (evs, OK x) -> evs = [].
Proof.
  revert i d evs. induction files as [|[path _df] files IH]; intros i d evs.
  - now intros [= <- _].
  - cbn [join_files]. destruct (make_key join_type _df) as [ev [key|e]] eqn:Ek;
      [|discriminate].
    apply make_key_quiet in Ek. subst ev. unfold io_bind at 1.
    destruct d as [df|].
    + destruct (merge df _ i) as [df'|e]; [|discriminate].
      rewrite io_bind_lift_ok.
      destruct (join_files join_type files (S i) (Some df')) as [ev' r] eqn:E.
      intros [= <- ->]. now apply IH in E.
    + destruct (join_files join_type files (S i) _) as [ev' r] eqn:E.
      intros [= <- ->]. now apply IH in E.
Qed.

Lemma join_prof_run wd join_type verbose out files evs0 df :
  join_files join_type files 0 None = (evs0, OK (Some df)) ->
  join_prof wd join_type verbose out files
  = io_bind (check_families df verbose duplicate_cols)
            (fun _ => finish_join (out_path wd out) verbose files df).
Proof.
  intros H. pose proof (join_files_quiet _ _ _ _ H) as ->.
  unfold join_prof. cbv zeta. rewrite H. fold (out_path wd out).
  unfold io_bind at 1. rewrite io_bind_lift_ok.
  now destruct (io_bind _ _).
Qed.

Lemma filter_filter {A} (p q : A -> bool) l :
  filter p (filter q l) = filter (fun x => q x && p x) l.
Proof.
  induction l as [|x l IH]; simpl; [reflexivity|].
  destruct (q x); simpl; [destruct (p x)|]; now rewrite IH.
Qed.

Lemma final_table_keys df :
  keys (columns (final_table df)) = filter (survives df) (keys (columns df)).
Proof.
  unfold final_table, named, kept. rewrite !keys_select, !filter_filter.
  apply filter_ext. intros k. unfold survives. now rewrite !andb_assoc.
Qed.



Lemma written_removes (files : list (string * DataFrame)) :
  written (map (fun f => Remove (fst f)) files) = [].
Proof. induction files as [|f files IH]; [reflexivity|exact IH]. Qed.

(** ** Join keys are told apart *)

Lemma uint_no_space d : no_space (NilEmpty.string_of_uint d) = true.
Proof. induction d; simpl; auto. Qed.

Lemma str_no_space n : no_space (str n) = true.
Proof. apply uint_no_space. Qed.

Lemma str_int_no_space z : no_space (str_int z) = true.
Proof.
  unfold str_int. destruct (Z.to_int z); simpl; apply uint_no_space.
Qed.

(** The text after the last blank of a string is determined by the string. *)
Lemma split_last_space a a' d d' :
  no_space d = true -> no_space d' = true ->
  (a ++ String " " d)%string = (a' ++ String " " d')%string -> a = a' /\ d = d'.
Proof.
  intros Hd Hd'. revert a'. induction a as [|c a IH]; intros [|c' a']; cbn [String.append].
  - now intros [= ->].
  - intros [= <- ->]. exfalso. clear -Hd. induction a' as [|x a' IH]; simpl in Hd.
    + discriminate.
    + apply andb_prop in Hd as [_ Hd]. auto.
  - intros [= -> <-]. exfalso. clear -Hd'. induction a as [|x a IH]; simpl in Hd'.
    + discriminate.
    + apply andb_prop in Hd' as [_ Hd']. auto.
  - intros [= -> H]. apply IH in H as [-> ->]. auto.
Qed.

Lemma string_app_assoc (a b c : string) : ((a ++ b) ++ c)%string = (a ++ b ++ c)%string.
Proof. induction a as [|x a IH]; simpl; [reflexivity|now rewrite IH]. Qed.

Lemma key_suffix_inj a a' d d' :
  no_space d = true -> no_space d' = true ->
  (a ++ " - " ++ d)%string = (a' ++ " - " ++ d')%string -> a = a' /\ d = d'.
Proof.
  intros Hd Hd' H.
  change (a ++ " - " ++ d)%string with (a ++ String " " ("-" ++ String " " d))%string in H.
  change (a' ++ " - " ++ d')%string with (a' ++ String " " ("-" ++ String " " d'))%string in H.
  assert (E : forall x y : string,
            (x ++ String " " ("-" ++ String " " y))%string
            = ((x ++ String " " "-") ++ String " " y)%string).
  { intros x y. now rewrite string_app_assoc. }
  rewrite !E in H. apply split_last_space in H as [H ->]; auto.
  apply split_last_space in H as [-> _]; auto.
Qed.

(** ** Running counts *)

Lemma cumcount_aux_length seen rows :
  List.length (cumcount_aux seen rows) = List.length rows.
Proof.
  revert seen. induction rows as [|g rows IH]; intros seen; simpl; [reflexivity|].
  now rewrite IH.
Qed.

Lemma cumcount_lower_bound rows seen g c :
  In (g, c) (combine rows (cumcount_aux seen rows)) ->
  List.length (filter (group_eqb g) seen) <= c.
Proof.
  revert seen. induction rows as [|g0 rows IH]; intros seen;
    cbn [cumcount_aux combine In]; [easy|].
  intros [[= -> <-]|H]; [apply Nat.le_refl|].
  apply IH in H. cbn [filter] in H.
  destruct (group_eqb g g0); cbn [List.length] in H; lia.
Qed.

Lemma cumcount_pairs_NoDup rows seen :
  (forall g, In g rows -> group_eqb g g = true) ->
  NoDup (combine rows (cumcount_aux seen rows)).
Proof.
  revert seen. induction rows as [|g rows IH]; intros seen Hr;
    cbn [cumcount_aux combine]; constructor.
  - intros H. apply cumcount_lower_bound in H. cbn [filter] in H.
    rewrite (Hr g (or_introl eq_refl)) in H. cbn [List.length] in H.
    fold (group_eqb g) in H. lia.
  - apply IH. intros g' Hg'. apply Hr. now right.
Qed.

Lemma mapM_NoDup {A B} (f : A -> result B) l l' :
  mapM f l = OK l' -> NoDup l ->
  (forall x y b, In x l -> In y l -> f x = OK b -> f y = OK b -> x = y) ->
  NoDup l'.
Proof.
  revert l'. induction l as [|a l IH]; intros l'; simpl.
  - intros [= <-]. constructor.
  - destruct (f a) as [b|] eqn:Ea; cbn [bind]; [|discriminate].
    destruct (mapM f l) as [bs|] eqn:El; cbn [bind]; [|discriminate].
    intros [= <-] Hnd Hinj. apply NoDup_cons_iff in Hnd as [Ha Hnd].
    constructor.
    + intros Hb.
      assert (G : forall l0 bs0, mapM f l0 = OK bs0 -> In b bs0 ->
                                 exists y, In y l0 /\ f y = OK b).
      { clear. induction l0 as [|y l0 IH0]; intros bs0; simpl.
        - now intros [= <-].
        - destruct (f y) as [b0|] eqn:Ey; cbn [bind]; [|discriminate].
          destruct (mapM f l0) as [bs1|]; cbn [bind]; [|discriminate].
          intros [= <-] [<-|Hin].
          + exists y. auto.
          + destruct (IH0 _ eq_refl Hin) as (y' & Hy' & E). exists y'. auto. }
      destruct (G _ _ El Hb) as (y & Hy & Ey).
      assert (a = y) by (apply (Hinj a y b); [now left|now right|exact Ea|exact Ey]).
      now subst.
    + apply IH; auto. intros x y b' Hx Hy. apply Hinj; now right.
Qed.

Lemma combine_map_l {A B C} (f : A -> B) (l : list A) (l' : list C) :
  combine (map f l) l' = map (fun p => (f (fst p), snd p)) (combine l l').
Proof.
  revert l'. induction l as [|a l IH]; intros [|c l']; simpl; try reflexivity.
  now rewrite IH.
Qed.

Lemma NoDup_map_inv' {A B} (f : A -> B) l : NoDup (map f l) -> NoDup l.
Proof.
  induction l as [|a l IH]; simpl; intros H; constructor;
    apply NoDup_cons_iff in H as [Ha H].
  - intros Hin. apply Ha, in_map, Hin.
  - now apply IH.
Qed.

Lemma cell_eqb_refl c : cell_eqb c c = true.
Proof. now apply cell_eqb_eq. Qed.

Lemma kernel_keys_NoDup df evs key :
  make_key "kernel" df = (evs, OK key) -> NoDup key.
Proof.
  unfold make_key. cbn [String.eqb Ascii.eqb Bool.eqb andb]. unfold lift.
  intros [= _ H]. unfold getitem in H.
  destruct (dict_get "KernelName" (columns df)) as [names|]; cbn [bind] in H;
    [|discriminate].
  eapply mapM_NoDup; [exact H| |].
  - unfold cumcount.
    apply (@NoDup_map_inv' _ _ (fun p : cell * nat => ([fst p], snd p))).
    pose proof (combine_map_l (fun n : cell => [n]) names
                  (cumcount_aux [] (map (fun n => [n]) names))) as E.
    cbv beta in E. rewrite <- E. apply cumcount_pairs_NoDup.
    intros g Hg. apply in_map_iff in Hg as (n & <- & _).
    unfold group_eqb. simpl. now rewrite cell_eqb_refl.
  - intros [n c] [n' c'] b _ _. cbn [fst snd].
    destruct n as [s|z], n' as [s'|z']; cbn [text_of bind]; try discriminate.
    intros [= <-] [= E].
    apply key_suffix_inj in E as [-> E]; try apply str_no_space.
    apply str_inj in E. now subst.
Qed.

Lemma str_int_inj z z' : str_int z = str_int z' -> z = z'.
Proof.
  unfold str_int. intros H.
  assert (E : Z.to_int z = Z.to_int z').
  { pose proof (NilEmpty.isi (Z.to_int z)) as H1.
    pose proof (NilEmpty.isi (Z.to_int z')) as H2.
    rewrite H in H1. congruence. }
  rewrite <- (DecimalZ.of_to z), <- (DecimalZ.of_to z'). now rewrite E.
Qed.

Lemma grid_key_inj s s' g g' d d' :
  no_space g = true -> no_space g' = true ->
  no_space d = true -> no_space d' = true ->
  (s ++ " - " ++ g ++ " - " ++ d)%string = (s' ++ " - " ++ g' ++ " - " ++ d')%string ->
  s = s' /\ g = g' /\ d = d'.
Proof.
  intros Hg Hg' Hd Hd' H.
  assert (E : forall a b c : string,
            (a ++ " - " ++ b ++ " - " ++ c)%string
            = ((a ++ " - " ++ b) ++ " - " ++ c)%string).
  { intros a b c. now rewrite string_app_assoc. }
  rewrite !E in H. apply key_suffix_inj in H as [H ->]; auto.
  apply key_suffix_inj in H as [-> ->]; auto.
Qed.

Lemma grid_keys_NoDup df evs key :
  make_key "grid" df = (evs, OK key) ->
  forallb is_int (column df "grd") = true -> NoDup key.
Proof.
  unfold make_key. cbn [String.eqb Ascii.eqb Bool.eqb andb]. unfold lift.
  intros [= _ H] Hint. unfold getitem in H.
  destruct (dict_get "KernelName" (columns df)) as [names|]; cbn [bind] in H;
    [|discriminate].
  unfold column in Hint.
  destruct (dict_get "grd" (columns df)) as [grd|]; cbn [bind] in H; [|discriminate].
  eapply mapM_NoDup; [exact H| |].
  - unfold cumcount.
    apply (@NoDup_map_inv' _ _ (fun p : cell * cell * nat =>
                                  ([fst (fst p); snd (fst p)], snd p))).
    pose proof (combine_map_l (fun ng : cell * cell => [fst ng; snd ng])
                  (combine names grd)
                  (cumcount_aux [] (map (fun ng => [fst ng; snd ng])
                                        (combine names grd)))) as E.
    cbv beta in E. rewrite <- E. apply cumcount_pairs_NoDup.
    intros g Hg. apply in_map_iff in Hg as (n & <- & _).
    unfold group_eqb. simpl. now rewrite !cell_eqb_refl.
  - intros [[n g] c] [[n' g'] c'] b Hx Hy. cbn [fst snd].
    assert (Hg : forall n g c (l : list nat),
              In (n, g, c) (combine (combine names grd) l) -> is_int g = true).
    { intros n0 g0 c0 l Hin. apply in_combine_l, in_combine_r in Hin.
      rewrite forallb_forall in Hint. now apply Hint. }
    apply Hg in Hx. apply Hg in Hy.
    destruct g as [|z]; [discriminate|]. destruct g' as [|z']; [discriminate|].
    destruct n as [s|?], n' as [s'|?]; cbn [text_of bind cell_str]; try discriminate.
    intros [= <-] [= E].
    apply grid_key_inj in E as (-> & E1 & E2);
      try apply str_no_space; try apply str_int_no_space.
    apply str_inj in E2. apply str_int_inj in E1. now subst.
Qed.

(** ** Keys through the merge *)








Lemma dict_get_app {V} (d d' : dict V) k :
  dict_get k (d ++ d') = match dict_get k d with Some v => Some v | None => dict_get k d' end.
Proof.
  induction d as [|[k' v] d IH]; simpl; [reflexivity|].
  now destruct (k' =? k)%string.
Qed.

Lemma dict_get_map_values {V W} (f : V -> W) (d : dict V) k :
  dict_get k (map (fun kv => (fst kv, f (snd kv))) d) = option_map f (dict_get k d).
Proof.
  induction d as [|[k' v] d IH]; simpl; [reflexivity|].
  now destruct (k' =? k)%string.
Qed.


(** ** Keys through the loop over the files *)

Lemma distinct_NoDup l : distinct l = true <-> NoDup l.
Proof.
  induction l as [|x l IH]; simpl.
  - split; [constructor|reflexivity].
  - rewrite andb_true_iff, negb_true_iff, IH, NoDup_cons_iff.
    assert (E : existsb (cell_eqb x) l = false <-> ~ In x l).
    { split.
      - intros H Hin. assert (existsb (cell_eqb x) l = true); [|congruence].
        apply existsb_exists. exists x. split; [exact Hin|apply cell_eqb_refl].
      - intros H. destruct (existsb (cell_eqb x) l) eqn:E; [|reflexivity].
        apply existsb_exists in E as (y & Hy & E). apply cell_eqb_eq in E.
        subst. contradiction. }
    now rewrite E.
Qed.

Lemma table_keys_make join_type df evs key :
  make_key join_type df = (evs, OK key) -> table_keys join_type df = key.
Proof. unfold table_keys. now intros ->. Qed.



Lemma kernel_distinct_keys files : distinct_keys "kernel" files = true.
Proof.
  apply forallb_forall. intros [path df] _. cbn [snd]. apply distinct_NoDup.
  unfold table_keys. destruct (make_key "kernel" df) as [ev [key|e]] eqn:E.
  - eapply kernel_keys_NoDup, E.
  - constructor.
Qed.

Lemma grid_distinct_keys files :
  forallb (fun f => forallb is_int (column (snd f) "grd")) files = true ->
  distinct_keys "grid" files = true.
Proof.
  intros H. apply forallb_forall. intros [path df] Hin. cbn [snd].
  rewrite forallb_forall in H. specialize (H _ Hin). cbn [snd] in H.
  apply distinct_NoDup.
  unfold table_keys. destruct (make_key "grid" df) as [ev [key|e]] eqn:E.
  - eapply grid_keys_NoDup; eauto.
  - constructor.
Qed.


(** ** The outcome of a run *)

(** C4.  On the table left by the key-based join: when two copies of the
    kernel-name column differ in a row, the run raises and writes no unified
    table; when all copies are the same, the run returns and writes the
    unified table, and none of the duplicate kernel-name columns is in it. *)
Theorem kernel_name_mismatch_is_fatal wd join_type verbose out files evs0 df :
  join_files join_type files 0 None = (evs0, OK (Some df)) ->
  well_shaped df = true ->
  (copies_disagree df ->
   aborted (join_prof wd join_type verbose out files) df)
  /\ (copies_agree df -> output_ready df = true ->
      unified_written (join_prof wd join_type verbose out files)
                      (out_path wd out) df).
Proof.
  intros Hj Hw. rewrite (@join_prof_run wd join_type verbose out files evs0 df Hj).
  split.
  - intros Hd. unfold aborted.
    pose proof (check_families_written df verbose duplicate_cols) as Hnone.
    rewrite (@finish_join_disagree (out_path wd out) verbose files df Hw Hd).
    destruct (check_families df verbose duplicate_cols) as [ev1 [[]|e]] eqn:Ec;
      cbn [fst] in Hnone; unfold io_bind.
    + exists (ev1 ++ []), AssertionError. rewrite app_nil_r.
      split; [reflexivity|]. split; [exact Hnone|reflexivity].
    + exists ev1, e. split; [reflexivity|]. split; [exact Hnone|]. intros Hp.
      unfold families_present in Hp.
      rewrite (@check_families_present df verbose duplicate_cols Hp) in Ec.
      discriminate.
  - intros Ha Hr. unfold unified_written.
    assert (Hp : families_present df = true).
    { unfold output_ready in Hr. do 4 (apply andb_prop in Hr as [Hr ?]).
      exact Hr. }
    unfold families_present in Hp.
    rewrite (@check_families_present df verbose duplicate_cols Hp).
    destruct (@finish_join_agree (out_path wd out) verbose files df Hw Hr Ha)
      as (b & e & -> & _ & _).
    unfold io_bind. eexists. exists b, e. split; [reflexivity|].
    split; [|split].
    + rewrite written_app, written_flat_family. cbn [app written flat_map].
      destruct verbose; [reflexivity|]. cbn [app]. f_equal.
      apply written_removes.
    + apply in_or_app. right. now left.
    + intros k Hk. rewrite final_table_keys. intros Hin.
      apply filter_In in Hin as [_ Hs]. unfold survives in Hs.
      split_andb Hs.
      apply mem_In in Hk.
      match goal with H : negb (mem k (tl _)) = true |- _ => rewrite Hk in H end.
      discriminate.
Qed.


(** ** The recombiner on the example tables *)

Lemma grid_differs_join :
  join_files "kernel" grid_differs 0 None = ([], OK (Some grid_differs_joined)).
Proof. vm_compute. reflexivity. Qed.

Lemma same_key_other_name_join :
  join_files "grid" same_key_other_name 0 None
  = ([], OK (Some same_key_other_name_joined)).
Proof. vm_compute. reflexivity. Qed.

Lemma grid_differs_agree : copies_agree grid_differs_joined.
Proof.
  intros k1 k2 H1 H2. vm_compute in H1, H2.
  destruct H1 as [<-|[<-|[]]]; destruct H2 as [<-|[<-|[]]]; reflexivity.
Qed.

Lemma same_key_other_name_disagree : copies_disagree same_key_other_name_joined.
Proof.
  exists "KernelName", "KernelName_1", 0, (Text "k - 1"), (Text "k").
  repeat split; try (vm_compute; tauto); try reflexivity. discriminate.
Qed.

Lemma kernel_name_mismatch_is_fatal_witness :
  (copies_disagree same_key_other_name_joined
   /\ aborted (join_prof "w" "grid" false None same_key_other_name)
              same_key_other_name_joined)
  /\ (copies_agree grid_differs_joined
      /\ output_ready grid_differs_joined = true
      /\ unified_written (join_prof "w" "kernel" false None grid_differs)
                         (out_path "w" None) grid_differs_joined).
Proof.
  split.
  - split; [exact same_key_other_name_disagree|].
    apply (proj1 (@kernel_name_mismatch_is_fatal "w" "grid" false None
                    same_key_other_name [] same_key_other_name_joined
                    same_key_other_name_join eq_refl)).
    exact same_key_other_name_disagree.
  - split; [exact grid_differs_agree|]. split; [reflexivity|].
    apply (proj2 (@kernel_name_mismatch_is_fatal "w" "kernel" false None
                    grid_differs [] grid_differs_joined
                    grid_differs_join eq_refl)).
    + exact grid_differs_agree.
    + reflexivity.
Defined.


(** The run on [grid_differs]: the warning for [grd], the unified table with
    the two rows, the grid sizes of the first pass and the mean times, and
    the removal of the per-pass files. *)
Example grid_differs_run :
  join_prof "w" "kernel" false None grid_differs
  = ([ Log (success_msg "gpu" ++ newline);
       Warn (warning_msg "grd"); Log (warning_msg "grd" ++ newline);
       Log (success_msg "wgr" ++ newline);
       Log (success_msg "lds" ++ newline);
       Log (success_msg "scr" ++ newline);
       Log (success_msg "arch_vgpr" ++ newline);
       Log (success_msg "accum_vgpr" ++ newline);
       Log (success_msg "spgr" ++ newline);
       ToCsv "w/pmc_perf.csv"
         (mk_unified
            (mk_df 2
               [ ("Index", [Int 0; Int 1]);
                 ("KernelName", [Text "k"; Text "k"]);
                 ("gpu-id", [Int 0; Int 0]);
                 ("grd", [Int 64; Int 64]);
                 ("wgr", [Int 64; Int 64]);
                 ("lds", [Int 0; Int 0]);
                 ("scr", [Int 0; Int 0]);
                 ("arch_vgpr", [Int 8; Int 8]);
                 ("accum_vgpr", [Int 0; Int 0]);
                 ("sgpr", [Int 16; Int 16]);
                 ("SQ_WAVES", [Int 10; Int 20]);
                 ("SQ_INSTS", [Int 10; Int 20]) ])
            [Some (6020 # 2); Some (6220 # 2)]
            [Some (6040 # 2); Some (6240 # 2)]);
       Remove "w/pmc_perf_0.csv"; Remove "w/pmc_perf_1.csv" ],
     OK tt)%string.
Proof. vm_compute. reflexivity. Qed.

(** The run on [same_key_other_name]: the failed assertion, after the
    comparison of the families, and no unified table. *)
Example same_key_other_name_run :
  exists evs,
    join_prof "w" "grid" false None same_key_other_name = (evs, Raise AssertionError)
    /\ written evs = [].
Proof. eexists. split; vm_compute; reflexivity. Qed.

(** The two strategies give every table distinct keys on the examples, as
    they do on all tables with integer grid sizes. *)
Example grid_differs_distinct_keys :
  distinct_keys "kernel" grid_differs = true
  /\ distinct_keys "grid" grid_differs = true.
Proof.
  split; [apply kernel_distinct_keys|apply grid_distinct_keys; reflexivity].
Qed.

(* ================================================================== *)
(** * Further properties of the coalescer, the scheduler and their callers *)

(** ** When the scheduler returns *)

Lemma mapM_ok_inv {A B} (f : A -> result B) (l : list A) (l' : list B) :
  mapM f l = OK l' ->
  List.length l' = List.length l /\ forall x, In x l -> exists b, f x = OK b.
Proof.
  revert l'. induction l as [|a l IH]; intros l' H; cbn [mapM] in H.
  - injection H as <-. split; [reflexivity | intros x []].
  - destruct (f a) as [b|e] eqn:Ea; cbn [bind] in H; [|discriminate].
    destruct (mapM f l) as [bs|e] eqn:El; cbn [bind] in H; [|discriminate].
    injection H as <-. destruct (IH bs eq_refl) as [Hl Hx]. split.
    + cbn. now rewrite Hl.
    + intros x [<-|Hin]; [now exists b | now apply Hx].
Qed.







Lemma emit_lines_ready prof pl :
  emit_ready prof pl = true ->
  emit_lines prof pl
  = OK (map pass_line (map (pass_at prof pl) (seq 0 (pass_count prof pl)))).
Proof.
  intros ready. unfold emit_lines. now rewrite (emit_passes_ready prof pl ready).
Qed.

Lemma perfmon_emit_text pl soc prof :
  dict_get soc perfmon_config = Some prof ->
  perfmon_emit pl soc
  = (lines <- emit_lines prof pl ;;
     OK (String.concat "" (map (fun line => line ++ newline) lines)
         ++ newline ++ "gpu:" ++ newline ++ "range:" ++ newline
         ++ "kernel:" ++ newline)%string).
Proof. intros H. unfold perfmon_emit, getitem. now rewrite H. Qed.


(** ** Small schedules *)

Lemma ceil_div_zero_iff a b : 1 <= b -> ceil_div a b = 0 <-> a = 0.
Proof.
  intros Hb. pose proof (ceil_div_spec a Hb 0) as H. cbn in H. lia.
Qed.

Lemma ceil_div_fits a b : 1 <= b -> a <= b -> ceil_div a b <= 1.
Proof.
  intros Hb Hab. destruct (le_lt_dec (ceil_div a b) 1) as [|Hgt]; [assumption|].
  assert (H : 1 < ceil_div a b) by lia.
  apply (ceil_div_spec a Hb) in H. lia.
Qed.

Lemma list_max_zero l : list_max l = 0 <-> forall x, In x l -> x = 0.
Proof.
  split.
  - intros H x Hin. pose proof (list_max_ge l x Hin). lia.
  - intros H. assert (Hle : list_max l <= 0); [|lia].
    apply list_max_le. apply Forall_forall. intros x Hin. rewrite (H x Hin). lia.
Qed.

Lemma pass_count_zero prof pl :
  emit_ready prof pl = true ->
  pass_count prof pl = 0
  <-> (forall key, In key (ordinary_keys pl) -> bucket pl key = [])
      /\ bucket pl "TCC" = []
      /\ (forall ch, In ch (channels prof) -> channel pl (str ch) = []).
Proof.
  intros ready. pose proof (ready_N prof pl ready) as HN.
  unfold pass_count. split.
  - intros H.
    assert (H1 : list_max (map (fun key => ceil_div (List.length (bucket pl key)) (cap prof key))
                               (ordinary_keys pl)) = 0) by lia.
    assert (H2 : ceil_div (List.length (bucket pl "TCC")) (cap prof "TCC") = 0) by lia.
    assert (H3 : ceil_div (list_max (map (fun ch => List.length (channel pl (str ch)))
                                         (channels prof))) (cap prof "TCC") = 0) by lia.
    clear H. repeat split.
    + intros key Hkey. apply length_zero_iff_nil.
      apply (proj1 (ceil_div_zero_iff _ (ready_ordinary prof pl ready key Hkey))).
      apply (proj1 (list_max_zero _) H1).
      apply in_map_iff. now exists key.
    + apply length_zero_iff_nil. now apply (proj1 (ceil_div_zero_iff _ HN)).
    + intros ch Hch. apply length_zero_iff_nil.
      apply (proj1 (ceil_div_zero_iff _ HN)) in H3.
      apply (proj1 (list_max_zero _) H3). apply in_map_iff. now exists ch.
  - intros (Hk & Ht & Hc).
    assert (H1 : list_max (map (fun key => ceil_div (List.length (bucket pl key)) (cap prof key))
                               (ordinary_keys pl)) = 0).
    { apply list_max_zero. intros x Hx. apply in_map_iff in Hx as (key & <- & Hkey).
      rewrite (Hk key Hkey). apply ceil_div_0. now apply (ready_ordinary prof pl ready). }
    assert (H3 : list_max (map (fun ch => List.length (channel pl (str ch))) (channels prof)) = 0).
    { apply list_max_zero. intros x Hx. apply in_map_iff in Hx as (ch & <- & Hch).
      now rewrite (Hc ch Hch). }
    rewrite H1, H3, Ht. cbn [List.length]. rewrite (ceil_div_0 HN). reflexivity.
Qed.

(** X2. A schedule has no pass exactly when every bucket the scheduler visits is
    empty: the ordinary blocks, the aggregated TCC bucket and the sub-buckets
    of the channels of the profile. *)
Theorem no_pass_iff_no_counter (prof : profile) (pl : pmc_list) :
  emit_ready prof pl = true ->
  emit_lines prof pl = OK []
  <-> (forall key, In key (ordinary_keys pl) -> bucket pl key = [])
      /\ bucket pl "TCC" = []
      /\ (forall ch, In ch (channels prof) -> channel pl (str ch) = []).
Proof.
  intros ready. rewrite <- (@pass_count_zero prof pl ready), (@emit_lines_ready prof pl ready). split.
  - intros [= H]. apply (f_equal (@List.length _)) in H.
    rewrite !length_map, length_seq in H. exact H.
  - intros ->. reflexivity.
Qed.

Lemma nth_slice_whole N (l : list string) : List.length l <= N -> nth_slice N l 0 = l.
Proof.
  intros H. unfold nth_slice, slice. cbn [Nat.mul Nat.add skipn].
  rewrite Nat.sub_0_r. now apply firstn_all2.
Qed.

Lemma concat_nils {A} (ls : list (list A)) : (forall l, In l ls -> l = []) -> List.concat ls = [].
Proof.
  induction ls as [|l ls IH]; intros H; [reflexivity|]. cbn.
  rewrite (H l (or_introl eq_refl)). apply IH. intros l' Hl. apply H. now right.
Qed.

(** X3. When every bucket fits the capacity of its block and the TCC counters
    are all aggregated or all per-channel, the schedule is empty or one pass
    that holds every bucket in full. *)
Theorem one_pass_when_all_fits (prof : profile) (pl : pmc_list) :
  emit_ready prof pl = true ->
  (forall key, In key (ordinary_keys pl) ->
               List.length (bucket pl key) <= cap prof key) ->
  List.length (bucket pl "TCC") <= cap prof "TCC" ->
  (forall ch, In ch (channels prof) ->
              List.length (channel pl (str ch)) <= cap prof "TCC") ->
  (bucket pl "TCC" = []
   \/ forall ch, In ch (channels prof) -> channel pl (str ch) = []) ->
  emit_passes prof pl = OK []
  \/ emit_passes prof pl = OK [whole prof pl].
Proof.
  intros ready Hfit Htcc Hch Hmix.
  pose proof (ready_N prof pl ready) as HN.
  rewrite (emit_passes_ready prof pl ready).
  assert (Hle : pass_count prof pl <= 1).
  { unfold pass_count.
    assert (H1 : list_max (map (fun key => ceil_div (List.length (bucket pl key)) (cap prof key))
                               (ordinary_keys pl)) <= 1).
    { apply list_max_le. apply Forall_forall. intros x Hx.
      apply in_map_iff in Hx as (key & <- & Hkey).
      apply ceil_div_fits; [now apply (ready_ordinary prof pl ready) | now apply Hfit]. }
    assert (H2 : ceil_div (List.length (bucket pl "TCC")) (cap prof "TCC") <= 1)
      by now apply ceil_div_fits.
    assert (H3 : ceil_div (list_max (map (fun ch => List.length (channel pl (str ch)))
                                         (channels prof))) (cap prof "TCC") <= 1).
    { apply ceil_div_fits; [assumption|]. apply list_max_le. apply Forall_forall.
      intros x Hx. apply in_map_iff in Hx as (ch & <- & Hin). now apply Hch. }
    destruct Hmix as [Hnil | Hnil].
    - rewrite Hnil. cbn [List.length]. rewrite (ceil_div_0 HN). lia.
    - assert (H0 : list_max (map (fun ch => List.length (channel pl (str ch)))
                                 (channels prof)) = 0).
      { apply list_max_zero. intros x Hx. apply in_map_iff in Hx as (ch & <- & Hin).
        now rewrite (Hnil ch Hin). }
      rewrite H0, (ceil_div_0 HN). lia. }
  destruct (pass_count prof pl) as [|[|n]] eqn:Epc; [now left | right | lia].
  cbn [seq map]. do 2 f_equal. unfold pass_at, whole. f_equal.
  - apply map_ext_in. intros key Hkey. f_equal. apply nth_slice_whole. now apply Hfit.
  - destruct (0 <? ceil_div (List.length (bucket pl "TCC")) (cap prof "TCC")) eqn:EA.
    + apply Nat.ltb_lt in EA. rewrite (nth_slice_whole _ Htcc).
      destruct Hmix as [Hnil | Hnil].
      * rewrite Hnil in EA. cbn [List.length] in EA. rewrite (ceil_div_0 HN) in EA. lia.
      * rewrite concat_nils; [now rewrite app_nil_r|].
        intros l Hl. apply in_map_iff in Hl as (ch & <- & Hin). now apply Hnil.
    + apply Nat.ltb_ge in EA.
      assert (E0 : ceil_div (List.length (bucket pl "TCC")) (cap prof "TCC") = 0) by lia.
      rewrite E0. apply (proj1 (ceil_div_zero_iff _ HN)) in E0. apply length_zero_iff_nil in E0.
      rewrite E0. cbn [app]. f_equal. apply map_ext_in. intros ch Hin.
      apply nth_slice_whole. now apply Hch.
Qed.

(** X4. Aggregated and per-channel TCC counters never share a pass: a bucket
    structure with both takes at least two passes. *)
Theorem mixed_TCC_takes_two_passes (prof : profile) (pl : pmc_list) (ch : nat) :
  emit_ready prof pl = true ->
  bucket pl "TCC" <> [] ->
  In ch (channels prof) -> channel pl (str ch) <> [] ->
  exists lines, emit_lines prof pl = OK lines /\ 2 <= List.length lines.
Proof.
  intros ready Ht Hch Hc. pose proof (ready_N prof pl ready) as HN.
  rewrite (@emit_lines_ready prof pl ready). eexists. split; [reflexivity|].
  rewrite !length_map, length_seq.
  pose proof (@pass_count_channel prof pl ch HN Hch) as Hle.
  assert (H1 : ceil_div (List.length (bucket pl "TCC")) (cap prof "TCC") <> 0).
  { rewrite (ceil_div_zero_iff _ HN). now rewrite length_zero_iff_nil. }
  assert (H2 : ceil_div (List.length (channel pl (str ch))) (cap prof "TCC") <> 0).
  { rewrite (ceil_div_zero_iff _ HN). now rewrite length_zero_iff_nil. }
  lia.
Qed.

(** ** When the coalescer returns *)

Lemma add_counter_ok n pl t :
  coalescer_shape n pl -> known_block t = true -> exists pl', add_counter pl t = OK pl'.
Proof.
  intros [Hk _] Hknown. rewrite add_counter_home. unfold home_of.
  assert (Hb : exists pl', append_unique pl (IP_block_of t) t = OK pl').
  { unfold append_unique. unfold known_block in Hknown.
    destruct (String.eqb_spec (IP_block_of t) "TCC2") as [E|_].
    - rewrite E in Hknown. discriminate.
    - apply mem_In in Hknown. rewrite <- Hk in Hknown.
      apply dict_get_In_keys in Hknown as [l Hl]. unfold getitem. rewrite Hl. cbn [bind].
      destruct (mem t l); eauto. }
  destruct (negb (IP_block_of t =? "TCC")%string); [exact Hb|].
  destruct (match_channel t) as [ch|]; [|exact Hb].
  destruct (dict_get ch (TCC2 pl)) as [l|]; [destruct (mem t l)|]; eauto.
Qed.

Lemma add_counters_ok n ts pl :
  coalescer_shape n pl -> (forall t, In t ts -> known_block t = true) ->
  exists pl', add_counters pl ts = OK pl'.
Proof.
  revert pl. induction ts as [|t ts IH]; intros pl Hs Hk; cbn [add_counters].
  - eauto.
  - destruct (@add_counter_ok n pl t Hs (Hk t (or_introl eq_refl))) as [pl1 E].
    rewrite E. cbn [bind]. apply IH.
    + eapply add_counter_shape; eauto.
    + intros t' Ht'. apply Hk. now right.
Qed.

Lemma coalesce_line_ok n dir pl fs line :
  coalescer_shape n pl -> (forall t, In t (line_tokens line) -> known_block t = true) ->
  exists pl' fs', coalesce_line dir (pl, fs) line = OK (pl', fs').
Proof.
  intros Hs Hk. unfold line_tokens in Hk.
  destruct (match_pmc (strip (before "#" line))) as [group|] eqn:Em.
  - destruct (mem ACCUM (split_ws group)) eqn:Ea.
    + apply mem_In in Ea. apply In_split_first in Ea as (pre & post & E & Hpre).
      rewrite (@coalesce_line_level dir pl fs line group pre post Em E Hpre). eauto.
    + destruct (@add_counters_ok n (split_ws group) pl Hs Hk) as [pl1 E1].
      exists pl1, fs. unfold coalesce_line.
      pose proof (@match_pmc_nonempty _ _ Em) as Hne.
      destruct (strip (before "#" line)) as [|c s] eqn:Es; [congruence|].
      rewrite Em, Ea, E1. reflexivity.
  - exists pl, fs. apply coalesce_line_skip. now right; left.
Qed.

Lemma coalesce_lines_ok n dir lines pl fs :
  coalescer_shape n pl ->
  (forall t, In t (flat_map line_tokens lines) -> known_block t = true) ->
  exists pl' fs', coalesce_lines dir (pl, fs) lines = OK (pl', fs').
Proof.
  revert pl fs. induction lines as [|line lines IH]; intros pl fs Hs Hk;
    cbn [coalesce_lines].
  - eauto.
  - cbn [flat_map] in Hk.
    destruct (@coalesce_line_ok n dir pl fs line Hs) as (pl1 & fs1 & E).
    { intros t Ht. apply Hk, in_or_app. now left. }
    rewrite E. cbn [bind]. apply IH.
    + eapply add_counters_shape; [exact Hs|]. eapply coalesce_line_tokens, E.
    + intros t Ht. apply Hk, in_or_app. now right.
Qed.

Lemma coalesce_files_ok n dir files pl fs :
  coalescer_shape n pl ->
  (forall t, In t (bucketed_tokens files) -> known_block t = true) ->
  exists pl' fs', coalesce_files dir (pl, fs) files = OK (pl', fs').
Proof.
  revert pl fs. induction files as [|lines files IH]; intros pl fs Hs Hk;
    cbn [coalesce_files].
  - eauto.
  - unfold bucketed_tokens in Hk. cbn [flat_map] in Hk.
    destruct (@coalesce_lines_ok n dir lines pl fs Hs) as (pl1 & fs1 & E).
    { intros t Ht. apply Hk, in_or_app. now left. }
    rewrite E. cbn [bind]. apply IH.
    + eapply coalesce_lines_shape; eauto.
    + intros t Ht. apply Hk, in_or_app. now right.
Qed.

Lemma initial_shape n : coalescer_shape n (mk_pmc_list initial_buckets (initial_TCC2 n)).
Proof. split; [reflexivity | apply initial_TCC2_mem]. Qed.

Lemma builtin_channels soc prof :
  dict_get soc perfmon_config = Some prof ->
  exists n, prof = gfx_profile n /\ 1 <= n /\ dict_get "TCC_channels" prof = Some n.
Proof.
  intros H. destruct (builtin_profile _ H) as [->| ->]; eexists; repeat split; lia.
Qed.

Lemma perfmon_coalesce_ok files wd soc prof :
  dict_get soc perfmon_config = Some prof ->
  (forall t, In t (bucketed_tokens files) -> known_block t = true) ->
  exists pl fs, perfmon_coalesce files wd soc = OK (pl, fs).
Proof.
  intros Hsoc Hk. destruct (builtin_channels _ Hsoc) as (n & _ & _ & Hn).
  unfold perfmon_coalesce, getitem. rewrite Hsoc. cbn [bind]. rewrite Hn. cbn [bind].
  destruct (@coalesce_files_ok n (wd ++ "/perfmon")%string files _ [] (initial_shape n) Hk)
    as (pl1 & fs1 & E).
  cbv zeta.
  match goal with
  | |- context [bind ?c _] => replace c with (OK (pl1, fs1)) by (symmetry; exact E)
  end.
  cbn [bind].
  destruct (@sort_channels_ok (seq 0 n) pl1) as [pl2 E2].
  { eapply coalesce_files_shape; [apply initial_shape | exact E]. }
  rewrite E2. cbn [bind]. eauto.
Qed.

Lemma perfmon_coalesce_shape files wd soc pl fs :
  perfmon_coalesce files wd soc = OK (pl, fs) ->
  exists n, dict_get soc perfmon_config = Some (gfx_profile n)
            /\ 1 <= n /\ coalescer_shape n pl.
Proof.
  unfold perfmon_coalesce, getitem.
  destruct (dict_get soc perfmon_config) as [prof|] eqn:Ep; cbn [bind]; [|discriminate].
  destruct (builtin_channels _ Ep) as (n & -> & Hn & En). rewrite En. cbn [bind].
  destruct (coalesce_files _ _ files) as [[pl1 fs1]|] eqn:Ec; cbn [bind]; [|discriminate].
  destruct (sort_channels pl1 (seq 0 n)) as [pl2|] eqn:Es; cbn [bind]; [|discriminate].
  intros [= <- <-]. exists n. repeat split; try assumption.
  - eapply sort_channels_shape; [|exact Es].
    eapply coalesce_files_shape; [apply initial_shape | exact Ec].
  - eapply sort_channels_shape; [|exact Es].
    eapply coalesce_files_shape; [apply initial_shape | exact Ec].
Qed.

Lemma tokens_of_In h seen t : In t (tokens_of h seen) <-> In t seen /\ home_of t = h.
Proof.
  unfold tokens_of. rewrite filter_In. now rewrite home_eqb_eq.
Qed.

Lemma home_block t :
  home_of t = InBucket (IP_block_of t)
  \/ (IP_block_of t = "TCC" /\ exists ch, home_of t = InChannel ch).
Proof.
  unfold home_of. destruct (String.eqb_spec (IP_block_of t) "TCC") as [E|_]; cbn [negb].
  - destruct (match_channel t) as [ch|]; [right; eauto | now left].
  - now left.
Qed.

Lemma perfmon_coalesce_known files wd soc pl fs :
  perfmon_coalesce files wd soc = OK (pl, fs) ->
  forall t, In t (bucketed_tokens files) -> known_block t = true.
Proof.
  intros H t Ht. destruct (perfmon_coalesce_shape _ _ _ H) as (n & _ & _ & Hk & _).
  destruct (perfmon_coalesce_spec _ _ _ H) as (prof & _ & _ & Hb & _).
  unfold known_block. destruct (home_block t) as [Eh | [E _]].
  - apply mem_In. rewrite <- Hk. apply dict_mem_keys.
    assert (Hin : In t (bucket pl (IP_block_of t))).
    { rewrite Hb. apply first_appearances_In. now apply tokens_of_In. }
    unfold bucket, dict_mem in *. destruct (dict_get (IP_block_of t) (buckets pl));
      [reflexivity | destruct Hin].
  - now rewrite E.
Qed.

(** ** Sources that repeat counters, and the order of the sources *)

Lemma first_appearances_app_seen l l' :
  (forall x, In x l' -> In x l) -> first_appearances (l ++ l') = first_appearances l.
Proof.
  induction l' as [|x l' IH] using rev_ind; intros H.
  - now rewrite app_nil_r.
  - rewrite app_assoc, first_appearances_snoc.
    assert (Hl' : forall y, In y l' -> In y l).
    { intros y Hy. apply H, in_or_app. now left. }
    rewrite (IH Hl').
    assert (Hx : mem x (first_appearances l) = true).
    { apply mem_In, first_appearances_In, H, in_or_app. right. now left. }
    now rewrite Hx.
Qed.

Lemma tokens_of_app h a b : tokens_of h (a ++ b) = tokens_of h a ++ tokens_of h b.
Proof. apply filter_app. Qed.

Lemma bucketed_tokens_app files files' :
  bucketed_tokens (files ++ files') = bucketed_tokens files ++ bucketed_tokens files'.
Proof. apply flat_map_app. Qed.

(** The schedule reads a bucket structure through its buckets and the
    sub-buckets of the channels of the profile only. *)
Lemma pass_at_ext prof pl pl' iter :
  ordinary_keys pl = ordinary_keys pl' ->
  (forall key, bucket pl key = bucket pl' key) ->
  (forall ch, In ch (channels prof) -> channel pl (str ch) = channel pl' (str ch)) ->
  pass_at prof pl iter = pass_at prof pl' iter.
Proof.
  intros Hk Hb Hc. unfold pass_at. rewrite Hk, (Hb "TCC"). f_equal.
  - apply map_ext. intros key. now rewrite Hb.
  - destruct (iter <? _); [reflexivity|]. f_equal. apply map_ext_in.
    intros ch Hch. now rewrite (Hc ch Hch).
Qed.

Lemma pass_count_lengths prof pl pl' :
  ordinary_keys pl = ordinary_keys pl' ->
  (forall key, List.length (bucket pl key) = List.length (bucket pl' key)) ->
  (forall ch, In ch (channels prof) ->
              List.length (channel pl (str ch)) = List.length (channel pl' (str ch))) ->
  pass_count prof pl = pass_count prof pl'.
Proof.
  intros Hk Hb Hc. unfold pass_count. rewrite Hk, (Hb "TCC"). f_equal.
  - f_equal. apply map_ext. intros key. now rewrite Hb.
  - do 3 f_equal. apply map_ext_in. intros ch Hch. now rewrite (Hc ch Hch).
Qed.

Lemma shape_ordinary_keys n pl pl' :
  coalescer_shape n pl -> coalescer_shape n pl' -> ordinary_keys pl = ordinary_keys pl'.
Proof. intros [H _] [H' _]. unfold ordinary_keys. now rewrite H, H'. Qed.

Lemma perfmon_emit_ext n pl pl' soc :
  dict_get soc perfmon_config = Some (gfx_profile n) -> 1 <= n ->
  coalescer_shape n pl -> coalescer_shape n pl' ->
  (forall key, bucket pl key = bucket pl' key) ->
  (forall ch, In ch (channels (gfx_profile n)) ->
              channel pl (str ch) = channel pl' (str ch)) ->
  perfmon_emit pl soc = perfmon_emit pl' soc.
Proof.
  intros Hsoc Hn Hs Hs' Hb Hc.
  rewrite (@perfmon_emit_text pl soc _ Hsoc), (@perfmon_emit_text pl' soc _ Hsoc).
  rewrite (@emit_lines_ready _ pl (shape_emit_ready Hn Hs)).
  rewrite (@emit_lines_ready _ pl' (shape_emit_ready Hn Hs')).
  pose proof (shape_ordinary_keys Hs Hs') as Hk.
  rewrite (@pass_count_lengths (gfx_profile n) pl pl' Hk).
  - assert (E : forall l, map (pass_at (gfx_profile n) pl) l
                          = map (pass_at (gfx_profile n) pl') l).
    { intros l. apply map_ext. intros iter. now apply pass_at_ext. }
    now rewrite E.
  - intros key. now rewrite Hb.
  - intros ch Hch. now rewrite (Hc ch Hch).
Qed.

(** X6. Sources that only name counters already named change nothing: the
    buckets, the sub-buckets and the schedule written from them stay as
    they are. *)
Theorem repeated_counters_change_nothing (files extra : list (list string))
  (wd soc : string) (pl : pmc_list) (fs : writes) :
  perfmon_coalesce files wd soc = OK (pl, fs) ->
  (forall t, In t (bucketed_tokens extra) -> In t (bucketed_tokens files)) ->
  exists pl' fs',
    perfmon_coalesce (files ++ extra) wd soc = OK (pl', fs')
    /\ (forall key, bucket pl' key = bucket pl key)
    /\ (forall ch, channel pl' ch = channel pl ch)
    /\ perfmon_emit pl' soc = perfmon_emit pl soc.
Proof.
  intros H Hsub.
  destruct (perfmon_coalesce_shape _ _ _ H) as (n & Hsoc & Hn & Hs).
  destruct (@perfmon_coalesce_ok (files ++ extra) wd soc _ Hsoc) as (pl' & fs' & H').
  { intros t Ht. rewrite bucketed_tokens_app in Ht. apply in_app_or in Ht as [Ht|Ht].
    - eapply perfmon_coalesce_known; eauto.
    - eapply perfmon_coalesce_known; eauto. }
  exists pl', fs'. split; [exact H'|].
  destruct (perfmon_coalesce_shape _ _ _ H') as (n' & Hsoc' & _ & Hs').
  rewrite Hsoc in Hsoc'. injection Hsoc' as <-.
  destruct (perfmon_coalesce_spec _ _ _ H) as (prof & Hp & _ & Hb & Hc).
  destruct (perfmon_coalesce_spec _ _ _ H') as (prof' & Hp' & _ & Hb' & Hc').
  rewrite Hp in Hp'. injection Hp' as <-.
  assert (Hsame : forall h, first_appearances (tokens_of h (bucketed_tokens (files ++ extra)))
                            = first_appearances (tokens_of h (bucketed_tokens files))).
  { intros h. rewrite bucketed_tokens_app, tokens_of_app.
    apply first_appearances_app_seen. intros x Hx.
    apply tokens_of_In in Hx as [Hx Hh]. apply tokens_of_In. split; [now apply Hsub | exact Hh]. }
  assert (Hbb : forall key, bucket pl' key = bucket pl key).
  { intros key. now rewrite Hb', Hb, Hsame. }
  assert (Hcc : forall ch, channel pl' ch = channel pl ch).
  { intros ch. now rewrite Hc', Hc, Hsame. }
  repeat split; try assumption.
  apply (@perfmon_emit_ext n pl' pl soc); auto.
Qed.

Lemma tokens_same_set h l l' :
  (forall t, In t l <-> In t l') ->
  Permutation (first_appearances (tokens_of h l)) (first_appearances (tokens_of h l')).
Proof.
  intros H. apply NoDup_Permutation; try apply first_appearances_NoDup.
  intros x. rewrite !first_appearances_In, !tokens_of_In. now rewrite H.
Qed.

(** X7. The order in which the sources and their lines name the counters
    changes the order within the buckets at most: two inputs with the same
    bucketed tokens give buckets that are permutations of each other, the
    same sub-buckets for the channels of the profile, and schedules of the
    same number of passes. *)
Theorem source_order_is_immaterial (files files' : list (list string))
  (wd soc : string) (pl : pmc_list) (fs : writes) :
  perfmon_coalesce files wd soc = OK (pl, fs) ->
  (forall t, In t (bucketed_tokens files) <-> In t (bucketed_tokens files')) ->
  exists prof pl' fs',
    dict_get soc perfmon_config = Some prof
    /\ perfmon_coalesce files' wd soc = OK (pl', fs')
    /\ (forall key, Permutation (bucket pl key) (bucket pl' key))
    /\ (forall ch, Permutation (channel pl ch) (channel pl' ch))
    /\ (forall ch, In ch (channel_keys prof) -> channel pl' ch = channel pl ch)
    /\ pass_count prof pl' = pass_count prof pl.
Proof.
  intros H Hset.
  destruct (perfmon_coalesce_shape _ _ _ H) as (n & Hsoc & Hn & Hs).
  destruct (@perfmon_coalesce_ok files' wd soc _ Hsoc) as (pl' & fs' & H').
  { intros t Ht. apply Hset in Ht. eapply perfmon_coalesce_known; eauto. }
  exists (gfx_profile n), pl', fs'. split; [exact Hsoc|]. split; [exact H'|].
  destruct (perfmon_coalesce_shape _ _ _ H') as (n' & Hsoc' & _ & Hs').
  rewrite Hsoc in Hsoc'. injection Hsoc' as <-.
  destruct (perfmon_coalesce_spec _ _ _ H) as (prof & Hp & _ & Hb & Hc).
  destruct (perfmon_coalesce_spec _ _ _ H') as (prof' & Hp' & _ & Hb' & Hc').
  rewrite Hsoc in Hp, Hp'. injection Hp as <-. injection Hp' as <-.
  assert (Hbb : forall key, Permutation (bucket pl key) (bucket pl' key)).
  { intros key. rewrite Hb, Hb'. now apply tokens_same_set. }
  assert (Hcc : forall ch, Permutation (channel pl ch) (channel pl' ch)).
  { intros ch. rewrite Hc, Hc'. destruct (mem ch (channel_keys (gfx_profile n))).
    - rewrite !sort_perm. now apply tokens_same_set.
    - now apply tokens_same_set. }
  repeat split; try assumption.
  - intros ch Hch. apply mem_In in Hch. rewrite Hc, Hc', Hch.
    apply sorted_perm_unique; try apply sort_sorted.
    rewrite !sort_perm. apply tokens_same_set. intros t. symmetry. apply Hset.
  - apply pass_count_lengths.
    + now apply (@shape_ordinary_keys n).
    + intros key. symmetry. now apply Permutation_length.
    + intros ch _. symmetry. now apply Permutation_length.
Qed.

(** ** Text of a pass line *)

Lemma string_app_nil_r (s : string) : (s ++ "")%string = s.
Proof. induction s as [|c s IH]; cbn; [reflexivity | now rewrite IH]. Qed.

Lemma spaced_app a b : spaced (a ++ b) = (spaced a ++ spaced b)%string.
Proof.
  induction a as [|t a IH]; [reflexivity|].
  cbn [app spaced]. rewrite IH. cbn. now rewrite !string_app_assoc.
Qed.

Lemma join_spaced t ts : (t ++ spaced ts)%string = join " " (t :: ts).
Proof.
  revert t. induction ts as [|u ts IH]; intros t.
  - apply string_app_nil_r.
  - unfold join in *.
    change (t ++ " " ++ (u ++ spaced ts) = t ++ " " ++ String.concat " " (u :: ts))%string.
    now rewrite IH.
Qed.

Lemma blank_join ts : ts <> [] -> (" " ++ join " " ts)%string = spaced ts.
Proof.
  destruct ts as [|t ts]; [congruence|]. intros _. cbn [spaced].
  now rewrite join_spaced.
Qed.

Lemma pass_line_fold kvs acc :
  fold_left (fun line (kv : string * list string) =>
               if is_nil (snd kv) then line
               else (line ++ " " ++ join " " (snd kv))%string) kvs acc
  = (acc ++ spaced (List.concat (map snd kvs)))%string.
Proof.
  revert acc. induction kvs as [|[k l] kvs IH]; intros acc; cbn [fold_left map List.concat].
  - now rewrite string_app_nil_r.
  - rewrite IH, spaced_app. cbn [snd]. destruct l as [|t l]; cbn [is_nil].
    + reflexivity.
    + rewrite blank_join by discriminate. now rewrite string_app_assoc.
Qed.

Lemma pass_line_text p :
  pass_line p = ("pmc: " ++ spaced (pass_tokens p) ++ line_end (pass_tcc p))%string.
Proof.
  unfold pass_line, pass_tokens, line_end. rewrite pass_line_fold, spaced_app.
  destruct (pass_tcc p) as [|t l] eqn:E; cbn [is_nil].
  - cbn [spaced]. rewrite !string_app_assoc. now rewrite string_app_nil_r.
  - rewrite blank_join by discriminate. rewrite !string_app_assoc.
    now rewrite string_app_nil_r.
Qed.

(** ** Splitting and stripping *)

Lemma all_chars_cons p c s : all_chars p (String c s) = p c && all_chars p s.
Proof. reflexivity. Qed.

Lemma all_chars_app p a b : all_chars p (a ++ b) = all_chars p a && all_chars p b.
Proof.
  induction a as [|c a IH]; cbn; [reflexivity|]. now rewrite IH, andb_assoc.
Qed.

Lemma all_chars_impl (p q : ascii -> bool) s :
  (forall c, p c = true -> q c = true) -> all_chars p s = true -> all_chars q s = true.
Proof.
  intros H. induction s as [|c s IH]; cbn; [reflexivity|].
  intros E. apply andb_prop in E as [E1 E2]. now rewrite (H c E1), IH.
Qed.

Lemma before_all sep s :
  all_chars (fun c => negb (Ascii.eqb c sep)) s = true -> before sep s = s.
Proof.
  induction s as [|c s IH]; cbn; [reflexivity|].
  intros E. apply andb_prop in E as [E1 E2]. apply negb_true_iff in E1.
  now rewrite E1, IH.
Qed.

Lemma split_ws_aux_nil cur : split_ws_aux "" cur = flush cur [].
Proof. reflexivity. Qed.

Lemma split_ws_aux_cons c s cur :
  split_ws_aux (String c s) cur
  = if is_space c then flush cur (split_ws_aux s []) else split_ws_aux s (c :: cur).
Proof. reflexivity. Qed.

Lemma split_ws_aux_token t rest cur :
  all_chars (fun c => negb (is_space c)) t = true ->
  split_ws_aux (t ++ rest) cur
  = split_ws_aux rest (rev (list_ascii_of_string t) ++ cur).
Proof.
  revert cur. induction t as [|c t IH]; intros cur E; [reflexivity|].
  cbn [all_chars] in E. apply andb_prop in E as [E1 E2]. apply negb_true_iff in E1.
  change (String c t ++ rest)%string with (String c (t ++ rest)).
  rewrite split_ws_aux_cons, E1, IH by exact E2. cbn [list_ascii_of_string rev].
  now rewrite <- app_assoc.
Qed.

Lemma clean_parts t :
  clean t = true ->
  t <> EmptyString
  /\ all_chars (fun c => negb (is_space c)) t = true
  /\ all_chars (fun c => negb (Ascii.eqb c "#")) t = true.
Proof.
  unfold clean. intros E. apply andb_prop in E as [E1 E2]. repeat split.
  - apply negb_true_iff in E1. now apply String.eqb_neq in E1.
  - revert E2. apply all_chars_impl. intros c Hc. now apply andb_prop in Hc.
  - revert E2. apply all_chars_impl. intros c Hc. now apply andb_prop in Hc.
Qed.

Lemma split_ws_aux_flush r cur :
  r = EmptyString \/ (exists r', r = String " " r') ->
  split_ws_aux r cur = flush cur (split_ws_aux r []).
Proof. intros [-> | [r' ->]]; reflexivity. Qed.

Lemma spaced_head ts tail :
  tail = EmptyString \/ tail = " " ->
  (spaced ts ++ tail)%string = EmptyString
  \/ exists r', (spaced ts ++ tail)%string = String " " r'.
Proof.
  intros Htail. destruct ts as [|t ts].
  - destruct Htail as [-> | ->]; [now left | right; now exists EmptyString].
  - right. cbn [spaced]. rewrite !string_app_assoc. eexists. reflexivity.
Qed.

Lemma flush_token t rest :
  t <> EmptyString ->
  flush (rev (list_ascii_of_string t)) rest = t :: rest.
Proof.
  intros Hne. unfold flush.
  assert (Hstr : string_of_list_ascii (rev (rev (list_ascii_of_string t))) = t).
  { now rewrite rev_involutive, string_of_list_ascii_of_string. }
  destruct (rev (list_ascii_of_string t)) eqn:E; [|now rewrite Hstr].
  destruct t as [|c t]; [congruence|]. cbn in E.
  now destruct (rev (list_ascii_of_string t)).
Qed.

Lemma split_ws_spaced ts tail :
  Forall (fun t => clean t = true) ts -> tail = EmptyString \/ tail = " " ->
  split_ws_aux (spaced ts ++ tail) [] = ts.
Proof.
  intros H Htail. induction H as [|t ts Ht _ IH].
  - destruct Htail as [-> | ->]; reflexivity.
  - destruct (clean_parts _ Ht) as (Hne & Hsp & _).
    cbn [spaced]. rewrite !string_app_assoc.
    change (" " ++ t ++ spaced ts ++ tail)%string
      with (String " " (t ++ spaced ts ++ tail)).
    rewrite split_ws_aux_cons.
    replace (is_space " ") with true by reflexivity. cbn [flush].
    rewrite split_ws_aux_token by exact Hsp. rewrite app_nil_r.
    rewrite split_ws_aux_flush by now apply spaced_head.
    rewrite IH. now apply flush_token.
Qed.

Lemma rstrip_nil_split s cur :
  split_ws_aux (rstrip s) cur = split_ws_aux s cur.
Proof.
  revert cur. induction s as [|c s IH]; intros cur; [reflexivity|].
  cbn [rstrip]. rewrite split_ws_aux_cons.
  destruct (rstrip s) as [|c' r] eqn:E.
  - destruct (is_space c) eqn:Ec.
    + rewrite <- IH. reflexivity.
    + rewrite <- IH, split_ws_aux_cons, Ec. reflexivity.
  - rewrite split_ws_aux_cons, <- !IH. reflexivity.
Qed.

Lemma lstrip_prefix c s : is_space c = false -> lstrip (String c s) = String c s.
Proof. intros E. cbn [lstrip]. now rewrite E. Qed.

Lemma rstrip_prefix c s : is_space c = false -> rstrip (String c s) = String c (rstrip s).
Proof. intros E. cbn [rstrip]. destruct (rstrip s); [now rewrite E | reflexivity]. Qed.

Lemma all_chars_rstrip p s : all_chars p s = true -> all_chars p (rstrip s) = true.
Proof.
  induction s as [|c s IH]; [reflexivity|]. cbn [all_chars rstrip].
  intros E. apply andb_prop in E as [E1 E2]. specialize (IH E2).
  destruct (rstrip s) as [|c' r].
  - destruct (is_space c); [reflexivity | cbn; now rewrite E1].
  - cbn [all_chars] in *. now rewrite E1, IH.
Qed.

Lemma all_chars_lstrip p s : all_chars p s = true -> all_chars p (lstrip s) = true.
Proof.
  induction s as [|c s IH]; [reflexivity|]. cbn [all_chars lstrip].
  intros E. destruct (is_space c); [|exact E]. apply andb_prop in E as [_ E2]. now apply IH.
Qed.

Lemma all_chars_before p sep s : all_chars p s = true -> all_chars p (before sep s) = true.
Proof.
  induction s as [|c s IH]; [reflexivity|]. cbn [all_chars before].
  intros E. apply andb_prop in E as [E1 E2].
  destruct (Ascii.eqb c sep); [reflexivity|]. cbn [all_chars]. now rewrite E1, IH.
Qed.

Lemma before_free sep s : all_chars (fun c => negb (Ascii.eqb c sep)) (before sep s) = true.
Proof.
  induction s as [|c s IH]; [reflexivity|]. cbn [before].
  destruct (Ascii.eqb c sep) eqn:E; [reflexivity|]. cbn [all_chars]. now rewrite E, IH.
Qed.

Lemma all_chars_spaced p ts :
  p " "%char = true -> Forall (fun t => all_chars p t = true) ts ->
  all_chars p (spaced ts) = true.
Proof.
  intros Hsp H. induction H as [|t ts Ht _ IH]; [reflexivity|].
  cbn [spaced]. change (" " ++ t ++ spaced ts)%string with (String " " (t ++ spaced ts)).
  cbn [all_chars]. now rewrite Hsp, all_chars_app, Ht, IH.
Qed.

(** What the coalescer and the splitter read in the line of a pass whose
    counters are clean: the line as it is but for the blank at its end, and
    the counters of the pass. *)
Lemma pass_line_read p :
  Forall (fun t => clean t = true) (pass_tokens p) ->
  exists group,
    strip (before "#" (pass_line p))
    = ("pmc:" ++ rstrip (" " ++ spaced (pass_tokens p) ++ line_end (pass_tcc p)))%string
    /\ match_pmc (strip (before "#" (pass_line p))) = Some group
    /\ split_ws group = pass_tokens p.
Proof.
  intros Hclean. rewrite pass_line_text.
  set (body := (spaced (pass_tokens p) ++ line_end (pass_tcc p))%string).
  assert (Hend : line_end (pass_tcc p) = EmptyString \/ line_end (pass_tcc p) = " ").
  { unfold line_end. destruct (is_nil (pass_tcc p)); auto. }
  assert (Hbody : forall q, q " "%char = true ->
                    (forall t, clean t = true -> all_chars q t = true) ->
                    all_chars q body = true).
  { intros q Hq Ht. unfold body. rewrite all_chars_app, all_chars_spaced; [|exact Hq|].
    - destruct Hend as [-> | ->]; cbn; [reflexivity | now rewrite Hq].
    - eapply Forall_impl; [|exact Hclean]. intros t. apply Ht. }
  assert (Hhash : all_chars (fun c => negb (Ascii.eqb c "#")) body = true).
  { apply Hbody; [reflexivity|]. intros t Ht. now apply clean_parts in Ht. }
  assert (Hnl : all_chars (fun c => negb (Ascii.eqb c (ascii_of_nat 10))) body = true).
  { apply Hbody; [reflexivity|]. intros t Ht. apply clean_parts in Ht as (_ & Ht & _).
    revert Ht. apply all_chars_impl. intros c Hc.
    destruct (Ascii.eqb_spec c (ascii_of_nat 10)) as [->|]; [discriminate | reflexivity]. }
  change ("pmc: " ++ body)%string
    with (String "p" (String "m" (String "c" (String ":" (String " " body))))).
  rewrite before_all by (rewrite !all_chars_cons, Hhash; reflexivity).
  unfold strip. rewrite lstrip_prefix by reflexivity.
  do 4 (rewrite rstrip_prefix by reflexivity).
  exists (before (ascii_of_nat 10) (rstrip (String " " body))).
  split; [reflexivity|]. split; [reflexivity|].
  rewrite before_all.
  - unfold split_ws. rewrite rstrip_nil_split, split_ws_aux_cons.
    replace (is_space " ") with true by reflexivity.
    cbn [flush]. unfold body. now apply split_ws_spaced.
  - apply all_chars_rstrip. rewrite all_chars_cons, Hnl. reflexivity.
Qed.

(** ** The splitter *)

Lemma split_line_step dir i fs line :
  split_line dir (i, fs) line
  = match match_pmc (strip (before "#" line)) with
    | Some _ => (S i, fs ++ [split_file dir i (strip (before "#" line))])
    | None => (i, fs)
    end.
Proof.
  unfold split_line.
  destruct (strip (before "#" line)) as [|c s] eqn:E; [reflexivity|].
  destruct (match_pmc (String c s)); reflexivity.
Qed.

Lemma split_fold dir lines i fs :
  fold_left (split_line dir) lines (i, fs)
  = (i + List.length (counter_lists lines),
     fs ++ map (fun js => split_file dir (fst js) (snd js))
               (combine (seq i (List.length (counter_lists lines)))
                        (counter_lists lines))).
Proof.
  revert i fs. induction lines as [|line lines IH]; intros i fs.
  - cbn. now rewrite Nat.add_0_r, app_nil_r.
  - cbn [fold_left]. rewrite split_line_step. unfold counter_lists in *.
    cbn [flat_map]. destruct (match_pmc (strip (before "#" line))) as [g|].
    + rewrite IH. cbn [app List.length seq combine map fst snd].
      rewrite <- app_assoc. cbn [app]. f_equal. lia.
    + rewrite IH. reflexivity.
Qed.

Lemma pmc_perf_split_files wd text :
  pmc_perf_split wd text
  = (split_files (wd ++ "/perfmon") (counter_lists (splitlines text)),
     (wd ++ "/perfmon" ++ "/pmc_perf.txt")%string).
Proof.
  unfold pmc_perf_split. cbv zeta. rewrite split_fold. cbn [app Nat.add].
  unfold split_files. now rewrite string_app_assoc.
Qed.

Lemma list_ascii_app a b :
  list_ascii_of_string (a ++ b) = list_ascii_of_string a ++ list_ascii_of_string b.
Proof. induction a as [|c a IH]; cbn; [reflexivity | now rewrite IH]. Qed.

Lemma list_ascii_inj a b : list_ascii_of_string a = list_ascii_of_string b -> a = b.
Proof.
  intros H. apply (f_equal string_of_list_ascii) in H.
  now rewrite !string_of_list_ascii_of_string in H.
Qed.

Lemma string_app_inv_head (a b c : string) : (a ++ b)%string = (a ++ c)%string -> b = c.
Proof. induction a as [|x a IH]; cbn; [auto|]. intros [= H]. now apply IH. Qed.

Lemma string_app_inv_tail (a b c : string) : (a ++ c)%string = (b ++ c)%string -> a = b.
Proof.
  intros H. apply (f_equal list_ascii_of_string) in H. rewrite !list_ascii_app in H.
  apply app_inv_tail in H. now apply list_ascii_inj.
Qed.

Lemma split_path_inj dir i j stext stext' :
  fst (split_file dir i stext) = fst (split_file dir j stext') -> i = j.
Proof.
  cbn [split_file fst]. intros H. apply string_app_inv_head in H.
  apply string_app_inv_head in H. apply string_app_inv_tail in H. now apply str_inj.
Qed.

Lemma split_files_paths dir stexts : NoDup (map fst (split_files dir stexts)).
Proof.
  unfold split_files. rewrite map_map.
  assert (G : forall s l, NoDup (map (fun js : nat * string =>
                                        fst (split_file dir (fst js) (snd js)))
                                     (combine (seq s (List.length l)) l))
                          /\ forall js, In js (combine (seq s (List.length l)) l) ->
                                        s <= fst js).
  { intros s l. revert s. induction l as [|x l IH]; intros s; cbn [List.length seq combine map].
    - split; [constructor | intros js []].
    - destruct (IH (S s)) as [Hnd Hge]. split.
      + constructor; [|exact Hnd]. intros Hin. apply in_map_iff in Hin as (js & E & Hjs).
        apply split_path_inj in E. specialize (Hge js Hjs). cbn [fst] in E. lia.
      + intros js [<-|Hjs]; [cbn; lia|]. specialize (Hge js Hjs). lia. }
  apply G.
Qed.

(** X8. [pmc_perf_split] writes one file for every counter-list line of
    [pmc_perf.txt] and none for any other line; the files are numbered from
    0 without a gap in the order of the lines, so that no two of them have
    the same path, and each holds its line without comment and the three
    directives. *)
Theorem pmc_perf_split_numbers_the_lines (wd text : string) :
  pmc_perf_split wd text
  = (split_files (wd ++ "/perfmon") (counter_lists (splitlines text)),
     (wd ++ "/perfmon" ++ "/pmc_perf.txt")%string)
  /\ NoDup (map fst (fst (pmc_perf_split wd text))).
Proof.
  rewrite pmc_perf_split_files. split; [reflexivity|]. apply split_files_paths.
Qed.

(** ** The counters the coalescer keeps are clean *)

Lemma all_chars_of_list q l : all_chars q (string_of_list_ascii l) = forallb q l.
Proof. induction l as [|c l IH]; cbn; [reflexivity | now rewrite IH]. Qed.

Lemma flush_In q cur rest t :
  forallb q cur = true ->
  In t (flush cur rest) -> (t <> EmptyString /\ all_chars q t = true) \/ In t rest.
Proof.
  intros Hq. unfold flush. destruct cur as [|c cur']; [now right|].
  intros [<-|Hin]; [left | now right]. split.
  - intros H. apply (f_equal list_ascii_of_string) in H.
    rewrite list_ascii_of_string_of_list_ascii in H.
    apply (f_equal (@List.length _)) in H. rewrite length_rev in H. discriminate.
  - rewrite all_chars_of_list, forallb_forall. intros x Hx. apply in_rev in Hx.
    rewrite forallb_forall in Hq. now apply Hq.
Qed.

Lemma split_ws_aux_In q s cur t :
  all_chars q s = true -> forallb (fun c => negb (is_space c) && q c) cur = true ->
  In t (split_ws_aux s cur) ->
  t <> EmptyString /\ all_chars (fun c => negb (is_space c) && q c) t = true.
Proof.
  revert cur. induction s as [|c s IH]; intros cur Hs Hcur Hin.
  - rewrite split_ws_aux_nil in Hin.
    apply (@flush_In _ _ _ _ Hcur) in Hin as [H|[]]. exact H.
  - rewrite all_chars_cons in Hs. apply andb_prop in Hs as [Hc Hs].
    rewrite split_ws_aux_cons in Hin. destruct (is_space c) eqn:Ec.
    + apply (@flush_In _ _ _ _ Hcur) in Hin as [H|Hin]; [exact H|].
      now apply (IH [] Hs eq_refl).
    + apply (IH (c :: cur) Hs); [|exact Hin]. cbn [forallb]. now rewrite Ec, Hc, Hcur.
Qed.

Lemma match_pmc_inv stext group :
  match_pmc stext = Some group ->
  exists rest, stext = String "p" (String "m" (String "c" (String ":" rest)))
               /\ group = before (ascii_of_nat 10) rest.
Proof.
  unfold match_pmc.
  destruct stext as [|a [|b [|c [|d rest]]]]; try discriminate;
    try (destruct a as [[] [] [] [] [] [] [] []]; discriminate).
  - destruct a as [[] [] [] [] [] [] [] []]; try discriminate;
      destruct b as [[] [] [] [] [] [] [] []]; discriminate.
  - destruct a as [[] [] [] [] [] [] [] []]; try discriminate;
      destruct b as [[] [] [] [] [] [] [] []]; try discriminate;
      destruct c as [[] [] [] [] [] [] [] []]; discriminate.
  - destruct a as [[] [] [] [] [] [] [] []]; try discriminate;
      destruct b as [[] [] [] [] [] [] [] []]; try discriminate;
      destruct c as [[] [] [] [] [] [] [] []]; try discriminate;
      destruct d as [[] [] [] [] [] [] [] []]; try discriminate.
    intros [= <-]. eauto.
Qed.

Lemma line_tokens_clean line t :
  In t (line_tokens line) -> clean t = true /\ t <> ACCUM.
Proof.
  unfold line_tokens.
  destruct (match_pmc (strip (before "#" line))) as [group|] eqn:Em; [|intros []].
  destruct (mem ACCUM (split_ws group)) eqn:Ea; [intros []|]. intros Hin. split.
  - apply match_pmc_inv in Em as (rest & Es & ->).
    assert (Hfree : all_chars (fun c => negb (Ascii.eqb c "#")) (strip (before "#" line)) = true).
    { unfold strip. apply all_chars_rstrip, all_chars_lstrip, before_free. }
    rewrite Es in Hfree. rewrite !all_chars_cons in Hfree.
    repeat (apply andb_prop in Hfree as [_ Hfree]).
    apply (all_chars_before _ (ascii_of_nat 10)) in Hfree.
    unfold split_ws in Hin.
    apply (@split_ws_aux_In _ _ [] _ Hfree eq_refl) in Hin as [Hne Hall].
    unfold clean. apply String.eqb_neq in Hne. now rewrite Hne, Hall.
  - intros ->. apply mem_false in Ea. now apply Ea.
Qed.

Lemma bucketed_tokens_clean files t :
  In t (bucketed_tokens files) -> clean t = true /\ t <> ACCUM.
Proof.
  unfold bucketed_tokens. rewrite in_flat_map. intros (lines & _ & Hin).
  apply in_flat_map in Hin as (line & _ & Hin). eapply line_tokens_clean, Hin.
Qed.

(** Where the counters of a coalesced bucket structure come from. *)
Lemma coalesced_tokens files wd soc pl fs :
  perfmon_coalesce files wd soc = OK (pl, fs) ->
  (forall key t, In t (bucket pl key) ->
                 In t (bucketed_tokens files) /\ home_of t = InBucket key)
  /\ (forall ch t, In t (channel pl ch) ->
                   In t (bucketed_tokens files) /\ home_of t = InChannel ch).
Proof.
  intros H. destruct (perfmon_coalesce_spec _ _ _ H) as (prof & _ & _ & Hb & Hc). split.
  - intros key t Hin. rewrite Hb in Hin.
    apply (proj1 (first_appearances_In _ _)) in Hin.
    now apply (proj1 (tokens_of_In _ _ _)) in Hin.
  - intros ch t Hin. rewrite Hc in Hin.
    destruct (mem ch (channel_keys prof)).
    + apply (Permutation_in _ (sort_perm _)) in Hin.
      apply (proj1 (first_appearances_In _ _)) in Hin.
    now apply (proj1 (tokens_of_In _ _ _)) in Hin.
    + apply (proj1 (first_appearances_In _ _)) in Hin.
      now apply (proj1 (tokens_of_In _ _ _)) in Hin.
Qed.

Lemma In_nth_slice N (l : list string) i t : In t (nth_slice N l i) -> In t l.
Proof.
  unfold nth_slice, slice. intros H.
  rewrite <- (firstn_skipn (i * N) l). apply in_or_app. right.
  rewrite <- (firstn_skipn (i * N + N - i * N) (skipn (i * N) l)).
  apply in_or_app. now left.
Qed.

(** Every counter of a pass is a counter of a bucket or of the sub-bucket
    of a channel of the profile. *)
Lemma pass_tokens_from prof pl i t :
  In t (pass_tokens (pass_at prof pl i)) ->
  (exists key, In t (bucket pl key)) \/ (exists ch, In t (channel pl ch)).
Proof.
  unfold pass_tokens, pass_at. cbn [pass_ip pass_tcc]. intros H.
  apply in_app_or in H as [H|H].
  - left. apply in_concat in H as (l & Hl & Ht).
    rewrite map_map in Hl. cbn [snd] in Hl. apply in_map_iff in Hl as (key & <- & _).
    exists key. eapply In_nth_slice, Ht.
  - destruct (i <? _).
    + left. exists "TCC". eapply In_nth_slice, H.
    + right. apply in_concat in H as (l & Hl & Ht).
      apply in_map_iff in Hl as (ch & <- & _). exists (str ch). eapply In_nth_slice, Ht.
Qed.

Lemma pass_tokens_clean files wd soc pl fs prof i :
  perfmon_coalesce files wd soc = OK (pl, fs) ->
  Forall (fun t => clean t = true /\ t <> ACCUM /\ In t (bucketed_tokens files))
         (pass_tokens (pass_at prof pl i)).
Proof.
  intros H. destruct (coalesced_tokens _ _ _ H) as [Hb Hc].
  apply Forall_forall. intros t Ht.
  assert (Hin : In t (bucketed_tokens files)).
  { apply pass_tokens_from in Ht as [[key Hk]|[ch Hch]].
    - now apply Hb in Hk.
    - now apply Hc in Hch. }
  destruct (bucketed_tokens_clean _ _ Hin). auto.
Qed.

(** ** Splitting the schedule *)

Lemma splitlines_aux_chars line rest cur :
  no_break line = true ->
  splitlines_aux (line ++ rest) cur false
  = splitlines_aux rest (rev (list_ascii_of_string line) ++ cur) false.
Proof.
  revert cur. induction line as [|c line IH]; intros cur E; [reflexivity|].
  unfold no_break in E. rewrite all_chars_cons in E. apply andb_prop in E as [E1 E2].
  apply negb_true_iff in E1.
  change (String c line ++ rest)%string with (String c (line ++ rest)).
  cbn [splitlines_aux andb]. rewrite E1, IH by exact E2.
  cbn [list_ascii_of_string rev]. now rewrite <- app_assoc.
Qed.

Lemma splitlines_aux_line line rest :
  no_break line = true ->
  splitlines_aux ((line ++ newline) ++ rest) [] false
  = line :: splitlines_aux rest [] false.
Proof.
  intros E. rewrite string_app_assoc, splitlines_aux_chars by exact E.
  rewrite app_nil_r. unfold newline.
  change (String (ascii_of_nat 10) "" ++ rest)%string with (String (ascii_of_nat 10) rest).
  cbn [splitlines_aux andb].
  replace (is_line_break (ascii_of_nat 10)) with true by reflexivity.
  replace (Ascii.eqb (ascii_of_nat 10) (ascii_of_nat 13)) with false by reflexivity.
  now rewrite rev_involutive, string_of_list_ascii_of_string.
Qed.

Lemma concat_empty_cons x xs :
  String.concat "" (x :: xs) = (x ++ String.concat "" xs)%string.
Proof. destruct xs; cbn [String.concat]; [now rewrite string_app_nil_r | reflexivity]. Qed.

Lemma splitlines_lines lines rest :
  Forall (fun line => no_break line = true) lines ->
  splitlines_aux (String.concat "" (map (fun line => line ++ newline)%string lines) ++ rest)
                 [] false
  = lines ++ splitlines_aux rest [] false.
Proof.
  induction 1 as [|line lines Hl _ IH]; [reflexivity|].
  cbn [map]. rewrite concat_empty_cons, string_app_assoc.
  rewrite splitlines_aux_line by exact Hl. now rewrite IH.
Qed.

(** The lines of the file [perfmon_emit] writes. *)
Lemma splitlines_schedule lines :
  Forall (fun line => no_break line = true) lines ->
  splitlines (String.concat "" (map (fun line => line ++ newline)%string lines)
              ++ newline ++ "gpu:" ++ newline ++ "range:" ++ newline
              ++ "kernel:" ++ newline)%string
  = lines ++ [""; "gpu:"; "range:"; "kernel:"].
Proof. intros H. unfold splitlines. now rewrite splitlines_lines. Qed.

Lemma clean_no_break t : clean t = true -> no_break t = true.
Proof.
  intros H. apply clean_parts in H as (_ & H & _). revert H. apply all_chars_impl.
  intros c Hc. apply negb_true_iff in Hc. apply negb_true_iff.
  unfold is_space, is_line_break, ascii_in in *. cbn [existsb] in *.
  repeat (apply orb_false_elim in Hc as [? Hc]).
  repeat (apply orb_false_intro; try assumption).
Qed.

Lemma pass_line_no_break p :
  Forall (fun t => clean t = true) (pass_tokens p) -> no_break (pass_line p) = true.
Proof.
  intros H. rewrite pass_line_text. unfold no_break.
  change ("pmc: " ++ spaced (pass_tokens p) ++ line_end (pass_tcc p))%string
    with (String "p" (String "m" (String "c" (String ":" (String " "
           (spaced (pass_tokens p) ++ line_end (pass_tcc p))))))).
  rewrite !all_chars_cons, all_chars_app, all_chars_spaced.
  - unfold line_end. now destruct (is_nil (pass_tcc p)).
  - reflexivity.
  - eapply Forall_impl; [|exact H]. intros t. apply clean_no_break.
Qed.

Lemma counter_lists_app a b : counter_lists (a ++ b) = counter_lists a ++ counter_lists b.
Proof. apply flat_map_app. Qed.

Lemma counter_lists_passes ps :
  Forall (fun p => Forall (fun t => clean t = true) (pass_tokens p)) ps ->
  counter_lists (map pass_line ps)
  = map (fun p => strip (before "#" (pass_line p))) ps.
Proof.
  induction 1 as [|p ps Hp _ IH]; [reflexivity|].
  cbn [map]. change (pass_line p :: map pass_line ps)
    with ([pass_line p] ++ map pass_line ps).
  rewrite counter_lists_app, IH. unfold counter_lists at 1. cbn [flat_map].
  destruct (@pass_line_read p Hp) as (group & _ & Em & _). now rewrite Em.
Qed.

Lemma schedule_passes_clean files wd soc pl fs prof l :
  perfmon_coalesce files wd soc = OK (pl, fs) ->
  Forall (fun p => Forall (fun t => clean t = true) (pass_tokens p))
         (map (pass_at prof pl) l).
Proof.
  intros H. apply Forall_forall. intros p Hp. apply in_map_iff in Hp as (i & <- & _).
  eapply Forall_impl; [|apply (@pass_tokens_clean files wd soc pl fs prof i H)].
  now intros t [Ht _].
Qed.

(** The text of the schedule of a coalesced bucket structure, and its
    lines. *)
Lemma schedule_text files wd soc pl fs :
  perfmon_coalesce files wd soc = OK (pl, fs) ->
  exists n text,
    dict_get soc perfmon_config = Some (gfx_profile n) /\ 1 <= n
    /\ coalescer_shape n pl
    /\ perfmon_emit pl soc = OK text
    /\ splitlines text
       = map pass_line (map (pass_at (gfx_profile n) pl)
                            (seq 0 (pass_count (gfx_profile n) pl)))
         ++ [""; "gpu:"; "range:"; "kernel:"].
Proof.
  intros H. destruct (perfmon_coalesce_shape _ _ _ H) as (n & Hsoc & Hn & Hs).
  exists n. eexists. split; [exact Hsoc|]. split; [exact Hn|]. split; [exact Hs|].
  rewrite (@perfmon_emit_text pl soc _ Hsoc).
  rewrite (@emit_lines_ready _ pl (@shape_emit_ready n pl Hn Hs)). cbn [bind].
  split; [reflexivity|]. apply splitlines_schedule.
  apply Forall_forall. intros line Hl. apply in_map_iff in Hl as (p & <- & Hp).
  apply pass_line_no_break.
  pose proof (@schedule_passes_clean files wd soc pl fs (gfx_profile n)
                (seq 0 (pass_count (gfx_profile n) pl)) H) as Hc.
  rewrite Forall_forall in Hc. now apply Hc.
Qed.

(** X9. Splitting the schedule written for a coalesced bucket structure
    gives one file per pass, in the order of the passes, and the counters
    read back from the file of a pass are the counters of the pass. *)
Theorem split_gives_one_file_per_pass (files : list (list string))
  (wd soc : string) (pl : pmc_list) (fs : writes) :
  perfmon_coalesce files wd soc = OK (pl, fs) ->
  exists prof text stexts,
    dict_get soc perfmon_config = Some prof
    /\ perfmon_emit pl soc = OK text
    /\ fst (pmc_perf_split wd text) = split_files (wd ++ "/perfmon") stexts
    /\ map (fun stext => option_map split_ws (match_pmc stext)) stexts
       = map (fun iter => Some (pass_tokens (pass_at prof pl iter)))
             (seq 0 (pass_count prof pl)).
Proof.
  intros H. destruct (schedule_text _ _ _ H) as (n & text & Hsoc & Hn & Hs & Ht & Hl).
  exists (gfx_profile n), text. eexists. split; [exact Hsoc|]. split; [exact Ht|].
  rewrite pmc_perf_split_files, Hl, counter_lists_app. cbn [fst].
  replace (counter_lists [""; "gpu:"; "range:"; "kernel:"]) with (@nil string)
    by reflexivity.
  rewrite app_nil_r.
  rewrite counter_lists_passes by (eapply schedule_passes_clean, H).
  split; [reflexivity|]. rewrite !map_map. apply map_ext_in. intros iter _.
  assert (Hc : Forall (fun t => clean t = true)
                      (pass_tokens (pass_at (gfx_profile n) pl iter))).
  { eapply Forall_impl; [|apply (@pass_tokens_clean files wd soc pl fs _ iter H)].
    now intros t [Hc _]. }
  destruct (@pass_line_read _ Hc) as (group & _ & Em & Eg). now rewrite Em, <- Eg.
Qed.

(** ** Coalescing a schedule again *)

Lemma tokens_of_uniform h h0 l :
  (forall t, In t l -> home_of t = h0) ->
  tokens_of h l = if home_eqb h0 h then l else [].
Proof.
  intros Hl. unfold tokens_of.
  rewrite (filter_ext_in (fun t => home_eqb (home_of t) h) (fun _ => home_eqb h0 h)).
  - destruct (home_eqb h0 h); [apply filter_true | apply filter_false].
  - intros t Ht. now rewrite (Hl t Ht).
Qed.

Lemma tokens_of_concat h ls :
  tokens_of h (List.concat ls) = List.concat (map (tokens_of h) ls).
Proof. unfold tokens_of. symmetry. apply concat_filter_map. Qed.

Lemma tokens_of_flat_map {A} h (f : A -> list string) l :
  tokens_of h (flat_map f l) = flat_map (fun a => tokens_of h (f a)) l.
Proof.
  induction l as [|a l IH]; [reflexivity|]. cbn [flat_map].
  now rewrite tokens_of_app, IH.
Qed.

(** Of the parts of a list of parts, one per key, only the part of [k0]. *)
Lemma concat_select {A} (eqb : A -> A -> bool) (g : A -> list string) (l : list A) k0 :
  (forall a, eqb a k0 = true <-> a = k0) -> NoDup l ->
  List.concat (map (fun a => if eqb a k0 then g a else []) l)
  = if existsb (fun a => eqb a k0) l then g k0 else [].
Proof.
  intros Heq. induction 1 as [|a l Ha Hnd IH]; [reflexivity|].
  cbn [map List.concat existsb]. rewrite IH. destruct (eqb a k0) eqn:E; cbn [orb app].
  - apply Heq in E. subst a.
    assert (Hno : existsb (fun a => eqb a k0) l = false).
    { apply not_true_is_false. intros Hex. apply existsb_exists in Hex as (x & Hx & Ex).
      apply Heq in Ex. now subst x. }
    now rewrite Hno, app_nil_r.
  - reflexivity.
Qed.

Lemma first_appearances_NoDup_id l : NoDup l -> first_appearances l = l.
Proof.
  induction 1 as [|x l Hx Hnd IH]; [reflexivity|]. cbn [first_appearances].
  rewrite IH. f_equal. apply forallb_filter_id. apply forallb_forall.
  intros y Hy. apply negb_true_iff, String.eqb_neq. intros ->. now apply Hx.
Qed.

Lemma sort_sorted_id l : sorted l -> sort l = l.
Proof.
  intros H. apply sorted_perm_unique; [apply sort_sorted | exact H | apply sort_perm].
Qed.

Lemma seq_shift_back A m s : map (fun i => i - A) (seq (A + s) m) = seq s m.
Proof.
  revert s. induction m as [|m IH]; intros s; [reflexivity|].
  cbn [seq map]. f_equal; [lia|]. rewrite <- Nat.add_succ_r. apply IH.
Qed.

Lemma map_shift {B} (g : nat -> B) A m :
  map (fun i => g (i - A)) (seq A m) = map g (seq 0 m).
Proof.
  rewrite <- (seq_shift_back A m 0), map_map, Nat.add_0_r. reflexivity.
Qed.

Lemma flat_map_ext_in {A B} (f g : A -> list B) l :
  (forall a, In a l -> f a = g a) -> flat_map f l = flat_map g l.
Proof.
  induction l as [|a l IH]; intros H; [reflexivity|]. cbn [flat_map].
  rewrite (H a (or_introl eq_refl)), IH; [reflexivity|].
  intros b Hb. apply H. now right.
Qed.

Lemma concat_map_nil {A} (l : list A) : List.concat (map (fun _ => @nil string) l) = [].
Proof. induction l; [reflexivity | assumption]. Qed.

Section Rescheduling.

Variables (files : list (list string)) (wd soc : string) (pl : pmc_list) (fs : writes).
Variable n : nat.
Hypothesis coalesced_pl : perfmon_coalesce files wd soc = OK (pl, fs).
Hypothesis Hsoc : dict_get soc perfmon_config = Some (gfx_profile n).
Hypothesis Hn : 1 <= n.
Hypothesis Hs : coalescer_shape n pl.

Let prof := gfx_profile n.
Let N := cap prof "TCC".
Let A := ceil_div (List.length (bucket pl "TCC")) N.
Let pc := pass_count prof pl.

(** The counters of the schedule, in the order of the lines. *)
Let stream : list string :=
  flat_map (fun iter => pass_tokens (pass_at prof pl iter)) (seq 0 pc).

Lemma resched_ready : emit_ready prof pl = true.
Proof. now apply shape_emit_ready. Qed.

Lemma resched_keys :
  ordinary_keys pl = ["SQ"; "GRBM"; "TCP"; "TA"; "TD"; "SPI"; "CPC"; "CPF"; "GDS"].
Proof. destruct Hs as [Hk _]. unfold ordinary_keys. now rewrite Hk. Qed.

Lemma resched_keys_NoDup : NoDup (ordinary_keys pl).
Proof.
  rewrite resched_keys.
  repeat (constructor; [cbn; intuition discriminate|]). constructor.
Qed.

Lemma resched_home_bucket key t : In t (bucket pl key) -> home_of t = InBucket key.
Proof. intros Hin. now apply (coalesced_tokens _ _ _ coalesced_pl) in Hin. Qed.

Lemma resched_home_channel ch t : In t (channel pl ch) -> home_of t = InChannel ch.
Proof. intros Hin. now apply (coalesced_tokens _ _ _ coalesced_pl) in Hin. Qed.

Lemma resched_slice h key cp i :
  tokens_of h (nth_slice cp (bucket pl key) i)
  = if home_eqb (InBucket key) h then nth_slice cp (bucket pl key) i else [].
Proof.
  apply tokens_of_uniform. intros t Ht. apply resched_home_bucket.
  eapply In_nth_slice, Ht.
Qed.

Lemma resched_channel_slice h ch i :
  tokens_of h (nth_slice N (channel pl ch) i)
  = if home_eqb (InChannel ch) h then nth_slice N (channel pl ch) i else [].
Proof.
  apply tokens_of_uniform. intros t Ht. apply resched_home_channel.
  eapply In_nth_slice, Ht.
Qed.

(** The counters of one home in one pass. *)
Lemma resched_pass h iter :
  tokens_of h (pass_tokens (pass_at prof pl iter))
  = List.concat (map (fun key => if home_eqb (InBucket key) h
                                 then nth_slice (cap prof key) (bucket pl key) iter
                                 else [])
                     (ordinary_keys pl))
    ++ (if iter <? A
        then if home_eqb (InBucket "TCC") h then nth_slice N (bucket pl "TCC") iter else []
        else List.concat (map (fun ch => if home_eqb (InChannel (str ch)) h
                                         then nth_slice N (channel pl (str ch)) (iter - A)
                                         else [])
                              (channels prof))).
Proof.
  unfold pass_tokens, pass_at. cbn [pass_ip pass_tcc].
  rewrite tokens_of_app, tokens_of_concat, !map_map. cbn [snd]. f_equal.
  - f_equal. apply map_ext. intros key. apply resched_slice.
  - fold N. fold A. destruct (iter <? A).
    + apply resched_slice.
    + rewrite tokens_of_concat, map_map. f_equal. apply map_ext. intros ch.
      apply resched_channel_slice.
Qed.

Lemma resched_ordinary key :
  In key (ordinary_keys pl) -> tokens_of (InBucket key) stream = bucket pl key.
Proof.
  intros Hkey. unfold stream. rewrite tokens_of_flat_map.
  rewrite (flat_map_ext _ (fun iter => nth_slice (cap prof key) (bucket pl key) iter)).
  - rewrite flat_map_concat_map. apply concat_nth_slices_all.
    + now apply (ready_ordinary prof pl resched_ready).
    + now apply pass_count_ordinary.
  - intros iter. rewrite resched_pass.
    assert (Hne : key <> "TCC").
    { intros ->. rewrite resched_keys in Hkey. cbn in Hkey. intuition discriminate. }
    rewrite (concat_select (fun a b => home_eqb (InBucket a) (InBucket b))
               (fun key => nth_slice (cap prof key) (bucket pl key) iter)
               (l := ordinary_keys pl) (k0 := key)).
    + assert (Hex : existsb (fun a => home_eqb (InBucket a) (InBucket key))
                            (ordinary_keys pl) = true).
      { apply existsb_exists. exists key. split; [exact Hkey|]. apply home_eqb_refl. }
      rewrite Hex.
      assert (Htcc : home_eqb (InBucket "TCC") (InBucket key) = false).
      { apply home_eqb_neq. congruence. }
      rewrite Htcc.
      assert (Hch : forall l, List.concat
                (map (fun ch => if home_eqb (InChannel (str ch)) (InBucket key)
                                then nth_slice N (channel pl (str ch)) (iter - A)
                                else []) l) = []).
      { intros l. cbn [home_eqb]. apply concat_map_nil. }
      rewrite Hch. destruct (iter <? A); apply app_nil_r.
    + intros a. rewrite home_eqb_eq. split; [now intros [= ->] | now intros ->].
    + apply resched_keys_NoDup.
Qed.

Lemma resched_no_ordinary h iter :
  (forall key, In key (ordinary_keys pl) -> h <> InBucket key) ->
  List.concat (map (fun key => if home_eqb (InBucket key) h
                               then nth_slice (cap prof key) (bucket pl key) iter
                               else [])
                   (ordinary_keys pl)) = [].
Proof.
  intros Hh. apply concat_nils. intros l Hl. apply in_map_iff in Hl as (key & <- & Hkey).
  rewrite home_eqb_neq; [reflexivity|]. intros E. now apply (Hh key Hkey).
Qed.

Lemma resched_split_seq : seq 0 pc = seq 0 A ++ seq A (pc - A).
Proof.
  assert (HA : A <= pc) by apply pass_count_TCC.
  replace pc with (A + (pc - A)) at 1 by lia. now rewrite seq_app.
Qed.

Lemma resched_TCC : tokens_of (InBucket "TCC") stream = bucket pl "TCC".
Proof.
  unfold stream. rewrite tokens_of_flat_map, resched_split_seq, flat_map_app.
  rewrite (flat_map_ext_in _ (nth_slice N (bucket pl "TCC")) (seq 0 A)).
  - rewrite (flat_map_ext_in _ (fun _ => @nil string) (seq A (pc - A))).
    + rewrite !flat_map_concat_map, concat_map_nil, app_nil_r.
      apply concat_nth_slices_all; [apply (ready_N prof pl resched_ready) | apply Nat.le_refl].
    + intros iter Hi. apply in_seq in Hi. rewrite resched_pass, resched_no_ordinary.
      * assert (E : (iter <? A) = false) by (apply Nat.ltb_ge; lia). rewrite E.
        cbn [app home_eqb]. apply concat_map_nil.
      * intros key Hkey [= <-]. rewrite resched_keys in Hkey. cbn in Hkey.
        intuition discriminate.
  - intros iter Hi. apply in_seq in Hi. rewrite resched_pass, resched_no_ordinary.
    + assert (E : (iter <? A) = true) by (apply Nat.ltb_lt; lia). rewrite E.
      now rewrite home_eqb_refl.
    + intros key Hkey [= <-]. rewrite resched_keys in Hkey. cbn in Hkey.
      intuition discriminate.
Qed.

Lemma resched_channel_part c iter :
  List.concat (map (fun ch => if home_eqb (InChannel (str ch)) (InChannel c)
                              then nth_slice N (channel pl (str ch)) (iter - A)
                              else [])
                   (channels prof))
  = if mem c (channel_keys prof) then nth_slice N (channel pl c) (iter - A) else [].
Proof.
  destruct (mem c (channel_keys prof)) eqn:Em.
  - apply mem_In in Em. unfold channel_keys in Em. apply in_map_iff in Em as (ch0 & <- & Hch0).
    rewrite (concat_select (fun a b => home_eqb (InChannel (str a)) (InChannel (str b)))
               (fun ch => nth_slice N (channel pl (str ch)) (iter - A))
               (l := channels prof) (k0 := ch0)).
    + assert (Hex : existsb (fun a => home_eqb (InChannel (str a)) (InChannel (str ch0)))
                            (channels prof) = true).
      { apply existsb_exists. exists ch0. split; [exact Hch0 | apply home_eqb_refl]. }
      now rewrite Hex.
    + intros a. rewrite home_eqb_eq. split; [|now intros ->].
      intros [= E]. now apply str_inj.
    + apply seq_NoDup.
  - apply concat_nils. intros l Hl. apply in_map_iff in Hl as (ch & <- & Hch).
    rewrite home_eqb_neq; [reflexivity|]. intros [= E]. apply mem_false in Em.
    apply Em. unfold channel_keys. apply in_map_iff. now exists ch.
Qed.

Lemma resched_channel c :
  tokens_of (InChannel c) stream
  = if mem c (channel_keys prof) then channel pl c else [].
Proof.
  unfold stream. rewrite tokens_of_flat_map, resched_split_seq, flat_map_app.
  rewrite (flat_map_ext_in _ (fun _ => @nil string) (seq 0 A)).
  - rewrite (flat_map_ext_in _
               (fun iter => if mem c (channel_keys prof)
                            then nth_slice N (channel pl c) (iter - A) else [])
               (seq A (pc - A))).
    + rewrite !flat_map_concat_map, concat_map_nil. cbn [app].
      destruct (mem c (channel_keys prof)) eqn:Em; [|apply concat_map_nil].
      rewrite (map_shift (nth_slice N (channel pl c))).
      apply concat_nth_slices_all; [apply (ready_N prof pl resched_ready)|].
      apply mem_In in Em. unfold channel_keys in Em.
      apply in_map_iff in Em as (ch & <- & Hch).
      pose proof (@pass_count_channel prof pl ch (ready_N prof pl resched_ready) Hch) as Hle.
      fold N in Hle. fold A in Hle. fold pc in Hle. lia.
    + intros iter Hi. apply in_seq in Hi. rewrite resched_pass, resched_no_ordinary.
      * assert (E : (iter <? A) = false) by (apply Nat.ltb_ge; lia). rewrite E.
        cbn [app]. apply resched_channel_part.
      * intros key _. discriminate.
  - intros iter Hi. apply in_seq in Hi. rewrite resched_pass, resched_no_ordinary.
    + assert (E : (iter <? A) = true) by (apply Nat.ltb_lt; lia). now rewrite E.
    + intros key _. discriminate.
Qed.

Lemma resched_other key :
  ~ In key (ordinary_keys pl) -> key <> "TCC" ->
  tokens_of (InBucket key) stream = [] /\ bucket pl key = [].
Proof.
  intros Hk Ht. split.
  - unfold stream. rewrite tokens_of_flat_map.
    rewrite (flat_map_ext _ (fun _ => @nil string)).
    + rewrite flat_map_concat_map. apply concat_map_nil.
    + intros iter. rewrite resched_pass, resched_no_ordinary.
      * assert (E : home_eqb (InBucket "TCC") (InBucket key) = false).
        { apply home_eqb_neq. congruence. }
        rewrite E. cbn [home_eqb app]. rewrite concat_map_nil. now destruct (iter <? A).
      * intros k Hin [= <-]. now apply Hk.
  - unfold bucket. destruct (dict_get key (buckets pl)) as [l|] eqn:E; [|reflexivity].
    exfalso. assert (Hin : In key (keys (buckets pl))).
    { apply dict_mem_keys. unfold dict_mem. now rewrite E. }
    destruct Hs as [Hkeys _]. rewrite Hkeys in Hin.
    rewrite resched_keys in Hk. cbn in Hin, Hk. intuition congruence.
Qed.

Lemma resched_bucket key : tokens_of (InBucket key) stream = bucket pl key.
Proof.
  destruct (in_dec string_dec key (ordinary_keys pl)) as [Hin|Hout].
  - now apply resched_ordinary.
  - destruct (string_dec key "TCC") as [->|Hne]; [apply resched_TCC|].
    destruct (resched_other Hout Hne) as [E1 E2]. now rewrite E1, E2.
Qed.

Lemma resched_bucket_NoDup key : NoDup (bucket pl key).
Proof.
  destruct (perfmon_coalesce_spec _ _ _ coalesced_pl) as (p & _ & _ & Hb & _).
  rewrite Hb. apply first_appearances_NoDup.
Qed.

Lemma resched_channel_sorted c :
  NoDup (channel pl c) /\ (mem c (channel_keys prof) = true -> sorted (channel pl c)).
Proof.
  destruct (perfmon_coalesce_spec _ _ _ coalesced_pl) as (p & Hp & _ & _ & Hc).
  rewrite Hsoc in Hp. injection Hp as <-. fold prof in Hc.
  rewrite Hc. destruct (mem c (channel_keys prof)).
  - split.
    + eapply Permutation_NoDup; [symmetry; apply sort_perm | apply first_appearances_NoDup].
    + intros _. apply sort_sorted.
  - split; [apply first_appearances_NoDup | discriminate].
Qed.

End Rescheduling.

Lemma line_tokens_pass p :
  Forall (fun t => clean t = true /\ t <> ACCUM) (pass_tokens p) ->
  line_tokens (pass_line p) = pass_tokens p.
Proof.
  intros H. unfold line_tokens.
  assert (Hc : Forall (fun t => clean t = true) (pass_tokens p)).
  { eapply Forall_impl; [|exact H]. now intros t [Hc _]. }
  destruct (@pass_line_read p Hc) as (group & _ & Em & Eg). rewrite Em, Eg.
  assert (Ea : mem ACCUM (pass_tokens p) = false).
  { apply mem_false. intros Hin. rewrite Forall_forall in H.
    now destruct (H ACCUM Hin). }
  now rewrite Ea.
Qed.

Lemma bucketed_tokens_schedule files wd soc pl fs prof l :
  perfmon_coalesce files wd soc = OK (pl, fs) ->
  bucketed_tokens [map pass_line (map (pass_at prof pl) l)
                   ++ [""; "gpu:"; "range:"; "kernel:"]]
  = flat_map (fun iter => pass_tokens (pass_at prof pl iter)) l.
Proof.
  intros H. unfold bucketed_tokens. cbn [flat_map]. rewrite app_nil_r, flat_map_app.
  replace (flat_map line_tokens [""; "gpu:"; "range:"; "kernel:"]) with (@nil string)
    by reflexivity.
  rewrite app_nil_r, map_map, flat_map_concat_map, map_map, <- flat_map_concat_map.
  apply flat_map_ext. intros iter. apply line_tokens_pass.
  eapply Forall_impl; [|apply (@pass_tokens_clean files wd soc pl fs prof iter H)].
  intros t (Hc & Ha & _). now split.
Qed.

(** X10. The scheduler and the coalescer agree on the file between them:
    coalescing the schedule written for a coalesced bucket structure gives
    the same buckets and the same sub-buckets for the channels of the
    profile (the counters of other channels are in no pass and are lost),
    and scheduling again writes the same file. *)
Theorem schedule_coalesces_back (files : list (list string)) (wd soc : string)
  (pl : pmc_list) (fs : writes) :
  perfmon_coalesce files wd soc = OK (pl, fs) ->
  exists prof text pl' fs',
    dict_get soc perfmon_config = Some prof
    /\ perfmon_emit pl soc = OK text
    /\ perfmon_coalesce [splitlines text] wd soc = OK (pl', fs')
    /\ (forall key, bucket pl' key = bucket pl key)
    /\ (forall ch, channel pl' ch
                   = if mem ch (channel_keys prof) then channel pl ch else [])
    /\ perfmon_emit pl' soc = OK text.
Proof.
  intros H. destruct (schedule_text _ _ _ H) as (n & text & Hsoc & Hn & Hs & Ht & Hl).
  pose proof (@bucketed_tokens_schedule files wd soc pl fs (gfx_profile n)
                (seq 0 (pass_count (gfx_profile n) pl)) H) as Hstream.
  rewrite <- Hl in Hstream.
  destruct (@perfmon_coalesce_ok [splitlines text] wd soc _ Hsoc) as (pl' & fs' & H').
  { intros t Hin. rewrite Hstream in Hin. apply in_flat_map in Hin as (iter & _ & Hin).
    pose proof (@pass_tokens_clean files wd soc pl fs (gfx_profile n) iter H) as Hc.
    rewrite Forall_forall in Hc. destruct (Hc t Hin) as (_ & _ & Hfiles).
    eapply perfmon_coalesce_known; eauto. }
  exists (gfx_profile n), text, pl', fs'.
  split; [exact Hsoc|]. split; [exact Ht|]. split; [exact H'|].
  destruct (perfmon_coalesce_spec _ _ _ H') as (p & Hp & _ & Hb & Hc).
  rewrite Hsoc in Hp. injection Hp as <-. rewrite Hstream in Hb, Hc.
  assert (Hbb : forall key, bucket pl' key = bucket pl key).
  { intros key. rewrite Hb, (@resched_bucket files wd soc pl fs n H Hn Hs key).
    apply first_appearances_NoDup_id.
    apply (@resched_bucket_NoDup files wd soc pl fs H). }
  assert (Hcc : forall ch, channel pl' ch
                           = if mem ch (channel_keys (gfx_profile n))
                             then channel pl ch else []).
  { intros ch. rewrite Hc, (@resched_channel files wd soc pl fs n H Hn Hs ch).
    destruct (@resched_channel_sorted files wd soc pl fs n H Hsoc ch) as [Hnd Hsorted].
    destruct (mem ch (channel_keys (gfx_profile n))); [|reflexivity].
    rewrite first_appearances_NoDup_id by exact Hnd. apply sort_sorted_id. now apply Hsorted. }
  split; [exact Hbb|]. split; [exact Hcc|].
  destruct (perfmon_coalesce_shape _ _ _ H') as (n' & Hsoc' & _ & Hs').
  rewrite Hsoc in Hsoc'. injection Hsoc' as <-.
  rewrite <- Ht. apply (@perfmon_emit_ext n pl' pl soc Hsoc Hn Hs' Hs Hbb).
  intros ch Hch. rewrite Hcc.
  assert (Hm : mem (str ch) (channel_keys (gfx_profile n)) = true).
  { apply mem_In. unfold channel_keys. apply in_map_iff. now exists ch. }
  now rewrite Hm.
Qed.

(** ** The selection of reference files *)

Lemma filter_file_named blocks acc f :
  named_for f = true ->
  filter_file blocks acc f
  = ([filter_print blocks f], OK (if selected blocks f then acc ++ [f] else acc)).
Proof.
  unfold named_for, filter_file, filter_print, selected, ip_of.
  destruct (match_ip (splitext_root (basename (fst f)))) as [ip|]; [|discriminate].
  intros _. rewrite io_bind_lift_ok. now destruct (mem ip blocks).
Qed.

Lemma filter_file_unnamed blocks acc f :
  ip_of f = None -> filter_file blocks acc f = ([], Raise AttributeError).
Proof. unfold ip_of, filter_file. now intros ->. Qed.

Lemma filter_files_named blocks refs acc :
  forallb named_for refs = true ->
  filter_files blocks acc refs
  = (map (filter_print blocks) refs, OK (acc ++ filter (selected blocks) refs)).
Proof.
  revert acc. induction refs as [|f refs IH]; intros acc H; cbn [filter_files].
  - cbn. now rewrite app_nil_r.
  - cbn [forallb] in H. apply andb_prop in H as [Hf H].
    rewrite (filter_file_named blocks acc f Hf). cbn [io_bind].
    rewrite (IH _ H). cbn [map filter app]. f_equal. f_equal.
    destruct (selected blocks f); [now rewrite <- app_assoc | reflexivity].
Qed.

Lemma filter_files_unnamed blocks pre f post acc :
  forallb named_for pre = true -> ip_of f = None ->
  filter_files blocks acc (pre ++ f :: post)
  = (map (filter_print blocks) pre, Raise AttributeError).
Proof.
  revert acc. induction pre as [|g pre IH]; intros acc H Hf; cbn [app filter_files].
  - now rewrite (filter_file_unnamed blocks acc f Hf).
  - cbn [forallb] in H. apply andb_prop in H as [Hg H].
    rewrite (filter_file_named blocks acc g Hg). cbn [io_bind].
    now rewrite (IH _ H Hf).
Qed.

Lemma perfmon_filter_writeback wd soc sel :
  lift ('(pmc_list, fs) <- perfmon_coalesce (map snd sel) wd soc ;;
        text <- perfmon_emit pmc_list soc ;;
        OK (fs ++ [(((wd ++ "/perfmon") ++ "/pmc_perf.txt")%string, text)]))
  = ([], coalesce_and_emit wd soc (map (@snd string (list string)) sel)).
Proof. unfold coalesce_and_emit. now rewrite string_app_assoc. Qed.

(** X11. [perfmon_filter] with a list of blocks prints one line per reference
    file and coalesces and schedules the files whose name gives a block of
    the list in lower case, in the order found; a file whose name
    the pattern does not match stops it with an exception before anything
    is written; without a list of blocks every reference file is taken and
    nothing is printed. *)
Theorem perfmon_filter_selects_by_name (wd soc : string) (blocks : list string)
  (refs : list ref_file) :
  perfmon_filter wd soc None refs = ([], coalesce_and_emit wd soc (map snd refs))
  /\ (forallb named_for refs = true ->
      perfmon_filter wd soc (Some blocks) refs
      = (map (filter_print (map lower blocks)) refs,
         coalesce_and_emit wd soc
           (map snd (filter (selected (map lower blocks)) refs))))
  /\ (forall pre f post,
        refs = pre ++ f :: post -> forallb named_for pre = true -> ip_of f = None ->
        perfmon_filter wd soc (Some blocks) refs
        = (map (filter_print (map lower blocks)) pre, Raise AttributeError)).
Proof.
  unfold perfmon_filter. cbv beta iota zeta. split; [|split].
  - rewrite io_bind_lift_ok. apply perfmon_filter_writeback.
  - intros H. rewrite (filter_files_named _ refs [] H). cbn [app io_bind].
    rewrite perfmon_filter_writeback. now rewrite app_nil_r.
  - intros pre f post -> Hpre Hf.
    now rewrite (filter_files_unnamed _ pre f post [] Hpre Hf).
Qed.

Lemma lower_ascii_idem c : lower_ascii (lower_ascii c) = lower_ascii c.
Proof. destruct c as [[] [] [] [] [] [] [] []]; reflexivity. Qed.

Lemma lower_idem s : lower (lower s) = lower s.
Proof. induction s as [|c s IH]; cbn; [reflexivity | now rewrite lower_ascii_idem, IH]. Qed.

(** X12. The blocks asked for are put in lower case, the names of the files
    are not: a reference file is taken only if the block in its name has no
    upper-case letter. *)
Theorem upper_case_file_is_never_selected (blocks : list string) (f : ref_file) :
  selected (map lower blocks) f = true ->
  exists ip, ip_of f = Some ip /\ lower ip = ip.
Proof.
  unfold selected. destruct (ip_of f) as [ip|]; [|discriminate].
  intros H. exists ip. split; [reflexivity|].
  apply mem_In in H. apply in_map_iff in H as (b & <- & _). apply lower_idem.
Qed.

(** ** The block in the name of a reference file *)

Lemma after_last_none sep s :
  all_chars (fun c => negb (Ascii.eqb c sep)) s = true -> after_last sep s = None.
Proof.
  induction s as [|c s IH]; [reflexivity|]. rewrite all_chars_cons.
  intros H. apply andb_prop in H as [Hc Hs]. cbn [after_last]. rewrite (IH Hs).
  apply negb_true_iff in Hc. now rewrite Hc.
Qed.

Lemma after_last_app sep d r :
  all_chars (fun c => negb (Ascii.eqb c sep)) r = true ->
  after_last sep (d ++ String sep r) = Some r.
Proof.
  intros Hr. induction d as [|c d IH].
  - cbn [append after_last]. now rewrite (after_last_none _ _ Hr), Ascii.eqb_refl.
  - cbn [append after_last]. now rewrite IH.
Qed.

Lemma before_last_none sep s :
  all_chars (fun c => negb (Ascii.eqb c sep)) s = true -> before_last sep s = None.
Proof.
  induction s as [|c s IH]; [reflexivity|]. rewrite all_chars_cons.
  intros H. apply andb_prop in H as [Hc Hs]. cbn [before_last]. rewrite (IH Hs).
  apply negb_true_iff in Hc. now rewrite Hc.
Qed.

Lemma before_last_app sep d r :
  all_chars (fun c => negb (Ascii.eqb c sep)) r = true ->
  before_last sep (d ++ String sep r) = Some d.
Proof.
  intros Hr. induction d as [|c d IH].
  - cbn [append before_last]. now rewrite (before_last_none _ _ Hr), Ascii.eqb_refl.
  - cbn [append before_last]. now rewrite IH.
Qed.

Lemma take_while_all p s : all_chars p s = true -> take_while p s = s.
Proof.
  induction s as [|c s IH]; [reflexivity|]. rewrite all_chars_cons.
  intros H. apply andb_prop in H as [Hc Hs]. cbn [take_while]. now rewrite Hc, IH.
Qed.

Lemma prefix_none mark c s :
  all_chars (fun x => negb (Ascii.eqb x c)) s = true ->
  String.prefix (String c mark) s = false.
Proof.
  destruct s as [|x s]; [reflexivity|]. rewrite all_chars_cons. intros H.
  apply andb_prop in H as [Hx _]. apply negb_true_iff in Hx. cbn [String.prefix].
  destruct (ascii_dec c x) as [->|Hne]; [|reflexivity].
  now rewrite Ascii.eqb_refl in Hx.
Qed.

Lemma last_before_none mark c s :
  all_chars (fun x => negb (Ascii.eqb x c)) s = true ->
  last_before (String c mark) s = None.
Proof.
  induction s as [|x s IH]; [reflexivity|]. intros H.
  pose proof (prefix_none mark c _ H) as Hp.
  rewrite all_chars_cons in H. apply andb_prop in H as [_ Hs].
  cbn [last_before]. rewrite (IH Hs). now rewrite Hp.
Qed.

Lemma last_before_app mark c r rest :
  String.prefix (String c mark) rest = true ->
  last_before (String c mark) (match rest with String _ t => t | EmptyString => EmptyString end)
  = None ->
  last_before (String c mark) (r ++ rest) = Some r.
Proof.
  intros Hp Hn. induction r as [|x r IH].
  - cbn [append]. destruct rest as [|y t]; [discriminate|].
    cbn [last_before]. rewrite Hn. now rewrite Hp.
  - cbn [append last_before]. now rewrite IH.
Qed.

Lemma digits_are_words d : all_chars is_digit d = true -> all_chars is_word d = true.
Proof.
  apply all_chars_impl. intros c. unfold is_digit, is_word. cbv zeta. intros ->.
  now rewrite !orb_true_r.
Qed.

Lemma word_not s x :
  is_word x = false ->
  all_chars is_word s = true -> all_chars (fun y => negb (Ascii.eqb y x)) s = true.
Proof.
  intros Hx. apply all_chars_impl. intros y Hy. apply negb_true_iff.
  destruct (Ascii.eqb_spec y x) as [->|]; [congruence | reflexivity].
Qed.

Lemma digit_not_underscore d :
  all_chars is_digit d = true -> all_chars (fun y => negb (Ascii.eqb y "_")) d = true.
Proof.
  apply all_chars_impl. intros y Hy. apply negb_true_iff.
  destruct (Ascii.eqb_spec y "_") as [->|]; [discriminate | reflexivity].
Qed.

Lemma match_ip_named c ip digits :
  all_chars is_word (String c ip) = true -> all_chars is_digit digits = true ->
  match_ip ("pmc_" ++ String c ip ++ "_perf" ++ digits) = Some (String c ip).
Proof.
  intros Hip Hd.
  change ("pmc_" ++ String c ip ++ "_perf" ++ digits)%string
    with (String "p" (String "m" (String "c" (String "_"
            (String c (ip ++ "_perf" ++ digits)))))).
  cbn [match_ip]. rewrite take_while_all.
  - rewrite (@last_before_app "per" "_" ip ("_perf" ++ digits)); [reflexivity | reflexivity |].
    cbn [append]. apply last_before_none.
    change ("perf" ++ digits)%string with (String "p" (String "e" (String "r" (String "f" digits)))).
    rewrite !all_chars_cons, (digit_not_underscore _ Hd). reflexivity.
  - rewrite all_chars_cons in *. apply andb_prop in Hip as [Hc Hip']. rewrite Hc.
    rewrite all_chars_app, Hip'.
    change ("_perf" ++ digits)%string
      with (String "_" (String "p" (String "e" (String "r" (String "f" digits))))).
    rewrite !all_chars_cons, (digits_are_words _ Hd). reflexivity.
Qed.

(** X13. The block of a reference file named [pmc_<ip>_perf<digits>.<ext>]
    in any directory is [<ip>], whatever underscores [<ip>] holds. *)
Theorem block_of_reference_file (dir ip digits ext : string) (lines : list string) :
  ip <> EmptyString -> all_chars is_word ip = true ->
  all_chars is_digit digits = true ->
  all_chars (fun c => negb (Ascii.eqb c "/") && negb (Ascii.eqb c ".")) ext = true ->
  ip_of ((dir ++ "/" ++ "pmc_" ++ ip ++ "_perf" ++ digits ++ "." ++ ext)%string, lines)
  = Some ip.
Proof.
  intros Hne Hip Hd Hext. destruct ip as [|c ip]; [congruence|]. clear Hne.
  unfold ip_of. cbn [fst].
  set (name := ("pmc_" ++ String c ip ++ "_perf" ++ digits)%string).
  assert (Hname : all_chars is_word name = true).
  { unfold name.
    change ("pmc_" ++ String c ip ++ "_perf" ++ digits)%string
      with (String "p" (String "m" (String "c" (String "_"
              (String c ip ++ "_perf" ++ digits))))).
    rewrite !all_chars_cons, all_chars_app, Hip.
    change ("_perf" ++ digits)%string
      with (String "_" (String "p" (String "e" (String "r" (String "f" digits))))).
    rewrite !all_chars_cons, (digits_are_words _ Hd). reflexivity. }
  assert (Hslash : all_chars (fun y => negb (Ascii.eqb y "/")) ext = true).
  { revert Hext. apply all_chars_impl. intros y Hy. now apply andb_prop in Hy. }
  assert (Hdot : all_chars (fun y => negb (Ascii.eqb y ".")) ext = true).
  { revert Hext. apply all_chars_impl. intros y Hy. now apply andb_prop in Hy. }
  replace (dir ++ "/" ++ "pmc_" ++ String c ip ++ "_perf" ++ digits ++ "." ++ ext)%string
    with (dir ++ String "/" (name ++ String "." ext))%string.
  - unfold basename. rewrite after_last_app.
    + unfold splitext_root. rewrite (before_last_app _ name _ Hdot).
      replace (all_chars (fun c0 => Ascii.eqb c0 ".") name) with false by reflexivity.
      apply match_ip_named; assumption.
    + rewrite all_chars_app, (@word_not name "/" eq_refl Hname).
      rewrite all_chars_cons, Hslash. reflexivity.
  - unfold name. cbn [append]. now rewrite !string_app_assoc.
Qed.

(** ** The two callers *)

(** ** The trace of a run *)

Lemma drop_inv names df df' :
  drop names df = OK df' -> df' = select (fun k => negb (mem k names)) df.
Proof. unfold drop. destruct (find _ names); [discriminate | now intros [= <-]]. Qed.

Lemma finish_join_trace out verbose files df :
  (exists e, finish_join out verbose files df = ([], Raise e))
  \/ (exists beginNs endNs,
        namekeys df <> []
        /\ finish_join out verbose files df
           = (ToCsv out (mk_unified (final_table df) beginNs endNs)
              :: (if verbose then [] else map (fun f => Remove (fst f)) files),
              OK tt)).
Proof.
  unfold finish_join. cbv zeta. fold (kept df). fold (namekeys df).
  destruct (namekeys df) as [|first rest] eqn:Hn.
  { left. eexists. now rewrite io_bind_lift_raise. }
  rewrite io_bind_lift_ok. cbn [tl].
  destruct (assert_same_names (kept df) first rest) as [[]|e];
    [rewrite io_bind_lift_ok | left; eexists; now rewrite io_bind_lift_raise].
  destruct (drop rest (kept df)) as [df1|e] eqn:E1;
    [rewrite io_bind_lift_ok | left; eexists; now rewrite io_bind_lift_raise].
  apply drop_inv in E1.
  assert (Hnamed : df1 = named df) by (unfold named; now rewrite Hn).
  subst df1. rewrite Hnamed. clear Hnamed. fold (bkeys df). fold (ekeys df).
  destruct (mean_axis1 (ekeys df) (named df)) as [endNs|e];
    [rewrite io_bind_lift_ok | left; eexists; now rewrite io_bind_lift_raise].
  destruct (mean_axis1 (bkeys df) (named df)) as [beginNs|e];
    [rewrite io_bind_lift_ok | left; eexists; now rewrite io_bind_lift_raise].
  destruct (drop (bkeys df) (named df)) as [df2|e] eqn:E2;
    [rewrite io_bind_lift_ok | left; eexists; now rewrite io_bind_lift_raise].
  apply drop_inv in E2. subst df2.
  destruct (drop (ekeys df) _) as [df3|e] eqn:E3;
    [rewrite io_bind_lift_ok | left; eexists; now rewrite io_bind_lift_raise].
  apply drop_inv in E3. subst df3.
  destruct (drop ["key"] _) as [df4|e] eqn:E4;
    [rewrite io_bind_lift_ok | left; eexists; now rewrite io_bind_lift_raise].
  apply drop_inv in E4. subst df4. fold (final_table df).
  right. exists beginNs, endNs. split; [discriminate|]. now destruct verbose.
Qed.

Lemma family_events_quiet df verbose family e :
  In e (family_events df verbose family) -> changes_files e = false.
Proof.
  unfold family_events. destruct (test_df_column_equality _) as [[]|]; cbn.
  - destruct verbose; cbn; intuition (subst; reflexivity).
  - intuition (subst; reflexivity).
  - intros [].
Qed.

Lemma check_families_quiet df verbose families e :
  In e (fst (check_families df verbose families)) -> changes_files e = false.
Proof.
  induction families as [|family families IH]; cbn [check_families].
  - intros [].
  - rewrite check_family_run. destruct (test_df_column_equality _) as [b|err] eqn:Et.
    + unfold io_bind. destruct (check_families df verbose families) as [evs r].
      cbn [fst] in *. intros Hin. apply in_app_or in Hin as [Hin|Hin]; [|now apply IH].
      eapply family_events_quiet, Hin.
    + cbn [io_bind fst]. apply family_events_quiet.
Qed.

Lemma make_key_events join_type df evs r e :
  make_key join_type df = (evs, r) -> In e evs -> changes_files e = false.
Proof.
  unfold make_key. destruct (join_type =? "kernel")%string; [now intros [= <- _] []|].
  destruct (join_type =? "grid")%string; [now intros [= <- _] []|].
  cbn. intros [= <- _] [<-|[]]. reflexivity.
Qed.

Lemma join_files_events join_type files i d evs r e :
  join_files join_type files i d = (evs, r) -> In e evs -> changes_files e = false.
Proof.
  revert i d evs r. induction files as [|[path _df] files IH]; intros i d evs r.
  - now intros [= <- _] [].
  - cbn [join_files]. destruct (make_key join_type _df) as [ev [key|err]] eqn:Ek.
    + pose proof (@make_key_quiet _ _ _ _ Ek) as ->. unfold io_bind at 1.
      destruct d as [df|].
      * destruct (merge df _ i) as [df'|err]; [|now intros [= <- _] []].
        rewrite io_bind_lift_ok.
        destruct (join_files join_type files (S i) (Some df')) as [ev' r'] eqn:E.
        intros [= <- _]. cbn [app]. eapply IH, E.
      * destruct (join_files join_type files (S i) _) as [ev' r'] eqn:E.
        intros [= <- _]. cbn [app]. eapply IH, E.
    + cbn [io_bind]. intros [= <- _]. eapply make_key_events, Ek.
Qed.

(** How a run of [join_prof] ends: with an exception and no change to the
    files, or with the unified table written once and the per-pass files
    removed after it, unless [verbose]. *)
Lemma join_prof_trace wd join_type verbose out files :
  (exists evs e,
     join_prof wd join_type verbose out files = (evs, Raise e)
     /\ forallb (fun ev => negb (changes_files ev)) evs = true)
  \/ (exists df pre beginNs endNs,
        join_files join_type files 0 None = ([], OK (Some df))
        /\ namekeys df <> []
        /\ forallb (fun ev => negb (changes_files ev)) pre = true
        /\ join_prof wd join_type verbose out files
           = (pre ++ ToCsv (out_path wd out) (mk_unified (final_table df) beginNs endNs)
                  :: (if verbose then [] else map (fun f => Remove (fst f)) files),
              OK tt)).
Proof.
  destruct (join_files join_type files 0 None) as [evs0 [[df|]|err]] eqn:Ej.
  - pose proof (@join_files_quiet _ _ _ _ _ _ Ej) as ->.
    rewrite (@join_prof_run wd join_type verbose out files _ df Ej).
    destruct (check_families df verbose duplicate_cols) as [pre r] eqn:Ec.
    assert (Hpre : forallb (fun ev => negb (changes_files ev)) pre = true).
    { apply forallb_forall. intros ev Hev. apply negb_true_iff.
      apply (@check_families_quiet df verbose duplicate_cols). now rewrite Ec. }
    destruct r as [[]|err].
    + cbn [io_bind].
      destruct (finish_join_trace (out_path wd out) verbose files df)
        as [[e ->] | (beginNs & endNs & Hnk & ->)].
      * left. exists (pre ++ []), e. split; [reflexivity|]. now rewrite app_nil_r.
      * right. exists df, pre, beginNs, endNs. auto.
    + left. exists pre, err. auto.
  - left. unfold join_prof. cbv zeta. rewrite Ej. unfold io_bind at 1.
    rewrite io_bind_lift_raise. exists (evs0 ++ []), AttributeError.
    split; [reflexivity|]. rewrite app_nil_r. apply forallb_forall. intros ev Hev.
    apply negb_true_iff. eapply join_files_events; eauto.
  - left. unfold join_prof. cbv zeta. rewrite Ej. cbn [io_bind].
    exists evs0, err. split; [reflexivity|]. apply forallb_forall. intros ev Hev.
    apply negb_true_iff. eapply join_files_events; eauto.
Qed.

(** X15. A run of [join_prof] that raises has changed no file of the
    workload: it has written no table and removed no per-pass file. *)
Theorem failed_run_changes_no_file (wd join_type : string) (verbose : bool)
  (out : option string) (files : list (string * DataFrame))
  (evs : list event) (e : error) :
  join_prof wd join_type verbose out files = (evs, Raise e) ->
  forall ev, In ev evs -> changes_files ev = false.
Proof.
  intros H ev Hev.
  destruct (join_prof_trace wd join_type verbose out files)
    as [(evs' & e' & E & Hq) | (df & pre & b & en & _ & _ & _ & E)].
  - rewrite H in E. injection E as <- _. rewrite forallb_forall in Hq.
    apply negb_true_iff. now apply Hq.
  - rewrite H in E. discriminate.
Qed.

(** X16. A run of [join_prof] that returns has written the unified table
    once, at the output path, after every message; the per-pass files are
    removed after the table is written, every one of them in the order
    found, and none at all when [verbose]. *)
Theorem table_written_before_files_removed (wd join_type : string) (verbose : bool)
  (out : option string) (files : list (string * DataFrame)) (evs : list event) :
  join_prof wd join_type verbose out files = (evs, OK tt) ->
  exists pre u,
    evs = pre ++ ToCsv (out_path wd out) u
              :: (if verbose then [] else map (fun f => Remove (fst f)) files)
    /\ forallb (fun ev => negb (changes_files ev)) pre = true.
Proof.
  intros H.
  destruct (join_prof_trace wd join_type verbose out files)
    as [(evs' & e' & E & _) | (df & pre & b & en & _ & _ & Hq & E)].
  - rewrite H in E. discriminate.
  - rewrite H in E. injection E as ->. eauto.
Qed.

(** X17. Without a per-pass file [join_prof] stops at the first use of the
    table it never read, whatever the join type; with a file and a join
    type other than [kernel] and [grid] it prints the error and exits with
    status 1 at the first file. *)
Theorem join_prof_without_table (wd join_type : string) (verbose : bool)
  (out : option string) :
  join_prof wd join_type verbose out [] = ([], Raise AttributeError)
  /\ (join_type <> "kernel" -> join_type <> "grid" ->
      forall f files,
        join_prof wd join_type verbose out (f :: files)
        = ([Print "ERROR: Unrecognized --join-type"], Raise (SystemExit 1))).
Proof.
  split; [reflexivity|]. intros Hk Hg [path _df] files.
  unfold join_prof. cbv zeta. cbn [join_files]. unfold make_key.
  apply String.eqb_neq in Hk, Hg. rewrite Hk, Hg. reflexivity.
Qed.

(** ** The columns of the unified table *)

Lemma contains_any_app a b k :
  contains_any (a ++ b) k = contains_any a k || contains_any b k.
Proof. unfold contains_any. apply existsb_app. Qed.

Lemma survivor_columns df k :
  In k (keys (columns (final_table df))) ->
  contains_any discarded k = false /\ k <> "key".
Proof.
  rewrite final_table_keys. intros Hin. apply filter_In in Hin as [Hin Hs].
  unfold survives in Hs. split_andb Hs.
  match goal with
  | H1 : negb (mem k ["key"]) = true, H2 : negb (mem k (ekeys df)) = true,
    H3 : negb (mem k (bkeys df)) = true, H4 : negb (mem k (tl (namekeys df))) = true,
    H5 : negb (contains_any ["DispatchNs"; "CompleteNs"] k) = true |- _ =>
      rename H1 into Hkey; rename H2 into He; rename H3 into Hb; rename H4 into Hn;
      rename H5 into Hd
  end.
  apply negb_true_iff in Hs, Hd, Hn, Hb, He, Hkey.
  assert (Hnamed : In k (keys (columns (named df)))).
  { unfold named, kept. rewrite !keys_select, !filter_In.
    now rewrite Hn, Hs, Hd. }
  split.
  - unfold discarded. rewrite contains_any_app, Hs. cbn [orb].
    change ["DispatchNs"; "CompleteNs"; "Begin"; "End"]
      with (["DispatchNs"; "CompleteNs"] ++ ["Begin"; "End"]).
    rewrite contains_any_app, Hd. cbn [orb]. unfold contains_any. cbn [existsb].
    apply mem_false in Hb, He. unfold bkeys in Hb. unfold ekeys in He.
    rewrite filter_In in Hb, He.
    destruct (contains "Begin" k); [exfalso; now apply Hb|].
    destruct (contains "End" k); [exfalso; now apply He|]. reflexivity.
  - apply mem_false in Hkey. intros ->. apply Hkey. now left.
Qed.

(** X18. Whatever the per-pass tables hold, no column the unified table
    takes from them has a name with one of the discarded texts in it (the
    marks of merged duplicates, the identifiers of queue, process and
    thread, the dispatch and completion times, the begin and end times of
    the passes), and the join key is not a column of it: of the times only
    the two mean columns are written. *)
Theorem unified_table_columns (wd join_type : string) (verbose : bool)
  (out : option string) (files : list (string * DataFrame)) (evs : list event)
  (path : string) (u : unified) (k : string) :
  join_prof wd join_type verbose out files = (evs, OK tt) ->
  In (ToCsv path u) evs -> In k (keys (columns (table u))) ->
  contains_any discarded k = false /\ k <> "key".
Proof.
  intros H Hin Hk.
  destruct (join_prof_trace wd join_type verbose out files)
    as [(evs' & e' & E & _) | (df & pre & b & en & _ & _ & Hq & E)].
  { rewrite H in E. discriminate. }
  rewrite H in E. injection E as ->.
  apply in_app_or in Hin as [Hin | [Hin | Hin]].
  - rewrite forallb_forall in Hq. specialize (Hq _ Hin). discriminate.
  - injection Hin as _ <-. cbn [table] in Hk. now apply survivor_columns in Hk.
  - destruct verbose; [destruct Hin|]. apply in_map_iff in Hin as (f & Hf & _).
    discriminate.
Qed.

(** ** The join keys *)

Lemma mapM_length {A B} (f : A -> result B) l l' :
  mapM f l = OK l' -> List.length l' = List.length l.
Proof. intros H. now apply mapM_ok_inv in H. Qed.

(** X19. The join keys of a per-pass table under the strategy by kernel name
    are pairwise different, one for every row of the kernel-name column:
    two dispatches of one kernel are told apart by their rank. *)
Theorem kernel_keys_are_distinct (df : DataFrame) (evs : list event)
  (key : list cell) :
  make_key "kernel" df = (evs, OK key) ->
  NoDup key /\ List.length key = List.length (column df "KernelName") /\ evs = [].
Proof.
  intros H. split; [eapply kernel_keys_NoDup, H|]. split; [|eapply make_key_quiet, H].
  unfold make_key in H. cbn [String.eqb Ascii.eqb Bool.eqb andb] in H.
  unfold lift, getitem, column in *.
  destruct (dict_get "KernelName" (columns df)) as [names|]; cbn [bind] in H;
    [|discriminate].
  injection H as _ H. apply mapM_length in H. rewrite H, length_combine.
  unfold cumcount. rewrite cumcount_aux_length, length_map. lia.
Qed.

(** X20. Under the strategy by grid the join keys of a per-pass table are
    pairwise different when its grid column holds integers. *)
Theorem grid_keys_are_distinct (df : DataFrame) (evs : list event)
  (key : list cell) :
  make_key "grid" df = (evs, OK key) ->
  forallb is_int (column df "grd") = true ->
  NoDup key /\ evs = [].
Proof.
  intros H Hint. split; [eapply grid_keys_NoDup; eauto | eapply make_key_quiet, H].
Qed.

(** ** The key of a row tells its kernel name *)

Lemma name_of_key_inj join_type c c' kc :
  name_of_key join_type c kc -> name_of_key join_type c' kc -> c = c'.
Proof.
  intros (n & t & -> & -> & Ht) (n' & t' & -> & [= E] & Ht'). unfold key_tail in *.
  destruct (join_type =? "kernel")%string.
  - now apply key_suffix_inj in E as [-> _].
  - destruct Ht as (g & d & -> & Hg & Hd). destruct Ht' as (g' & d' & -> & Hg' & Hd').
    now apply grid_key_inj in E as (-> & _).
Qed.

Lemma Forall2_name_inj join_type col col' keycol :
  Forall2 (name_of_key join_type) col keycol ->
  Forall2 (name_of_key join_type) col' keycol -> col = col'.
Proof.
  intros H. revert col'. induction H as [|c kc col keycol Hc _ IH]; intros col' H'.
  - now inversion H'.
  - inversion H' as [|c' kc' col'' keycol' Hc' Hrest]; subst.
    f_equal; [eapply name_of_key_inj; eauto | now apply IH].
Qed.

Lemma Forall2_nth_error {A B} (R : A -> B -> Prop) l l' i :
  Forall2 R l l' ->
  match nth_error l i, nth_error l' i with
  | Some a, Some b => R a b
  | None, None => True
  | _, _ => False
  end.
Proof.
  intros H. revert i. induction H as [|a b l l' Hab _ IH]; intros [|i]; cbn; auto.
  apply IH.
Qed.

Lemma Forall2_gather (R : cell -> cell -> Prop) col keycol idx :
  Forall2 R col keycol -> Forall2 R (gather idx col) (gather idx keycol).
Proof.
  intros H. unfold gather. induction idx as [|i idx IH]; cbn [flat_map]; [constructor|].
  pose proof (@Forall2_nth_error _ _ R _ _ i H) as Hi.
  destruct (nth_error col i), (nth_error keycol i); try contradiction; cbn [app].
  - now constructor.
  - exact IH.
Qed.

Lemma prefix_clean (p : ascii -> bool) sub k suffix :
  sub <> EmptyString -> all_chars p sub = true ->
  all_chars (fun c => negb (p c)) suffix = true ->
  String.prefix sub (k ++ suffix) = String.prefix sub k.
Proof.
  intros Hne Hs Hx. revert sub Hne Hs. induction k as [|c k IH]; intros sub Hne Hs.
  - destruct sub as [|s sub]; [congruence|]. cbn [append].
    destruct suffix as [|x suffix]; [reflexivity|]. cbn [String.prefix].
    rewrite all_chars_cons in Hs, Hx. apply andb_prop in Hs as [Hs _].
    apply andb_prop in Hx as [Hx _]. apply negb_true_iff in Hx.
    destruct (ascii_dec s x) as [->|Hsx]; [congruence | reflexivity].
  - destruct sub as [|s sub]; [congruence|]. cbn [append String.prefix].
    destruct (ascii_dec s c) as [_|_]; [|reflexivity].
    destruct sub as [|s' sub']; [now destruct (k ++ suffix)%string, k|].
    apply IH; [discriminate|]. rewrite all_chars_cons in Hs. now apply andb_prop in Hs.
Qed.

Lemma contains_clean (p : ascii -> bool) sub k suffix :
  sub <> EmptyString -> all_chars p sub = true ->
  all_chars (fun c => negb (p c)) suffix = true ->
  contains sub (k ++ suffix) = contains sub k.
Proof.
  intros Hne Hs Hx. induction k as [|c k IH].
  - cbn [append]. clear -Hne Hs Hx.
    assert (G : contains sub suffix = false).
    { induction suffix as [|x suffix IHx].
      - destruct sub; [congruence | reflexivity].
      - cbn [contains]. rewrite all_chars_cons in Hx. apply andb_prop in Hx as [Hx Hx'].
        rewrite (IHx Hx'), orb_false_r.
        pose proof (@prefix_clean p sub EmptyString (String x suffix) Hne Hs) as E.
        cbn [append] in E. rewrite E.
        + destruct sub; [congruence | reflexivity].
        + rewrite all_chars_cons, Hx, Hx'. reflexivity. }
    rewrite G. destruct sub; [congruence | reflexivity].
  - change (String c k ++ suffix)%string with (String c (k ++ suffix)).
    cbn [contains]. rewrite IH.
    pose proof (@prefix_clean p sub (String c k) suffix Hne Hs Hx) as E.
    change (String c k ++ suffix)%string with (String c (k ++ suffix)) in E.
    now rewrite E.
Qed.

Lemma uint_not_letter d :
  all_chars (fun c => negb (is_letter c)) (NilEmpty.string_of_uint d) = true.
Proof. induction d; cbn; auto. Qed.

Lemma suffix_keeps_name k i :
  contains "KernelName" (k ++ "_" ++ str i) = contains "KernelName" k.
Proof.
  apply (@contains_clean is_letter); [discriminate | reflexivity |].
  change ("_" ++ str i)%string with (String "_" (str i)).
  rewrite all_chars_cons. unfold str. now rewrite uint_not_letter.
Qed.

Lemma In_dict_set {V} (k0 : string) (v0 : V) d k v :
  In (k, v) (dict_set k0 v0 d) -> (k = k0 /\ v = v0) \/ In (k, v) d.
Proof.
  induction d as [|[k' v'] d IH]; cbn [dict_set].
  - intros [[= <- <-]|[]]. now left.
  - destruct (k' =? k0)%string.
    + intros [[= <- <-]|H]; [now left | right; now right].
    + intros [H|H]; [right; now left|]. destruct (IH H) as [?|?]; [now left | right; now right].
Qed.

Lemma only_column {V} (p : string -> bool) (d : dict V) k0 col :
  filter p (keys d) = [k0] -> In (k0, col) d -> dict_get k0 d = Some col.
Proof.
  unfold keys. induction d as [|[k' v] d IH]; [intros _ []|].
  cbn [map fst filter dict_get]. intros Hf Hin.
  assert (Hp0 : p k0 = true).
  { assert (H0 : In k0 (filter p (k' :: map fst d))) by (cbn [filter]; rewrite Hf; now left).
    now apply filter_In in H0. }
  destruct (String.eqb_spec k' k0) as [->|Hne].
  - rewrite Hp0 in Hf. injection Hf as Hf. destruct Hin as [[= ->]|Hin]; [reflexivity|].
    exfalso. assert (H1 : In k0 (filter p (map fst d))).
    { apply filter_In. split; [|exact Hp0]. apply in_map_iff. now exists (k0, col). }
    now rewrite Hf in H1.
  - destruct Hin as [[= E _]|Hin]; [congruence|].
    destruct (p k') eqn:Ep; [injection Hf as E _; congruence|]. now apply IH.
Qed.

Lemma kernel_key_rows names counts key :
  mapM (fun nk : cell * nat =>
          n <- text_of (fst nk) ;;
          OK (Text (n ++ " - " ++ str (snd nk))%string))
       (combine names counts) = OK key ->
  List.length counts = List.length names ->
  Forall2 (name_of_key "kernel") names key.
Proof.
  revert counts key. induction names as [|c names IH]; intros counts key H Hl.
  - cbn in H. injection H as <-. constructor.
  - destruct counts as [|r counts]; [discriminate|]. cbn [combine mapM fst snd] in H.
    destruct c as [name|z]; cbn [text_of bind] in H; [|discriminate].
    destruct (mapM _ (combine names counts)) as [key'|] eqn:E; cbn [bind] in H;
      [|discriminate].
    injection H as <-. constructor.
    + exists name, (str r). repeat split. apply str_no_space.
    + apply (IH counts); [exact E | cbn in Hl; lia].
Qed.

Lemma grid_key_rows names grd counts key :
  mapM (fun ngk : cell * cell * nat =>
          n <- text_of (fst (fst ngk)) ;;
          OK (Text (n ++ " - " ++ cell_str (snd (fst ngk))
                      ++ " - " ++ str (snd ngk))%string))
       (combine (combine names grd) counts) = OK key ->
  forallb is_int grd = true ->
  List.length grd = List.length names -> List.length counts = List.length names ->
  Forall2 (name_of_key "grid") names key.
Proof.
  revert grd counts key.
  induction names as [|c names IH]; intros grd counts key H Hint Hg Hl.
  - cbn in H. injection H as <-. constructor.
  - destruct grd as [|g grd]; [discriminate|].
    destruct counts as [|r counts]; [discriminate|]. cbn [combine mapM fst snd] in H.
    cbn [forallb] in Hint. apply andb_prop in Hint as [Hg0 Hint].
    destruct c as [name|z]; cbn [text_of bind] in H; [|discriminate].
    destruct (mapM _ (combine (combine names grd) counts)) as [key'|] eqn:E;
      cbn [bind] in H; [|discriminate].
    injection H as <-. constructor.
    + exists name, (cell_str g ++ " - " ++ str r)%string. repeat split.
      exists (cell_str g), (str r). repeat split; [|apply str_no_space].
      destruct g as [|z]; [discriminate|]. apply str_int_no_space.
    + apply (IH grd counts); [exact E | exact Hint | cbn in Hg; lia | cbn in Hl; lia].
Qed.

Lemma one_name_column_get df k col :
  one_name_column df = true -> In (k, col) (columns df) ->
  contains "KernelName" k = true ->
  k = "KernelName" /\ dict_get "KernelName" (columns df) = Some col.
Proof.
  intros Hone Hin Hc. unfold one_name_column, family_cols in Hone.
  destruct (filter (contains "KernelName") (keys (columns df))) as [|k0 [|]] eqn:Ef;
    try discriminate.
  apply String.eqb_eq in Hone. subst k0.
  assert (Ek : k = "KernelName").
  { assert (H0 : In k (filter (contains "KernelName") (keys (columns df)))).
    { apply filter_In. split; [|exact Hc]. unfold keys. apply in_map_iff.
      now exists (k, col). }
    rewrite Ef in H0. destruct H0 as [<-|[]]. reflexivity. }
  subst k. split; [reflexivity|]. exact (@only_column _ _ _ _ _ Ef Hin).
Qed.

Lemma one_name_column_In df :
  one_name_column df = true -> In "KernelName" (keys (columns df)).
Proof.
  intros Hone. unfold one_name_column, family_cols in Hone.
  destruct (filter (contains "KernelName") (keys (columns df))) as [|k0 [|]] eqn:Ef;
    try discriminate.
  apply String.eqb_eq in Hone. subst k0.
  assert (H0 : In "KernelName" (filter (contains "KernelName") (keys (columns df))))
    by (rewrite Ef; now left).
  now apply filter_In in H0.
Qed.

(** A per-pass table with its join keys, under the strategy by kernel
    name. *)
Lemma kernel_table_follows df evs key :
  one_name_column df = true -> make_key "kernel" df = (evs, OK key) ->
  names_follow_keys "kernel" (mk_df (nrows df) (dict_set "key" key (columns df))).
Proof.
  intros Hone Hk. exists key. cbn [columns]. split; [apply dict_get_set_same|].
  intros k col Hin Hc. apply In_dict_set in Hin as [[-> _]|Hin]; [discriminate|].
  destruct (@one_name_column_get df k col Hone Hin Hc) as [-> Hget].
  unfold make_key in Hk. cbn [String.eqb Ascii.eqb Bool.eqb andb] in Hk.
  unfold lift, getitem in Hk. rewrite Hget in Hk. cbn [bind] in Hk.
  injection Hk as _ Hk. apply (@kernel_key_rows _ _ _ Hk).
  unfold cumcount. now rewrite cumcount_aux_length, length_map.
Qed.

(** The same under the strategy by grid, for integer grid sizes. *)
Lemma grid_table_follows df evs key :
  numeric_grid df = true -> make_key "grid" df = (evs, OK key) ->
  names_follow_keys "grid" (mk_df (nrows df) (dict_set "key" key (columns df))).
Proof.
  intros Hnum Hk. unfold numeric_grid in Hnum. apply andb_prop in Hnum as [Hnum Hint].
  apply andb_prop in Hnum as [Hone Hw].
  exists key. cbn [columns]. split; [apply dict_get_set_same|].
  intros k col Hin Hc. apply In_dict_set in Hin as [[-> _]|Hin]; [discriminate|].
  destruct (@one_name_column_get df k col Hone Hin Hc) as [-> Hget].
  unfold make_key in Hk. cbn [String.eqb Ascii.eqb Bool.eqb andb] in Hk.
  unfold lift, getitem in Hk. rewrite Hget in Hk. cbn [bind] in Hk.
  destruct (dict_get "grd" (columns df)) as [grd|] eqn:Eg; cbn [bind] in Hk;
    [|discriminate].
  assert (Hlen : forall k0 c0, dict_get k0 (columns df) = Some c0 ->
                               List.length c0 = nrows df).
  { intros k0 c0 E0. pose proof (@well_shaped_column df k0 Hw) as Hl.
    unfold column in Hl. rewrite E0 in Hl. apply Hl.
    apply dict_mem_keys. unfold dict_mem. now rewrite E0. }
  injection Hk as _ Hk. apply (@grid_key_rows _ grd _ _ Hk).
  - unfold column in Hint. now rewrite Eg in Hint.
  - now rewrite (Hlen _ _ Eg), (Hlen _ _ Hget).
  - unfold cumcount. rewrite cumcount_aux_length, length_map, length_combine.
    rewrite (Hlen _ _ Eg), (Hlen _ _ Hget). lia.
Qed.

Lemma combine_seq_nth {A} (l : list A) s i x :
  In (i, x) (combine (seq s (List.length l)) l) -> nth_error l (i - s) = Some x /\ s <= i.
Proof.
  revert s. induction l as [|a l IH]; intros s; cbn [List.length seq combine]; [intros []|].
  intros [[= <- <-]|H].
  - rewrite Nat.sub_diag. split; [reflexivity | lia].
  - apply IH in H as [H Hle]. split; [|lia].
    replace (i - s) with (S (i - S s)) by lia. exact H.
Qed.

Lemma gather_pairs (keyL keyR : list cell) (pairs : list (nat * nat)) :
  (forall a b, In (a, b) pairs ->
               exists x, nth_error keyL a = Some x /\ nth_error keyR b = Some x) ->
  gather (map fst pairs) keyL = gather (map snd pairs) keyR.
Proof.
  induction pairs as [|[a b] pairs IH]; intros H; [reflexivity|].
  unfold gather in *. cbn [map flat_map fst snd].
  destruct (H a b (or_introl eq_refl)) as (x & -> & ->).
  f_equal. apply IH. intros a' b' Hin. apply H. now right.
Qed.

Lemma merge_follows join_type df _df i df' :
  names_follow_keys join_type df -> names_follow_keys join_type _df ->
  merge df _df i = OK df' -> names_follow_keys join_type df'.
Proof.
  intros (keyL & HL & HfL) (keyR & HR & HfR). unfold merge, getitem.
  rewrite HL, HR. cbn [bind]. cbv zeta.
  set (pairs := flat_map _ (combine (seq 0 (List.length keyL)) keyL)).
  intros [= <-]. unfold names_follow_keys. cbn [columns].
  assert (Hpairs : gather (map fst pairs) keyL = gather (map snd pairs) keyR).
  { apply gather_pairs. intros a b Hin. unfold pairs in Hin.
    apply in_flat_map in Hin as ([ia ka] & Ha & Hin).
    apply in_map_iff in Hin as ([ib kb] & [= <- <-] & Hb).
    apply filter_In in Hb as [Hb Heq]. cbn [fst snd] in *.
    apply cell_eqb_eq in Heq. subst kb.
    apply combine_seq_nth in Ha as [Ha _]. apply combine_seq_nth in Hb as [Hb _].
    rewrite Nat.sub_0_r in Ha, Hb. eauto. }
  exists (gather (map fst pairs) keyL). split.
  - rewrite dict_get_app, (dict_get_map_values (gather (map fst pairs))), HL. reflexivity.
  - intros k col Hin Hc. apply in_app_or in Hin as [Hin|Hin].
    + apply in_map_iff in Hin as ([k0 col0] & [= <- <-] & Hin0). cbn [fst snd] in *.
      apply Forall2_gather. now apply (HfL k0).
    + apply in_map_iff in Hin as ([k0 col0] & [= <- <-] & Hin0). cbn [fst snd] in *.
      apply filter_In in Hin0 as [Hin0 _]. rewrite Hpairs. apply Forall2_gather.
      apply (HfR k0); [exact Hin0|].
      destruct (dict_mem k0 (columns df)); [|exact Hc].
      rewrite <- (suffix_keeps_name k0 i). exact Hc.
Qed.

Lemma keys_dict_set_In {V} (k0 : string) (v0 : V) d k :
  In k (keys d) -> In k (keys (dict_set k0 v0 d)).
Proof.
  unfold keys. induction d as [|[k' v'] d IH]; cbn [dict_set map fst]; [intros []|].
  destruct (String.eqb_spec k' k0) as [->|Hne]; cbn [map fst].
  - auto.
  - intros [H|H]; [now left | right; now apply IH].
Qed.

Lemma merge_left_keys df _df i df' k :
  merge df _df i = OK df' -> In k (keys (columns df)) -> In k (keys (columns df')).
Proof.
  unfold merge, getitem.
  destruct (dict_get "key" (columns df)); cbn [bind]; [|discriminate].
  destruct (dict_get "key" (columns _df)); cbn [bind]; [|discriminate].
  cbv zeta. intros [= <-] Hin. cbn [columns]. unfold keys in *.
  rewrite map_app, map_map. cbn [fst]. apply in_or_app. now left.
Qed.

Lemma join_files_left_keys join_type files k :
  forall i df evs df',
    join_files join_type files i (Some df) = (evs, OK (Some df')) ->
    In k (keys (columns df)) -> In k (keys (columns df')).
Proof.
  induction files as [|[path _df] files IH]; intros i df evs df'.
  - cbn [join_files]. now intros [= _ <-].
  - cbn [join_files].
    destruct (make_key join_type _df) as [ev [key|e]]; [|discriminate].
    unfold io_bind at 1.
    destruct (merge df _ i) as [dfm|e] eqn:Em; [|discriminate].
    rewrite io_bind_lift_ok.
    destruct (join_files join_type files (S i) (Some dfm)) as [ev' r] eqn:Ej.
    intros [= _ ->] Hin. apply (IH _ _ _ _ Ej). eapply merge_left_keys; eauto.
Qed.

(** ** No failed assertion *)

Lemma mapM_raise_inv {A B} (f : A -> result B) l e :
  mapM f l = Raise e -> exists x, In x l /\ f x = Raise e.
Proof.
  induction l as [|a l IH]; cbn [mapM]; [discriminate|].
  destruct (f a) as [b|e'] eqn:Ea; cbn [bind].
  - destruct (mapM f l) as [bs|e'']; cbn [bind]; [discriminate|].
    intros [= <-]. destruct (IH eq_refl) as (x & Hx & Ex). exists x.
    split; [now right | exact Ex].
  - intros [= <-]. exists a. split; [now left | exact Ea].
Qed.

Lemma getitem_raise {V} k (d : dict V) e : getitem k d = Raise e -> e = KeyError k.
Proof. unfold getitem. destruct (dict_get k d); [discriminate | now intros [= <-]]. Qed.

Lemma drop_raise names df e : drop names df = Raise e -> e <> AssertionError.
Proof.
  unfold drop. destruct (find _ names); [|discriminate]. intros [= <-]. discriminate.
Qed.

Lemma mean_axis1_raise names df e : mean_axis1 names df = Raise e -> e <> AssertionError.
Proof.
  unfold mean_axis1. destruct (mapM _ names) as [cols|e'] eqn:Ec; cbn [bind].
  - intros H. apply mapM_raise_inv in H as (r & _ & H). unfold row_mean in H.
    destruct (mapM _ cols) as [vals|e''] eqn:Ev; cbn [bind] in H.
    + destruct vals; discriminate.
    + injection H as <-. apply mapM_raise_inv in Ev as (col & _ & Ev).
      destruct (nth_error col r) as [[|]|]; try discriminate;
        injection Ev as <-; discriminate.
  - intros [= <-]. apply mapM_raise_inv in Ec as (k & _ & Ek).
    apply getitem_raise in Ek. subst e'. discriminate.
Qed.

Lemma finish_join_no_assert out verbose files df evs e :
  namekeys df <> [] -> copies_agree df ->
  finish_join out verbose files df = (evs, Raise e) -> e <> AssertionError.
Proof.
  intros Hne Ha. unfold finish_join. cbv zeta. fold (kept df). fold (namekeys df).
  destruct (namekeys df) as [|first rest] eqn:Hn; [congruence|].
  rewrite io_bind_lift_ok. cbn [tl].
  assert (Hfirst : In first (keys (columns (kept df))))
    by (apply namekeys_kept; rewrite Hn; now left).
  assert (Hrest : forall k, In k rest -> In k (keys (columns (kept df))))
    by (intros k Hk; apply namekeys_kept; rewrite Hn; now right).
  rewrite (@assert_same_names_run (kept df) first _ Hfirst Hrest).
  assert (Hsame : forallb (fun k => col_eqb (column (kept df) first) (column (kept df) k))
                          rest = true).
  { apply forallb_forall. intros k Hk.
    rewrite !column_kept by (apply namekeys_kept; rewrite Hn; auto using in_eq, in_cons).
    rewrite (Ha first k); [apply col_eqb_refl | rewrite Hn; now left | rewrite Hn; now right]. }
  rewrite Hsame, io_bind_lift_ok.
  repeat match goal with
         | |- io_bind (lift ?r) _ = _ -> _ =>
             let E := fresh "E" in
             destruct r as [?|?] eqn:E;
             [rewrite io_bind_lift_ok
             | rewrite io_bind_lift_raise; intros [= _ <-];
               first [eapply drop_raise, E | eapply mean_axis1_raise, E]]
         end.
  destruct verbose; discriminate.
Qed.

Lemma test_equality_raise df e : test_df_column_equality df = Raise e -> e = IndexError.
Proof.
  unfold test_df_column_equality. destruct (columns df) as [|[] ?]; [|discriminate].
  now intros [= <-].
Qed.

Lemma check_families_raise df verbose families evs e :
  check_families df verbose families = (evs, Raise e) -> e = IndexError.
Proof.
  revert evs. induction families as [|family families IH]; intros evs;
    cbn [check_families]; [discriminate|].
  rewrite check_family_run. destruct (test_df_column_equality _) as [b|e'] eqn:Et.
  - unfold io_bind. destruct (check_families df verbose families) as [evs' r].
    intros [= _ ->]. now apply (IH evs').
  - cbn [io_bind]. intros [= _ <-]. now apply test_equality_raise in Et.
Qed.

Lemma merge_raise df _df i e : merge df _df i = Raise e -> e <> AssertionError.
Proof.
  unfold merge.
  destruct (getitem "key" (columns df)) as [keyL|e'] eqn:EL; cbn [bind].
  - destruct (getitem "key" (columns _df)) as [keyR|e''] eqn:ER; cbn [bind];
      [discriminate|].
    intros [= <-]. apply getitem_raise in ER. subst e''. discriminate.
  - intros [= <-]. apply getitem_raise in EL. subst e'. discriminate.
Qed.

Lemma make_key_raise join_type df evs e :
  make_key join_type df = (evs, Raise e) -> e <> AssertionError.
Proof.
  unfold make_key. destruct (join_type =? "kernel")%string; [|destruct (join_type =? "grid")%string].
  - unfold lift. intros [= _ H].
    destruct (getitem "KernelName" (columns df)) as [names|e'] eqn:En; cbn [bind] in H.
    + apply mapM_raise_inv in H as ([c r] & _ & H). cbn [fst snd] in H.
      destruct c; cbn [text_of bind] in H; [discriminate|]. injection H as <-. discriminate.
    + injection H as <-. apply getitem_raise in En. subst e'. discriminate.
  - unfold lift. intros [= _ H].
    destruct (getitem "KernelName" (columns df)) as [names|e'] eqn:En; cbn [bind] in H.
    + destruct (getitem "grd" (columns df)) as [grd|e'] eqn:Eg; cbn [bind] in H.
      * apply mapM_raise_inv in H as ([[c g] r] & _ & H). cbn [fst snd] in H.
        destruct c; cbn [text_of bind] in H; [discriminate|]. injection H as <-.
        discriminate.
      * injection H as <-. apply getitem_raise in Eg. subst e'. discriminate.
    + injection H as <-. apply getitem_raise in En. subst e'. discriminate.
  - cbn. intros [= _ <-]. discriminate.
Qed.

Lemma join_files_raise join_type files :
  forall i d evs e,
    join_files join_type files i d = (evs, Raise e) -> e <> AssertionError.
Proof.
  induction files as [|[path _df] files IH]; intros i d evs e; cbn [join_files];
    [discriminate|].
  destruct (make_key join_type _df) as [ev [key|e']] eqn:Ek.
  - unfold io_bind at 1. destruct d as [df|].
    + destruct (merge df _ i) as [dfm|e'] eqn:Em.
      * rewrite io_bind_lift_ok.
        destruct (join_files join_type files (S i) (Some dfm)) as [ev' r] eqn:Ej.
        intros [= _ ->]. eapply IH, Ej.
      * rewrite io_bind_lift_raise. intros [= _ <-]. eapply merge_raise, Em.
    + destruct (join_files join_type files (S i) _) as [ev' r] eqn:Ej.
      intros [= _ ->]. eapply IH, Ej.
  - cbn [io_bind]. intros [= _ <-]. eapply make_key_raise, Ek.
Qed.

(** ** The names agree after the join *)

Section NameCheck.

Variable join_type : string.
(** The per-pass tables the strategy is sure of. *)
Variable good : DataFrame -> bool.
Hypothesis good_follows :
  forall df evs key,
    good df = true -> make_key join_type df = (evs, OK key) ->
    names_follow_keys join_type (mk_df (nrows df) (dict_set "key" key (columns df))).
Hypothesis good_named : forall df, good df = true -> In "KernelName" (keys (columns df)).

Lemma join_files_follow files :
  forall i df evs df',
    names_follow_keys join_type df ->
    forallb (fun f => good (snd f)) files = true ->
    join_files join_type files i (Some df) = (evs, OK (Some df')) ->
    names_follow_keys join_type df'.
Proof.
  induction files as [|[path _df] files IH]; intros i df evs df' Hdf Hgood.
  - cbn [join_files]. now intros [= _ <-].
  - cbn [join_files]. cbn [forallb snd] in Hgood. apply andb_prop in Hgood as [H1 Hgood].
    destruct (make_key join_type _df) as [ev [key|e]] eqn:Ek; [|discriminate].
    unfold io_bind at 1.
    destruct (merge df _ i) as [dfm|e] eqn:Em; [|discriminate].
    rewrite io_bind_lift_ok.
    destruct (join_files join_type files (S i) (Some dfm)) as [ev' r] eqn:Ej.
    intros [= _ ->]. apply (IH (S i) dfm ev' df'); [|exact Hgood | exact Ej].
    eapply merge_follows; [exact Hdf | | exact Em].
    eapply good_follows; eauto.
Qed.

Lemma joined_agree files evs df :
  forallb (fun f => good (snd f)) files = true ->
  join_files join_type files 0 None = (evs, OK (Some df)) ->
  copies_agree df /\ namekeys df <> [].
Proof.
  destruct files as [|[path _df] files]; [discriminate|].
  cbn [join_files forallb snd]. intros Hgood Hj. apply andb_prop in Hgood as [H1 Hgood].
  destruct (make_key join_type _df) as [ev [key|e]] eqn:Ek; [|discriminate].
  unfold io_bind at 1 in Hj.
  destruct (join_files join_type files 1 _) as [ev' r] eqn:Ej.
  injection Hj as _ ->. split.
  - assert (Hf : names_follow_keys join_type df).
    { eapply join_files_follow; [| exact Hgood | exact Ej]. eapply good_follows; eauto. }
    destruct Hf as (keycol & _ & Hf). intros k1 k2 Hk1 Hk2.
    assert (G : forall k, In k (namekeys df) ->
                          Forall2 (name_of_key join_type) (column df k) keycol).
    { intros k Hk. unfold namekeys in Hk. apply filter_In in Hk as [Hk Hc].
      apply kept_keys in Hk. apply (Hf k); [|exact Hc]. now apply column_In. }
    eapply Forall2_name_inj; eauto.
  - assert (Hin : In "KernelName" (keys (columns df))).
    { apply (join_files_left_keys _ _ _ _ _ Ej). cbn [columns]. apply keys_dict_set_In.
      now apply good_named. }
    assert (Hn : In "KernelName" (namekeys df)).
    { unfold namekeys, kept. rewrite !keys_select, !filter_In. auto. }
    intros E. now rewrite E in Hn.
Qed.

Lemma good_run_no_assert files wd verbose out evs :
  forallb (fun f => good (snd f)) files = true ->
  join_prof wd join_type verbose out files <> (evs, Raise AssertionError).
Proof.
  intros Hgood Hrun.
  destruct (join_files join_type files 0 None) as [evs0 [[df|]|err]] eqn:Ej.
  - destruct (@joined_agree files evs0 df Hgood Ej) as [Ha Hn].
    rewrite (@join_prof_run wd join_type verbose out files _ df Ej) in Hrun.
    destruct (check_families df verbose duplicate_cols) as [pre [[]|err]] eqn:Ec.
    + cbn [io_bind] in Hrun.
      destruct (finish_join (out_path wd out) verbose files df) as [evs1 r] eqn:Ef.
      injection Hrun as _ ->. now apply (@finish_join_no_assert _ _ _ _ _ _ Hn Ha Ef).
    + cbn [io_bind] in Hrun. injection Hrun as _ ->.
      now apply check_families_raise in Ec.
  - unfold join_prof in Hrun. cbv zeta in Hrun. rewrite Ej in Hrun.
    unfold io_bind at 1 in Hrun. rewrite io_bind_lift_raise in Hrun. discriminate.
  - unfold join_prof in Hrun. cbv zeta in Hrun. rewrite Ej in Hrun.
    cbn [io_bind] in Hrun. injection Hrun as _ ->.
    now apply (@join_files_raise _ _ _ _ _ _ Ej).
Qed.

End NameCheck.

(** X21. Under the strategy by kernel name the sanity check on the kernel
    names cannot fail: when every per-pass table has [KernelName] as its
    only column with that text in its name, the copies of the column in the
    joined table are the same, since the key of a row tells its kernel
    name, and no run raises the failed assertion. *)
Theorem kernel_strategy_passes_the_name_check (files : list (string * DataFrame)) :
  forallb (fun f => one_name_column (snd f)) files = true ->
  (forall evs df,
     join_files "kernel" files 0 None = (evs, OK (Some df)) ->
     copies_agree df /\ namekeys df <> [])
  /\ (forall wd verbose out evs,
        join_prof wd "kernel" verbose out files <> (evs, Raise AssertionError)).
Proof.
  intros Hone. split.
  - intros evs df. apply (@joined_agree "kernel" one_name_column); auto.
    + intros d e k. apply kernel_table_follows.
    + apply one_name_column_In.
  - intros wd verbose out evs. apply (@good_run_no_assert "kernel" one_name_column); auto.
    + intros d e k. apply kernel_table_follows.
    + apply one_name_column_In.
Qed.

Lemma numeric_grid_named df : numeric_grid df = true -> In "KernelName" (keys (columns df)).
Proof.
  unfold numeric_grid. intros H. apply andb_prop in H as [H _].
  apply andb_prop in H as [H _]. now apply one_name_column_In.
Qed.

(** X22. Nor can the check fail under the strategy by grid when the grid
    sizes are integers: with per-pass tables that have, besides, columns as
    long as their rows are many, the key of a row still tells its kernel
    name, the copies of the kernel-name column agree in the joined table
    and no run raises the failed assertion. *)
Theorem grid_strategy_passes_the_name_check (files : list (string * DataFrame)) :
  forallb (fun f => numeric_grid (snd f)) files = true ->
  (forall evs df,
     join_files "grid" files 0 None = (evs, OK (Some df)) ->
     copies_agree df /\ namekeys df <> [])
  /\ (forall wd verbose out evs,
        join_prof wd "grid" verbose out files <> (evs, Raise AssertionError)).
Proof.
  intros Hnum. split.
  - intros evs df. apply (@joined_agree "grid" numeric_grid); auto.
    + intros d e k. apply grid_table_follows.
    + apply numeric_grid_named.
  - intros wd verbose out evs. apply (@good_run_no_assert "grid" numeric_grid); auto.
    + intros d e k. apply grid_table_follows.
    + apply numeric_grid_named.
Qed.

(** ** A family without a column *)

Lemma select_no_column sub df :
  family_cols sub df = [] -> test_df_column_equality (select (contains sub) df) = Raise IndexError.
Proof.
  unfold family_cols, test_df_column_equality, select, keys. cbn [columns].
  intros H. destruct (filter _ (columns df)) as [|[k col] l] eqn:E; [reflexivity|].
  exfalso. assert (Hin : In (k, col) (filter (fun kv => contains sub (fst kv)) (columns df)))
    by (rewrite E; now left).
  apply filter_In in Hin as [Hin Hc]. cbn [fst] in Hc.
  assert (H0 : In k (filter (contains sub) (map fst (columns df)))).
  { apply filter_In. split; [|exact Hc]. apply in_map_iff. now exists (k, col). }
  now rewrite H in H0.
Qed.

Lemma check_families_missing df verbose families :
  forallb (fun family => negb (is_nil (family_cols (snd family) df))) families = false ->
  exists evs, check_families df verbose families = (evs, Raise IndexError).
Proof.
  induction families as [|[key sub] families IH]; [discriminate|].
  cbn [forallb snd check_families]. rewrite check_family_run. cbn [snd].
  destruct (family_cols sub df) as [|k l] eqn:Ef.
  - intros _. rewrite (@select_no_column sub df Ef). cbn [io_bind]. eauto.
  - cbn [is_nil negb andb]. intros H. destruct (IH H) as [evs E].
    destruct (@test_equality_present df sub) as [b Eb]; [now rewrite Ef|].
    rewrite Eb. unfold io_bind. rewrite E. eauto.
Qed.

(** X23. Every family of [duplicate_cols] must have a column in the joined
    table: when one has none, the comparison of its columns has no first
    column to compare with, and [join_prof] stops with that exception,
    having changed no file. *)
Theorem missing_family_is_fatal (wd join_type : string) (verbose : bool)
  (out : option string) (files : list (string * DataFrame))
  (evs0 : list event) (df : DataFrame) :
  join_files join_type files 0 None = (evs0, OK (Some df)) ->
  families_present df = false ->
  exists evs,
    join_prof wd join_type verbose out files = (evs, Raise IndexError)
    /\ forallb (fun ev => negb (changes_files ev)) evs = true.
Proof.
  intros Hj Hmiss. rewrite (@join_prof_run wd join_type verbose out files _ df Hj).
  destruct (@check_families_missing df verbose duplicate_cols Hmiss) as [evs E].
  exists evs. rewrite E. cbn [io_bind]. split; [reflexivity|].
  apply forallb_forall. intros ev Hev. apply negb_true_iff.
  apply (@check_families_quiet df verbose duplicate_cols). now rewrite E.
Qed.

(** ** The exception of the coalescer *)

Lemma add_counters_app pl a b :
  add_counters pl (a ++ b) = (pl' <- add_counters pl a ;; add_counters pl' b).
Proof.
  revert pl. induction a as [|t a IH]; intros pl; [reflexivity|].
  cbn [app add_counters]. destruct (add_counter pl t) as [pl1|e]; cbn [bind]; [apply IH|].
  reflexivity.
Qed.

Lemma coalesce_line_stream dir pl fs line :
  match coalesce_line dir (pl, fs) line with
  | OK (pl', _) => add_counters pl (line_tokens line) = OK pl'
  | Raise e => add_counters pl (line_tokens line) = Raise e
  end.
Proof.
  destruct (coalesce_line dir (pl, fs) line) as [[pl' fs']|e] eqn:E.
  - eapply coalesce_line_tokens, E.
  - unfold line_tokens.
    destruct (match_pmc (strip (before "#" line))) as [group|] eqn:Em.
    + destruct (mem ACCUM (split_ws group)) eqn:Ea.
      * apply mem_In in Ea. apply In_split_first in Ea as (pre & post & Eg & Hpre).
        rewrite (@coalesce_line_level dir pl fs line group pre post Em Eg Hpre) in E.
        discriminate.
      * unfold coalesce_line in E.
        destruct (strip (before "#" line)) as [|c s] eqn:Es; [discriminate|].
        rewrite Em, Ea in E.
        destruct (add_counters pl (split_ws group)) as [pl1|e1]; cbn [bind] in E;
          [discriminate | congruence].
    + rewrite coalesce_line_skip in E; [discriminate | now right; left].
Qed.

Lemma coalesce_lines_stream dir lines pl fs :
  match coalesce_lines dir (pl, fs) lines with
  | OK (pl', _) => add_counters pl (flat_map line_tokens lines) = OK pl'
  | Raise e => add_counters pl (flat_map line_tokens lines) = Raise e
  end.
Proof.
  revert pl fs. induction lines as [|line lines IH]; intros pl fs; [reflexivity|].
  cbn [coalesce_lines flat_map]. rewrite add_counters_app.
  pose proof (coalesce_line_stream dir pl fs line) as Hl.
  destruct (coalesce_line dir (pl, fs) line) as [[pl1 fs1]|e]; rewrite Hl; cbn [bind].
  - apply IH.
  - reflexivity.
Qed.

Lemma coalesce_files_stream dir files pl fs :
  match coalesce_files dir (pl, fs) files with
  | OK (pl', _) => add_counters pl (bucketed_tokens files) = OK pl'
  | Raise e => add_counters pl (bucketed_tokens files) = Raise e
  end.
Proof.
  revert pl fs. induction files as [|lines files IH]; intros pl fs; [reflexivity|].
  cbn [coalesce_files]. unfold bucketed_tokens in *. cbn [flat_map].
  rewrite add_counters_app.
  pose proof (coalesce_lines_stream dir lines pl fs) as Hl.
  destruct (coalesce_lines dir (pl, fs) lines) as [[pl1 fs1]|e]; rewrite Hl; cbn [bind].
  - apply IH.
  - reflexivity.
Qed.

Lemma add_counter_unknown n pl t :
  coalescer_shape n pl -> known_block t = false ->
  add_counter pl t = Raise (unknown_block_error t).
Proof.
  intros [Hk _] Hun. unfold known_block in Hun. rewrite add_counter_home.
  destruct (home_block t) as [-> | [E _]]; [|now rewrite E in Hun].
  unfold append_unique, unknown_block_error.
  destruct (IP_block_of t =? "TCC2")%string; [reflexivity|].
  unfold getitem. destruct (dict_get (IP_block_of t) (buckets pl)) as [l|] eqn:El;
    [|reflexivity].
  exfalso. apply mem_false in Hun. apply Hun. rewrite <- Hk.
  apply dict_mem_keys. unfold dict_mem. now rewrite El.
Qed.

(** ** Every column of every pass is carried through the join *)

Lemma Forall2_rows {A B} (R : A -> B -> Prop) (l : list A) (l' : list B) :
  List.length l = List.length l' ->
  (forall r a b, nth_error l r = Some a -> nth_error l' r = Some b -> R a b) ->
  Forall2 R l l'.
Proof.
  revert l'. induction l as [|a l IH]; intros [|b l'] Hl H; try discriminate.
  - constructor.
  - constructor.
    + now apply (H 0).
    + apply IH; [cbn in Hl; lia|]. intros r x y Hx Hy. now apply (H (S r)).
Qed.

Lemma cell_of_key_self col key :
  List.length col = List.length key -> Forall2 (cell_of_key col key) col key.
Proof. intros Hl. apply Forall2_rows; [exact Hl|]. intros r a b Ha Hb. now exists r. Qed.

Lemma In_dict_set_other {V} (k0 : string) (v0 : V) d k v :
  In (k, v) d -> k <> k0 -> In (k, v) (dict_set k0 v0 d).
Proof.
  intros Hin Hne. induction d as [|[k' v'] d IH]; [destruct Hin|].
  cbn [dict_set]. destruct (String.eqb_spec k' k0) as [->|Hk].
  - destruct Hin as [[= E _]|Hin]; [congruence | now right].
  - destruct Hin as [Hin|Hin]; [now left | right; now apply IH].
Qed.

Lemma merge_key_pairs df _df i df' keyL keyR :
  dict_get "key" (columns df) = Some keyL ->
  dict_get "key" (columns _df) = Some keyR ->
  merge df _df i = OK df' ->
  exists pairs : list (nat * nat),
    gather (map fst pairs) keyL = gather (map snd pairs) keyR
    /\ dict_get "key" (columns df') = Some (gather (map fst pairs) keyL)
    /\ (forall k col, In (k, col) (columns df) ->
                      In (k, gather (map fst pairs) col) (columns df'))
    /\ (forall k col, In (k, col) (columns _df) -> k <> "key" ->
                      In (if dict_mem k (columns df) then (k ++ "_" ++ str i)%string else k,
                          gather (map snd pairs) col) (columns df')).
Proof.
  intros HL HR. unfold merge, getitem. rewrite HL, HR. cbn [bind]. cbv zeta.
  set (pairs := flat_map _ (combine (seq 0 (List.length keyL)) keyL)).
  intros [= <-]. cbn [columns]. exists pairs. split; [|split; [|split]].
  - apply gather_pairs. intros a b Hin. unfold pairs in Hin.
    apply in_flat_map in Hin as ([ia ka] & Ha & Hin).
    apply in_map_iff in Hin as ([ib kb] & [= <- <-] & Hb).
    apply filter_In in Hb as [Hb Heq]. cbn [fst snd] in *.
    apply cell_eqb_eq in Heq. subst kb.
    apply combine_seq_nth in Ha as [Ha _]. apply combine_seq_nth in Hb as [Hb _].
    rewrite Nat.sub_0_r in Ha, Hb. eauto.
  - rewrite dict_get_app, (dict_get_map_values (gather (map fst pairs))), HL. reflexivity.
  - intros k col Hin. apply in_or_app. left. apply in_map_iff. now exists (k, col).
  - intros k col Hin Hne. apply in_or_app. right. apply in_map_iff. exists (k, col).
    split; [reflexivity|]. apply filter_In. split; [exact Hin|]. cbn [fst].
    apply negb_true_iff. now apply String.eqb_neq.
Qed.

Lemma merge_carries_left c j colT keyT df _df i df' :
  carried c j colT keyT df -> merge df _df i = OK df' -> carried c j colT keyT df'.
Proof.
  intros (name & col & keycol & Hk & Hin & Hname & Hf) Hm.
  assert (HR : exists keyR, dict_get "key" (columns _df) = Some keyR).
  { unfold merge, getitem in Hm. rewrite Hk in Hm. cbn [bind] in Hm.
    destruct (dict_get "key" (columns _df)); [eauto | discriminate]. }
  destruct HR as [keyR HR].
  destruct (@merge_key_pairs df _df i df' keycol keyR Hk HR Hm) as (pairs & _ & Hk' & Hleft & _).
  exists name, (gather (map fst pairs) col), (gather (map fst pairs) keycol).
  split; [exact Hk'|]. split; [now apply Hleft|]. split; [exact Hname|].
  now apply Forall2_gather.
Qed.

Lemma merge_carries_right c colT keyR df _df i df' :
  (exists keyL, dict_get "key" (columns df) = Some keyL) ->
  dict_get "key" (columns _df) = Some keyR ->
  In (c, colT) (columns _df) -> c <> "key" ->
  List.length colT = List.length keyR ->
  merge df _df i = OK df' -> carried c i colT keyR df'.
Proof.
  intros [keyL HL] HR Hin Hne Hlen Hm.
  destruct (@merge_key_pairs df _df i df' keyL keyR HL HR Hm) as (pairs & Hp & Hk' & _ & Hright).
  exists (if dict_mem c (columns df) then (c ++ "_" ++ str i)%string else c),
    (gather (map snd pairs) colT), (gather (map fst pairs) keyL).
  split; [exact Hk'|]. split; [now apply Hright|].
  split; [destruct (dict_mem c (columns df)); auto|].
  rewrite Hp. apply Forall2_gather. now apply cell_of_key_self.
Qed.

Lemma join_files_carries join_type c j colT keyT files :
  forall i df evs df',
    carried c j colT keyT df ->
    join_files join_type files i (Some df) = (evs, OK (Some df')) ->
    carried c j colT keyT df'.
Proof.
  induction files as [|[path _df] files IH]; intros i df evs df' Hc.
  - cbn [join_files]. now intros [= _ <-].
  - cbn [join_files].
    destruct (make_key join_type _df) as [ev [key|e]]; [|discriminate].
    unfold io_bind at 1.
    destruct (merge df _ i) as [dfm|e] eqn:Em; [|discriminate].
    rewrite io_bind_lift_ok.
    destruct (join_files join_type files (S i) (Some dfm)) as [ev' r] eqn:Ej.
    intros [= _ ->]. apply (IH (S i) dfm ev' df'); [|exact Ej]. eapply merge_carries_left; eauto.
Qed.

Lemma make_key_length join_type df evs key :
  well_shaped df = true -> make_key join_type df = (evs, OK key) ->
  List.length key = nrows df.
Proof.
  intros Hw. unfold make_key.
  assert (Hlen : forall k0 c0, getitem k0 (columns df) = OK c0 ->
                               List.length c0 = nrows df).
  { intros k0 c0 E0. unfold getitem in E0.
    destruct (dict_get k0 (columns df)) as [c1|] eqn:E1; [|discriminate].
    injection E0 as <-. pose proof (@well_shaped_column df k0 Hw) as Hl.
    unfold column in Hl. rewrite E1 in Hl. apply Hl.
    apply dict_mem_keys. unfold dict_mem. now rewrite E1. }
  destruct (join_type =? "kernel")%string; [|destruct (join_type =? "grid")%string].
  - unfold lift. intros [= _ H].
    destruct (getitem "KernelName" (columns df)) as [names|] eqn:En; cbn [bind] in H;
      [|discriminate].
    apply mapM_length in H. rewrite H, length_combine. unfold cumcount.
    rewrite cumcount_aux_length, length_map, (Hlen _ _ En). lia.
  - unfold lift. intros [= _ H].
    destruct (getitem "KernelName" (columns df)) as [names|] eqn:En; cbn [bind] in H;
      [|discriminate].
    destruct (getitem "grd" (columns df)) as [grd|] eqn:Eg; cbn [bind] in H;
      [|discriminate].
    apply mapM_length in H. rewrite H, !length_combine. unfold cumcount.
    rewrite cumcount_aux_length, length_map, length_combine.
    rewrite (Hlen _ _ En), (Hlen _ _ Eg). lia.
  - discriminate.
Qed.

Lemma well_shaped_entry df k col :
  well_shaped df = true -> In (k, col) (columns df) -> List.length col = nrows df.
Proof.
  unfold well_shaped. rewrite forallb_forall. intros H Hin.
  specialize (H _ Hin). cbn [snd] in H. now apply Nat.eqb_eq.
Qed.

Lemma join_files_carries_nth join_type c colT files :
  forall n i df evs df' path T,
    (exists keyL, dict_get "key" (columns df) = Some keyL) ->
    join_files join_type files i (Some df) = (evs, OK (Some df')) ->
    nth_error files n = Some (path, T) ->
    well_shaped T = true -> In (c, colT) (columns T) -> c <> "key" ->
    carried c (i + n) colT (table_keys join_type T) df'.
Proof.
  induction files as [|[path0 _df] files IH]; intros n i df evs df' path T Hkey Hj Hn Hw Hin Hne.
  - destruct n; discriminate.
  - cbn [join_files] in Hj.
    destruct (make_key join_type _df) as [ev [key|e]] eqn:Ek; [|discriminate].
    unfold io_bind at 1 in Hj.
    destruct (merge df _ i) as [dfm|e] eqn:Em; [|discriminate].
    rewrite io_bind_lift_ok in Hj.
    destruct (join_files join_type files (S i) (Some dfm)) as [ev' r] eqn:Ej.
    injection Hj as _ ->.
    destruct n as [|n]; cbn [nth_error] in Hn.
    + injection Hn as _ <-. rewrite Nat.add_0_r.
      rewrite (table_keys_make _ _ Ek).
      apply (@join_files_carries join_type c i colT key files (S i) dfm ev' df'); [|exact Ej].
      eapply merge_carries_right; [exact Hkey | | | exact Hne | | exact Em].
      * cbn [columns]. apply dict_get_set_same.
      * cbn [columns]. now apply In_dict_set_other.
      * rewrite (@make_key_length join_type _df _ key Hw Ek). eapply well_shaped_entry; eauto.
    + replace (i + S n) with (S i + n) by lia.
      apply (IH n (S i) dfm ev' df' path T); auto.
      destruct Hkey as [keyL HL].
      assert (HR : dict_get "key" (columns (mk_df (nrows _df) (dict_set "key" key (columns _df))))
                   = Some key) by (cbn [columns]; apply dict_get_set_same).
      destruct (@merge_key_pairs _ _ _ _ _ _ HL HR Em) as (pairs & _ & Hk' & _). eauto.
Qed.

(** X25. The join carries every column of every pass: a column [c] of the
    per-pass table of index [i], other than the key, is in the joined table
    under its name, or under [c_i] when the name was taken, and every cell
    of it there comes from the row of the pass with the key of the joined
    row. *)
Theorem join_carries_every_column (join_type : string)
  (files : list (string * DataFrame)) (evs : list event) (df : DataFrame)
  (i : nat) (path c : string) (T : DataFrame) (colT : list cell) :
  join_files join_type files 0 None = (evs, OK (Some df)) ->
  nth_error files i = Some (path, T) ->
  well_shaped T = true -> In (c, colT) (columns T) -> c <> "key" ->
  exists name col,
    In (name, col) (columns df)
    /\ (name = c \/ name = (c ++ "_" ++ str i)%string)
    /\ Forall2 (cell_of_key colT (table_keys join_type T)) col (column df "key").
Proof.
  intros Hj Hn Hw Hin Hne.
  assert (G : carried c i colT (table_keys join_type T) df).
  { destruct files as [|[path0 _df] files]; [discriminate|].
    cbn [join_files] in Hj.
    destruct (make_key join_type _df) as [ev [key|e]] eqn:Ek; [|discriminate].
    unfold io_bind at 1 in Hj.
    destruct (join_files join_type files 1 _) as [ev' r] eqn:Ej.
    injection Hj as _ ->.
    assert (HR : dict_get "key" (columns (mk_df (nrows _df) (dict_set "key" key (columns _df))))
                 = Some key) by (cbn [columns]; apply dict_get_set_same).
    destruct i as [|i]; cbn [nth_error] in Hn.
    - injection Hn as _ <-. rewrite (table_keys_make _ _ Ek).
      apply (fun Hc => @join_files_carries join_type c 0 colT key files 1 _ ev' df Hc Ej).
      exists c, colT, key. split; [exact HR|].
      split; [cbn [columns]; now apply In_dict_set_other|]. split; [now left|].
      apply cell_of_key_self. rewrite (@make_key_length join_type _df _ key Hw Ek).
      eapply well_shaped_entry; eauto.
    - apply (fun Hk => @join_files_carries_nth join_type c colT files i 1 _ ev' df path T Hk Ej Hn Hw Hin Hne). eauto. }
  destruct G as (name & col & keycol & Hk & Hin' & Hname & Hf).
  exists name, col. split; [exact Hin'|]. split; [exact Hname|].
  unfold column. now rewrite Hk.
Qed.

(** ** What is written of the joined table *)

Lemma final_table_entries df k col :
  In (k, col) (columns (final_table df))
  <-> In (k, col) (columns df) /\ survives df k = true.
Proof.
  unfold final_table, named, kept, select, survives. cbn [columns].
  rewrite !filter_In. cbn [fst]. rewrite !andb_true_iff. tauto.
Qed.

(** X26. What [join_prof] writes is the joined table without the columns it
    discards: a run that returns has joined the per-pass tables, and every
    column of the joined table that survives the selections is written with
    its cells as they are, in a table of as many rows. *)
Theorem surviving_columns_are_written (wd join_type : string) (verbose : bool)
  (out : option string) (files : list (string * DataFrame)) (evs : list event) :
  join_prof wd join_type verbose out files = (evs, OK tt) ->
  exists df u,
    join_files join_type files 0 None = ([], OK (Some df))
    /\ In (ToCsv (out_path wd out) u) evs
    /\ nrows (table u) = nrows df
    /\ forall k col, In (k, col) (columns (table u))
                     <-> In (k, col) (columns df) /\ survives df k = true.
Proof.
  intros H.
  destruct (join_prof_trace wd join_type verbose out files)
    as [(evs' & e' & E & _) | (df & pre & b & en & Hj & _ & _ & E)].
  { rewrite H in E. discriminate. }
  rewrite H in E. injection E as ->.
  exists df, (mk_unified (final_table df) b en). split; [exact Hj|].
  split; [apply in_or_app; right; now left|]. split; [reflexivity|].
  intros k col. cbn [table]. apply final_table_entries.
Qed.

(* ================================================================== *)
(** * The coalescer and its callers on a file system *)

Lemma open_all_app {fsys} (FS : file_system fsys) s a b :
  open_all FS s (a ++ b) = (s' <- open_all FS s a ;; open_all FS s' b).
Proof.
  revert s. induction a as [|p a IH]; intros s; [reflexivity|].
  cbn [app open_all]. destruct (open_w FS s p) as [s1|e]; cbn [bind]; [apply IH|].
  reflexivity.
Qed.

Section OnFileSystem.

Variable fsys : Type.
Variable FS : file_system fsys.

(** A line on the file system: the line with every file opened, when the
    file of the line can be opened. *)
Lemma coalesce_line_opened dir pl fs s s' line :
  open_all FS s (line_level_files dir line) = OK s' ->
  coalesce_line_on FS dir (pl, fs, s) line
  = on_state (coalesce_line dir (pl, fs) line) s'.
Proof.
  unfold line_level_files, coalesce_line_on, coalesce_line.
  destruct (strip (before "#" line)) as [|c stext] eqn:E.
  - cbn. now intros [= ->].
  - destruct (match_pmc (String c stext)) as [group|]; [|cbn; now intros [= ->]].
    cbv zeta. destruct (mem ACCUM (split_ws group)).
    + destruct (index_of ACCUM (split_ws group)) as [nindex|e]; cbn [bind];
        [|cbn; now intros [= ->]].
      destruct (py_nth (split_ws group) (Z.of_nat nindex - 1)) as [lc|e]; cbn [bind];
        [|cbn; now intros [= ->]].
      cbn [open_all]. destruct (open_w FS s _) as [s1|e]; cbn [bind]; [|discriminate].
      now intros [= ->].
    + cbn [open_all]. intros [= ->].
      destruct (add_counters pl (split_ws group)); reflexivity.
Qed.

(** A line that returns on the file system has opened its file, and
    returns the same with every file opened. *)
Lemma coalesce_line_returned dir pl fs s line pl' fs' s' :
  coalesce_line_on FS dir (pl, fs, s) line = OK (pl', fs', s') ->
  coalesce_line dir (pl, fs) line = OK (pl', fs')
  /\ open_all FS s (line_level_files dir line) = OK s'.
Proof.
  unfold line_level_files, coalesce_line_on, coalesce_line.
  destruct (strip (before "#" line)) as [|c stext] eqn:E.
  - cbn. now intros [= <- <- <-].
  - destruct (match_pmc (String c stext)) as [group|]; [|cbn; now intros [= <- <- <-]].
    cbv zeta. destruct (mem ACCUM (split_ws group)).
    + destruct (index_of ACCUM (split_ws group)) as [nindex|e]; cbn [bind];
        [|discriminate].
      destruct (py_nth (split_ws group) (Z.of_nat nindex - 1)) as [lc|e]; cbn [bind];
        [|discriminate].
      cbn [open_all]. destruct (open_w FS s _) as [s1|e]; cbn [bind]; [|discriminate].
      now intros [= <- <- <-].
    + destruct (add_counters pl (split_ws group)) as [pl1|e]; cbn [bind]; [|discriminate].
      now intros [= <- <- <-].
Qed.

Lemma coalesce_lines_opened dir lines :
  forall pl fs s s',
    open_all FS s (flat_map (line_level_files dir) lines) = OK s' ->
    coalesce_lines_on FS dir (pl, fs, s) lines
    = on_state (coalesce_lines dir (pl, fs) lines) s'.
Proof.
  induction lines as [|line lines IH]; intros pl fs s s'.
  - cbn. now intros [= ->].
  - cbn [flat_map coalesce_lines_on coalesce_lines]. rewrite open_all_app.
    destruct (open_all FS s (line_level_files dir line)) as [s1|e] eqn:E1; cbn [bind];
      [|discriminate].
    intros H. rewrite (coalesce_line_opened dir pl fs s line E1).
    destruct (coalesce_line dir (pl, fs) line) as [[pl1 fs1]|e]; cbn [on_state bind];
      [now apply IH | reflexivity].
Qed.

Lemma coalesce_lines_returned dir lines :
  forall pl fs s pl' fs' s',
    coalesce_lines_on FS dir (pl, fs, s) lines = OK (pl', fs', s') ->
    coalesce_lines dir (pl, fs) lines = OK (pl', fs')
    /\ open_all FS s (flat_map (line_level_files dir) lines) = OK s'.
Proof.
  induction lines as [|line lines IH]; intros pl fs s pl' fs' s'.
  - cbn. now intros [= <- <- <-].
  - cbn [flat_map coalesce_lines_on coalesce_lines]. rewrite open_all_app.
    destruct (coalesce_line_on FS dir (pl, fs, s) line) as [[[pl1 fs1] s1]|e] eqn:E1;
      cbn [bind]; [|discriminate].
    apply coalesce_line_returned in E1 as [-> ->]. cbn [bind]. apply IH.
Qed.

Lemma coalesce_files_opened dir files :
  forall pl fs s s',
    open_all FS s (flat_map (flat_map (line_level_files dir)) files) = OK s' ->
    coalesce_files_on FS dir (pl, fs, s) files
    = on_state (coalesce_files dir (pl, fs) files) s'.
Proof.
  induction files as [|lines files IH]; intros pl fs s s'.
  - cbn. now intros [= ->].
  - cbn [flat_map coalesce_files_on coalesce_files]. rewrite open_all_app.
    destruct (open_all FS s (flat_map (line_level_files dir) lines)) as [s1|e] eqn:E1;
      cbn [bind]; [|discriminate].
    intros H. rewrite (coalesce_lines_opened dir lines pl fs s E1).
    destruct (coalesce_lines dir (pl, fs) lines) as [[pl1 fs1]|e]; cbn [on_state bind];
      [now apply IH | reflexivity].
Qed.

Lemma coalesce_files_returned dir files :
  forall pl fs s pl' fs' s',
    coalesce_files_on FS dir (pl, fs, s) files = OK (pl', fs', s') ->
    coalesce_files dir (pl, fs) files = OK (pl', fs')
    /\ open_all FS s (flat_map (flat_map (line_level_files dir)) files) = OK s'.
Proof.
  induction files as [|lines files IH]; intros pl fs s pl' fs' s'.
  - cbn. now intros [= <- <- <-].
  - cbn [flat_map coalesce_files_on coalesce_files]. rewrite open_all_app.
    destruct (coalesce_lines_on FS dir (pl, fs, s) lines) as [[[pl1 fs1] s1]|e] eqn:E1;
      cbn [bind]; [|discriminate].
    apply coalesce_lines_returned in E1 as [-> ->]. cbn [bind]. apply IH.
Qed.

(** The coalescer on the file system is the coalescer with every file
    opened, when its level-counter files can be opened. *)
Lemma perfmon_coalesce_opened s s' files wd soc :
  open_all FS s (level_files wd files) = OK s' ->
  perfmon_coalesce_on FS s files wd soc
  = on_state (perfmon_coalesce files wd soc) s'.
Proof.
  intros H. unfold perfmon_coalesce_on, perfmon_coalesce.
  destruct (getitem soc perfmon_config) as [prof|e]; cbn [bind]; [|reflexivity].
  destruct (getitem "TCC_channels" prof) as [n|e]; cbn [bind]; [|reflexivity].
  cbv zeta. rewrite (coalesce_files_opened _ files _ [] s H).
  destruct (coalesce_files _ _ files) as [[pl1 fs1]|e]; cbn [on_state bind]; [|reflexivity].
  destruct (sort_channels pl1 (seq 0 n)); reflexivity.
Qed.

Lemma perfmon_coalesce_returned s files wd soc pl fs s' :
  perfmon_coalesce_on FS s files wd soc = OK (pl, fs, s') ->
  perfmon_coalesce files wd soc = OK (pl, fs)
  /\ open_all FS s (level_files wd files) = OK s'.
Proof.
  unfold perfmon_coalesce_on, perfmon_coalesce, level_files.
  destruct (getitem soc perfmon_config) as [prof|e]; cbn [bind]; [|discriminate].
  destruct (getitem "TCC_channels" prof) as [n|e]; cbn [bind]; [|discriminate].
  cbv zeta.
  destruct (coalesce_files_on FS _ _ files) as [[[pl1 fs1] s1]|e] eqn:E1;
    cbn [bind]; [|discriminate].
  apply coalesce_files_returned in E1 as [E1 ->]. 
  match goal with
  | |- _ -> bind ?c _ = _ /\ _ => replace c with (OK (pl1, fs1)) by (symmetry; exact E1)
  end.
  cbn [bind].
  destruct (sort_channels pl1 (seq 0 n)) as [pl2|e]; cbn [bind]; [|discriminate].
  now intros [= <- <- <-].
Qed.

(** X5. [perfmon_coalesce] returns exactly when the target is one of the
    four profiles, every bucketed token is for one of the ten blocks, and
    the file of every level counter can be opened, one after the other in
    reading order. *)
Theorem perfmon_coalesce_returns_iff_known (s : fsys) (files : list (list string))
  (wd soc : string) :
  (exists pl fs s', perfmon_coalesce_on FS s files wd soc = OK (pl, fs, s'))
  <-> dict_mem soc perfmon_config = true
      /\ (forall t, In t (bucketed_tokens files) -> known_block t = true)
      /\ exists s', open_all FS s (level_files wd files) = OK s'.
Proof.
  split.
  - intros (pl & fs & s' & H). apply perfmon_coalesce_returned in H as [H Ho].
    split; [|split].
    + destruct (perfmon_coalesce_shape _ _ _ H) as (n & Hn & _).
      unfold dict_mem. now rewrite Hn.
    + eapply perfmon_coalesce_known, H.
    + now exists s'.
  - intros (Hsoc & Hk & s' & Ho). unfold dict_mem in Hsoc.
    destruct (dict_get soc perfmon_config) as [prof|] eqn:E; [|discriminate].
    destruct (@perfmon_coalesce_ok files wd soc prof E Hk) as (pl & fs & H).
    exists pl, fs, s'. rewrite (perfmon_coalesce_opened s files wd soc Ho), H.
    reflexivity.
Qed.

End OnFileSystem.

(** With every file opened, the first token of an unknown block stops the
    coalescer. *)
Lemma coalesce_first_unknown (files : list (list string))
  (wd soc : string) (pre post : list string) (t : string) :
  dict_mem soc perfmon_config = true ->
  bucketed_tokens files = pre ++ t :: post ->
  (forall u, In u pre -> known_block u = true) -> known_block t = false ->
  perfmon_coalesce files wd soc = Raise (unknown_block_error t).
Proof.
  intros Hsoc Hstream Hpre Ht. unfold dict_mem in Hsoc.
  destruct (dict_get soc perfmon_config) as [prof|] eqn:Ep; [|discriminate].
  destruct (builtin_channels _ Ep) as (n & _ & _ & Hn).
  unfold perfmon_coalesce, getitem. rewrite Ep. cbn [bind]. rewrite Hn. cbn [bind].
  cbv zeta.
  pose proof (coalesce_files_stream (wd ++ "/perfmon")%string files
                (mk_pmc_list initial_buckets (initial_TCC2 n)) []) as Hs.
  rewrite Hstream, add_counters_app in Hs.
  destruct (@add_counters_ok n pre _ (initial_shape n) Hpre) as [pl1 E1].
  rewrite E1 in Hs. cbn [bind add_counters] in Hs.
  rewrite (@add_counter_unknown n pl1 t) in Hs; [|eapply add_counters_shape; eauto using initial_shape | exact Ht].
  cbn [bind] in Hs.
  revert Hs.
  match goal with
  | |- match ?c with _ => _ end -> _ => destruct c as [[pl' fs']|e] eqn:Ec
  end; intros Hs; [discriminate|].
  injection Hs as <-.
  match goal with
  | |- context [bind ?c _] =>
      replace c with (@Raise (pmc_list * writes) (unknown_block_error t))
        by (symmetry; exact Ec)
  end.
  reflexivity.
Qed.

Lemma level_files_under wd files p :
  In p (level_files wd files) ->
  exists name, p = ((wd ++ "/perfmon") ++ "/" ++ name)%string.
Proof.
  unfold level_files. intros H.
  apply in_flat_map in H as (lines & _ & H).
  apply in_flat_map in H as (line & _ & H).
  unfold line_level_files in H.
  destruct (match_pmc _) as [group|]; [|destruct H]. cbv zeta in H.
  destruct (mem ACCUM (split_ws group)); [|destruct H].
  destruct (bind _ _) as [lc|e]; [|destruct H].
  destruct H as [<-|[]]. now exists (lc ++ ".txt")%string.
Qed.

Section CallersOnFileSystem.

Variable fsys : Type.
Variable FS : file_system fsys.

(** X24. The exception of the coalescer names the first counter it cannot
    place: when the file of every level counter can be opened and the first
    bucketed token of an unknown block is [t], after tokens of known blocks
    only, [perfmon_coalesce] raises the key error of the block of [t], or
    the error of the missing [append] when that block is [TCC2]. *)
Theorem first_unknown_block_is_the_error (s s' : fsys) (files : list (list string))
  (wd soc : string) (pre post : list string) (t : string) :
  dict_mem soc perfmon_config = true ->
  bucketed_tokens files = pre ++ t :: post ->
  (forall u, In u pre -> known_block u = true) -> known_block t = false ->
  open_all FS s (level_files wd files) = OK s' ->
  perfmon_coalesce_on FS s files wd soc = Raise (unknown_block_error t).
Proof.
  intros Hsoc Hstream Hpre Ht Ho.
  rewrite (perfmon_coalesce_opened FS s files wd soc Ho).
  now rewrite (@coalesce_first_unknown files wd soc pre post t Hsoc Hstream Hpre Ht).
Qed.

(** The scheduler on the file system is the scheduler with every file
    opened, when the schedule can be opened. *)
Lemma perfmon_emit_opened s s' pl wd soc :
  open_w FS s ((wd ++ "/perfmon") ++ "/pmc_perf.txt")%string = OK s' ->
  perfmon_emit_on FS s pl wd soc = on_state (perfmon_emit pl soc) s'.
Proof.
  intros H. unfold perfmon_emit_on, perfmon_emit, emit_lines, emit_passes.
  destruct (getitem soc perfmon_config) as [prof|e]; cbn [bind]; [|reflexivity].
  destruct (niter prof pl) as [n|e]; cbn [bind]; [|reflexivity].
  cbv zeta. rewrite H. cbn [bind].
  destruct (emit_loop prof pl (seq 0 n) 0); reflexivity.
Qed.

Lemma perfmon_emit_returned s pl wd soc text s' :
  perfmon_emit_on FS s pl wd soc = OK (text, s') ->
  open_w FS s ((wd ++ "/perfmon") ++ "/pmc_perf.txt")%string = OK s'.
Proof.
  unfold perfmon_emit_on.
  destruct (getitem soc perfmon_config) as [prof|e]; cbn [bind]; [|discriminate].
  destruct (niter prof pl) as [n|e]; cbn [bind]; [|discriminate].
  cbv zeta. destruct (open_w FS s _) as [s1|e]; cbn [bind]; [|discriminate].
  destruct (emit_loop prof pl (seq 0 n) 0); cbn [bind]; [|discriminate].
  now intros [= _ <-].
Qed.

(** X14. [pmc_filter] cannot be run twice: when the directory
    [workload_dir/perfmon] is there it is removed and not made again, and
    as nothing can be opened in a directory that is gone, the call stops
    with an exception, in the coalescer or at the latest where the scheduler
    opens the schedule. *)
Theorem pmc_filter_needs_an_absent_directory (s : fsys) (wd soc : string)
  (files : list (list string)) :
  isdir FS s (wd ++ "/perfmon") = true ->
  (forall s1 name, rmtree FS s (wd ++ "/perfmon") = OK s1 ->
                   exists e, open_w FS s1 ((wd ++ "/perfmon") ++ "/" ++ name) = Raise e) ->
  exists e, pmc_filter FS s wd soc files = Raise e.
Proof.
  intros Hd Hgone. unfold pmc_filter. cbv zeta. rewrite Hd. cbn [negb].
  destruct (rmtree FS s (wd ++ "/perfmon")) as [s1|e] eqn:Er; cbn [bind]; [|eauto].
  destruct (perfmon_coalesce_on FS s1 files wd soc) as [[[pl fs] s2]|e] eqn:Ec;
    cbn [bind]; [|eauto].
  apply perfmon_coalesce_returned in Ec as [_ Ho].
  destruct (level_files wd files) as [|p ps] eqn:El.
  - injection Ho as <-.
    destruct (perfmon_emit_on FS s1 pl wd soc) as [[text s3]|e] eqn:Ee; cbn [bind]; [|eauto].
    apply perfmon_emit_returned in Ee.
    destruct (Hgone s1 "pmc_perf.txt" eq_refl) as [e He].
    change ((wd ++ "/perfmon") ++ "/" ++ "pmc_perf.txt")%string
      with ((wd ++ "/perfmon") ++ "/pmc_perf.txt")%string in He.
    rewrite He in Ee. discriminate.
  - assert (Hp : In p (level_files wd files)) by (rewrite El; now left).
    apply level_files_under in Hp as [name ->].
    cbn [open_all] in Ho. destruct (Hgone s1 name eq_refl) as [e He].
    rewrite He in Ho. discriminate.
Qed.

(** X27. On a directory that is not there [pmc_filter] makes it, and when the
    files of the level counters and then the schedule can be opened in it,
    it does what the coalescer and the scheduler do with every file
    opened: it fails where they fail and writes what they write. *)
Theorem pmc_filter_on_a_new_directory (s s1 s2 : fsys) (wd soc : string)
  (files : list (list string)) :
  isdir FS s (wd ++ "/perfmon") = false ->
  makedirs FS s (wd ++ "/perfmon") = OK s1 ->
  open_all FS s1 (level_files wd files ++ [((wd ++ "/perfmon") ++ "/pmc_perf.txt")%string])
  = OK s2 ->
  pmc_filter FS s wd soc files = on_state (coalesce_and_emit wd soc files) s2.
Proof.
  intros Hd Hm Ho. rewrite open_all_app in Ho.
  destruct (open_all FS s1 (level_files wd files)) as [s1'|e] eqn:E1; cbn [bind] in Ho;
    [|discriminate].
  cbn [open_all] in Ho.
  destruct (open_w FS s1' _) as [s2'|e] eqn:E2; cbn [bind] in Ho; [|discriminate].
  injection Ho as ->.
  unfold pmc_filter, coalesce_and_emit. cbv zeta. rewrite Hd. cbn [negb]. rewrite Hm.
  cbn [bind]. rewrite (perfmon_coalesce_opened FS s1 files wd soc E1).
  destruct (perfmon_coalesce files wd soc) as [[pl fs]|e]; cbn [on_state bind];
    [|reflexivity].
  rewrite (perfmon_emit_opened s1' pl wd soc E2).
  destruct (perfmon_emit pl soc) as [text|e]; cbn [on_state bind]; [|reflexivity].
  now rewrite string_app_assoc.
Qed.

End CallersOnFileSystem.

(** ** The runs that fail on a file system *)

(** A level counter with a slash in its name has no directory to be
    written in. *)
Example level_file_without_directory :
  perfmon_coalesce_on directories ["w"; "w/perfmon"]
    [["pmc: a/b SQ_ACCUM_PREV_HIRES"]] "w" "vega10"
  = Raise FileNotFoundError.
Proof. vm_compute. reflexivity. Qed.

(** The second run of [pmc_filter] on a workload. *)
Example pmc_filter_twice :
  exists fs s1,
    pmc_filter directories ["w"] "w" "vega10" two_sources = OK (fs, s1)
    /\ pmc_filter directories s1 "w" "vega10" two_sources = Raise FileNotFoundError.
Proof. do 2 eexists. split; vm_compute; reflexivity. Qed.

Lemma before_last_behind sep a s :
  before_last sep (a ++ String sep s)
  = Some (a ++ match before_last sep s with
               | Some r => String sep r
               | None => EmptyString
               end)%string.
Proof.
  induction a as [|c a IH]; cbn [append before_last].
  - destruct (before_last sep s); [reflexivity | now rewrite Ascii.eqb_refl].
  - now rewrite IH.
Qed.

(** Nothing can be opened in a directory that is not in the set. *)
Lemma directories_gone name :
  open_w directories ["w"] (("w" ++ "/perfmon") ++ "/" ++ name)
  = Raise FileNotFoundError.
Proof.
  change (("w" ++ "/perfmon") ++ "/" ++ name)%string
    with ("w/perfmon" ++ String "/" name)%string.
  cbn [open_w directories]. unfold dirname. rewrite before_last_behind.
  destruct (before_last "/" name); reflexivity.
Qed.

(** ** The text functions on examples *)

Example splitlines_ex :
  splitlines ("a" ++ String (ascii_of_nat 13) (String (ascii_of_nat 10) "b")
              ++ newline ++ newline ++ "c" ++ newline)%string = ["a"; "b"; ""; "c"].
Proof. reflexivity. Qed.

Example split_ex :
  pmc_perf_split "w" ("pmc: A B" ++ newline ++ "# c" ++ newline ++ "x" ++ newline ++ " pmc:C # d" ++ newline ++ newline ++ "gpu:" ++ newline)%string
  = (split_files "w/perfmon" ["pmc: A B"; "pmc:C"], "w/perfmon/pmc_perf.txt").
Proof. reflexivity. Qed.

Example match_ip_ex :
  map match_ip ["pmc_sq_perf1"; "pmc_perf"; "pmc_sq_perf_perf2"; "pmc__perf"; "pmc_a_per";
                "pmc_a.b_perf"; "pmc_a_perf.x_perf"; "pmc_cpc_cpf_perf"; "xpmc_a_perf";
                "pmc_a_perx_perf-1_perf"; "pmc_roof_perf"; "pmc__per_perf"]
  = [Some "sq"; None; Some "sq_perf"; None; Some "a"; None; Some "a"; Some "cpc_cpf"; None;
     Some "a_perx"; Some "roof"; Some "_per"].
Proof. reflexivity. Qed.

Example splitext_ex :
  map (fun p => splitext_root (basename p))
      ["a/b/pmc_sq_perf1.txt"; "pmc.tar.gz"; ".bashrc"; "a/.b.c"; "a/...x"; "a/b."; "a/..";
       "a/b/"; "x.d/y"]
  = ["pmc_sq_perf1"; "pmc.tar"; ".bashrc"; ".b"; "...x"; "b"; ".."; ""; "y"].
Proof. reflexivity. Qed.

(** ** The further properties on the example inputs *)

Ltac in_list H := cbn in H; repeat (destruct H as [<-|H]; [vm_compute; try lia; try reflexivity|]); try destruct H.

Lemma no_pass_iff_no_counter_witness :
  emit_ready (gfx_profile 16) no_sources_pl = true
  /\ (emit_lines (gfx_profile 16) no_sources_pl = OK []
      <-> (forall key, In key (ordinary_keys no_sources_pl) -> bucket no_sources_pl key = [])
          /\ bucket no_sources_pl "TCC" = []
          /\ (forall ch, In ch (channels (gfx_profile 16)) ->
                         channel no_sources_pl (str ch) = [])).
Proof.
  split; [reflexivity|]. apply (@no_pass_iff_no_counter (gfx_profile 16) no_sources_pl).
  reflexivity.
Defined.

Lemma one_pass_when_all_fits_witness :
  emit_ready (gfx_profile 16) small_pl = true
  /\ (emit_passes (gfx_profile 16) small_pl = OK []
      \/ emit_passes (gfx_profile 16) small_pl = OK [whole (gfx_profile 16) small_pl]).
Proof.
  split; [reflexivity|].
  apply (@one_pass_when_all_fits (gfx_profile 16) small_pl).
  - reflexivity.
  - intros key Hk. in_list Hk.
  - vm_compute. lia.
  - intros ch Hch. in_list Hch.
  - right. intros ch Hch. in_list Hch.
Defined.

Lemma mixed_TCC_takes_two_passes_witness :
  emit_ready (gfx_profile 16) two_sources_pl = true
  /\ bucket two_sources_pl "TCC" <> []
  /\ In 0 (channels (gfx_profile 16))
  /\ channel two_sources_pl (str 0) <> []
  /\ exists lines, emit_lines (gfx_profile 16) two_sources_pl = OK lines
                   /\ 2 <= List.length lines.
Proof.
  assert (H1 : emit_ready (gfx_profile 16) two_sources_pl = true) by reflexivity.
  assert (H2 : bucket two_sources_pl "TCC" <> []) by (vm_compute; discriminate).
  assert (H3 : In 0 (channels (gfx_profile 16))) by (vm_compute; tauto).
  assert (H4 : channel two_sources_pl (str 0) <> []) by (vm_compute; discriminate).
  repeat (split; [assumption|]).
  exact (@mixed_TCC_takes_two_passes (gfx_profile 16) two_sources_pl 0 H1 H2 H3 H4).
Defined.

Lemma repeated_counters_change_nothing_witness :
  exists fs,
    perfmon_coalesce two_sources "w" "vega10" = OK (two_sources_pl, fs)
    /\ (forall t, In t (bucketed_tokens [["pmc: TCC_HIT SQ_WAVES"]]) ->
                  In t (bucketed_tokens two_sources))
    /\ exists pl' fs',
         perfmon_coalesce (two_sources ++ [["pmc: TCC_HIT SQ_WAVES"]]) "w" "vega10"
         = OK (pl', fs')
         /\ (forall key, bucket pl' key = bucket two_sources_pl key)
         /\ (forall ch, channel pl' ch = channel two_sources_pl ch)
         /\ perfmon_emit pl' "vega10" = perfmon_emit two_sources_pl "vega10".
Proof.
  eexists.
  assert (H1 : perfmon_coalesce two_sources "w" "vega10" = OK (two_sources_pl, _))
    by (vm_compute; reflexivity).
  assert (H2 : forall t, In t (bucketed_tokens [["pmc: TCC_HIT SQ_WAVES"]]) ->
                         In t (bucketed_tokens two_sources)).
  { intros t Ht. vm_compute in Ht. vm_compute. tauto. }
  split; [exact H1|]. split; [exact H2|].
  exact (@repeated_counters_change_nothing two_sources [["pmc: TCC_HIT SQ_WAVES"]]
           "w" "vega10" two_sources_pl _ H1 H2).
Defined.

Lemma source_order_is_immaterial_witness :
  exists pl fs,
    perfmon_coalesce [["pmc: SQ_WAVES TCC_B[0]"]; ["pmc: SQ_INSTS TCC_A[0]"]] "w" "mi100"
    = OK (pl, fs)
    /\ (forall t,
          In t (bucketed_tokens [["pmc: SQ_WAVES TCC_B[0]"]; ["pmc: SQ_INSTS TCC_A[0]"]])
          <-> In t (bucketed_tokens [["pmc: TCC_A[0] SQ_INSTS"; "pmc: TCC_B[0] SQ_WAVES"]]))
    /\ exists prof pl' fs',
         dict_get "mi100" perfmon_config = Some prof
         /\ perfmon_coalesce [["pmc: TCC_A[0] SQ_INSTS"; "pmc: TCC_B[0] SQ_WAVES"]] "w" "mi100"
            = OK (pl', fs')
         /\ (forall key, Permutation (bucket pl key) (bucket pl' key))
         /\ (forall ch, Permutation (channel pl ch) (channel pl' ch))
         /\ (forall ch, In ch (channel_keys prof) -> channel pl' ch = channel pl ch)
         /\ pass_count prof pl' = pass_count prof pl.
Proof.
  eexists. eexists.
  assert (H1 : perfmon_coalesce [["pmc: SQ_WAVES TCC_B[0]"]; ["pmc: SQ_INSTS TCC_A[0]"]]
                 "w" "mi100" = OK (_, _)) by (vm_compute; reflexivity).
  assert (H2 : forall t,
             In t (bucketed_tokens [["pmc: SQ_WAVES TCC_B[0]"]; ["pmc: SQ_INSTS TCC_A[0]"]])
             <-> In t (bucketed_tokens [["pmc: TCC_A[0] SQ_INSTS"; "pmc: TCC_B[0] SQ_WAVES"]])).
  { intros t. vm_compute. tauto. }
  split; [exact H1|]. split; [exact H2|].
  exact (@source_order_is_immaterial _ _ "w" "mi100" _ _ H1 H2).
Defined.

Lemma split_gives_one_file_per_pass_witness :
  exists fs,
    perfmon_coalesce two_sources "w" "vega10" = OK (two_sources_pl, fs)
    /\ exists prof text stexts,
         dict_get "vega10" perfmon_config = Some prof
         /\ perfmon_emit two_sources_pl "vega10" = OK text
         /\ fst (pmc_perf_split "w" text) = split_files ("w" ++ "/perfmon") stexts
         /\ map (fun stext => option_map split_ws (match_pmc stext)) stexts
            = map (fun iter => Some (pass_tokens (pass_at prof two_sources_pl iter)))
                  (seq 0 (pass_count prof two_sources_pl)).
Proof.
  eexists.
  assert (H1 : perfmon_coalesce two_sources "w" "vega10" = OK (two_sources_pl, _))
    by (vm_compute; reflexivity).
  split; [exact H1|].
  exact (@split_gives_one_file_per_pass two_sources "w" "vega10" two_sources_pl _ H1).
Defined.

Lemma schedule_coalesces_back_witness :
  exists fs,
    perfmon_coalesce two_sources "w" "vega10" = OK (two_sources_pl, fs)
    /\ exists prof text pl' fs',
         dict_get "vega10" perfmon_config = Some prof
         /\ perfmon_emit two_sources_pl "vega10" = OK text
         /\ perfmon_coalesce [splitlines text] "w" "vega10" = OK (pl', fs')
         /\ (forall key, bucket pl' key = bucket two_sources_pl key)
         /\ (forall ch, channel pl' ch
                        = if mem ch (channel_keys prof) then channel two_sources_pl ch
                          else [])
         /\ perfmon_emit pl' "vega10" = OK text.
Proof.
  eexists.
  assert (H1 : perfmon_coalesce two_sources "w" "vega10" = OK (two_sources_pl, _))
    by (vm_compute; reflexivity).
  split; [exact H1|].
  exact (@schedule_coalesces_back two_sources "w" "vega10" two_sources_pl _ H1).
Defined.

Lemma perfmon_filter_selects_by_name_witness :
  (forallb named_for some_refs = true
   /\ perfmon_filter "w" "mi200" (Some ["SQ"]) some_refs
      = (map (filter_print (map lower ["SQ"])) some_refs,
         coalesce_and_emit "w" "mi200"
           (map snd (filter (selected (map lower ["SQ"])) some_refs))))
  /\ (some_refs ++ [("ref/pmc_perf.txt", ["pmc: SQ_WAVES"])]
      = some_refs ++ ("ref/pmc_perf.txt", ["pmc: SQ_WAVES"]) :: []
      /\ forallb named_for some_refs = true
      /\ ip_of ("ref/pmc_perf.txt", ["pmc: SQ_WAVES"]) = None
      /\ perfmon_filter "w" "mi200" (Some ["SQ"])
           (some_refs ++ [("ref/pmc_perf.txt", ["pmc: SQ_WAVES"])])
         = (map (filter_print (map lower ["SQ"])) some_refs, Raise AttributeError)).
Proof.
  split.
  - split; [reflexivity|].
    apply (proj1 (proj2 (@perfmon_filter_selects_by_name "w" "mi200" ["SQ"] some_refs))).
    reflexivity.
  - split; [reflexivity|]. split; [reflexivity|]. split; [reflexivity|].
    apply (proj2 (proj2 (@perfmon_filter_selects_by_name "w" "mi200" ["SQ"]
                           (some_refs ++ [("ref/pmc_perf.txt", ["pmc: SQ_WAVES"])])))
             some_refs ("ref/pmc_perf.txt", ["pmc: SQ_WAVES"]) []);
      reflexivity.
Defined.

Lemma upper_case_file_is_never_selected_witness :
  selected (map lower ["SQ"; "Tcc"]) ("ref/mi200/pmc_tcc_perf.txt", ["pmc: TCC_HIT[0]"]) = true
  /\ exists ip, ip_of ("ref/mi200/pmc_tcc_perf.txt", ["pmc: TCC_HIT[0]"]) = Some ip
                /\ lower ip = ip.
Proof.
  split; [reflexivity|].
  apply (@upper_case_file_is_never_selected ["SQ"; "Tcc"]). reflexivity.
Defined.

Lemma block_of_reference_file_witness :
  "cpc_cpf" <> EmptyString
  /\ all_chars is_word "cpc_cpf" = true
  /\ all_chars is_digit "12" = true
  /\ all_chars (fun c => negb (Ascii.eqb c "/") && negb (Ascii.eqb c ".")) "txt" = true
  /\ ip_of (("ref/mi200" ++ "/" ++ "pmc_" ++ "cpc_cpf" ++ "_perf" ++ "12" ++ "." ++ "txt")%string,
            ["pmc: CPC_BUSY"])
     = Some "cpc_cpf".
Proof.
  assert (H1 : "cpc_cpf" <> EmptyString) by discriminate.
  repeat (split; [first [exact H1 | reflexivity]|]).
  apply (@block_of_reference_file "ref/mi200" "cpc_cpf" "12" "txt" ["pmc: CPC_BUSY"] H1);
    reflexivity.
Defined.

Lemma failed_run_changes_no_file_witness :
  exists evs,
    join_prof "w" "grid" false None same_key_other_name = (evs, Raise AssertionError)
    /\ forall ev, In ev evs -> changes_files ev = false.
Proof.
  eexists.
  assert (H : join_prof "w" "grid" false None same_key_other_name
              = (_, Raise AssertionError)) by (vm_compute; reflexivity).
  split; [exact H|].
  exact (@failed_run_changes_no_file "w" "grid" false None same_key_other_name _ _ H).
Defined.

Lemma table_written_before_files_removed_witness :
  exists evs,
    join_prof "w" "kernel" false None grid_differs = (evs, OK tt)
    /\ exists pre u,
         evs = pre ++ ToCsv (out_path "w" None) u
                   :: (if false then [] else map (fun f => Remove (fst f)) grid_differs)
         /\ forallb (fun ev => negb (changes_files ev)) pre = true.
Proof.
  eexists.
  assert (H : join_prof "w" "kernel" false None grid_differs = (_, OK tt))
    by (vm_compute; reflexivity).
  split; [exact H|].
  exact (@table_written_before_files_removed "w" "kernel" false None grid_differs _ H).
Defined.

Lemma join_prof_without_table_witness :
  join_prof "w" "dispatch" true None [] = ([], Raise AttributeError)
  /\ "dispatch" <> "kernel" /\ "dispatch" <> "grid"
  /\ join_prof "w" "dispatch" true None grid_differs
     = ([Print "ERROR: Unrecognized --join-type"], Raise (SystemExit 1)).
Proof.
  assert (H1 : "dispatch" <> "kernel") by discriminate.
  assert (H2 : "dispatch" <> "grid") by discriminate.
  split; [exact (proj1 (@join_prof_without_table "w" "dispatch" true None))|].
  split; [exact H1|]. split; [exact H2|].
  exact (proj2 (@join_prof_without_table "w" "dispatch" true None) H1 H2 _ _).
Defined.

Lemma unified_table_columns_witness :
  join_prof "w" "kernel" false None grid_differs = (grid_differs_trace, OK tt)
  /\ In (ToCsv "w/pmc_perf.csv" grid_differs_unified) grid_differs_trace
  /\ In "SQ_INSTS" (keys (columns (table grid_differs_unified)))
  /\ contains_any discarded "SQ_INSTS" = false /\ "SQ_INSTS" <> "key".
Proof.
  assert (H : join_prof "w" "kernel" false None grid_differs = (grid_differs_trace, OK tt))
    by (vm_compute; reflexivity).
  assert (H2 : In (ToCsv "w/pmc_perf.csv" grid_differs_unified) grid_differs_trace)
    by (vm_compute; repeat (first [left; reflexivity | right])).
  assert (H3 : In "SQ_INSTS" (keys (columns (table grid_differs_unified))))
    by (vm_compute; repeat (first [left; reflexivity | right])).
  split; [exact H|]. split; [exact H2|]. split; [exact H3|].
  exact (@unified_table_columns "w" "kernel" false None grid_differs grid_differs_trace
           "w/pmc_perf.csv" grid_differs_unified "SQ_INSTS" H H2 H3).
Defined.

Lemma kernel_keys_are_distinct_witness :
  make_key "kernel" (pass_table "SQ_WAVES" [Text "k"; Text "k"] [Int 64; Int 64] 1000)
  = ([], OK [Text "k - 0"; Text "k - 1"])
  /\ NoDup [Text "k - 0"; Text "k - 1"]
  /\ List.length [Text "k - 0"; Text "k - 1"]
     = List.length (column (pass_table "SQ_WAVES" [Text "k"; Text "k"] [Int 64; Int 64] 1000)
                           "KernelName")
  /\ @nil event = [].
Proof.
  assert (H : make_key "kernel"
                (pass_table "SQ_WAVES" [Text "k"; Text "k"] [Int 64; Int 64] 1000)
              = ([], OK [Text "k - 0"; Text "k - 1"])) by reflexivity.
  split; [exact H|]. exact (@kernel_keys_are_distinct _ _ _ H).
Defined.

Lemma grid_keys_are_distinct_witness :
  make_key "grid" (pass_table "SQ_WAVES" [Text "k"; Text "k"] [Int 64; Int 64] 1000)
  = ([], OK [Text "k - 64 - 0"; Text "k - 64 - 1"])
  /\ forallb is_int
       (column (pass_table "SQ_WAVES" [Text "k"; Text "k"] [Int 64; Int 64] 1000) "grd")
     = true
  /\ NoDup [Text "k - 64 - 0"; Text "k - 64 - 1"]
  /\ @nil event = [].
Proof.
  assert (H : make_key "grid"
                (pass_table "SQ_WAVES" [Text "k"; Text "k"] [Int 64; Int 64] 1000)
              = ([], OK [Text "k - 64 - 0"; Text "k - 64 - 1"])) by reflexivity.
  assert (H2 : forallb is_int
                 (column (pass_table "SQ_WAVES" [Text "k"; Text "k"] [Int 64; Int 64] 1000)
                         "grd") = true) by reflexivity.
  split; [exact H|]. split; [exact H2|]. exact (@grid_keys_are_distinct _ _ _ H H2).
Defined.

Lemma kernel_strategy_passes_the_name_check_witness :
  forallb (fun f => one_name_column (snd f)) grid_differs = true
  /\ (forall evs df,
        join_files "kernel" grid_differs 0 None = (evs, OK (Some df)) ->
        copies_agree df /\ namekeys df <> [])
  /\ (forall wd verbose out evs,
        join_prof wd "kernel" verbose out grid_differs <> (evs, Raise AssertionError)).
Proof.
  split; [reflexivity|].
  apply (@kernel_strategy_passes_the_name_check grid_differs). reflexivity.
Defined.

Lemma grid_strategy_passes_the_name_check_witness :
  forallb (fun f => numeric_grid (snd f)) grid_differs = true
  /\ (forall evs df,
        join_files "grid" grid_differs 0 None = (evs, OK (Some df)) ->
        copies_agree df /\ namekeys df <> [])
  /\ (forall wd verbose out evs,
        join_prof wd "grid" verbose out grid_differs <> (evs, Raise AssertionError)).
Proof.
  split; [reflexivity|].
  apply (@grid_strategy_passes_the_name_check grid_differs). reflexivity.
Defined.

Lemma missing_family_is_fatal_witness :
  join_files "kernel" no_accum 0 None = ([], OK (Some no_accum_joined))
  /\ families_present no_accum_joined = false
  /\ exists evs,
       join_prof "w" "kernel" false None no_accum = (evs, Raise IndexError)
       /\ forallb (fun ev => negb (changes_files ev)) evs = true.
Proof.
  assert (H : join_files "kernel" no_accum 0 None = ([], OK (Some no_accum_joined)))
    by reflexivity.
  assert (H2 : families_present no_accum_joined = false) by reflexivity.
  split; [exact H|]. split; [exact H2|].
  exact (@missing_family_is_fatal "w" "kernel" false None no_accum [] no_accum_joined H H2).
Defined.

Lemma join_carries_every_column_witness :
  exists name col,
    In (name, col) (columns grid_differs_joined)
    /\ (name = "grd" \/ name = "grd_1")
    /\ Forall2 (cell_of_key [Int 64; Int 128]
                  (table_keys "kernel"
                     (pass_table "SQ_INSTS" [Text "k"; Text "k"] [Int 64; Int 128] 5000)))
         col (column grid_differs_joined "key").
Proof.
  assert (H1 : join_files "kernel" grid_differs 0 None
               = ([], OK (Some grid_differs_joined))) by (vm_compute; reflexivity).
  assert (H2 : nth_error grid_differs 1
               = Some ("w/pmc_perf_1.csv",
                       pass_table "SQ_INSTS" [Text "k"; Text "k"] [Int 64; Int 128] 5000))
    by reflexivity.
  assert (H3 : well_shaped
                 (pass_table "SQ_INSTS" [Text "k"; Text "k"] [Int 64; Int 128] 5000) = true)
    by (vm_compute; reflexivity).
  assert (H4 : In ("grd", [Int 64; Int 128])
                 (columns (pass_table "SQ_INSTS" [Text "k"; Text "k"]
                             [Int 64; Int 128] 5000)))
    by (cbn; repeat (first [left; reflexivity | right])).
  assert (H5 : "grd" <> "key") by discriminate.
  exact (@join_carries_every_column "kernel" grid_differs [] grid_differs_joined 1
           "w/pmc_perf_1.csv" "grd" _ [Int 64; Int 128] H1 H2 H3 H4 H5).
Defined.

Lemma surviving_columns_are_written_witness :
  join_prof "w" "kernel" false None grid_differs = (grid_differs_trace, OK tt)
  /\ exists df u,
       join_files "kernel" grid_differs 0 None = ([], OK (Some df))
       /\ In (ToCsv (out_path "w" None) u) grid_differs_trace
       /\ nrows (table u) = nrows df
       /\ forall k col, In (k, col) (columns (table u))
                        <-> In (k, col) (columns df) /\ survives df k = true.
Proof.
  assert (H : join_prof "w" "kernel" false None grid_differs = (grid_differs_trace, OK tt))
    by (vm_compute; reflexivity).
  split; [exact H|].
  exact (@surviving_columns_are_written "w" "kernel" false None grid_differs
           grid_differs_trace H).
Defined.

Lemma first_unknown_block_is_the_error_witness :
  known_block "XY_COUNT" = false
  /\ perfmon_coalesce_on directories ["w"; "w/perfmon"]
       [[level_line; "pmc: SQ_WAVES XY_COUNT TCP_READ"]] "w" "vega10"
     = Raise (KeyError "XY").
Proof.
  assert (H1 : dict_mem "vega10" perfmon_config = true) by reflexivity.
  assert (H2 : bucketed_tokens [[level_line; "pmc: SQ_WAVES XY_COUNT TCP_READ"]]
               = ["SQ_WAVES"] ++ "XY_COUNT" :: ["TCP_READ"]) by (vm_compute; reflexivity).
  assert (H3 : forall u, In u ["SQ_WAVES"] -> known_block u = true)
    by (intros u H; in_list H).
  assert (H4 : known_block "XY_COUNT" = false) by reflexivity.
  assert (H5 : open_all directories ["w"; "w/perfmon"]
                 (level_files "w" [[level_line; "pmc: SQ_WAVES XY_COUNT TCP_READ"]])
               = OK ["w"; "w/perfmon"]) by (vm_compute; reflexivity).
  split; [exact H4|].
  exact (@first_unknown_block_is_the_error _ directories ["w"; "w/perfmon"]
           ["w"; "w/perfmon"] [[level_line; "pmc: SQ_WAVES XY_COUNT TCP_READ"]]
           "w" "vega10" ["SQ_WAVES"] ["TCP_READ"] "XY_COUNT" H1 H2 H3 H4 H5).
Defined.

Lemma pmc_filter_needs_an_absent_directory_witness :
  isdir directories ["w"; "w/perfmon"] ("w" ++ "/perfmon") = true
  /\ exists e, pmc_filter directories ["w"; "w/perfmon"] "w" "vega10" two_sources
               = Raise e.
Proof.
  assert (H1 : isdir directories ["w"; "w/perfmon"] ("w" ++ "/perfmon") = true)
    by reflexivity.
  assert (H2 : forall s1 name,
             rmtree directories ["w"; "w/perfmon"] ("w" ++ "/perfmon") = OK s1 ->
             exists e, open_w directories s1 (("w" ++ "/perfmon") ++ "/" ++ name)
                       = Raise e).
  { intros s1 name H. vm_compute in H. injection H as <-.
    exists FileNotFoundError. apply directories_gone. }
  split; [exact H1|].
  exact (@pmc_filter_needs_an_absent_directory _ directories ["w"; "w/perfmon"]
           "w" "vega10" two_sources H1 H2).
Defined.

Lemma pmc_filter_on_a_new_directory_witness :
  pmc_filter directories ["w"] "w" "vega10" two_sources
  = on_state (coalesce_and_emit "w" "vega10" two_sources) ["w/perfmon"; "w"].
Proof.
  assert (H1 : isdir directories ["w"] ("w" ++ "/perfmon") = false) by reflexivity.
  assert (H2 : makedirs directories ["w"] ("w" ++ "/perfmon") = OK ["w/perfmon"; "w"])
    by reflexivity.
  assert (H3 : open_all directories ["w/perfmon"; "w"]
                 (level_files "w" two_sources
                  ++ [(("w" ++ "/perfmon") ++ "/pmc_perf.txt")%string])
               = OK ["w/perfmon"; "w"]) by (vm_compute; reflexivity).
  exact (@pmc_filter_on_a_new_directory _ directories ["w"] ["w/perfmon"; "w"]
           ["w/perfmon"; "w"] "w" "vega10" two_sources H1 H2 H3).
Defined.
